(* ===== verification/_CoqProject ===== *)
-Q . S2P
Prelude.v
Crc.v
StateMachine.v
StateBench.v
PortMem.v
Matrix.v
ListHeap.v
MergeSort.v
ListBench.v
ListItems.v
ListRestore.v
ListInit.v
PortIO.v
Util.v
Port.v
Printf.v
MatrixDebug.v
HostPrintf.v
Main.v
Driver.v
Validation.v
Calibrate.v
Console.v
Report.v
Hello.v
Ring.v
TageQueue.v
Cbp.v
CbpBoard.v
CbpPc.v
CbpTrain.v
MemWord.v
DataMem.v
StoreBuf.v
Csr.v
Isa.v
Decode.v
Hw.v
Rob.v
Rename.v
Dispatch.v
Commit.v
Prf.v
RenameInv.v
Backend.v
BackendInv.v
BackendValues.v
IssueQueue.v
BackendSched.v
Image.v
Machine.v
Start.v
SimArgs.v
Sim.v
SimRun.v
Together.v
Soc.v
