(* ===== verification/Prelude.v ===== *)
(** * The software of A_Risc-V_Processor: a verification development

    The repository holds an out-of-order RV32I processor in SystemVerilog, the
    C program it is measured with, a bare-metal port of CoreMark
    (src/coremark), and two C++ programs that run the Verilator models of the
    hardware: the simulation harness (src/sim/verilator/sim_main.cpp) and the
    adapter between the branch predictor and the championship simulator CBP
    (src/verification/perf/cbp/cbp_rtl_interface.cc).  This development models
    the C and C++ code, CoreMark in the configuration of core_portme.h (one
    context, static memory block, volatile seeds, no floating point,
    MATDAT_INT), and proves it correct.  It also models the parts of the
    hardware and of the tool chain that this code meets: the data memory and
    its host registers, the store buffer, the CSR file with the counters, the
    decoder and the execution datapath, the instruction memory, the update
    queue of the predictor (src/rtl), the image converters and start.s; and the
    heart of the out-of-order backend: dispatch, renaming, scheduling, the
    register file, the reorder buffer and retirement.

    ** The program

    [main] (core_main.c) reads the seeds (core_util.c), splits a static block
    of 2000 bytes in three, and initialises in the parts a linked list
    (core_list_join.c), three matrices (core_matrix.c) and a text for a state
    machine (core_state.c).  [iterate] runs the list benchmark twice per
    iteration; the list benchmark sorts its list with a comparison function
    that in turn runs the matrix and the state-machine benchmark on demand,
    caches their results in the list items and folds them into the running CRC
    of the shared results record.  At the end the driver compares the CRCs with
    a table and prints a report through the port (core_portme.c): a printf on
    an MMIO UART, cycle-counter timing, a bump allocator and the final write to
    tohost that stops the simulation.  hello.c is a smoke test of the same two
    registers.

    The harness clocks the processor, copies the bytes of its UART to the
    console and a log, accumulates statistics, dumps the pipeline, and ends when
    the program writes tohost, when the design finishes, or at the cycle limit.
    The adapter drives the predictor from the callbacks of CBP, keeps the
    branches in flight in a map and scores the predictions at commit.

    bin2words.py turns the binary into the text that fills insnMem.sv; start.s
    is the first code to run: it sets the stack, clears .bss and calls [main].
    An instruction word goes through Decoder.sv to the backend (OoOBackend.sv):
    it is renamed to physical registers, waits in the issue queue for its
    sources, executes out of order, and retires in program order from the
    reorder buffer; a mispredicted branch or a trap squashes what follows it.
    Loads and stores reach dataMem.sv, stores through StoreBuffer.sv; a store to
    uart_tx or tohost shows on the pins that the harness watches.

    ** The model

    C integers are [Z] with their wrap-around written out ([u8] to [s32] in
    this file, the types of core_portme.h); memory is explicit state: byte and
    matrix arrays are lists indexed with a bound check, list cells and items
    are two [gmap] stores addressed by [option Z] ([None] is NULL), the output
    is the trace of MMIO writes.  Stateful code is in the monad [M S A]
    ([S -> outcome]), which returns a value and a store or a fault: a null or
    wild dereference, an access out of bounds, a division by zero.  Loops run
    under the iteration bound [budget] = 2^40; running out is the fault
    [OutOfFuel], so a theorem that a function returns [Ok] also says that its
    loops end.  The bound is never the reason for a result: every loop of the
    program runs at most 2^32 times (its counter, list or string is bounded by
    the 32-bit address space), and [iter_pos] recurses on the binary form of
    the bound, which keeps all definitions executable.  [wp] is the
    total-correctness weakest precondition that the proofs use.

    A hardware module is a record of its registers, its combinational outputs
    as functions of registers and inputs, and a function for one clock edge out
    of reset; words are [Z] at their width, arrays are lists.  Theorems on a
    module hold for every sequence of inputs from reset on, whatever the
    registers without a reset value held before.

    - Prelude: integers, the monad, loops, arrays, [wp] and its rules.
    - Crc: [crcu8], [crcu16], [crcu32], [crc16] (core_util.c).
    - StateMachine: core_state.c, and the language of each state.
    - StateBench: safety and restoration of core_state.c.
    - PortMem: [align_mem], [portable_malloc], [portable_free].
    - Matrix: core_matrix.c.
    - ListHeap: list cells and the basic operations of core_list_join.c.
    - MergeSort: [core_list_mergesort] and the class [Comparator], the contract
      of its comparison callback.
    - ListBench: [calc_func], [cmp_complex], [cmp_idx], [core_bench_list] and
      [core_list_init]: the code.
    - ListItems: what the callbacks do to the items; the two [Comparator]
      instances that connect them to the sort.
    - ListRestore: the list benchmark puts everything back.
    - ListInit: the list that [core_list_init] builds.
    - PortIO: UART output and [ee_printf] (core_portme.c).
    - Util: seeds, [parseval], [check_data_types] (core_util.c).
    - Port: timing, [portable_init], [portable_fini] (core_portme.c).
    - Printf: a specification of the format language and the proof that
      [ee_printf] implements it.
    - Main: [iterate] and [main] (core_main.c): the code.
    - Driver: properties of set-up, iteration, validation and report.
    - Validation: properties of whole runs of [main].
    - Calibrate: the automatic choice of the iteration count.
    - Console: what [main] writes to the registers of the port.
    - Report: the text that [main] prints.
    - Hello: hello.c.
    - MatrixDebug: the CORE_DEBUG printing of core_matrix.c.
    - HostPrintf: the hosted [printf], floating-point numbers included, that
      the two C++ programs call.
    - Cbp: cbp_rtl_interface.cc: the code.
    - CbpBoard: the scoreboard, an abstract specification of the adapter, and
      the refinement.
    - CbpPc: the address mapping and the slots of the adapter.
    - Ring: circular buffers, shared by the two queues of the hardware.
    - TageQueue: TageUpdateQueue.sv.
    - CbpTrain: the adapter on a predictor with that queue (the update path of
      TagePredictor.sv under CbpRtlPredictor.sv).
    - MemWord: byte lanes of words (dataMem.sv, StoreBuffer.sv).
    - DataMem: dataMem.sv, and a byte memory as its specification.
    - StoreBuf: StoreBuffer.sv.
    - Csr: CSRFile.sv, and the port's clock on its counters.
    - Isa: the instruction set RV32I with Zicsr: encoding and semantics.
    - Decode: Decoder.sv, ALU.sv and the datapath of OoOExecutionUnit.sv and
      LoadStoreExecutionUnit.sv.
    - Hw: register arrays and lane loops of the RTL.
    - Rob: ReorderBuffer.sv, and a queue as its specification.
    - Rename: RenameMapTable.sv and PhysicalFreeList.sv.
    - Dispatch: DispatchControl.sv.
    - Commit: BackendCommitStage.sv.
    - Prf: PhysicalRegisterFile.sv.
    - RenameInv: the invariant of renaming, on lists.
    - Backend: RenameStage.sv and the wiring of OoOBackend.sv.
    - BackendInv: renaming, recovery and resources of the backend.
    - BackendValues: the values: out of order as in program order.
    - IssueQueue: IssueQueue.sv.
    - BackendSched: the backend with its issue queue.
    - Image: bin2words.py, bin2bytes.py, [$readmemh] and insnMem.sv.
    - Machine: the sequential machine made of these parts, one instruction per
      step: what a program sees of the processor.
    - Start: start.s on that machine.
    - SimArgs: the command line of sim_main.cpp.
    - Sim: sim_main.cpp: the code.
    - SimRun: the run of the harness against the states of the processor.
    - Together: the program under the harness, and a processor that replays a
      trace.
    - Soc: the data memory, with any rest of the processor, under the harness.

    ** What is shown

    - Whole runs: [main] ends without a fault for all clocks, block addresses,
      iteration counts and seeds that satisfy [seeds_ok], with the benchmark
      data as the set-up made them; the two 2K runs of CoreMark record exactly
      the known CRCs for every iteration count (the first iteration by
      execution, the others by the invariant); with an iteration count of zero
      the trial runs of [main] choose the count, for every clock that lets them
      end.
    - Repeatability: [core_bench_list], [core_bench_matrix],
      [core_bench_state] and [iterate] leave the data unchanged; the undo of
      the list removal is exact; the item cache is idempotent.
    - Functional correctness: the sort is a stable sort for every callback
      that satisfies [Comparator], side effects included; the matrix product
      is exact; the state machine decides its languages; the CRC is the
      remainder of a polynomial division; [ee_printf] refines its
      specification; what is printed is parsed back.
    - Memory: all accesses stay inside their objects, the parts of the static
      block do not overlap, the allocator's blocks are disjoint.
    - The harness: it ends for every processor and command line, within the
      limit, with exit code 0 exactly when the program stores 1 to tohost first;
      it uses nothing after closing it and releases everything (one leak apart);
      console and log show the program's output without carriage returns.
    - The adapter: it refines the scoreboard for every predictor whose commit
      port drains; the report is the tally of the committed branches; every
      violation of the protocol stops it.  With the update queue of the real
      predictor the port always drains, and the tables are trained with the
      committed conditional branches, each once and in order.
    - Memory path: the data memory refines a memory of bytes and keeps the
      widths of its registers; the store buffer is transparent to loads; both
      for every sequence of cycles and stalls.
    - Instructions: decoder and execution units give every instruction of the
      set its architectural effect and trap on every other word; what is in the
      binary is what is fetched; start.s reaches [main] with .bss cleared, and
      signals the end if [main] returns.
    - The backend, for every sequence of cycles from reset and all depths: the
      reorder buffer is a queue; the maps, the free list and every checkpoint
      are what the committed map and the instructions in flight determine, so
      that no physical register is lost or has two owners; a misprediction or a
      trap restores exactly the state behind the branch or the last retired
      instruction; what dispatch accepts has all its resources; stores retire
      exactly with their memory request; the issue queue offers the oldest ready
      instructions and holds exactly those that wait; and the registers, read
      through the committed map, are the result of executing the retired
      instructions in program order.
    - Counters: the port's timing measures clock edges and retired
      instructions; traps and CSR instructions do what the architecture says.
    - End to end: [main] writes UART bytes and then a single 1 to tohost,
      whatever the seeds, and the bytes are exactly the text of the report with
      the numbers of its results; when the data memory accepts these stores in
      program order, a 2K run of at least ten seconds ends with this report and
      "Correct operation validated" on the console, and exit code 0.
    - Error paths and flaws: the theorems that end in [faults], [overreads],
      [overflow], [overrun], [incomplete] and [wraps], [crc_loop_folds_head]
      and [unknown_seeds_reported_valid] state behaviour that differs from what
      the comments promise.

    ** Hypotheses

    The two counters read by rdcycle and rdinstret are arbitrary functions of
    the number of the read; the compiler's version string is any printable
    NUL-terminated text ([arg_ok]); the address of the static block is
    arbitrary.  The results record is a local of [main]: its initial contents
    are arbitrary where a theorem quantifies over the machine.  The static
    block is zero at start, and each benchmark's part of it is viewed as the
    objects the benchmark keeps there; [setup_partitions] justifies the view.
    Alignment faults are not modelled.

    The generated Verilator models are parameters: a type of states, [eval] as
    a function of the input pins and the state, and the values of the outputs;
    so are [getenv], the arguments, the outcome of [fopen], and the instruction
    classes of cbp.h.  The three output files are different files.  The theorems
    on the adapter assume that the commit port of the predictor is ready again
    after a bounded number of ticks ([drains]), which CbpTrain proves of the
    update queue; those of Together assume that the processor presents the
    program's stores to the two registers in program order, which Soc reduces
    to the order in which the data memory accepts them; all are shown to be
    satisfiable by concrete models.  The loop of the harness runs under the
    bound 2^65, above its 64-bit limit.

    The backend takes from its environment: decoded register numbers in range
    and a misprediction only of a branch in flight ([inputs_ok], the former
    proved of the decoder); results written back only for instructions issued
    before, computed from the operands they read, and before they retire
    ([exec_ok], [stage_ok]).  Operations have a result that depends on the
    sources they use (proved of the execution datapath); what a load or a CSR
    instruction returns is part of the environment.  A run of six cycles with a
    misprediction shows that the contracts can be met.

    The data memory is specified for aligned requests (the load/store unit
    traps the others).  Start expands pseudo-instructions as the manual of the
    instruction set does, without the linker's relaxations, and takes from
    link.ld that .bss is word-aligned.  That .bss ends below the host registers is
    a condition on the program, which link.ld does not check; without it the
    start-up code writes to them ([bss_over_host_registers]).

    ** Not modelled

    Code that the preprocessor removes in this configuration (CORE_DEBUG
    printing outside core_matrix.c, several contexts, the heap and stack memory
    methods, floating point); the variants SEED_ARG and SEED_FUNC are modelled
    although this port does not use them.  The rest of the RTL: fetch and
    the prediction tables, the caches, the load/store queue, the registers and
    handshakes of the execution units, and the performance counters; of the
    modelled modules the outputs that only feed the counters or nothing
    (queryHasOlderUnresolvedBranch_o, storeBlocked_o, jumpSerializing).  The
    load/store queue and the caches decide what a load returns; their ordering
    rules would be the next contract to discharge.  The testbenches, the trace
    converters, the compliance runner, the linker scripts, the contents of the
    wave dump. *)

From Stdlib Require Import String Ascii ZArith Lia.
From stdpp Require Import base list gmap numbers.

Local Open Scope Z_scope.

(** ** Machine integers

    A [w]-bit C integer is a [Z]; the two conversions below are the ones the
    C compiler of the port performs (two's complement, wrapping). *)

Definition uwrap (w x : Z) : Z := Z.land x (Z.ones w).
Definition swrap (w x : Z) : Z :=
  let half := Z.shiftl 1 (w - 1) in uwrap w (x + half) - half.

Definition in_u (w x : Z) : Prop := 0 <= x < 2 ^ w.
Definition in_s (w x : Z) : Prop := - 2 ^ (w - 1) <= x < 2 ^ (w - 1).

Definition u8 (x : Z) : Z := uwrap 8 x.
Definition u16 (x : Z) : Z := uwrap 16 x.
Definition u32 (x : Z) : Z := uwrap 32 x.
Definition u64 (x : Z) : Z := uwrap 64 x.
Definition s8 (x : Z) : Z := swrap 8 x.
Definition s16 (x : Z) : Z := swrap 16 x.
Definition s32 (x : Z) : Z := swrap 32 x.
Definition s64 (x : Z) : Z := swrap 64 x.

Lemma uwrap_mod w x : 0 <= w -> uwrap w x = x mod 2 ^ w.
Proof. apply Z.land_ones. Qed.

Lemma swrap_mod w x :
  0 < w -> swrap w x = (x + 2 ^ (w - 1)) mod 2 ^ w - 2 ^ (w - 1).
Proof.
  intros Hw. unfold swrap. rewrite uwrap_mod, Z.shiftl_mul_pow2, Z.mul_1_l by lia.
  done.
Qed.

Lemma u8_mod x : u8 x = x mod 256.
Proof. by apply (uwrap_mod 8). Qed.
Lemma u16_mod x : u16 x = x mod 65536.
Proof. by apply (uwrap_mod 16). Qed.
Lemma u32_mod x : u32 x = x mod 4294967296.
Proof. by apply (uwrap_mod 32). Qed.
Lemma u64_mod x : u64 x = x mod 18446744073709551616.
Proof. by apply (uwrap_mod 64). Qed.
Lemma s8_mod x : s8 x = (x + 128) mod 256 - 128.
Proof. by apply (swrap_mod 8). Qed.
Lemma s16_mod x : s16 x = (x + 32768) mod 65536 - 32768.
Proof. by apply (swrap_mod 16). Qed.
Lemma s32_mod x : s32 x = (x + 2147483648) mod 4294967296 - 2147483648.
Proof. by apply (swrap_mod 32). Qed.
Lemma s64_mod x : s64 x = (x + 9223372036854775808) mod 18446744073709551616 - 9223372036854775808.
Proof. by apply (swrap_mod 64). Qed.

(** [cint_lia] decides linear goals about wrapped integers of concrete widths:
    it exposes the [mod]s with literal moduli and lets [lia] reason about the
    Euclidean equations. *)
Ltac cint_unfold :=
  unfold in_u, in_s in *;
  change (2 ^ (8 - 1)) with 128 in *;
  change (2 ^ 8) with 256 in *;
  change (2 ^ (16 - 1)) with 32768 in *;
  change (2 ^ 16) with 65536 in *;
  change (2 ^ (32 - 1)) with 2147483648 in *;
  change (2 ^ 32) with 4294967296 in *;
  change (2 ^ (64 - 1)) with 9223372036854775808 in *;
  change (2 ^ 64) with 18446744073709551616 in *;
  rewrite ?u8_mod, ?u16_mod, ?u32_mod, ?u64_mod, ?s8_mod, ?s16_mod, ?s32_mod, ?s64_mod in *.
Ltac cint_lia := cint_unfold; Z.to_euclidean_division_equations; lia.

Lemma uwrap_range w x : 0 <= w -> in_u w (uwrap w x).
Proof. intros. rewrite uwrap_mod by done. apply Z.mod_pos_bound. lia. Qed.

Lemma uwrap_id w x : 0 <= w -> in_u w x -> uwrap w x = x.
Proof. intros. rewrite uwrap_mod by done. by apply Z.mod_small. Qed.

Lemma pow2_half w : 0 < w -> 2 ^ w = 2 * 2 ^ (w - 1).
Proof. intros Hw. rewrite <- Z.pow_succ_r by lia. f_equal. lia. Qed.

Lemma swrap_range w x : 0 < w -> in_s w (swrap w x).
Proof.
  intros Hw. unfold in_s. rewrite swrap_mod by done.
  pose proof (pow2_half w Hw).
  pose proof (Z.mod_pos_bound (x + 2 ^ (w - 1)) (2 ^ w)). lia.
Qed.

Lemma swrap_id w x : 0 < w -> in_s w x -> swrap w x = x.
Proof.
  intros Hw Hx. unfold in_s in Hx. rewrite swrap_mod by done.
  pose proof (pow2_half w Hw). rewrite Z.mod_small by lia. lia.
Qed.

(** A conversion may be dropped under another one. *)
Lemma swrap_add_l w x y : 0 < w -> swrap w (swrap w x + y) = swrap w (x + y).
Proof.
  intros Hw. rewrite !swrap_mod by done. f_equal.
  replace ((x + 2 ^ (w - 1)) mod 2 ^ w - 2 ^ (w - 1) + y + 2 ^ (w - 1))
    with ((x + 2 ^ (w - 1)) mod 2 ^ w + y) by lia.
  rewrite Zplus_mod_idemp_l. f_equal. lia.
Qed.

Lemma swrap_add_r w x y : 0 < w -> swrap w (x + swrap w y) = swrap w (x + y).
Proof.
  intros Hw. rewrite (Z.add_comm x (swrap w y)), swrap_add_l by done. f_equal. lia.
Qed.

(** The truth value of a C expression. *)
Definition truth (x : Z) : bool := negb (x =? 0).

(** ** Bit-level facts *)

Lemma testbit_uwrap w x i :
  0 <= w -> Z.testbit (uwrap w x) i = (i <? w) && Z.testbit x i.
Proof.
  intros Hw. rewrite uwrap_mod by done. destruct (Z.ltb_spec i w).
  - destruct (Z.neg_nonneg_cases i).
    + by rewrite !Z.testbit_neg_r.
    + rewrite Z.mod_pow2_bits_low; done.
  - rewrite Z.mod_pow2_bits_high; [done | lia].
Qed.

Lemma testbit_in_u w x i : 0 <= w -> in_u w x -> w <= i -> Z.testbit x i = false.
Proof.
  intros Hw Hx Hi. rewrite <- (uwrap_id w x), testbit_uwrap by done.
  by rewrite (proj2 (Z.ltb_ge i w)).
Qed.

Lemma in_u_0 w : 0 <= w -> in_u w 0.
Proof. unfold in_u. lia. Qed.

Lemma in_u_testbit w x :
  0 <= w -> 0 <= x -> (forall i, w <= i -> Z.testbit x i = false) -> in_u w x.
Proof.
  intros Hw Hx Hb. enough (uwrap w x = x) as <- by (by apply uwrap_range).
  apply Z.bits_inj'. intros i Hi. rewrite testbit_uwrap by done.
  destruct (Z.ltb_spec i w); [done | by rewrite Hb].
Qed.

Lemma in_u_lxor w x y : 0 <= w -> in_u w x -> in_u w y -> in_u w (Z.lxor x y).
Proof.
  intros Hw Hx Hy. apply in_u_testbit; [done | |].
  - apply Z.lxor_nonneg. unfold in_u in *. lia.
  - intros i Hi. rewrite Z.lxor_spec.
    by rewrite (testbit_in_u w x i), (testbit_in_u w y i).
Qed.

Lemma lxor_cancel_l x y z : Z.lxor x y = Z.lxor x z -> y = z.
Proof.
  intros E. apply (f_equal (Z.lxor x)) in E.
  by rewrite <- !Z.lxor_assoc, Z.lxor_nilpotent, !Z.lxor_0_l in E.
Qed.

(** ** Effects: state and faults

    A piece of the C program over a store of type [S] is a function that
    either finishes with a value and a store or stops in a fault.  A fault is
    what the program must never do: follow a null pointer, leave an object,
    divide by zero, fail an assertion, read an empty [std::optional], or
    iterate beyond [budget]. *)

Inductive fault := NullDeref | OutOfBounds | DivByZero | AssertFailed | BadOptional | OutOfFuel.

#[export] Instance fault_eq_dec : EqDecision fault.
Proof. solve_decision. Defined.

Inductive outcome (S A : Type) :=
| Ok (a : A) (s : S)
| Err (e : fault).
Arguments Ok {S A} a s.
Arguments Err {S A} e.

Definition M (S A : Type) : Type := S -> outcome S A.

Definition ret {S A} (a : A) : M S A := fun s => Ok a s.
Definition fail {S A} (e : fault) : M S A := fun _ => Err e.
Definition bind {S A B} (m : M S A) (f : A -> M S B) : M S B := fun s =>
  match m s with Ok a s' => f a s' | Err e => Err e end.
Definition gets {S A} (f : S -> A) : M S A := fun s => Ok (f s) s.
Definition modify {S} (f : S -> S) : M S unit := fun s => Ok tt (f s).
Definition oget {S A} (e : fault) (o : option A) : M S A :=
  match o with Some a => ret a | None => fail e end.

(** Run a computation on a component of the store. *)
Definition zoom {S T A} (get : S -> T) (set : T -> S -> S) (m : M T A) : M S A :=
  fun s => match m (get s) with Ok a t => Ok a (set t s) | Err e => Err e end.

Declare Scope cm_scope.
Delimit Scope cm_scope with cm.
Notation "'let!' x := m 'in' k" := (bind m (fun x => k))
  (at level 10, x pattern, m at level 100, k at level 200) : cm_scope.
Notation "m ;; k" := (bind m (fun _ => k))
  (at level 100, right associativity) : cm_scope.
Local Open Scope cm_scope.

(** Loops.  [iter_pos n body a] runs [body] at most [n] times, stopping at the
    first [inr]; recursion is on the binary representation of [n], so a large
    bound costs nothing when the loop stops early. *)
Fixpoint iter_pos {S A B} (n : positive) (body : A -> M S (A + B)) (a : A)
  : M S (A + B) :=
  match n with
  | xH => body a
  | xO n' =>
      let! r := iter_pos n' body a in
      match r with inl a' => iter_pos n' body a' | inr b => ret (inr b) end
  | xI n' =>
      let! r := body a in
      match r with
      | inl a' =>
          let! r := iter_pos n' body a' in
          match r with inl a'' => iter_pos n' body a'' | inr b => ret (inr b) end
      | inr b => ret (inr b)
      end
  end.

(** The iteration bound of every loop, beyond any count a 32-bit machine with
    a 32-bit counter reaches. *)
Definition budget : positive := 2 ^ 40.

(** [lia] for goals that compare with the budget or with machine bounds. *)
Ltac budget_lia :=
  change (Zpos budget) with 1099511627776 in *;
  change (2 ^ 31) with 2147483648 in *;
  change (2 ^ 32) with 4294967296 in *; lia.

Definition iter_upto {S A B} (n : positive) (body : A -> M S (A + B)) (a : A) : M S B :=
  let! r := iter_pos n body a in
  match r with inl _ => fail OutOfFuel | inr b => ret b end.
Definition iter {S A B} (body : A -> M S (A + B)) (a : A) : M S B := iter_upto budget body a.

(** [while (c) body] over loop variables of type [A]. *)
Definition while {S A} (c : A -> M S bool) (body : A -> M S A) (a : A) : M S A :=
  iter (fun a =>
    let! b := c a in
    if b then let! a' := body a in ret (inl a') else ret (inr a)) a.

(** [for (i = from; i < from + n; i++) body], the counter not assigned by the
    body. *)
Fixpoint for_n {S A} (n : nat) (i : Z) (body : Z -> A -> M S A) (a : A) : M S A :=
  match n with
  | O => ret a
  | Datatypes.S n' => let! a' := body i a in for_n n' (i + 1) body a'
  end.

(** ** Total-correctness reasoning

    [wp m Q s]: started in [s], [m] finishes without a fault and its value and
    final store satisfy [Q]. *)

Definition wp {S A} (m : M S A) (Q : A -> S -> Prop) (s : S) : Prop :=
  match m s with Ok a s' => Q a s' | Err _ => False end.

Lemma wp_ok {S A} (m : M S A) Q s :
  wp m Q s <-> exists a s', m s = Ok a s' /\ Q a s'.
Proof.
  unfold wp. destruct (m s) as [a s' | e]; split; [eauto | | done |].
  - by intros (a1 & s1 & [= -> ->] & HQ).
  - by intros (a1 & s1 & [=] & _).
Qed.

Lemma wp_mono {S A} (m : M S A) (Q R : A -> S -> Prop) s :
  wp m Q s -> (forall a s', Q a s' -> R a s') -> wp m R s.
Proof. unfold wp. destruct (m s); [eauto | done]. Qed.

(** A sequence that ended. *)
Lemma bind_ok_inv {S A B} (m : M S A) (f : A -> M S B) s b s' :
  bind m f s = Ok b s' -> exists a s1, m s = Ok a s1 /\ f a s1 = Ok b s'.
Proof. unfold bind. destruct (m s) as [a s1 | e]; [eauto | done]. Qed.

Lemma wp_bind {S A B} (m : M S A) (f : A -> M S B) Q s :
  wp (bind m f) Q s <-> wp m (fun a => wp (f a) Q) s.
Proof. unfold wp, bind. by destruct (m s). Qed.

Lemma wp_ret {S A} (a : A) (Q : A -> S -> Prop) s : wp (ret a) Q s <-> Q a s.
Proof. done. Qed.

Lemma wp_gets {S A} (f : S -> A) Q s : wp (gets f) Q s <-> Q (f s) s.
Proof. done. Qed.

Lemma wp_modify {S} (f : S -> S) Q s : wp (modify f) Q s <-> Q tt (f s).
Proof. done. Qed.

Lemma wp_oget {S A} e (o : option A) Q (s : S) :
  wp (oget e o) Q s <-> exists a, o = Some a /\ Q a s.
Proof.
  destruct o as [a |]; cbv [wp oget ret fail]; split; [eauto | | done |].
  - by intros (a1 & [= ->] & HQ).
  - by intros (a1 & [=] & _).
Qed.

Lemma wp_zoom {S T A} (get : S -> T) set (m : M T A) Q s :
  wp (zoom get set m) Q s <-> wp m (fun a t => Q a (set t s)) (get s).
Proof. unfold wp, zoom. by destruct (m (get s)). Qed.

Create Rewrite HintDb wp.
#[export] Hint Rewrite @wp_bind @wp_ret @wp_gets @wp_modify @wp_zoom : wp.

(** Symbolic execution: rewrite the store transformers away and leave the
    faulting operations and the tests. *)
Ltac wp_simpl := autorewrite with wp; cbv beta.

(** *** Loops

    [iter_runs body n a s b s']: started at loop variables [a] in store [s],
    the loop stops after exactly [n] executions of its body with result [b]. *)
Inductive iter_runs {S A B} (body : A -> M S (A + B)) :
  nat -> A -> S -> B -> S -> Prop :=
| runs_stop a s b s' :
    body a s = Ok (inr b) s' -> iter_runs body 1 a s b s'
| runs_step n a s a1 s1 b s' :
    body a s = Ok (inl a1) s1 -> iter_runs body n a1 s1 b s' ->
    iter_runs body (Datatypes.S n) a s b s'.

Lemma iter_pos_runs {S A B} (body : A -> M S (A + B)) p n a s b s' :
  iter_runs body n a s b s' ->
  ((n <= Pos.to_nat p)%nat /\ iter_pos p body a s = Ok (inr b) s') \/
  exists m a1 s1, (n = Pos.to_nat p + m)%nat /\ (0 < m)%nat /\
    iter_pos p body a s = Ok (inl a1) s1 /\ iter_runs body m a1 s1 b s'.
Proof.
  revert n a s. induction p as [p IH | p IH |]; intros n a s Hr; cbn [iter_pos].
  - pose proof (Pos2Nat.inj_xI p).
    destruct Hr as [a s b s' Hb | n a s a1 s1 b s' Hb Hr]; unfold bind;
      rewrite Hb; [left; split; [lia | done] |].
    destruct (IH _ _ _ Hr) as [[Hn He] | (m & a2 & s2 & -> & Hm & He & Hr2)];
      rewrite He; [left; split; [lia | done] |].
    destruct (IH _ _ _ Hr2) as [[Hn He2] | (m' & a3 & s3 & -> & Hm' & He2 & Hr3)];
      rewrite He2; [left; split; [lia | done] |].
    right. exists m', a3, s3. by split_and!; [lia | ..].
  - pose proof (Pos2Nat.inj_xO p).
    unfold bind. destruct (IH _ _ _ Hr) as [[Hn He] | (m & a2 & s2 & -> & Hm & He & Hr2)];
      rewrite He; [left; split; [lia | done] |].
    destruct (IH _ _ _ Hr2) as [[Hn He2] | (m' & a3 & s3 & -> & Hm' & He2 & Hr3)];
      rewrite He2; [left; split; [lia | done] |].
    right. exists m', a3, s3. by split_and!; [lia | ..].
  - destruct Hr as [a s b s' Hb | n a s a1 s1 b s' Hb Hr]; rewrite Hb.
    + by left.
    + right. exists n, a1, s1. split_and!; [lia | | done | done].
      destruct Hr; lia.
Qed.

Lemma iter_upto_of_runs {S A B} (body : A -> M S (A + B)) p n a s b s' :
  iter_runs body n a s b s' -> Z.of_nat n <= Zpos p ->
  iter_upto p body a s = Ok b s'.
Proof.
  intros Hr Hn. unfold iter_upto, bind.
  destruct (iter_pos_runs body p n a s b s' Hr)
    as [[_ ->] | (m & a1 & s1 & -> & Hm & _)]; [done | lia].
Qed.

Lemma iter_of_runs {S A B} (body : A -> M S (A + B)) n a s b s' :
  iter_runs body n a s b s' -> Z.of_nat n <= Zpos budget ->
  iter body a s = Ok b s'.
Proof. apply iter_upto_of_runs. Qed.

(** The loop rule, with an invariant indexed by a bound on the iterations
    left. *)
Lemma wp_iter_n {S A B} (Inv : nat -> A -> S -> Prop)
    (body : A -> M S (A + B)) n a Q s :
  Inv n a s -> Z.of_nat n < Zpos budget ->
  (forall n a s, Inv n a s ->
     wp (body a) (fun r s' => match r with
       | inl a' => exists n', (n' < n)%nat /\ Inv n' a' s'
       | inr b => Q b s' end) s) ->
  wp (iter body a) Q s.
Proof.
  intros Hi Hn Hbody.
  enough (exists k b s', iter_runs body k a s b s' /\ Q b s' /\ (k <= n + 1)%nat)
    as (k & b & s' & Hr & HQ & Hk).
  { unfold wp. rewrite (iter_of_runs _ _ _ _ _ _ Hr); [done | lia]. }
  clear Hn. revert a s Hi. induction (lt_wf n) as [n _ IH]. intros a s Hi.
  pose proof (Hbody n a s Hi) as Hb.
  apply wp_ok in Hb as ([a1 | b] & s1 & Hb & Hp).
  - destruct Hp as (n1 & Hlt & Hi1).
    destruct (IH n1 Hlt a1 s1 Hi1) as (k & b & s' & Hr & HQ & Hk).
    exists (Datatypes.S k), b, s'. split_and!; [by econstructor | done | lia].
  - exists 1%nat, b, s1. split_and!; [by constructor | done | lia].
Qed.

(** The loop rule with a variant computed from the loop variables and the
    store. *)
Lemma wp_iter {S A B} (Inv : A -> S -> Prop) (v : A -> S -> Z)
    (body : A -> M S (A + B)) a Q s :
  Inv a s -> v a s < Zpos budget ->
  (forall a s, Inv a s -> 0 <= v a s /\
     wp (body a) (fun r s' => match r with
       | inl a' => Inv a' s' /\ v a' s' < v a s
       | inr b => Q b s' end) s) ->
  wp (iter body a) Q s.
Proof.
  intros Hi Hv Hbody. destruct (Hbody a s Hi) as [H0 _].
  apply (wp_iter_n (fun n a s => Inv a s /\ Z.of_nat n = v a s) body (Z.to_nat (v a s)));
    [split; [done | lia] | lia |].
  intros n a1 s1 [Hi1 Hn]. eapply wp_mono; [apply Hbody, Hi1 |].
  intros [a2 | b] s2; [| done]. intros [Hi2 Hlt]. destruct (Hbody a2 s2 Hi2) as [H2 _].
  exists (Z.to_nat (v a2 s2)). split_and!; [lia | done | lia].
Qed.

Lemma wp_while_n {S A} (Inv : nat -> A -> S -> Prop)
    (c : A -> M S bool) body n a (Q : A -> S -> Prop) s :
  Inv n a s -> Z.of_nat n < Zpos budget ->
  (forall n a s, Inv n a s ->
     wp (c a) (fun b s1 => if b : bool
       then wp (body a) (fun a' s' => exists n', (n' < n)%nat /\ Inv n' a' s') s1
       else Q a s1) s) ->
  wp (while c body a) Q s.
Proof.
  intros Hi Hn Hb. unfold while. apply (wp_iter_n Inv _ n); [done | done |].
  intros n1 a1 s1 Hi1. rewrite wp_bind. eapply wp_mono; [apply (Hb n1), Hi1 |].
  intros [] s2 H2; [| done]. rewrite wp_bind. eapply wp_mono; [exact H2 |]. done.
Qed.

Lemma wp_while {S A} (Inv : A -> S -> Prop) (v : A -> S -> Z)
    (c : A -> M S bool) body a (Q : A -> S -> Prop) s :
  Inv a s -> v a s < Zpos budget ->
  (forall a s, Inv a s -> 0 <= v a s /\
     wp (c a) (fun b s1 => if b : bool
       then wp (body a) (fun a' s' => Inv a' s' /\ v a' s' < v a s) s1
       else Q a s1) s) ->
  wp (while c body a) Q s.
Proof.
  intros Hi Hv Hb. unfold while. apply (wp_iter Inv v); [done | done |].
  intros a1 s1 Hi1. destruct (Hb a1 s1 Hi1) as [H0 Hw]. split; [done |].
  rewrite wp_bind. eapply wp_mono; [exact Hw |]. intros [] s2 H2; [| done].
  rewrite wp_bind. eapply wp_mono; [exact H2 |]. done.
Qed.

Lemma wp_for_n {S A} (Inv : Z -> A -> S -> Prop) n i (body : Z -> A -> M S A) a Q s :
  Inv i a s ->
  (forall j a s, i <= j < i + Z.of_nat n -> Inv j a s -> wp (body j a) (Inv (j + 1)) s) ->
  (forall a s, Inv (i + Z.of_nat n) a s -> Q a s) ->
  wp (for_n n i body a) Q s.
Proof.
  revert i a s. induction n as [| n IH]; intros i a s Hi Hb HQ; simpl.
  - apply HQ. by rewrite Z.add_0_r.
  - rewrite wp_bind. eapply wp_mono; [apply Hb; [lia | done] |].
    intros a' s' Hi'. apply IH; [done | |].
    + intros j a2 s2 Hj. apply Hb. lia.
    + intros a2 s2 H2. apply HQ. by replace (i + Z.of_nat (Datatypes.S n))
        with (i + 1 + Z.of_nat n) by lia.
Qed.

(** ** Invariants of any execution

    [keeps I m]: if [m] finishes from a store that satisfies [I], it leaves a
    store that satisfies [I].  Unlike [wp] it asks nothing of the loops. *)

Definition keeps {S A} (I : S -> Prop) (m : M S A) : Prop :=
  forall s, I s -> match m s with Ok _ s' => I s' | Err _ => True end.

Section keeps.
Context {S : Type} (I : S -> Prop).

Lemma keeps_ok {A} (m : M S A) s a s' : keeps I m -> I s -> m s = Ok a s' -> I s'.
Proof. intros Hm Hs E. specialize (Hm s Hs). by rewrite E in Hm. Qed.

Lemma keeps_ret {A} (a : A) : keeps I (ret a).
Proof. by intros s Hs. Qed.

Lemma keeps_fail {A} e : keeps I (fail e : M S A).
Proof. by intros s Hs. Qed.

Lemma keeps_gets {A} (f : S -> A) : keeps I (gets f).
Proof. by intros s Hs. Qed.

Lemma keeps_modify f : (forall s, I s -> I (f s)) -> keeps I (modify f).
Proof. intros H s Hs. by apply H. Qed.

Lemma keeps_oget {A} e (o : option A) : keeps I (oget e o).
Proof. destruct o; [apply keeps_ret | apply keeps_fail]. Qed.

Lemma keeps_bind {A B} (m : M S A) (f : A -> M S B) :
  keeps I m -> (forall a, keeps I (f a)) -> keeps I (bind m f).
Proof.
  intros Hm Hf s Hs. specialize (Hm s Hs). unfold bind.
  destruct (m s) as [a s' | e]; [by apply Hf | done].
Qed.

Lemma keeps_iter_pos {A B} n (body : A -> M S (A + B)) :
  (forall a, keeps I (body a)) -> forall a, keeps I (iter_pos n body a).
Proof.
  intros Hb. induction n as [n IH | n IH |]; intros a; cbn [iter_pos]; [| | apply Hb];
    apply keeps_bind; auto; intros [a1 | b]; auto using keeps_ret.
  apply keeps_bind; auto. intros [a2 | b]; auto using keeps_ret.
Qed.

Lemma keeps_iter {A B} (body : A -> M S (A + B)) a :
  (forall a, keeps I (body a)) -> keeps I (iter body a).
Proof.
  intros Hb. apply keeps_bind; [by apply keeps_iter_pos |].
  intros [a1 | b]; [apply keeps_fail | apply keeps_ret].
Qed.

Lemma keeps_while {A} (c : A -> M S bool) body a :
  (forall a, keeps I (c a)) -> (forall a, keeps I (body a)) -> keeps I (while c body a).
Proof.
  intros Hc Hb. apply keeps_iter. intros a1. apply keeps_bind; [apply Hc |].
  intros []; [apply keeps_bind; [apply Hb |]; intros a2 |]; apply keeps_ret.
Qed.

Lemma keeps_for_n {A} n i (body : Z -> A -> M S A) a :
  (forall i a, keeps I (body i a)) -> keeps I (for_n n i body a).
Proof.
  intros Hb. revert i a. induction n as [| n IH]; intros i a; [apply keeps_ret |].
  apply keeps_bind; [apply Hb |]. intros a1. apply IH.
Qed.
End keeps.

(** A computation on a component keeps what its invariant there implies. *)
Lemma keeps_zoom {S T A} (I : S -> Prop) (J : T -> Prop) get set (m : M T A) :
  (forall s, I s -> J (get s)) -> (forall t s, I s -> J t -> I (set t s)) ->
  keeps J m -> keeps I (zoom get set m).
Proof.
  intros Hget Hset Hm s Hs. unfold zoom. specialize (Hm _ (Hget s Hs)).
  destruct (m (get s)) as [a t | e]; [by apply Hset | done].
Qed.

(** A computation on another component. *)
Lemma keeps_zoom_frame {S T A} (I : S -> Prop) get set (m : M T A) :
  (forall t s, I s -> I (set t s)) -> keeps I (zoom get set m).
Proof. intros Hset. by apply (keeps_zoom I (fun _ => True)); [| auto | intros s _; destruct (m s)]. Qed.

Create HintDb keeps discriminated.
#[export] Hint Resolve keeps_ret keeps_fail keeps_gets keeps_oget keeps_bind keeps_iter keeps_while
  keeps_for_n : keeps.

(** Follow the structure of the code. *)
Ltac keeps_step :=
  match goal with
  | |- forall _, _ => intro
  | |- keeps _ (match ?x with _ => _ end) => destruct x
  | |- keeps _ (let _ := _ in _) => cbv zeta
  | |- keeps _ _ => solve [auto with nocore keeps]
  | |- keeps _ (bind _ _) => apply keeps_bind
  | |- keeps _ (while _ _ _) => apply keeps_while
  | |- keeps _ (iter _ _) => apply keeps_iter
  | |- keeps _ (for_n _ _ _ _) => apply keeps_for_n
  end.
Ltac keeps_solve := repeat keeps_step.

(** ** Arrays

    A C array is a list; an index outside it is a fault, for reads and
    writes alike. *)

Definition arr_get {A} (l : list A) (i : Z) : option A :=
  if 0 <=? i then l !! Z.to_nat i else None.
Definition arr_set {A} (l : list A) (i : Z) (v : A) : option (list A) :=
  if (0 <=? i) && (i <? Z.of_nat (length l))
  then Some (<[Z.to_nat i := v]> l) else None.

Lemma arr_get_nat {A} (l : list A) (i : nat) : arr_get l (Z.of_nat i) = l !! i.
Proof.
  unfold arr_get. rewrite (proj2 (Z.leb_le _ _)) by lia. by rewrite Nat2Z.id.
Qed.

Lemma arr_get_is_Some {A} (l : list A) i :
  0 <= i < Z.of_nat (length l) -> is_Some (arr_get l i).
Proof.
  intros Hi. unfold arr_get. rewrite (proj2 (Z.leb_le _ _)) by lia.
  apply lookup_lt_is_Some. lia.
Qed.

Lemma arr_get_Some {A} (l : list A) i x :
  arr_get l i = Some x -> 0 <= i < Z.of_nat (length l).
Proof.
  unfold arr_get. destruct (Z.leb_spec 0 i); [| done].
  intros Hx%lookup_lt_Some. lia.
Qed.

Lemma arr_set_Some {A} (l : list A) i v :
  0 <= i < Z.of_nat (length l) -> arr_set l i v = Some (<[Z.to_nat i := v]> l).
Proof.
  intros Hi. unfold arr_set.
  by rewrite (proj2 (Z.leb_le _ _)), (proj2 (Z.ltb_lt _ _)) by lia.
Qed.

Lemma arr_get_insert {A} (l : list A) i j v :
  0 <= i < Z.of_nat (length l) -> 0 <= j ->
  arr_get (<[Z.to_nat i := v]> l) j = if j =? i then Some v else arr_get l j.
Proof.
  intros Hi Hj. unfold arr_get. rewrite (proj2 (Z.leb_le _ _)) by lia.
  destruct (Z.eqb_spec j i) as [-> | Hne].
  - apply list_lookup_insert_eq. lia.
  - apply list_lookup_insert_ne. lia.
Qed.

(** ** Strings

    A C string literal as the list of its character codes, without the
    terminating NUL. *)
Definition bytes (s : string) : list Z :=
  map (fun c => Z.of_N (N_of_ascii c)) (list_ascii_of_string s).
