(* ===== verification/Crc.v ===== *)
(** * The CRC service of core_util.c

    [crcu8], [crcu16], [crcu32] and [crc16] fold bytes into a 16-bit register.
    The theorems show that the register is the remainder of the message
    polynomial modulo x^16 + x^15 + x^2 + 1 over GF(2), that the update is
    linear, and that one update loses no information about the data folded in. *)

From stdpp Require Import base list numbers.
From Stdlib Require Import ZArith Lia.
From S2P Require Import Prelude.

Local Open Scope Z_scope.

(** ** The code *)

(** One iteration of the loop of [crcu8], on its variables [data] and [crc]. *)
Definition crcu8_step (dc : Z * Z) : Z * Z :=
  let '(data, crc) := dc in
  let x16 := u8 (Z.lxor (Z.land data 1) (Z.land (u8 crc) 1)) in
  let data := Z.shiftr data 1 in
  let '(crc, carry) :=
    if x16 =? 1 then (Z.lxor crc 0x4002, 1) else (crc, 0) in
  let crc := Z.shiftr crc 1 in
  let crc := if negb (carry =? 0) then Z.lor crc 0x8000 else Z.land crc 0x7fff in
  (data, crc).

Definition crcu8 (data crc : Z) : Z := (Nat.iter 8 crcu8_step (data, crc)).2.

Definition crcu16 (newval crc : Z) : Z :=
  let crc := crcu8 (u8 newval) crc in
  let crc := crcu8 (u8 (Z.shiftr newval 8)) crc in
  crc.

Definition crc16 (newval crc : Z) : Z := crcu16 (u16 newval) crc.

Definition crcu32 (newval crc : Z) : Z :=
  let crc := crc16 (s16 newval) crc in
  let crc := crc16 (s16 (Z.shiftr newval 16)) crc in
  crc.

(** The register after a sequence of bytes. *)
Definition crc_bytes (bs : list Z) (crc : Z) : Z :=
  fold_left (fun c b => crcu8 b c) bs crc.

(** ** The loop body in closed form *)

Lemma bit0_land x : Z.land x 1 = Z.b2z (Z.odd x).
Proof.
  change 1 with (Z.ones 1). rewrite Z.land_ones, Zmod_odd by lia.
  by destruct (Z.odd x).
Qed.

Lemma odd_u8 x : Z.odd (u8 x) = Z.odd x.
Proof. rewrite <- !Z.bit0_odd. unfold u8. by rewrite testbit_uwrap. Qed.

Lemma crcu8_step_eq data crc : in_u 16 crc ->
  crcu8_step (data, crc) =
  (Z.shiftr data 1,
   Z.lxor (Z.shiftr crc 1) (if xorb (Z.odd data) (Z.odd crc) then 0xA001 else 0)).
Proof.
  intros Hc. unfold crcu8_step. rewrite !bit0_land, odd_u8.
  assert (Z.testbit (Z.shiftr crc 1) 15 = false) as H15
    by (rewrite Z.shiftr_spec by lia; by apply (testbit_in_u 16)).
  assert (in_u 15 (Z.shiftr crc 1)) as Hs.
  { unfold in_u in *. rewrite Z.shiftr_div_pow2 by lia.
    change (2 ^ 1) with 2. Z.to_euclidean_division_equations; lia. }
  assert (Z.lxor (Z.shiftr crc 1) 0xA001 =
          Z.lor (Z.shiftr (Z.lxor crc 0x4002) 1) 0x8000) as H1.
  { rewrite Z.shiftr_lxor. change (Z.shiftr 0x4002 1) with 0x2001.
    change 0xA001 with (Z.lxor 0x2001 0x8000). rewrite <- Z.lxor_assoc.
    apply Z.lxor_lor. apply Z.bits_inj'. intros i Hi.
    rewrite Z.land_spec, Z.lxor_spec, Z.bits_0. change 0x8000 with (2 ^ 15).
    rewrite Z.pow2_bits_eqb by lia. destruct (Z.eqb_spec 15 i) as [<- | Hne].
    - by rewrite H15.
    - apply andb_false_r. }
  assert (Z.land (Z.shiftr crc 1) 0x7fff = Z.shiftr crc 1) as H0.
  { change 0x7fff with (Z.ones 15). rewrite Z.land_ones by lia.
    by apply Z.mod_small. }
  assert (forall a b, (u8 (Z.lxor (Z.b2z a) (Z.b2z b)) =? 1) = xorb a b) as Hx
    by (by intros [] []).
  rewrite Hx. destruct (xorb _ _); cbv beta iota zeta; cbn [negb Z.eqb];
    by rewrite ?H1, ?H0, ?Z.lxor_0_r.
Qed.

Lemma crcu8_step_range data crc :
  in_u 16 crc -> in_u 16 (crcu8_step (data, crc)).2.
Proof.
  intros Hc. rewrite crcu8_step_eq by done. cbn [snd].
  apply in_u_lxor; [lia | | destruct (xorb _ _); unfold in_u; lia].
  unfold in_u in *. rewrite Z.shiftr_div_pow2 by lia. change (2 ^ 1) with 2.
  Z.to_euclidean_division_equations; lia.
Qed.

Lemma crc_iter_range n data crc :
  in_u 16 crc -> in_u 16 (Nat.iter n crcu8_step (data, crc)).2.
Proof.
  intros Hc. induction n as [| n IH]; [done |]. rewrite Nat.iter_succ.
  destruct (Nat.iter n crcu8_step (data, crc)) as [d c]. by apply crcu8_step_range.
Qed.

Lemma crcu8_range data crc : in_u 16 crc -> in_u 16 (crcu8 data crc).
Proof. apply crc_iter_range. Qed.

Lemma crcu16_range v crc : in_u 16 crc -> in_u 16 (crcu16 v crc).
Proof. intros. by do 2 apply crcu8_range. Qed.

Lemma crc16_range v crc : in_u 16 crc -> in_u 16 (crc16 v crc).
Proof. intros. by apply crcu16_range. Qed.

Lemma crcu32_range v crc : in_u 16 crc -> in_u 16 (crcu32 v crc).
Proof. intros. by do 2 apply crc16_range. Qed.

Lemma crc_bytes_range bs crc : in_u 16 crc -> in_u 16 (crc_bytes bs crc).
Proof.
  revert crc. induction bs as [| b bs IH]; intros crc Hc; [done |].
  apply IH, crcu8_range, Hc.
Qed.

Create HintDb crc.
#[export] Hint Resolve crcu8_range crcu16_range crc16_range crcu32_range
  crc_bytes_range : crc.

(** ** Linearity over GF(2) *)

Lemma crcu8_step_lxor d1 c1 d2 c2 :
  in_u 16 c1 -> in_u 16 c2 ->
  crcu8_step (Z.lxor d1 d2, Z.lxor c1 c2) =
  (Z.lxor (crcu8_step (d1, c1)).1 (crcu8_step (d2, c2)).1,
   Z.lxor (crcu8_step (d1, c1)).2 (crcu8_step (d2, c2)).2).
Proof.
  intros H1 H2. rewrite !crcu8_step_eq by (try apply in_u_lxor; done || lia).
  cbn [fst snd]. rewrite !Z.shiftr_lxor.
  rewrite <- !Z.bit0_odd, !Z.lxor_spec. f_equal.
  rewrite (Z.lxor_assoc (Z.shiftr c1 1)), (Z.lxor_assoc (Z.shiftr c1 1)). f_equal.
  rewrite <- Z.lxor_assoc, (Z.lxor_comm _ (Z.shiftr c2 1)), Z.lxor_assoc. f_equal.
  by destruct (Z.testbit d1 0), (Z.testbit d2 0), (Z.testbit c1 0), (Z.testbit c2 0).
Qed.

Lemma crcu8_lxor d1 c1 d2 c2 :
  in_u 16 c1 -> in_u 16 c2 ->
  crcu8 (Z.lxor d1 d2) (Z.lxor c1 c2) = Z.lxor (crcu8 d1 c1) (crcu8 d2 c2).
Proof.
  intros H1 H2. unfold crcu8.
  enough (forall n, Nat.iter n crcu8_step (Z.lxor d1 d2, Z.lxor c1 c2) =
    (Z.lxor (Nat.iter n crcu8_step (d1, c1)).1 (Nat.iter n crcu8_step (d2, c2)).1,
     Z.lxor (Nat.iter n crcu8_step (d1, c1)).2 (Nat.iter n crcu8_step (d2, c2)).2))
    as E by (by rewrite E).
  induction n as [| n IH]; [done |]. rewrite !Nat.iter_succ, IH.
  pose proof (crc_iter_range n d1 c1 H1). pose proof (crc_iter_range n d2 c2 H2).
  destruct (Nat.iter n crcu8_step (d1, c1)), (Nat.iter n crcu8_step (d2, c2)).
  by apply crcu8_step_lxor.
Qed.

Lemma in_u_mono w1 w2 x : 0 <= w1 <= w2 -> in_u w1 x -> in_u w2 x.
Proof.
  intros Hw [H0 H1]. split; [done |].
  eapply Z.lt_le_trans; [exact H1 |]. apply Z.pow_le_mono_r; lia.
Qed.

Lemma uwrap_lxor w x y : 0 <= w -> uwrap w (Z.lxor x y) = Z.lxor (uwrap w x) (uwrap w y).
Proof.
  intros Hw. apply Z.bits_inj'. intros i Hi.
  rewrite !Z.lxor_spec, !testbit_uwrap, Z.lxor_spec by done.
  by destruct (i <? w), (Z.testbit x i), (Z.testbit y i).
Qed.

Lemma u8_lxor x y : u8 (Z.lxor x y) = Z.lxor (u8 x) (u8 y).
Proof. apply uwrap_lxor. lia. Qed.

Lemma u16_lxor x y : u16 (Z.lxor x y) = Z.lxor (u16 x) (u16 y).
Proof. apply uwrap_lxor. lia. Qed.

Lemma crcu16_lxor v1 c1 v2 c2 :
  in_u 16 c1 -> in_u 16 c2 ->
  crcu16 (Z.lxor v1 v2) (Z.lxor c1 c2) = Z.lxor (crcu16 v1 c1) (crcu16 v2 c2).
Proof.
  intros H1 H2. unfold crcu16. rewrite Z.shiftr_lxor, !u8_lxor.
  rewrite crcu8_lxor by done. apply crcu8_lxor; by apply crcu8_range.
Qed.

(** ** No information is lost

    The map of one register update has a trivial kernel: a step that leaves 0
    came from 0. *)
Lemma crcu8_step_kernel c : in_u 16 c ->
  (crcu8_step (0, c)).2 = 0 -> c = 0.
Proof.
  intros Hc. rewrite crcu8_step_eq by done. cbn [snd Z.odd xorb].
  intros H%Z.lxor_eq.
  rewrite Z.shiftr_div_pow2 in H by lia. change (2 ^ 1) with 2 in H.
  pose proof (Zdiv.Zmod_odd c) as Ho.
  destruct (Z.odd c); cint_lia.
Qed.

Lemma crcu8_kernel_reg c : in_u 16 c -> crcu8 0 c = 0 -> c = 0.
Proof.
  intros Hc. unfold crcu8.
  assert (forall n, (Nat.iter n crcu8_step (0, c)).1 = 0 /\
            ((Nat.iter n crcu8_step (0, c)).2 = 0 -> c = 0)) as H.
  { induction n as [| n [IH1 IH2]]; [done |]. rewrite Nat.iter_succ.
    pose proof (crc_iter_range n 0 c Hc) as Hr.
    destruct (Nat.iter n crcu8_step (0, c)) as [d c']; cbn [fst snd] in *. subst d.
    split; [by rewrite crcu8_step_eq |].
    intros E%crcu8_step_kernel; [| done]. by apply IH2. }
  by apply H.
Qed.

(** Enumeration of the [n]-bit numbers. *)
Fixpoint all_bits (n : nat) (P : Z -> bool) (x : Z) : bool :=
  match n with
  | O => P x
  | S n' => all_bits n' P (2 * x) && all_bits n' P (2 * x + 1)
  end.

Lemma all_bits_spec n P a x :
  all_bits n P a = true -> in_u (Z.of_nat n) x -> P (a * 2 ^ Z.of_nat n + x) = true.
Proof.
  revert a x. induction n as [| n IH]; intros a x; cbn [all_bits]; unfold in_u.
  - intros HP Hx. change (2 ^ Z.of_nat 0) with 1 in *. by replace (a * 1 + x) with a by lia.
  - rewrite Nat2Z.inj_succ, Z.pow_succ_r by lia.
    intros [H0 H1]%andb_true_iff Hx.
    destruct (Z.lt_ge_cases x (2 ^ Z.of_nat n)).
    + replace (a * (2 * 2 ^ Z.of_nat n) + x) with ((2 * a) * 2 ^ Z.of_nat n + x) by ring.
      apply IH; [done | unfold in_u; lia].
    + replace (a * (2 * 2 ^ Z.of_nat n) + x)
        with ((2 * a + 1) * 2 ^ Z.of_nat n + (x - 2 ^ Z.of_nat n)) by ring.
      apply IH; [done | unfold in_u; lia].
Qed.

(** Folding a byte is adding it to the low end of the register first. *)
Lemma crcu8_data_reg :
  all_bits 8 (fun d => crcu8 d 0 =? crcu8 0 d) 0 = true.
Proof. vm_compute. reflexivity. Qed.

(** The register of a nonzero byte has a nonzero high byte. *)
Lemma crcu8_high_byte :
  all_bits 8 (fun d => implb (crcu8 0 d <? 256) (d =? 0)) 0 = true.
Proof. vm_compute. reflexivity. Qed.

#[local] Hint Resolve in_u_0 : crc.

Lemma crcu8_fold d c : in_u 8 d -> in_u 16 c -> crcu8 d c = crcu8 0 (Z.lxor c d).
Proof.
  intros Hd Hc. pose proof (in_u_mono 8 16 d ltac:(lia) Hd) as Hd'.
  pose proof (crcu8_lxor d 0 0 c (in_u_0 16 ltac:(lia)) Hc) as E1.
  pose proof (crcu8_lxor 0 c 0 d Hc Hd') as E2.
  pose proof (all_bits_spec 8 _ 0 d crcu8_data_reg Hd) as E3.
  cbv beta in E3. rewrite Z.add_0_l in E3. apply Z.eqb_eq in E3.
  rewrite Z.lxor_0_r, Z.lxor_0_l in E1. rewrite Z.lxor_0_l in E2.
  by rewrite E1, E2, E3, Z.lxor_comm.
Qed.

(** For a fixed byte the update permutes the registers, for a fixed register
    it is injective in the byte. *)
Lemma crcu8_inj_crc d c1 c2 : in_u 16 c1 -> in_u 16 c2 ->
  crcu8 d c1 = crcu8 d c2 -> c1 = c2.
Proof.
  intros H1 H2 He. apply Z.lxor_eq, crcu8_kernel_reg; [by apply in_u_lxor |].
  pose proof (crcu8_lxor d c1 d c2 H1 H2) as E.
  by rewrite He, !Z.lxor_nilpotent in E.
Qed.

Lemma in_u_lxor_byte c d : in_u 16 c -> in_u 8 d -> in_u 16 (Z.lxor c d).
Proof.
  intros. apply in_u_lxor; [lia | done | by apply (in_u_mono 8); [lia |]].
Qed.

Lemma u16_split v : in_u 16 v -> v = u8 v + 256 * u8 (Z.shiftr v 8).
Proof.
  intros Hv. rewrite Z.shiftr_div_pow2 by lia. change (2 ^ 8) with 256. cint_lia.
Qed.

Lemma crcu16_kernel v : in_u 16 v -> crcu16 v 0 = 0 -> v = 0.
Proof.
  intros Hv E. rewrite (u16_split v Hv). unfold crcu16 in E.
  pose proof (uwrap_range 8 v ltac:(lia)) as Hlo.
  pose proof (uwrap_range 8 (Z.shiftr v 8) ltac:(lia)) as Hhi.
  fold (u8 v) in Hlo. fold (u8 (Z.shiftr v 8)) in Hhi.
  set (lo := u8 v) in *. set (hi := u8 (Z.shiftr v 8)) in *.
  assert (in_u 16 (crcu8 lo 0)) as Hr by (apply crcu8_range; unfold in_u; lia).
  rewrite crcu8_fold in E by done.
  apply crcu8_kernel_reg, Z.lxor_eq in E; [| by apply in_u_lxor_byte].
  pose proof (all_bits_spec 8 _ 0 lo crcu8_high_byte Hlo) as K. cbv beta in K.
  pose proof (crcu8_fold lo 0 Hlo (in_u_0 16 ltac:(lia))) as F.
  rewrite Z.lxor_0_l in F. rewrite Z.add_0_l, <- F, E in K.
  rewrite (proj2 (Z.ltb_lt hi 256)) in K by (unfold in_u in Hhi; lia).
  apply Z.eqb_eq in K. rewrite K in *. rewrite <- E. reflexivity.
Qed.

Lemma crcu16_inj v1 v2 c : in_u 16 v1 -> in_u 16 v2 -> in_u 16 c ->
  crcu16 v1 c = crcu16 v2 c -> v1 = v2.
Proof.
  intros H1 H2 Hc He. apply Z.lxor_eq, crcu16_kernel; [by apply in_u_lxor |].
  pose proof (crcu16_lxor v1 c v2 c Hc Hc) as E.
  by rewrite He, !Z.lxor_nilpotent in E.
Qed.

Lemma crc_bytes_app bs1 bs2 c :
  crc_bytes (bs1 ++ bs2) c = crc_bytes bs2 (crc_bytes bs1 c).
Proof. apply fold_left_app. Qed.

Lemma crc_bytes_inj bs c1 c2 : in_u 16 c1 -> in_u 16 c2 ->
  crc_bytes bs c1 = crc_bytes bs c2 -> c1 = c2.
Proof.
  revert c1 c2. induction bs as [| b bs IH]; intros c1 c2 H1 H2 E; [done |].
  apply (crcu8_inj_crc b); [done | done |].
  apply IH; [by apply crcu8_range.. | exact E].
Qed.

(** Two bytes folded in a row determine both of them. *)
Lemma crcu16_pair_inj a1 a2 b1 b2 c :
  in_u 8 a1 -> in_u 8 a2 -> in_u 8 b1 -> in_u 8 b2 -> in_u 16 c ->
  crc_bytes [a1; a2] c = crc_bytes [b1; b2] c -> a1 = b1 /\ a2 = b2.
Proof.
  intros Ha1 Ha2 Hb1 Hb2 Hc E.
  assert (forall x y, in_u 8 x -> in_u 8 y ->
            crc_bytes [x; y] c = crcu16 (x + 256 * y) c /\ in_u 16 (x + 256 * y)) as H.
  { intros x y Hx Hy. unfold crcu16, crc_bytes. cbn [fold_left].
    assert (u8 (x + 256 * y) = x) as -> by cint_lia.
    assert (u8 (Z.shiftr (x + 256 * y) 8) = y) as ->
      by (rewrite Z.shiftr_div_pow2 by lia; change (2 ^ 8) with 256; cint_lia).
    split; [done | cint_lia]. }
  destruct (H a1 a2 Ha1 Ha2) as [E1 R1], (H b1 b2 Hb1 Hb2) as [E2 R2].
  rewrite E1, E2 in E. apply crcu16_inj in E; [| done..]. cint_lia.
Qed.

(** ** The register as a polynomial remainder

    A nonnegative number stands for a polynomial over GF(2), bit [i] for the
    coefficient of x^i; addition is [lxor].  The code keeps its register and
    takes its bytes least significant bit first, hence the reflection. *)

Definition crc_poly : Z := 0x18005. (* x^16 + x^15 + x^2 + 1 *)

Fixpoint refl (n : nat) (x : Z) : Z :=
  match n with
  | O => 0
  | S n' => Z.lxor (2 * refl n' x) (Z.b2z (Z.testbit x (Z.of_nat n')))
  end.

(** The product of a quotient given by its coefficients, highest first, with
    a polynomial [p]. *)
Definition poly_mul (q : list bool) (p : Z) : Z :=
  fold_left (fun acc b => Z.lxor (2 * acc) (if b : bool then p else 0)) q 0.

(** The message polynomial: the bytes in order, each low bit first. *)
Definition msg_poly (bs : list Z) : Z :=
  fold_left (fun acc b => Z.lxor (Z.shiftl acc 8) (refl 8 b)) bs 0.

Lemma testbit_double_b2z x b i : 0 <= i ->
  Z.testbit (Z.lxor (2 * x) (Z.b2z b)) i = if i =? 0 then b else Z.testbit x (i - 1).
Proof.
  intros Hi. rewrite Z.lxor_spec. destruct (Z.eqb_spec i 0) as [-> | Hne].
  - rewrite Z.testbit_even_0. by destruct b.
  - replace i with (Z.succ (i - 1)) at 1 by lia.
    rewrite Z.testbit_even_succ by lia.
    replace (Z.testbit (Z.b2z b) i) with false; [apply xorb_false_r |].
    symmetry. apply (testbit_in_u 1); [lia | destruct b; unfold in_u; simpl; lia | lia].
Qed.

Lemma refl_spec n x i : 0 <= i ->
  Z.testbit (refl n x) i = (i <? Z.of_nat n) && Z.testbit x (Z.of_nat n - 1 - i).
Proof.
  revert i. induction n as [| n IH]; intros i Hi; cbn [refl].
  - rewrite Z.bits_0. by rewrite (proj2 (Z.ltb_ge _ _)) by lia.
  - rewrite testbit_double_b2z by done. destruct (Z.eqb_spec i 0) as [-> | Hne].
    + rewrite (proj2 (Z.ltb_lt _ _)) by lia. cbn [andb]. f_equal. lia.
    + rewrite IH by lia. f_equal; [| f_equal; lia].
      destruct (Z.ltb_spec (i - 1) (Z.of_nat n)), (Z.ltb_spec i (Z.of_nat (S n))); lia || done.
Qed.

Lemma shiftl1 x : Z.shiftl x 1 = 2 * x.
Proof. rewrite Z.shiftl_mul_pow2 by lia. lia. Qed.

Lemma double_lxor x y : 2 * Z.lxor x y = Z.lxor (2 * x) (2 * y).
Proof. rewrite <- !shiftl1. apply Z.shiftl_lxor. Qed.

Lemma refl_lxor n x y : refl n (Z.lxor x y) = Z.lxor (refl n x) (refl n y).
Proof.
  apply Z.bits_inj'. intros i Hi. rewrite Z.lxor_spec, !refl_spec, Z.lxor_spec by done.
  by destruct (i <? Z.of_nat n); rewrite ?andb_false_l.
Qed.

Lemma refl_shiftr crc : in_u 16 crc ->
  refl 16 (Z.shiftr crc 1) =
  Z.lxor (2 * refl 16 crc) (Z.shiftl (Z.b2z (Z.odd crc)) 16).
Proof.
  intros Hc. apply Z.bits_inj'. intros i Hi. rewrite <- Z.bit0_odd.
  rewrite <- (Z.lxor_0_r (2 * refl 16 crc)). change 0 with (Z.b2z false) at 1.
  rewrite Z.lxor_spec, testbit_double_b2z, Z.shiftl_spec by done.
  rewrite refl_spec by done. change (Z.of_nat 16) with 16.
  destruct (Z.eqb_spec i 0) as [-> | Hi0].
  { cbn [Z.ltb andb]. rewrite Z.shiftr_spec by lia.
    rewrite (testbit_in_u 16) by (done || lia). by rewrite Z.testbit_neg_r. }
  rewrite refl_spec by lia. change (Z.of_nat 16) with 16.
  destruct (Z.lt_trichotomy i 16) as [Hlt | [-> | Hgt]].
  - rewrite !(proj2 (Z.ltb_lt _ _)), Z.shiftr_spec by lia.
    rewrite (Z.testbit_neg_r _ (i - 16)), xorb_false_r by lia.
    cbn [andb]. f_equal. lia.
  - change (16 - 1 - (16 - 1)) with 0. change (16 - 16) with 0.
    rewrite Z.b2z_bit0. by destruct (Z.testbit crc 0).
  - rewrite !(proj2 (Z.ltb_ge _ _)) by lia. cbn [andb xorb]. symmetry.
    apply (testbit_in_u 1); [lia | destruct (Z.testbit crc 0); cbn; unfold in_u; lia | lia].
Qed.

(** One step multiplies the reflected register by x, adds the incoming bit at
    x^16 and reduces by at most one multiple of the polynomial. *)
Lemma crcu8_step_poly data crc : in_u 16 crc ->
  refl 16 (crcu8_step (data, crc)).2 =
  Z.lxor (Z.lxor (2 * refl 16 crc) (Z.shiftl (Z.b2z (Z.odd data)) 16))
    (if xorb (Z.odd data) (Z.odd crc) then crc_poly else 0).
Proof.
  intros Hc. rewrite crcu8_step_eq by done. cbn [snd].
  rewrite refl_lxor, refl_shiftr, !Z.lxor_assoc by done. f_equal.
  by destruct (Z.odd data), (Z.odd crc).
Qed.

Lemma poly_mul_snoc q b p :
  poly_mul (q ++ [b]) p = Z.lxor (2 * poly_mul q p) (if b then p else 0).
Proof. unfold poly_mul. by rewrite fold_left_app. Qed.

Lemma crc_iter_poly n data crc : in_u 16 crc -> exists q, length q = n /\
  (Nat.iter n crcu8_step (data, crc)).1 = Z.shiftr data (Z.of_nat n) /\
  refl 16 (Nat.iter n crcu8_step (data, crc)).2 =
  Z.lxor (Z.lxor (Z.shiftl (refl 16 crc) (Z.of_nat n)) (Z.shiftl (refl n data) 16))
    (poly_mul q crc_poly).
Proof.
  intros Hc. induction n as [| n (q & Hq & IH1 & IH2)].
  - exists []. cbn [Nat.iter nat_rect fst snd refl Z.of_nat]. split_and!.
    + done.
    + by rewrite Z.shiftr_0_r.
    + by rewrite Z.shiftl_0_r, Z.shiftl_0_l, !Z.lxor_0_r.
  - pose proof (crc_iter_range n data crc Hc) as Hr. rewrite !Nat.iter_succ.
    destruct (Nat.iter n crcu8_step (data, crc)) as [d c]. cbn [fst snd] in *.
    exists (q ++ [xorb (Z.odd d) (Z.odd c)]). split_and!.
    + rewrite length_app, Hq. cbn. lia.
    + rewrite crcu8_step_eq by done. cbn [fst]. rewrite IH1, Z.shiftr_shiftr by lia.
      f_equal. lia.
    + rewrite crcu8_step_poly, IH2, poly_mul_snoc, <- !Z.lxor_assoc by done. f_equal.
      generalize (refl 16 crc). intros r. cbn [refl]. rewrite !double_lxor, Z.shiftl_lxor, IH1.
      rewrite <- (Z.bit0_odd (Z.shiftr _ _)), Z.shiftr_spec, Z.add_0_l by lia.
      rewrite <- !shiftl1, !Z.shiftl_shiftl by lia.
      replace (Z.of_nat (S n)) with (Z.of_nat n + 1) by lia.
      rewrite !Z.lxor_assoc. do 2 f_equal. apply Z.lxor_comm.
Qed.

Lemma poly_mul_app q1 q2 p :
  poly_mul (q1 ++ q2) p =
  Z.lxor (Z.shiftl (poly_mul q1 p) (Z.of_nat (length q2))) (poly_mul q2 p).
Proof.
  induction q2 as [| b q2 IH] using rev_ind.
  - by rewrite app_nil_r, Z.shiftl_0_r, Z.lxor_0_r.
  - rewrite app_assoc, !poly_mul_snoc, IH, length_app, double_lxor, !Z.lxor_assoc.
    f_equal. rewrite <- shiftl1, Z.shiftl_shiftl by lia. f_equal. cbn. lia.
Qed.

Lemma crc_bytes_poly bs crc : in_u 16 crc -> exists q,
  refl 16 (crc_bytes bs crc) =
  Z.lxor (Z.lxor (Z.shiftl (refl 16 crc) (8 * Z.of_nat (length bs)))
                 (Z.shiftl (msg_poly bs) 16))
    (poly_mul q crc_poly).
Proof.
  intros Hc. induction bs as [| b bs (q & IH)] using rev_ind.
  - exists []. by rewrite Z.shiftl_0_r, Z.shiftl_0_l, !Z.lxor_0_r.
  - rewrite crc_bytes_app. set (c := crc_bytes bs crc) in *.
    assert (in_u 16 c) as Hc' by (by apply crc_bytes_range).
    destruct (crc_iter_poly 8 b c Hc') as (q2 & Hq2 & _ & E).
    change (crc_bytes [b] c) with (Nat.iter 8 crcu8_step (b, c)).2. rewrite E, IH.
    exists (q ++ q2). rewrite poly_mul_app, Hq2, length_app.
    assert (msg_poly (bs ++ [b]) = Z.lxor (Z.shiftl (msg_poly bs) 8) (refl 8 b)) as ->
      by (unfold msg_poly; by rewrite fold_left_app).
    generalize (refl 16 crc) (refl 8 b). intros r rb.
    rewrite !Z.shiftl_lxor, !Z.shiftl_shiftl by lia.
    replace (8 * Z.of_nat (length bs + length [b])) with (8 * Z.of_nat (length bs) + 8)
      by (cbn [length]; lia).
    change (Z.of_nat 8) with 8. rewrite (Z.add_comm 8 16), !Z.lxor_assoc.
    do 2 f_equal. rewrite <- !Z.lxor_assoc. f_equal. apply Z.lxor_comm.
Qed.

(** ** Properties *)

(** C14: folding a byte string [bs] into a 16-bit register [crc] leaves a
    16-bit register that is, reflected, the remainder of
    crc * x^(8n) + bs * x^16 modulo x^16 + x^15 + x^2 + 1 over GF(2): the
    code of [crcu8] computes the CRC-16 with that generator polynomial. *)
Theorem crc_is_polynomial_remainder (bs : list Z) (crc : Z) :
  in_u 16 crc ->
  in_u 16 (crc_bytes bs crc) /\
  exists q : list bool,
    refl 16 (crc_bytes bs crc) =
    Z.lxor (Z.lxor (Z.shiftl (refl 16 crc) (8 * Z.of_nat (length bs)))
                   (Z.shiftl (msg_poly bs) 16))
      (poly_mul q crc_poly).
Proof. split; [by apply crc_bytes_range | by apply crc_bytes_poly]. Qed.

Lemma crc_is_polynomial_remainder_witness :
  in_u 16 (crc_bytes [0x31; 0x32; 0x33] 0) /\
  exists q : list bool,
    refl 16 (crc_bytes [0x31; 0x32; 0x33] 0) =
    Z.lxor (Z.lxor (Z.shiftl (refl 16 0) 24) (Z.shiftl (msg_poly [0x31; 0x32; 0x33]) 16))
      (poly_mul q crc_poly).
Proof.
  apply (crc_is_polynomial_remainder [0x31; 0x32; 0x33] 0). unfold in_u. lia.
Defined.

(** Error detection.  Two messages that differ only in two adjacent bytes
    (any error burst inside a 16-bit item) have different CRCs, whatever
    precedes and follows. *)
Theorem crc_detects_burst (pre post : list Z) (a1 a2 b1 b2 crc : Z) :
  in_u 16 crc -> in_u 8 a1 -> in_u 8 a2 -> in_u 8 b1 -> in_u 8 b2 ->
  (a1, a2) <> (b1, b2) ->
  crc_bytes (pre ++ [a1; a2] ++ post) crc <> crc_bytes (pre ++ [b1; b2] ++ post) crc.
Proof.
  intros Hc Ha1 Ha2 Hb1 Hb2 Hne. rewrite !crc_bytes_app.
  intros E%crc_bytes_inj; [| auto with crc..]. apply Hne.
  destruct (crcu16_pair_inj a1 a2 b1 b2 (crc_bytes pre crc)) as [-> ->]; auto with crc.
Qed.

Lemma crc_detects_burst_witness :
  crc_bytes ([7] ++ [1; 2] ++ [9]) 0 <> crc_bytes ([7] ++ [1; 3] ++ [9]) 0.
Proof.
  apply (crc_detects_burst [7] [9] 1 2 1 3 0); unfold in_u; lia || congruence.
Defined.

(** One CRC update is linear over GF(2) in the 16-bit item and the
    register together. *)
Theorem crc16_linear (v1 v2 c1 c2 : Z) :
  in_u 16 c1 -> in_u 16 c2 ->
  crc16 (Z.lxor v1 v2) (Z.lxor c1 c2) = Z.lxor (crc16 v1 c1) (crc16 v2 c2).
Proof. intros. unfold crc16. rewrite u16_lxor. by apply crcu16_lxor. Qed.

Lemma crc16_linear_witness :
  crc16 (Z.lxor (-5) 77) (Z.lxor 0x1234 0xfedc) =
  Z.lxor (crc16 (-5) 0x1234) (crc16 77 0xfedc).
Proof. apply (crc16_linear (-5) 77 0x1234 0xfedc); unfold in_u; lia. Defined.
