(* ===== verification/StateMachine.v ===== *)
(** * The state-machine benchmark of core_state.c

    [core_init_state] fills a block with comma-separated tokens,
    [core_state_transition] scans one token and classifies it, and
    [core_bench_state] scans the block twice, once as it is and once with
    some bytes corrupted, and folds the visit counts into a CRC. *)

From Stdlib Require Import String ZArith Lia.
From stdpp Require Import base list numbers decidable.

From S2P Require Import Prelude Crc.

Local Open Scope Z_scope.
Local Open Scope cm_scope.

(** ** Data *)

Inductive core_state_e :=
| CORE_START | CORE_INVALID | CORE_S1 | CORE_S2
| CORE_INT | CORE_FLOAT | CORE_EXPONENT | CORE_SCIENTIFIC.

#[export] Instance core_state_e_eq_dec : EqDecision core_state_e.
Proof. solve_decision. Defined.

(** The values of the enumeration. *)
Definition state_ix (s : core_state_e) : Z :=
  match s with
  | CORE_START => 0 | CORE_INVALID => 1 | CORE_S1 => 2 | CORE_S2 => 3
  | CORE_INT => 4 | CORE_FLOAT => 5 | CORE_EXPONENT => 6 | CORE_SCIENTIFIC => 7
  end.
Definition NUM_CORE_STATES : nat := 8.

(** The memory the routine works on: the input block it is given and its two
    local arrays of counters. *)
Record smem := SMem { blk : list Z; final_counts : list Z; track_counts : list Z }.

Definition ch_plus : Z := 43.   (* '+' *)
Definition ch_comma : Z := 44.  (* ',' *)
Definition ch_minus : Z := 45.  (* '-' *)
Definition ch_dot : Z := 46.    (* '.' *)
Definition ch_0 : Z := 48.      (* '0' *)
Definition ch_9 : Z := 57.      (* '9' *)
Definition ch_E : Z := 69.      (* 'E' *)
Definition ch_e : Z := 101.     (* 'e' *)

(** ** Operations *)

(** [*p] for a pointer into the block, given by its offset. *)
Definition load (p : Z) : M smem Z :=
  let! b := gets blk in oget OutOfBounds (arr_get b p).

Definition store (p v : Z) : M smem unit :=
  let! b := gets blk in
  let! b' := oget OutOfBounds (arr_set b p v) in
  modify (fun s => SMem b' (final_counts s) (track_counts s)).

(** [transition_count[s]++] and [final_counts[s]++] *)
Definition count_track (s : core_state_e) : M smem unit :=
  let! c := gets track_counts in
  let! v := oget OutOfBounds (arr_get c (state_ix s)) in
  let! c' := oget OutOfBounds (arr_set c (state_ix s) (u32 (v + 1))) in
  modify (fun m => SMem (blk m) (final_counts m) c').

Definition count_final (s : core_state_e) : M smem unit :=
  let! c := gets final_counts in
  let! v := oget OutOfBounds (arr_get c (state_ix s)) in
  let! c' := oget OutOfBounds (arr_set c (state_ix s) (u32 (v + 1))) in
  modify (fun m => SMem (blk m) c' (track_counts m)).

Definition ee_isdigit (c : Z) : Z := if (ch_0 <=? c) && (c <=? ch_9) then 1 else 0.

(** The [switch] of [core_state_transition]: the next state, and the counters
    of the transition. *)
Definition transition_switch (state : core_state_e) (NEXT_SYMBOL : Z)
  : M smem core_state_e :=
  let digit := truth (ee_isdigit NEXT_SYMBOL) in
  let sign := (NEXT_SYMBOL =? ch_plus) || (NEXT_SYMBOL =? ch_minus) in
  match state with
  | CORE_START =>
      let! state :=
        if digit then ret CORE_INT
        else if sign then ret CORE_S1
        else if NEXT_SYMBOL =? ch_dot then ret CORE_FLOAT
        else count_track CORE_INVALID ;; ret CORE_INVALID in
      count_track CORE_START ;; ret state
  | CORE_S1 =>
      if digit then count_track CORE_S1 ;; ret CORE_INT
      else if NEXT_SYMBOL =? ch_dot then count_track CORE_S1 ;; ret CORE_FLOAT
      else count_track CORE_S1 ;; ret CORE_INVALID
  | CORE_INT =>
      if NEXT_SYMBOL =? ch_dot then count_track CORE_INT ;; ret CORE_FLOAT
      else if negb digit then count_track CORE_INT ;; ret CORE_INVALID
      else ret CORE_INT
  | CORE_FLOAT =>
      if (NEXT_SYMBOL =? ch_E) || (NEXT_SYMBOL =? ch_e)
      then count_track CORE_FLOAT ;; ret CORE_S2
      else if negb digit then count_track CORE_FLOAT ;; ret CORE_INVALID
      else ret CORE_FLOAT
  | CORE_S2 =>
      if sign then count_track CORE_S2 ;; ret CORE_EXPONENT
      else count_track CORE_S2 ;; ret CORE_INVALID
  | CORE_EXPONENT =>
      if digit then count_track CORE_EXPONENT ;; ret CORE_SCIENTIFIC
      else count_track CORE_EXPONENT ;; ret CORE_INVALID
  | CORE_SCIENTIFIC =>
      if negb digit then count_track CORE_INVALID ;; ret CORE_INVALID
      else ret CORE_SCIENTIFIC
  | CORE_INVALID => ret CORE_INVALID
  end.

(** One evaluation of the condition and body of the [for] loop; [inr] is the
    exit with the final [str] and [state]. *)
Definition transition_body (v : Z * core_state_e)
  : M smem ((Z * core_state_e) + (Z * core_state_e)) :=
  let '(str, state) := v in
  let! NEXT_SYMBOL := load str in
  if negb (truth NEXT_SYMBOL && negb (bool_decide (state = CORE_INVALID)))
  then ret (inr (str, state))
  else if NEXT_SYMBOL =? ch_comma then ret (inr (str + 1, state))
  else
    let! state := transition_switch state NEXT_SYMBOL in
    ret (inl (str + 1, state)).

(** Returns the new [*instr] and the end state. *)
Definition core_state_transition (instr : Z) : M smem (Z * core_state_e) :=
  iter transition_body (instr, CORE_START).

(** [while ( *p != 0) { fstate = core_state_transition(&p, track_counts);
    final_counts[fstate]++; }] *)
Definition scan_loop (p : Z) : M smem Z :=
  while (fun p => let! c := load p in ret (truth c))
    (fun p =>
       let! (p, fstate) := core_state_transition p in
       count_final fstate ;; ret p) p.

(** [while (p < memblock + blksize) { if ( *p != ',') *p ^= (ee_u8)seed;
    p += step; }] *)
Definition corrupt_loop (blksize seed step p : Z) : M smem Z :=
  while (fun p => ret (p <? blksize))
    (fun p =>
       let! c := load p in
       (if negb (c =? ch_comma) then store p (u8 (Z.lxor c (u8 seed))) else ret tt) ;;
       ret (p + step)) p.

Definition core_bench_state_body (blksize seed1 seed2 step crc : Z) : M smem Z :=
  modify (fun m => SMem (blk m) (replicate NUM_CORE_STATES 0) (replicate NUM_CORE_STATES 0)) ;;
  scan_loop 0 ;;
  corrupt_loop blksize seed1 step 0 ;;
  scan_loop 0 ;;
  corrupt_loop blksize seed2 step 0 ;;
  for_n NUM_CORE_STATES 0 (fun i crc =>
    let! f := gets final_counts in
    let! fi := oget OutOfBounds (arr_get f i) in
    let crc := crcu32 fi crc in
    let! t := gets track_counts in
    let! ti := oget OutOfBounds (arr_get t i) in
    let crc := crcu32 ti crc in
    ret crc) crc.

(** The routine on the block it is passed; the counters are its locals. *)
Definition core_bench_state (blksize seed1 seed2 step crc : Z) : M (list Z) Z :=
  zoom (fun b => SMem b [] []) (fun m _ => blk m)
    (core_bench_state_body blksize seed1 seed2 step crc).

(** *** Initialisation *)

Definition intpat (i : Z) : option (list Z) :=
  arr_get [bytes "5012"; bytes "1234"; bytes "-874"; bytes "+122"] i.
Definition floatpat (i : Z) : option (list Z) :=
  arr_get [bytes "35.54400"; bytes ".1234500"; bytes "-110.700"; bytes "+0.64400"] i.
Definition scipat (i : Z) : option (list Z) :=
  arr_get [bytes "5.500e+3"; bytes "-.123e-2"; bytes "-87e+832"; bytes "+0.6e-12"] i.
Definition errpat (i : Z) : option (list Z) :=
  arr_get [bytes "T0.3e-1F"; bytes "-T.T++Tq"; bytes "1T3.4e4z"; bytes "34.0e-T^"] i.

(** The [switch (seed & 0x7)]: the pattern and its length. *)
Definition choose_pattern (seed : Z) : option (list Z * Z) :=
  let i := Z.land (Z.shiftr seed 3) 0x3 in
  match Z.land seed 0x7 with
  | 0 | 1 | 2 => (fun b => (b, 4)) <$> intpat i
  | 3 | 4 => (fun b => (b, 8)) <$> floatpat i
  | 5 | 6 => (fun b => (b, 8)) <$> scipat i
  | 7 => (fun b => (b, 8)) <$> errpat i
  | _ => None
  end.

Definition put (p v : Z) : M (list Z) unit :=
  let! b := gets id in
  let! b' := oget OutOfBounds (arr_set b p v) in
  modify (fun _ => b').

(** [for (i = 0; i < next; i++) *(p + total + i) = buf[i]; *(p + total + i) = ',';] *)
Definition write_token (total next : Z) (buf : list Z) : M (list Z) unit :=
  for_n (Z.to_nat next) 0 (fun i _ =>
    let! c := oget OutOfBounds (arr_get buf i) in put (total + i) c) tt ;;
  put (total + next) ch_comma.

Definition core_init_state (size seed : Z) : M (list Z) unit :=
  let size := u32 (size - 1) in
  let! (total, _, _, _) :=
    while (fun '(total, next, seed, buf) => ret (u32 (total + next + 1) <? size))
      (fun '(total, next, seed, buf) =>
         let! total :=
           if 0 <? next
           then write_token total next buf ;; ret (u32 (total + (next + 1)))
           else ret total in
         let seed := s16 (seed + 1) in
         let! (buf, next) := oget OutOfBounds (choose_pattern seed) in
         ret (total, next, seed, buf))
      (0, 0, seed, []) in
  let size := u32 (size + 1) in
  while (fun total => ret (total <? size))
    (fun total => put total 0 ;; ret (total + 1)) total ;;
  ret tt.

(** ** The machine as an automaton *)

(** The next-state function underlying [transition_switch]. *)
Definition next_state (state : core_state_e) (c : Z) : core_state_e :=
  let digit := truth (ee_isdigit c) in
  let sign := (c =? ch_plus) || (c =? ch_minus) in
  match state with
  | CORE_START =>
      if digit then CORE_INT else if sign then CORE_S1
      else if c =? ch_dot then CORE_FLOAT else CORE_INVALID
  | CORE_S1 =>
      if digit then CORE_INT else if c =? ch_dot then CORE_FLOAT else CORE_INVALID
  | CORE_INT =>
      if c =? ch_dot then CORE_FLOAT else if digit then CORE_INT else CORE_INVALID
  | CORE_FLOAT =>
      if (c =? ch_E) || (c =? ch_e) then CORE_S2
      else if digit then CORE_FLOAT else CORE_INVALID
  | CORE_S2 => if sign then CORE_EXPONENT else CORE_INVALID
  | CORE_EXPONENT => if digit then CORE_SCIENTIFIC else CORE_INVALID
  | CORE_SCIENTIFIC => if digit then CORE_SCIENTIFIC else CORE_INVALID
  | CORE_INVALID => CORE_INVALID
  end.

Definition run_fsm (w : list Z) : core_state_e := fold_left next_state w CORE_START.

(** The counters are arrays of [NUM_CORE_STATES] cells, which every state
    indexes. *)
Definition counters_ok (m : smem) : Prop :=
  length (final_counts m) = NUM_CORE_STATES /\ length (track_counts m) = NUM_CORE_STATES.

Lemma state_ix_range (s : core_state_e) : 0 <= state_ix s < 8.
Proof. destruct s; cbn; lia. Qed.

(** Counting changes nothing but the counters. *)
Definition same_block (m m' : smem) : Prop := blk m' = blk m /\ counters_ok m'.

Lemma wp_count_track s Q m :
  counters_ok m -> (forall m', same_block m m' -> Q tt m') -> wp (count_track s) Q m.
Proof.
  intros [Hf Ht] HQ. unfold count_track. wp_simpl. pose proof (state_ix_range s).
  destruct (arr_get_is_Some (track_counts m) (state_ix s)) as [v Hv].
  { rewrite Ht. unfold NUM_CORE_STATES. lia. }
  rewrite wp_oget. exists v. split; [done |]. wp_simpl. rewrite wp_oget.
  rewrite arr_set_Some by (rewrite Ht; unfold NUM_CORE_STATES; lia).
  eexists; split; [done |]. wp_simpl. apply HQ. split; [done |].
  split; [done |]. cbn. by rewrite length_insert.
Qed.

Lemma wp_count_final s Q m :
  counters_ok m -> (forall m', same_block m m' -> Q tt m') -> wp (count_final s) Q m.
Proof.
  intros [Hf Ht] HQ. unfold count_final. wp_simpl. pose proof (state_ix_range s).
  destruct (arr_get_is_Some (final_counts m) (state_ix s)) as [v Hv].
  { rewrite Hf. unfold NUM_CORE_STATES. lia. }
  rewrite wp_oget. exists v. split; [done |]. wp_simpl. rewrite wp_oget.
  rewrite arr_set_Some by (rewrite Hf; unfold NUM_CORE_STATES; lia).
  eexists; split; [done |]. wp_simpl. apply HQ. split; [done |].
  split; [| done]. cbn. by rewrite length_insert.
Qed.

Lemma same_block_trans m1 m2 m3 : same_block m1 m2 -> same_block m2 m3 -> same_block m1 m3.
Proof. intros [E1 _] [E2 H2]. split; [congruence | done]. Qed.

(** The [switch] moves to [next_state] and only touches the counters. *)
Lemma wp_transition_switch st c Q m :
  counters_ok m -> (forall m', same_block m m' -> Q (next_state st c) m') ->
  wp (transition_switch st c) Q m.
Proof.
  intros Hm HQ. assert (same_block m m) as Hid by done.
  unfold transition_switch, next_state in *.
  destruct st; wp_simpl; repeat case_match; cbn [negb] in *; simplify_eq; wp_simpl;
    repeat (apply wp_count_track; [done || (match goal with H : same_block _ _ |- _ => apply H end) |];
            intros ? ?; wp_simpl);
    eauto using same_block_trans.
Qed.

(** ** Scanning one token *)

(** What [core_state_transition] computes on the bytes [l] from its input
    pointer on: the end state and the number of bytes consumed. *)
Fixpoint scan_token (st : core_state_e) (l : list Z) : core_state_e * Z :=
  match l with
  | [] => (st, 0)
  | c :: l' =>
      if negb (truth c && negb (bool_decide (st = CORE_INVALID))) then (st, 0)
      else if c =? ch_comma then (st, 1)
      else let '(st', n) := scan_token (next_state st c) l' in (st', 1 + n)
  end.

(** The bytes of the block from offset [p] on. *)
Definition rest (b : list Z) (p : Z) : list Z := drop (Z.to_nat p) b.

Lemma rest_cons b p c : 0 <= p -> arr_get b p = Some c -> rest b p = c :: rest b (p + 1).
Proof.
  intros Hp Hc. unfold arr_get, rest in *. rewrite (proj2 (Z.leb_le _ _)) in Hc by lia.
  rewrite (drop_S b c) by done. do 2 f_equal. lia.
Qed.

Lemma rest_nonempty b p : 0 <= p -> 0 ∈ rest b p -> exists c, arr_get b p = Some c.
Proof.
  intros Hp Hz. unfold arr_get, rest in *. rewrite (proj2 (Z.leb_le _ _)) by lia.
  destruct (b !! Z.to_nat p) as [c |] eqn:E; [by exists c |].
  apply lookup_ge_None in E. rewrite drop_ge in Hz by done. by apply not_elem_of_nil in Hz.
Qed.

Lemma wp_load p c Q m : arr_get (blk m) p = Some c -> wp (load p) Q m <-> Q c m.
Proof.
  intros Hc. unfold load. wp_simpl. rewrite wp_oget, Hc.
  split; [by intros (c' & [= ->] & HQ) | eauto].
Qed.

Lemma wp_core_state_transition p Q m :
  counters_ok m -> 0 <= p -> 0 ∈ rest (blk m) p ->
  Z.of_nat (length (blk m)) < Zpos budget ->
  (forall m' st n, same_block m m' -> scan_token CORE_START (rest (blk m) p) = (st, n) ->
     Q (p + n, st) m') ->
  wp (core_state_transition p) Q m.
Proof.
  intros Hm Hp Hz Hb HQ. unfold core_state_transition.
  destruct (scan_token CORE_START (rest (blk m) p)) as [stE nE] eqn:HE.
  apply (wp_iter
    (fun v m' => same_block m m' /\ 0 <= v.1 /\ 0 ∈ rest (blk m) v.1 /\
       exists n, scan_token v.2 (rest (blk m) v.1) = (stE, n) /\ v.1 + n = p + nE)
    (fun v _ => Z.of_nat (length (blk m)) - v.1)).
  - cbn [fst snd]. split_and!; eauto; done.
  - cbn [fst]. lia.
  - intros [str st] m1 ([Hbk Hc] & Hs & Hz1 & n & Hn & Hpn). cbn [fst snd] in *.
    destruct (rest_nonempty _ _ Hs Hz1) as [c Hget].
    pose proof (arr_get_Some _ _ _ Hget). split; [lia |].
    unfold transition_body. rewrite wp_bind.
    rewrite (wp_load _ c) by congruence.
    rewrite (rest_cons _ _ c) in Hn, Hz1 by done. cbn [scan_token] in Hn.
    destruct (negb _) eqn:Hcond; wp_simpl.
    { injection Hn as -> <-. replace str with (p + nE) by lia. by apply HQ. }
    destruct (c =? ch_comma); wp_simpl.
    { injection Hn as -> <-. rewrite Hpn. by apply HQ. }
    destruct (scan_token (next_state st c) (rest (blk m) (str + 1))) as [st' n'] eqn:Hst.
    injection Hn as -> <-.
    apply wp_transition_switch; [done |]. intros m2 Hm2. wp_simpl. cbn [fst snd].
    split_and!; [| lia | | | lia].
    + eapply same_block_trans; [| done]. done.
    + apply elem_of_cons in Hz1 as [<- |]; [| done]. discriminate Hcond.
    + exists n'. split; [done | lia].
Qed.

(** A token that starts before the terminating NUL ends at or before it, and
    is not empty. *)
Lemma scan_token_bounds st l n st' (k : nat) :
  scan_token st l = (st', n) -> l !! k = Some 0 -> 0 <= n <= Z.of_nat k.
Proof.
  revert st n k. induction l as [| c l IH]; intros st n k; [done |].
  cbn [scan_token]. destruct (negb _) eqn:Hcond; [intros [= <- <-]; lia |].
  intros Hs Hk. destruct k as [| k]; [injection Hk as ->; discriminate Hcond |].
  cbn in Hk. destruct (c =? ch_comma); [injection Hs as <- <-; lia |].
  destruct (scan_token (next_state st c) l) as [st1 n1] eqn:E.
  injection Hs as <- <-. pose proof (IH _ _ _ E Hk). lia.
Qed.

Lemma scan_token_nonneg st l : 0 <= (scan_token st l).2.
Proof.
  revert st. induction l as [| c l IH]; intros st; cbn [scan_token]; [done |].
  destruct (negb _), (c =? ch_comma); [cbn; lia.. |].
  specialize (IH (next_state st c)). destruct (scan_token _ l). cbn in *. lia.
Qed.

Lemma scan_token_progress c l st n :
  c <> 0 -> scan_token CORE_START (c :: l) = (st, n) -> 1 <= n.
Proof.
  intros Hc. cbn [scan_token].
  assert (truth c = true) as -> by (unfold truth; by rewrite (proj2 (Z.eqb_neq _ _))).
  change (bool_decide (CORE_START = CORE_INVALID)) with false. cbn [negb andb].
  pose proof (scan_token_nonneg (next_state CORE_START c) l) as Hn.
  destruct (c =? ch_comma), (scan_token (next_state CORE_START c) l); intros [=];
    cbn in *; lia.
Qed.

(** ** The language of each end state

    The tokens the machine tells apart, as words over character codes.
    [number_prefix] is an optional sign. *)

Definition is_digit (c : Z) : Prop := ch_0 <= c <= ch_9.
Definition is_sign (c : Z) : Prop := c = ch_plus \/ c = ch_minus.
Definition sign_opt (s : list Z) : Prop := s = [] \/ exists c, s = [c] /\ is_sign c.
Definition digits (w : list Z) : Prop := Forall is_digit w.

(** sign? digit+ *)
Definition int_word (w : list Z) : Prop :=
  exists s d, w = s ++ d /\ sign_opt s /\ digits d /\ d <> [].
(** sign? digit* '.' digit* *)
Definition float_word (w : list Z) : Prop :=
  exists s d f, w = s ++ d ++ [ch_dot] ++ f /\ sign_opt s /\ digits d /\ digits f.
(** float ('e' | 'E') *)
Definition s2_word (w : list Z) : Prop :=
  exists f e, w = f ++ [e] /\ float_word f /\ (e = ch_E \/ e = ch_e).
(** float ('e' | 'E') sign *)
Definition exponent_word (w : list Z) : Prop :=
  exists f s, w = f ++ [s] /\ s2_word f /\ is_sign s.
(** float ('e' | 'E') sign digit+ *)
Definition scientific_word (w : list Z) : Prop :=
  exists f d, w = f ++ d /\ exponent_word f /\ digits d /\ d <> [].

Definition state_word (st : core_state_e) (w : list Z) : Prop :=
  match st with
  | CORE_START => w = []
  | CORE_S1 => exists c, w = [c] /\ is_sign c
  | CORE_INT => int_word w
  | CORE_FLOAT => float_word w
  | CORE_S2 => s2_word w
  | CORE_EXPONENT => exponent_word w
  | CORE_SCIENTIFIC => scientific_word w
  | CORE_INVALID => True
  end.

Lemma isdigit_spec c : truth (ee_isdigit c) = true <-> is_digit c.
Proof.
  unfold ee_isdigit, is_digit, truth.
  destruct (Z.leb_spec ch_0 c), (Z.leb_spec c ch_9); cbn; split; lia || done.
Qed.

Lemma sign_spec c : (c =? ch_plus) || (c =? ch_minus) = true <-> is_sign c.
Proof. unfold is_sign. rewrite orb_true_iff, !Z.eqb_eq. done. Qed.

Lemma run_fsm_snoc w c : run_fsm (w ++ [c]) = next_state (run_fsm w) c.
Proof. unfold run_fsm. by rewrite fold_left_app. Qed.

(** Soundness: the word read so far belongs to the language of the state. *)
Lemma state_word_step st w c :
  state_word st w -> state_word (next_state st c) (w ++ [c]).
Proof.
  assert (forall b d, digits d -> is_digit b -> digits (d ++ [b])) as Hsnoc
    by (intros; apply Forall_app_2; [done | by constructor]).
  intros Hw. unfold next_state.
  destruct st; repeat case_match; try done; cbn [state_word] in *;
    repeat match goal with
    | H : truth (ee_isdigit _) = true |- _ => apply isdigit_spec in H
    | H : _ || _ = true |- _ => first [apply sign_spec in H | apply orb_true_iff in H;
        rewrite !Z.eqb_eq in H]
    | H : (_ =? _) = true |- _ => apply Z.eqb_eq in H; subst
    end; subst; unfold int_word, float_word, s2_word, exponent_word, scientific_word in *.
  - exists [], [c]. split_and!; [done | by left | by constructor | done].
  - by exists c.
  - exists [], [], []. split_and!; [done | by left | constructor..].
  - destruct Hw as (s & -> & Hs). exists [s], [c].
    split_and!; [done | right; eauto | by constructor | done].
  - destruct Hw as (s & -> & Hs). exists [s], [], [].
    split_and!; [done | right; eauto | constructor..].
  - by exists w, c.
  - destruct Hw as (s & d & -> & Hs & Hd & Hne). exists s, d, [].
    split_and!; [by rewrite <- app_assoc | done | done | constructor].
  - destruct Hw as (s & d & -> & Hs & Hd & Hne). exists s, (d ++ [c]).
    split_and!; [by rewrite <- app_assoc | done | eauto | by destruct d].
  - by exists w, c.
  - destruct Hw as (s & d & f & -> & Hs & Hd & Hf). exists s, d, (f ++ [c]).
    split_and!; [by rewrite <- !app_assoc | done | done | eauto].
  - exists w, [c]. split_and!; [done | done | by constructor | done].
  - destruct Hw as (f & d & -> & Hf & Hd & Hne). exists f, (d ++ [c]).
    split_and!; [by rewrite <- app_assoc | done | eauto | by destruct d].
Qed.

Lemma run_fsm_sound w : state_word (run_fsm w) w.
Proof.
  induction w as [| c w IH] using rev_ind; [done |].
  rewrite run_fsm_snoc. by apply state_word_step.
Qed.

Lemma next_state_digit st c : is_digit c ->
  next_state st c =
  match st with
  | CORE_START | CORE_S1 | CORE_INT => CORE_INT
  | CORE_FLOAT => CORE_FLOAT
  | CORE_EXPONENT | CORE_SCIENTIFIC => CORE_SCIENTIFIC
  | CORE_S2 | CORE_INVALID => CORE_INVALID
  end.
Proof.
  intros Hd. unfold next_state. rewrite (proj2 (isdigit_spec c) Hd).
  unfold is_digit, ch_0, ch_9, ch_dot, ch_E, ch_e, ch_plus, ch_minus in *.
  destruct st; rewrite ?(proj2 (Z.eqb_neq c _)) by lia; done.
Qed.

Lemma run_digits st d : digits d -> d <> [] ->
  fold_left next_state d st =
  match st with
  | CORE_START | CORE_S1 | CORE_INT => CORE_INT
  | CORE_FLOAT => CORE_FLOAT
  | CORE_EXPONENT | CORE_SCIENTIFIC => CORE_SCIENTIFIC
  | CORE_S2 | CORE_INVALID => CORE_INVALID
  end.
Proof.
  intros Hd. revert st. induction Hd as [| c d Hc Hd IH]; intros st; [done |].
  intros _. cbn [fold_left]. rewrite next_state_digit by done.
  destruct d as [| c' d]; [by destruct st |]. rewrite IH by done. by destruct st.
Qed.

Lemma run_sign_opt s : sign_opt s -> run_fsm s = CORE_START \/ run_fsm s = CORE_S1.
Proof. intros [-> | (c & -> & [-> | ->])]; [by left | by right..]. Qed.

Lemma run_float_word w : float_word w -> run_fsm w = CORE_FLOAT.
Proof.
  intros (s & d & f & -> & Hs & Hd & Hf). unfold run_fsm. rewrite !fold_left_app.
  fold (run_fsm s). cbn [fold_left].
  assert (next_state (fold_left next_state d (run_fsm s)) ch_dot = CORE_FLOAT) as ->.
  { destruct (decide (d = [])) as [-> | Hne].
    - cbn. by destruct (run_sign_opt s Hs) as [-> | ->].
    - rewrite run_digits by done. by destruct (run_sign_opt s Hs) as [-> | ->]. }
  destruct (decide (f = [])) as [-> | Hne]; [done | by rewrite run_digits].
Qed.

Lemma run_exponent_word w : exponent_word w -> run_fsm w = CORE_EXPONENT.
Proof.
  intros (f & s & -> & (g & e & -> & Hg & He) & Hs).
  rewrite !run_fsm_snoc, run_float_word by done.
  by destruct He as [-> | ->], Hs as [-> | ->].
Qed.

(** Completeness: a word of a language leads to its state. *)
Lemma run_fsm_complete st w : st <> CORE_INVALID -> state_word st w -> run_fsm w = st.
Proof.
  intros Hst. destruct st; cbn [state_word]; [| done | ..].
  - by intros ->.
  - by intros (c & -> & [-> | ->]).
  - intros (f & e & -> & Hf & He). rewrite run_fsm_snoc, run_float_word by done.
    by destruct He as [-> | ->].
  - intros (s & d & -> & Hs & Hd & Hne). unfold run_fsm. rewrite fold_left_app.
    fold (run_fsm s). rewrite run_digits by done.
    by destruct (run_sign_opt s Hs) as [-> | ->].
  - apply run_float_word.
  - apply run_exponent_word.
  - intros (f & d & -> & Hf & Hd & Hne). unfold run_fsm. rewrite fold_left_app.
    fold (run_fsm f). by rewrite run_exponent_word, run_digits.
Qed.

(** Once invalid, always invalid: the scan of a whole word and the run of the
    automaton agree unless the scan stopped early. *)
Lemma run_invalid w : fold_left next_state w CORE_INVALID = CORE_INVALID.
Proof. induction w; done. Qed.

(** A word without separators, as it stands between two of them. *)
Definition token (w : list Z) : Prop := Forall (fun c => c <> 0 /\ c <> ch_comma) w.

Lemma scan_token_word st w l :
  token w -> fold_left next_state w st <> CORE_INVALID ->
  scan_token st (w ++ ch_comma :: l) =
    (fold_left next_state w st, Z.of_nat (length w) + 1) /\
  scan_token st (w ++ 0 :: l) = (fold_left next_state w st, Z.of_nat (length w)).
Proof.
  intros Hw. revert st. induction Hw as [| c w [Hc0 Hcc] Hw IH]; intros st Hst.
  - cbn [fold_left] in Hst. cbn [app scan_token fold_left length].
    rewrite bool_decide_false by done. done.
  - cbn [fold_left] in *. destruct (IH _ Hst) as [E1 E2].
    assert (st <> CORE_INVALID) by (intros ->; by rewrite run_invalid in Hst).
    cbn [app scan_token]. unfold truth. rewrite (proj2 (Z.eqb_neq c 0)) by done.
    rewrite bool_decide_false, (proj2 (Z.eqb_neq c ch_comma)) by done. cbn [negb andb].
    rewrite E1, E2. cbn [length]. split; f_equal; lia.
Qed.

(** A word that leaves the language is scanned up to and including the first
    character that has no transition. *)
Lemma scan_token_invalid st w rest :
  token w -> fold_left next_state w st = CORE_INVALID -> st <> CORE_INVALID ->
  exists u c v, w = u ++ c :: v /\ fold_left next_state u st <> CORE_INVALID /\
    fold_left next_state (u ++ [c]) st = CORE_INVALID /\
    scan_token st (w ++ rest) = (CORE_INVALID, Z.of_nat (length u) + 1).
Proof.
  intros Hw. revert st. induction Hw as [| c w [Hc0 Hcc] Hw IH]; intros st Hr Hst; [done |].
  cbn [app scan_token fold_left] in *. unfold truth.
  rewrite (proj2 (Z.eqb_neq c 0)), bool_decide_false, (proj2 (Z.eqb_neq c ch_comma)) by done.
  cbn [negb andb]. destruct (decide (next_state st c = CORE_INVALID)) as [E | E].
  - exists [], c, w. split_and!; try done. rewrite E.
    destruct (w ++ rest); cbn [scan_token]; [done |].
    by rewrite bool_decide_true, andb_false_r by done.
  - destruct (IH _ Hr E) as (u & d & v & -> & Hu & Hud & ->). exists (c :: u), d, v.
    split_and!; try done. cbn [length]. f_equal. lia.
Qed.

(** ** Properties *)

(** C13: [core_state_transition] classifies the token under its pointer.  On a
    block [pre ++ w ++ sep :: l] with [sep] a comma or NUL, it finishes inside
    the block, leaves the block unchanged, and ends in a state other than
    [CORE_INVALID] exactly when [w] belongs to the language of that state
    (integer, float, scientific number, or a prefix of one); then the pointer
    is moved just past the token and its comma.  A token in no language ends in
    [CORE_INVALID] with the pointer just past its first bad character: what is
    before that character is in a language, and with it in none. *)
Theorem core_state_transition_classifies (pre w l f t : list Z) (sep : Z) :
  length f = NUM_CORE_STATES -> length t = NUM_CORE_STATES ->
  token w -> sep = ch_comma \/ sep = 0 -> 0 ∈ sep :: l ->
  Z.of_nat (length (pre ++ w ++ sep :: l)) < 2 ^ 31 ->
  exists p st m,
    core_state_transition (Z.of_nat (length pre)) (SMem (pre ++ w ++ sep :: l) f t)
      = Ok (p, st) m /\
    blk m = pre ++ w ++ sep :: l /\
    (forall s, s <> CORE_INVALID -> st = s <-> state_word s w) /\
    (st <> CORE_INVALID -> p = Z.of_nat (length pre + length w)
                               + (if sep =? ch_comma then 1 else 0)) /\
    (st = CORE_INVALID -> exists u c v, w = u ++ c :: v /\
       (exists s, s <> CORE_INVALID /\ state_word s u) /\
       (forall s, s <> CORE_INVALID -> ~ state_word s (u ++ [c])) /\
       p = Z.of_nat (length pre + length u) + 1).
Proof.
  intros Hf Ht Hw Hsep Hz Hb.
  set (m0 := SMem (pre ++ w ++ sep :: l) f t).
  assert (rest (blk m0) (Z.of_nat (length pre)) = w ++ sep :: l) as Hr.
  { unfold rest. rewrite Nat2Z.id. apply drop_app_length. }
  assert (Hwp : wp (core_state_transition (Z.of_nat (length pre)))
    (fun r m => blk m = pre ++ w ++ sep :: l /\ exists n,
       scan_token CORE_START (w ++ sep :: l) = (r.2, n) /\
       r.1 = Z.of_nat (length pre) + n) m0).
  { apply wp_core_state_transition; [done | lia | | unfold m0; cbn [blk]; budget_lia |].
    - rewrite Hr. apply elem_of_app. by right.
    - rewrite Hr. intros m' st n [Hbk _] Hs. split; [done |]. by exists n. }
  apply wp_ok in Hwp as ([p st] & m & Hrun & Hbk & n & Hs & Hp). cbn [fst snd] in *.
  exists p, st, m. split; [done |]. split; [done |].
  fold (run_fsm w) in *.
  destruct (decide (run_fsm w = CORE_INVALID)) as [Hi | Hi].
  - destruct (scan_token_invalid CORE_START w (sep :: l) Hw Hi ltac:(done)) as (u & c & v & E & Hu & Huc & Es).
    rewrite Hs in Es. injection Es as -> ->. fold (run_fsm u) (run_fsm (u ++ [c])) in *. split_and!; [| done |].
    + intros s Hs'. split; [by intros <- |]. intros Hword. by rewrite (run_fsm_complete s w) in Hi.
    + intros _. exists u, c, v. split_and!; [done | | | lia].
      * exists (run_fsm u). split; [done | apply run_fsm_sound].
      * intros s Hs' Hword. by rewrite (run_fsm_complete s (u ++ [c])) in Huc.
  - destruct (scan_token_word CORE_START w l Hw Hi) as [E1 E2]. fold (run_fsm w) in *.
    assert (st = run_fsm w /\ n = Z.of_nat (length w) + (if sep =? ch_comma then 1 else 0))
      as [-> ->].
    { destruct Hsep as [-> | ->]; rewrite Hs in *; simplify_eq; split; cbn; lia || done. }
    split_and!; [| lia | done]. intros s Hs'. split; [intros <-; apply run_fsm_sound |].
    by apply run_fsm_complete.
Qed.

(** The token "1T3.4e4z" of the error patterns: the scan stops behind the T. *)
Lemma core_state_transition_classifies_witness :
  exists p st m,
    core_state_transition 1 (SMem ([44] ++ bytes "1T3.4e4z" ++ 44 :: [0]) (replicate 8 0) (replicate 8 0))
      = Ok (p, st) m /\
    blk m = [44] ++ bytes "1T3.4e4z" ++ 44 :: [0] /\
    (forall s, s <> CORE_INVALID -> st = s <-> state_word s (bytes "1T3.4e4z")) /\
    (st <> CORE_INVALID -> p = 10) /\
    (st = CORE_INVALID -> exists u c v, bytes "1T3.4e4z" = u ++ c :: v /\
       (exists s, s <> CORE_INVALID /\ state_word s u) /\
       (forall s, s <> CORE_INVALID -> ~ state_word s (u ++ [c])) /\
       p = Z.of_nat (1 + length u) + 1).
Proof.
  apply (core_state_transition_classifies [44] (bytes "1T3.4e4z") [0] (replicate 8 0)
           (replicate 8 0) 44); try reflexivity.
  - repeat constructor; discriminate.
  - left. reflexivity.
  - right. left.
Defined.

Example scan_stops_behind_bad_character :
  match core_state_transition 1 (SMem ([44] ++ bytes "1T3.4e4z" ++ 44 :: [0]) (replicate 8 0) (replicate 8 0)) with
  | Ok r _ => r = (3, CORE_INVALID)
  | Err _ => False
  end.
Proof. vm_compute. reflexivity. Qed.
