(* ===== verification/StateBench.v ===== *)
(** * Safety and restoration of the state-machine benchmark

    The passes of [core_bench_state] and the layout written by
    [core_init_state] (core_state.c; the definitions are in StateMachine.v):
    every access stays inside the block, every loop finishes, and with equal
    seeds the input is restored. *)

From Stdlib Require Import String ZArith Lia.
From stdpp Require Import base list numbers decidable.
From S2P Require Import Prelude Crc StateMachine.

Local Open Scope Z_scope.
Local Open Scope cm_scope.

(** ** The two passes of the benchmark *)

Lemma rest_lookup b p (k : nat) : 0 <= p -> rest b p !! k = b !! (Z.to_nat p + k)%nat.
Proof. intros. unfold rest. apply lookup_drop. Qed.

(** A scan of a block with a NUL at [k], started at or before it, stays inside
    the block and finishes. *)
Lemma wp_scan_loop (k : nat) Q m :
  counters_ok m -> blk m !! k = Some 0 -> Z.of_nat (length (blk m)) < Zpos budget ->
  (forall p m', same_block m m' -> Q p m') ->
  wp (scan_loop 0) Q m.
Proof.
  intros Hm Hk Hb HQ. unfold scan_loop.
  apply (wp_while (fun p m' => same_block m m' /\ 0 <= p <= Z.of_nat k)
           (fun p _ => Z.of_nat k - p)).
  - split_and!; [done.. | lia].
  - apply lookup_lt_Some in Hk. lia.
  - intros p m1 ([Hbk Hc] & Hp). split; [lia |].
    assert (0 ∈ rest (blk m) p) as Hz.
    { apply list_elem_of_lookup. exists (k - Z.to_nat p)%nat.
      rewrite rest_lookup by lia. rewrite <- Hk. f_equal. lia. }
    destruct (rest_nonempty _ _ (proj1 Hp) Hz) as [c Hget]. wp_simpl.
    rewrite (wp_load _ c) by congruence. unfold truth.
    destruct (Z.eqb_spec c 0) as [-> | Hc0]; cbn [negb]; [by apply HQ |].
    wp_simpl. apply wp_core_state_transition; [done | lia | congruence | congruence |].
    intros m2 st n Hm2 Hscan. rewrite Hbk in Hscan. wp_simpl.
    apply wp_count_final; [by apply Hm2 |]. intros m3 Hm3. wp_simpl.
    pose proof Hscan as Hscan'. rewrite (rest_cons _ _ c) in Hscan' by (lia || done).
    apply scan_token_progress in Hscan'; [| done].
    eapply (scan_token_bounds _ _ _ _ (k - Z.to_nat p)) in Hscan;
      [| rewrite rest_lookup by lia; rewrite <- Hk; f_equal; lia].
    split_and!; [| lia..].
    eapply same_block_trans; [| done]. by eapply same_block_trans.
Qed.

(** What the corruption loop does to one byte, and to a block. *)
Definition flip (seed c : Z) : Z := if c =? ch_comma then c else u8 (Z.lxor c (u8 seed)).
Definition corrupt (step seed upto : Z) (b : list Z) : list Z :=
  imap (fun i c =>
    if (Z.of_nat i mod step =? 0) && (Z.of_nat i <? upto) then flip seed c else c) b.

Lemma corrupt_length step seed upto b : length (corrupt step seed upto b) = length b.
Proof. apply length_imap. Qed.

Lemma corrupt_lookup step seed upto b (i : nat) :
  corrupt step seed upto b !! i =
  (fun c => if (Z.of_nat i mod step =? 0) && (Z.of_nat i <? upto) then flip seed c else c)
    <$> b !! i.
Proof. apply list_lookup_imap. Qed.

Lemma corrupt_0 step seed b : corrupt step seed 0 b = b.
Proof.
  apply list_eq. intros i. rewrite corrupt_lookup.
  rewrite (proj2 (Z.ltb_ge _ _)), andb_false_r by lia. by destruct (b !! i).
Qed.

(** One iteration, at a multiple of [step]. *)
Lemma corrupt_step step seed k b c :
  0 < step -> 0 <= k -> b !! Z.to_nat (step * k) = Some c ->
  corrupt step seed (step * k + step) b =
  <[Z.to_nat (step * k) := flip seed c]> (corrupt step seed (step * k) b).
Proof.
  intros Hs Hk Hc. apply list_eq. intros i.
  assert (0 <= step * k) by lia.
  destruct (decide (i = Z.to_nat (step * k))) as [-> | Hne].
  - rewrite list_lookup_insert_eq
      by (rewrite corrupt_length; by apply lookup_lt_Some in Hc).
    rewrite corrupt_lookup, Hc. cbn. rewrite Z2Nat.id by lia.
    rewrite Z.mul_comm, Z.mod_mul by lia. rewrite (proj2 (Z.ltb_lt _ _)) by lia. done.
  - rewrite list_lookup_insert_ne, !corrupt_lookup by done. f_equal.
    enough ((Z.of_nat i mod step =? 0) && (Z.of_nat i <? step * k + step) =
            (Z.of_nat i mod step =? 0) && (Z.of_nat i <? step * k)) as -> by done.
    destruct (Z.eqb_spec (Z.of_nat i mod step) 0) as [E |]; [cbn [andb] | done].
    apply Z.div_exact in E; [| lia].
    destruct (Z.ltb_spec (Z.of_nat i) (step * k + step)),
             (Z.ltb_spec (Z.of_nat i) (step * k)); try done; [exfalso | lia].
    assert (Z.of_nat i / step = k) by nia. apply Hne. lia.
Qed.

Lemma wp_store p v Q m :
  0 <= p < Z.of_nat (length (blk m)) ->
  wp (store p v) Q m <->
  Q tt (SMem (<[Z.to_nat p := v]> (blk m)) (final_counts m) (track_counts m)).
Proof.
  intros Hp. unfold store. wp_simpl. rewrite wp_oget, arr_set_Some by done.
  split; [by intros (b & [= <-] & HQ) | eauto].
Qed.

Lemma wp_corrupt_loop step seed Q m :
  0 < step -> Z.of_nat (length (blk m)) + step < Zpos budget ->
  (forall p, Q p (SMem (corrupt step seed (Z.of_nat (length (blk m))) (blk m))
               (final_counts m) (track_counts m))) ->
  wp (corrupt_loop (Z.of_nat (length (blk m))) seed step 0) Q m.
Proof.
  intros Hs Hb HQ. unfold corrupt_loop. set (n := Z.of_nat (length (blk m))) in *.
  apply (wp_while (fun p m' => exists k, 0 <= k /\ p = step * k /\ p < n + step /\
           m' = SMem (corrupt step seed p (blk m)) (final_counts m) (track_counts m))
           (fun p _ => n + step - p)).
  - exists 0. rewrite Z.mul_0_r, corrupt_0. split_and!; [lia | done | lia | by destruct m].
  - lia.
  - intros p m1 (k & Hk & -> & Hlt & ->). split; [lia |]. wp_simpl.
    destruct (Z.ltb_spec (step * k) n) as [Hin | Hout].
    + wp_simpl. destruct (lookup_lt_is_Some_2 (blk m) (Z.to_nat (step * k))) as [c Hc]; [lia |].
      rewrite (wp_load _ c).
      2: { cbn [blk]. rewrite <- (Z2Nat.id (step * k)) at 2 by lia.
           rewrite arr_get_nat, corrupt_lookup, Hc. cbn. rewrite Z2Nat.id by lia.
           rewrite Z.ltb_irrefl, andb_false_r. done. }
      assert (Hnext : exists k', 0 <= k' /\ step * k + step = step * k' /\
                step * k + step < n + step /\
                SMem (<[Z.to_nat (step * k) := flip seed c]> (corrupt step seed (step * k) (blk m)))
                  (final_counts m) (track_counts m) =
                SMem (corrupt step seed (step * k + step) (blk m))
                  (final_counts m) (track_counts m)).
      { exists (k + 1). split_and!; [lia | lia | lia |].
        f_equal. symmetry. by apply corrupt_step. }
      unfold flip in Hnext. destruct (c =? ch_comma) eqn:Ec; cbn [negb].
      * wp_simpl. split; [| lia]. destruct Hnext as (k' & ? & ? & ? & E).
        exists k'. split_and!; [done.. |]. rewrite <- E. f_equal. symmetry.
        apply list_insert_id. rewrite corrupt_lookup, Hc. cbn.
        unfold flip. rewrite Ec. by destruct (_ && _).
      * rewrite wp_bind, wp_store by (cbn [blk]; rewrite corrupt_length; lia). wp_simpl.
        split; [exact Hnext | lia].
    + enough (corrupt step seed (step * k) (blk m) = corrupt step seed n (blk m)) as ->
        by apply HQ.
      apply list_eq. intros i. rewrite !corrupt_lookup.
      destruct (blk m !! i) eqn:E; [| done]. apply lookup_lt_Some in E. cbn.
      by rewrite !(proj2 (Z.ltb_lt _ _)) by lia.
Qed.

(** *** The input is terminated *)

(** [core_init_state] leaves at least two NULs at the end; one of them
    survives the corruption, whose step is at least 2. *)
Definition terminated (b : list Z) : Prop := exists pre, b = pre ++ [0; 0].

Lemma corrupt_terminated step seed upto b :
  2 <= step -> terminated b -> exists k : nat, corrupt step seed upto b !! k = Some 0.
Proof.
  intros Hs (pre & ->). set (n := length pre).
  assert (forall j, (j < 2)%nat -> (pre ++ [0; 0]) !! (n + j)%nat = Some 0) as Hz.
  { intros j Hj. rewrite lookup_app_r by lia. replace (n + j - length pre)%nat with j by lia.
    destruct j as [| [|]]; [done | done | lia]. }
  destruct (Z.eqb_spec (Z.of_nat n mod step) 0) as [E | E].
  - exists (n + 1)%nat. rewrite corrupt_lookup, Hz by lia. cbn.
    rewrite (proj2 (Z.eqb_neq _ _)); [done |]. apply Z.div_exact in E; [| lia].
    intros F. apply Z.div_exact in F; [| lia].
    revert E F. generalize (Z.of_nat n / step) (Z.of_nat (n + 1) / step). intros q1 q2 E F.
    assert (step * (q2 - q1) = 1) as G by lia. apply Z.mul_eq_1 in G. lia.
  - exists (n + 0)%nat. rewrite corrupt_lookup, Hz by lia. cbn.
    rewrite Nat.add_0_r. by rewrite (proj2 (Z.eqb_neq _ _)).
Qed.

Lemma terminated_NUL b : terminated b -> exists k : nat, b !! k = Some 0.
Proof.
  intros (pre & ->). exists (length pre).
  rewrite lookup_app_r by lia. by rewrite Nat.sub_diag.
Qed.

(** Two rounds of corruption with equal seeds restore a byte, unless the first
    round turned it into a comma. *)
Definition restorable (seed c : Z) : Prop :=
  in_u 8 c /\ (c = ch_comma \/ Z.lxor c (u8 seed) <> ch_comma).

Lemma flip_flip seed1 seed2 c :
  u8 seed1 = u8 seed2 -> restorable seed1 c -> flip seed2 (flip seed1 c) = c.
Proof.
  intros Hs [Hc Hr]. unfold flip. rewrite <- Hs.
  destruct (Z.eqb_spec c ch_comma) as [-> | Hne]; [done |].
  destruct Hr as [-> | Hr]; [done |].
  assert (in_u 8 (u8 seed1)) as Hu by (apply uwrap_range; lia).
  assert (u8 (Z.lxor c (u8 seed1)) = Z.lxor c (u8 seed1)) as ->
    by (apply uwrap_id; [lia |]; by apply in_u_lxor).
  rewrite (proj2 (Z.eqb_neq _ _)) by done.
  rewrite Z.lxor_assoc, Z.lxor_nilpotent, Z.lxor_0_r. by apply uwrap_id.
Qed.

Lemma corrupt_restores step seed1 seed2 n b :
  u8 seed1 = u8 seed2 -> Forall (restorable seed1) b ->
  corrupt step seed2 n (corrupt step seed1 n b) = b.
Proof.
  intros Hs Hb. apply list_eq. intros i. rewrite !corrupt_lookup.
  destruct (b !! i) as [c |] eqn:E; [| done]. cbn.
  rewrite Forall_lookup in Hb. specialize (Hb i c E).
  destruct (_ && _); [| done]. f_equal. by apply flip_flip.
Qed.

Lemma counters_get m j : counters_ok m -> 0 <= j < 8 -> exists f t,
  arr_get (final_counts m) j = Some f /\ arr_get (track_counts m) j = Some t.
Proof.
  intros [Hf Ht] Hj. unfold NUM_CORE_STATES in *.
  destruct (arr_get_is_Some (final_counts m) j) as [f Ef]; [lia |].
  destruct (arr_get_is_Some (track_counts m) j) as [t Et]; [lia |]. eauto.
Qed.

(** The whole routine: it finishes without leaving the block. *)
Lemma wp_core_bench_state seed1 seed2 step crc (Q : Z -> list Z -> Prop) b :
  terminated b -> 2 <= step -> in_u 16 crc ->
  Z.of_nat (length b) + step < Zpos budget ->
  (forall crc', in_u 16 crc' ->
     Q crc' (corrupt step seed2 (Z.of_nat (length b))
               (corrupt step seed1 (Z.of_nat (length b)) b))) ->
  wp (core_bench_state (Z.of_nat (length b)) seed1 seed2 step crc) Q b.
Proof.
  intros Ht Hs Hc Hb HQ. unfold core_bench_state, core_bench_state_body. wp_simpl.
  cbn [blk]. destruct (terminated_NUL b Ht) as [k Hk].
  apply (wp_scan_loop k); [done | done | cbn; lia |]. intros p1 m1 [Hb1 Hc1]. cbn in Hb1.
  wp_simpl. rewrite <- Hb1 at 1. apply wp_corrupt_loop; [lia | rewrite Hb1; lia |].
  intros p2. rewrite Hb1. wp_simpl.
  destruct (corrupt_terminated step seed1 (Z.of_nat (length b)) b Hs Ht) as [k2 Hk2].
  apply (wp_scan_loop k2); [done | done | cbn; rewrite corrupt_length; lia |].
  intros p3 m3 [Hb3 Hc3]. cbn [blk] in Hb3. wp_simpl.
  assert (length (blk m3) = length b) as Hl3 by (by rewrite Hb3, corrupt_length).
  rewrite <- Hl3 at 1. apply wp_corrupt_loop; [lia | lia |].
  intros p4. rewrite Hl3, Hb3. wp_simpl.
  apply (wp_for_n (fun _ crc m => in_u 16 crc /\ counters_ok m /\
    blk m = corrupt step seed2 (Z.of_nat (length b)) (corrupt step seed1 (Z.of_nat (length b)) b))).
  - done.
  - intros j crc' m Hj (Hcrc & Hm & Hbk). wp_simpl. unfold NUM_CORE_STATES in Hj.
    destruct (counters_get m j Hm) as (f & t & Hf & Htr); [lia |].
    rewrite wp_oget. exists f. split; [done |]. wp_simpl.
    rewrite wp_oget. exists t. split; [done |]. wp_simpl.
    split_and!; [by do 2 apply crcu32_range | apply Hm..| done].
  - intros crc' m (Hcrc & _ & ->). by apply HQ.
Qed.

(** ** What initialisation writes *)

(** The characters of the patterns. *)
Definition alphabet : list Z := bytes "012345678+-.eTFqz^".

Definition pattern_ok (o : option (list Z * Z)) : bool :=
  match o with
  | Some (buf, n) =>
      (n =? Z.of_nat (length buf)) && ((n =? 4) || (n =? 8)) &&
      forallb (fun c => bool_decide (c ∈ alphabet)) buf
  | None => false
  end.

Lemma land_ones_nat w x : 0 <= w ->
  exists n : nat, Z.land x (Z.ones w) = Z.of_nat n /\ Z.of_nat n < 2 ^ w.
Proof.
  intros Hw. pose proof (uwrap_range w x Hw) as Hr. unfold uwrap, in_u in Hr.
  exists (Z.to_nat (Z.land x (Z.ones w))). lia.
Qed.

Lemma choose_pattern_ok seed : pattern_ok (choose_pattern seed) = true.
Proof.
  unfold choose_pattern.
  destruct (land_ones_nat 2 (Z.shiftr seed 3)) as (i & Ei & Hi); [lia |].
  destruct (land_ones_nat 3 seed) as (j & Ej & Hj); [lia |].
  change (Z.ones 2) with 0x3 in Ei. change (Z.ones 3) with 0x7 in Ej. rewrite Ei, Ej.
  clear Ei Ej.
  do 8 (destruct j as [| j];
    [do 4 (destruct i as [| i]; [vm_compute; reflexivity |]); lia |]).
  lia.
Qed.

Lemma choose_pattern_spec seed : exists buf,
  choose_pattern seed = Some (buf, Z.of_nat (length buf)) /\
  (length buf = 4 \/ length buf = 8)%nat /\ Forall (fun c => c ∈ alphabet) buf.
Proof.
  pose proof (choose_pattern_ok seed) as H. unfold pattern_ok in H.
  destruct (choose_pattern seed) as [[buf n] |]; [| done]. exists buf.
  rewrite !andb_true_iff, orb_true_iff, !Z.eqb_eq in H. destruct H as [[-> Hn] Ha].
  split_and!; [done | lia |]. apply Forall_forall. intros c Hc.
  rewrite forallb_forall in Ha. apply (bool_decide_eq_true_1 _), Ha.
  exact Hc.
Qed.

(** The seeds after the first, the token of a seed, and the text of the first
    [m] tokens. *)
Definition seed_at (seed : Z) (k : nat) : Z := Nat.iter k (fun s => s16 (s + 1)) seed.
Definition token_of (seed : Z) : list Z :=
  match choose_pattern seed with Some (buf, _) => buf | None => [] end.
Fixpoint init_text (seed : Z) (m : nat) : list Z :=
  match m with
  | O => []
  | S m' => init_text seed m' ++ token_of (seed_at seed (S m')) ++ [ch_comma]
  end.

Lemma token_of_spec seed :
  choose_pattern seed = Some (token_of seed, Z.of_nat (length (token_of seed))) /\
  (length (token_of seed) = 4 \/ length (token_of seed) = 8)%nat /\
  Forall (fun c => c ∈ alphabet) (token_of seed).
Proof. unfold token_of. destruct (choose_pattern_spec seed) as (buf & -> & H). done. Qed.

Lemma init_text_alphabet seed m : Forall (fun c => c ∈ ch_comma :: alphabet) (init_text seed m).
Proof.
  induction m as [| m IH]; cbn [init_text]; [constructor |].
  repeat apply Forall_app_2; [done | | repeat constructor].
  destruct (token_of_spec (seed_at seed (S m))) as (_ & _ & H).
  eapply Forall_impl; [| exact H]. intros c Hc. by constructor.
Qed.

Lemma wp_put p v Q b : 0 <= p < Z.of_nat (length b) ->
  wp (put p v) Q b <-> Q tt (<[Z.to_nat p := v]> b).
Proof.
  intros Hp. unfold put. wp_simpl. cbn [id]. rewrite wp_oget, arr_set_Some by done.
  split; [by intros (b' & [= <-] & HQ) | eauto].
Qed.

(** Writing at the frontier between a finished prefix and the rest. *)
Lemma wp_put_frontier p v pre suf Q :
  p = Z.of_nat (length pre) -> suf <> [] ->
  wp (put p v) Q (pre ++ suf) <-> Q tt ((pre ++ [v]) ++ drop 1 suf).
Proof.
  intros -> Hs. destruct suf as [| c suf]; [done |].
  rewrite wp_put by (rewrite length_app; cbn [length]; lia). rewrite Nat2Z.id.
  replace (length pre) with (length pre + 0)%nat at 1 by lia.
  rewrite insert_app_r. cbn. by rewrite drop_0, <- app_assoc.
Qed.

Lemma drop_nonempty (l : list Z) n : (n < length l)%nat -> drop n l <> [].
Proof. intros Hn E. apply (f_equal length) in E. rewrite length_drop in E. cbn in E. lia. Qed.

Lemma wp_write_token pre suf buf (Q : unit -> list Z -> Prop) :
  (length buf < length suf)%nat ->
  Q tt ((pre ++ buf ++ [ch_comma]) ++ drop (S (length buf)) suf) ->
  wp (write_token (Z.of_nat (length pre)) (Z.of_nat (length buf)) buf) Q (pre ++ suf).
Proof.
  intros Hl HQ. unfold write_token. wp_simpl. rewrite Nat2Z.id.
  apply (wp_for_n (fun i _ b => b = (pre ++ take (Z.to_nat i) buf) ++ drop (Z.to_nat i) suf)).
  - by rewrite take_0, drop_0, app_nil_r.
  - intros j _ b Hj ->. wp_simpl.
    destruct (lookup_lt_is_Some_2 buf (Z.to_nat j)) as [c Hc]; [lia |].
    rewrite wp_oget. exists c. split.
    { unfold arr_get. by rewrite (proj2 (Z.leb_le _ _)) by lia. }
    rewrite wp_put_frontier.
    + replace (Z.to_nat (j + 1)) with (S (Z.to_nat j)) by lia.
      rewrite (take_S_r _ _ c), drop_drop, <- !app_assoc by done.
      by replace (Z.to_nat j + 1)%nat with (S (Z.to_nat j)) by lia.
    + rewrite length_app, length_take. lia.
    + apply drop_nonempty. lia.
  - intros _ b ->. replace (Z.to_nat (0 + Z.of_nat (length buf))) with (length buf) by lia.
    rewrite firstn_all, wp_put_frontier.
    + rewrite drop_drop, <- !app_assoc, Nat.add_1_r. by rewrite <- !app_assoc in HQ.
    + rewrite length_app. lia.
    + by apply drop_nonempty.
Qed.

(** The loop that lays out the tokens: [total] bytes are written and the token
    for the current seed is ready in [buf]. *)
Definition init_inv (b : list Z) (seed0 : Z) (v : Z * Z * Z * list Z) (b' : list Z) : Prop :=
  let '(total, next, seed, buf) := v in
  exists m, total = Z.of_nat (length (init_text seed0 m)) /\
    (length (init_text seed0 m) + 2 <= length b)%nat /\
    b' = init_text seed0 m ++ drop (length (init_text seed0 m)) b /\
    ((next = 0 /\ m = 0%nat /\ seed = seed0) \/
     (seed = seed_at seed0 (S m) /\ buf = token_of seed /\ next = Z.of_nat (length buf))).

Lemma init_inv_step b seed0 total next seed buf b' (Q : Z * Z * Z * list Z -> list Z -> Prop) :
  init_inv b seed0 (total, next, seed, buf) b' ->
  total + next + 3 <= Z.of_nat (length b) < 2 ^ 31 ->
  (forall total' next' seed' buf' b2, init_inv b seed0 (total', next', seed', buf') b2 ->
     0 < next' /\ ((next = 0 /\ total' = total) \/ total' = total + next + 1) ->
     Q (total', next', seed', buf') b2) ->
  wp (let! total :=
        if 0 <? next
        then write_token total next buf ;; ret (u32 (total + (next + 1)))
        else ret total in
      let seed := s16 (seed + 1) in
      let! (buf, next) := oget OutOfBounds (choose_pattern seed) in
      ret (total, next, seed, buf)) Q b'.
Proof.
  intros (m & -> & Hfit & -> & Hst) Hroom HQ.
  destruct Hst as [(-> & -> & ->) | (-> & -> & ->)].
  - wp_simpl. change (0 <? 0) with false. cbv iota. wp_simpl.
    destruct (token_of_spec (s16 (seed0 + 1))) as (Ht & Hl & _).
    rewrite wp_oget. eexists. split; [exact Ht |]. wp_simpl. apply HQ.
    + exists 0%nat. split_and!; [done.. | right; done].
    + split; [lia | by left].
  - destruct (token_of_spec (seed_at seed0 (S m))) as (_ & Hl & _).
    rewrite (proj2 (Z.ltb_lt _ _)) by lia. wp_simpl.
    apply wp_write_token; [rewrite length_drop; lia |]. wp_simpl.
    rewrite drop_drop.
    set (tk := token_of (seed_at seed0 (S m))) in *.
    change (s16 (seed_at seed0 (S m) + 1)) with (seed_at seed0 (S (S m))).
    destruct (token_of_spec (seed_at seed0 (S (S m)))) as (Ht2 & Hl2 & _).
    rewrite wp_oget. eexists. split; [exact Ht2 |]. wp_simpl. apply HQ.
    + exists (S m). cbn [init_text]. fold tk. rewrite !length_app. cbn [length].
      split_and!.
      * cint_lia.
      * lia.
      * rewrite <- !app_assoc. repeat f_equal. lia.
      * right. done.
    + split; [lia |]. right. cint_lia.
Qed.

(** The loop that fills the rest of the block with NULs. *)
Lemma wp_zero_fill t (b : list Z) (Q : Z -> list Z -> Prop) :
  (length t <= length b)%nat -> Z.of_nat (length b) < 2 ^ 31 ->
  Q (Z.of_nat (length b)) (t ++ replicate (length b - length t) 0) ->
  wp (while (fun total => ret (total <? Z.of_nat (length b)))
        (fun total => put total 0 ;; ret (total + 1)) (Z.of_nat (length t)))
     Q (t ++ drop (length t) b).
Proof.
  intros Hl Hb HQ.
  apply (wp_while (fun total b' => exists k, total = Z.of_nat (length t + k) /\
           (length t + k <= length b)%nat /\
           b' = (t ++ replicate k 0) ++ drop (length t + k) b)
           (fun total _ => Z.of_nat (length b) - total)).
  - exists 0%nat. rewrite Nat.add_0_r, app_nil_r. split_and!; [done | lia | done].
  - budget_lia.
  - intros total b' (k & -> & Hk & ->). split; [lia |]. wp_simpl.
    destruct (Z.ltb_spec (Z.of_nat (length t + k)) (Z.of_nat (length b))).
    + wp_simpl. rewrite wp_put_frontier.
      * wp_simpl. split; [| lia]. exists (S k). split_and!; [lia | lia |].
        rewrite drop_drop, replicate_S_end, <- !app_assoc.
        by replace (length t + S k)%nat with (length t + k + 1)%nat by lia.
      * rewrite length_app, length_replicate. lia.
      * apply drop_nonempty. lia.
    + replace (length b - length t)%nat with k in HQ by lia.
      rewrite drop_ge, app_nil_r by lia.
      by replace (Z.of_nat (length t + k)) with (Z.of_nat (length b)) by lia.
Qed.

Lemma wp_core_init_state b seed (Q : unit -> list Z -> Prop) :
  (2 <= length b)%nat -> Z.of_nat (length b) < 2 ^ 31 ->
  (forall m, let t := init_text seed m in
     (length t + 2 <= length b)%nat ->
     (length b <= length t + length (token_of (seed_at seed (S m))) + 2)%nat ->
     Q tt (t ++ replicate (length b - length t) 0)) ->
  wp (core_init_state (Z.of_nat (length b)) seed) Q b.
Proof.
  intros H2 Hb HQ. unfold core_init_state. wp_simpl.
  set (L := Z.of_nat (length b)) in *.
  assert (u32 (L - 1) = L - 1) as -> by cint_lia.
  apply (wp_while (init_inv b seed)
    (fun '(total, next, _, _) _ => 2 * (L - total) + (if next =? 0 then 1 else 0))).
  - exists 0%nat. split_and!; [done | cbn; lia | done | left; done].
  - cbn [Z.eqb]. budget_lia.
  - intros [[[total next] sd] buf] b' Hinv. pose proof Hinv as (m & -> & Hfit & -> & Hst).
    split; [destruct (next =? 0); lia |]. wp_simpl.
    assert (0 <= next <= 8) as Hn.
    { destruct Hst as [(-> & _) | (_ & -> & ->)]; [lia |].
      destruct (token_of_spec sd) as (_ & ? & _). lia. }
    destruct (Z.ltb_spec (u32 (Z.of_nat (length (init_text seed m)) + next + 1)) (L - 1)) as [Hc | Hc].
    + eapply init_inv_step; [exact Hinv | |].
      * change (2 ^ 31) with 2147483648 in *. fold L. cint_lia.
      * intros total' next' sd' buf' b2 Hi [Hn' Ht']. split; [done |].
        rewrite (proj2 (Z.eqb_neq next' 0)) by lia.
        destruct (Z.eqb_spec next 0); lia.
    + wp_simpl.
      assert (u32 (L - 1 + 1) = L) as -> by cint_lia. apply wp_zero_fill; [lia | done |].
      wp_simpl. apply HQ; [done |].
      destruct Hst as [(-> & -> & _) | (-> & -> & ->)];
        destruct (token_of_spec (seed_at seed (S m))) as (_ & ? & _) || idtac; cint_lia.
Qed.

(** ** Properties *)

(** [core_init_state] on a block of [size] bytes writes, in order, as many
    of the tokens selected by the successive seeds as fit, each followed by a
    comma, and fills the rest, at least two bytes, with NUL; the next token
    would not have fitted. *)
Theorem core_init_state_layout (b : list Z) (seed : Z) :
  (2 <= length b)%nat -> Z.of_nat (length b) < 2 ^ 31 ->
  exists m, let t := init_text seed m in
    core_init_state (Z.of_nat (length b)) seed b
      = Ok tt (t ++ replicate (length b - length t) 0) /\
    (length t + 2 <= length b)%nat /\
    (length b <= length t + length (token_of (seed_at seed (S m))) + 2)%nat.
Proof.
  intros H2 Hb.
  assert (wp (core_init_state (Z.of_nat (length b)) seed)
    (fun _ b' => exists m, let t := init_text seed m in
       b' = t ++ replicate (length b - length t) 0 /\
       (length t + 2 <= length b)%nat /\
       (length b <= length t + length (token_of (seed_at seed (S m))) + 2)%nat) b) as H.
  { apply wp_core_init_state; [done | done |]. intros m t Hl Hn. by exists m. }
  apply wp_ok in H as ([] & b' & Hrun & m & -> & Hl & Hn). by exists m.
Qed.

Lemma core_init_state_layout_witness :
  exists m, let t := init_text 0x3415 m in
    core_init_state 20 0x3415 (replicate 20 7) = Ok tt (t ++ replicate (20 - length t) 0) /\
    (length t + 2 <= 20)%nat /\
    (20 <= length t + length (token_of (seed_at 0x3415 (S m))) + 2)%nat.
Proof.
  apply (core_init_state_layout (replicate 20 7) 0x3415); [cbn; lia | cbn; lia].
Defined.

(** C32: memory safety of [core_bench_state].  On any block that ends in two
    NULs, with any seeds, any CRC and a step from 2 to 2^15 - 1, both scans
    and both corruption passes finish without leaving the block; the result
    is a 16-bit CRC and the block holds the two corruptions. *)
Theorem core_bench_state_safe (b : list Z) (seed1 seed2 step crc : Z) :
  terminated b -> 2 <= step < 2 ^ 15 -> in_u 16 crc ->
  Z.of_nat (length b) < 2 ^ 31 ->
  exists crc',
    core_bench_state (Z.of_nat (length b)) seed1 seed2 step crc b =
      Ok crc' (corrupt step seed2 (Z.of_nat (length b))
                (corrupt step seed1 (Z.of_nat (length b)) b)) /\
    in_u 16 crc'.
Proof.
  intros Ht Hs Hc Hb.
  assert (wp (core_bench_state (Z.of_nat (length b)) seed1 seed2 step crc)
    (fun crc' b' => in_u 16 crc' /\ b' = corrupt step seed2 (Z.of_nat (length b))
                (corrupt step seed1 (Z.of_nat (length b)) b)) b) as H.
  { apply wp_core_bench_state; [done | lia | done | | done].
    change (2 ^ 15) with 32768 in *. budget_lia. }
  apply wp_ok in H as (crc' & b' & Hrun & Hcrc & ->). by exists crc'.
Qed.

Lemma core_bench_state_safe_witness :
  exists crc',
    core_bench_state 6 1 2 3 0 (bytes "+1,8" ++ [0; 0]) =
      Ok crc' (corrupt 3 2 6 (corrupt 3 1 6 (bytes "+1,8" ++ [0; 0]))) /\ in_u 16 crc'.
Proof.
  apply (core_bench_state_safe (bytes "+1,8" ++ [0; 0]) 1 2 3 0).
  - exists (bytes "+1,8"). reflexivity.
  - lia.
  - unfold in_u. lia.
  - reflexivity.
Defined.

(** Every byte of an initialised block comes back when no character in use is
    a comma with the seed added. *)
Lemma init_text_restorable seed1 seed m k :
  Forall (fun c => Z.lxor c (u8 seed1) <> ch_comma) (0 :: alphabet) ->
  Forall (restorable seed1) (init_text seed m ++ replicate k 0).
Proof.
  intros Ha. inversion Ha as [| ? ? H0 Hal]; subst.
  assert (forall c, c ∈ alphabet -> restorable seed1 c) as Hin.
  { intros c Hc. apply list_elem_of_In in Hc.
    assert (Forall (in_u 8) alphabet) as Hu by (repeat constructor; unfold in_u; lia).
    rewrite List.Forall_forall in Hu, Hal. split; [by apply Hu | right; by apply Hal]. }
  apply Forall_app_2.
  - eapply Forall_impl; [| apply init_text_alphabet]. intros c Hc.
    apply elem_of_cons in Hc as [-> | Hc]; [| by apply Hin].
    split; [unfold in_u, ch_comma; lia | by left].
  - apply Forall_replicate. split; [unfold in_u; lia | by right].
Qed.

Lemma wp_init_state_ready b0 seed seed1 (Q : unit -> list Z -> Prop) :
  (2 <= length b0)%nat -> Z.of_nat (length b0) < 2 ^ 31 ->
  Forall (fun c => Z.lxor c (u8 seed1) <> ch_comma) (0 :: alphabet) ->
  (forall b, length b = length b0 -> terminated b -> Forall (restorable seed1) b -> Q tt b) ->
  wp (core_init_state (Z.of_nat (length b0)) seed) Q b0.
Proof.
  intros H2 Hb Ha HQ. apply wp_core_init_state; [done | done |]. intros m t Hl _. apply HQ.
  - rewrite length_app, length_replicate. lia.
  - exists (t ++ replicate (length b0 - length t - 2) 0).
    rewrite <- app_assoc. f_equal. change [0; 0] with (replicate 2 0).
    rewrite <- replicate_add. f_equal. lia.
  - by apply init_text_restorable.
Qed.

(** C31: the benchmark restores its input.  After initialisation, one call of
    [core_bench_state] with equal seeds leaves the block byte for byte as it
    was, for every step from 2 to 2^15 - 1, provided that xor with the seed byte
    turns no character that the input may contain (NUL included) into a comma. *)
Theorem core_bench_state_restores (b0 : list Z) (seed seed1 seed2 step crc : Z) :
  (2 <= length b0)%nat -> Z.of_nat (length b0) < 2 ^ 31 ->
  2 <= step < 2 ^ 15 -> in_u 16 crc -> u8 seed1 = u8 seed2 ->
  Forall (fun c => Z.lxor c (u8 seed1) <> ch_comma) (0 :: alphabet) ->
  exists b crc',
    core_init_state (Z.of_nat (length b0)) seed b0 = Ok tt b /\
    core_bench_state (Z.of_nat (length b0)) seed1 seed2 step crc b = Ok crc' b.
Proof.
  intros H2 Hb Hs Hc Hseed Ha.
  assert (wp (core_init_state (Z.of_nat (length b0)) seed)
    (fun _ b => length b = length b0 /\ terminated b /\ Forall (restorable seed1) b) b0) as H
    by (by apply (wp_init_state_ready _ _ seed1)).
  apply wp_ok in H as ([] & b & Hrun & Hlen & Hterm & Hrest).
  assert (wp (core_bench_state (Z.of_nat (length b0)) seed1 seed2 step crc)
    (fun _ b' => b' = b) b) as H.
  { rewrite <- Hlen. apply wp_core_bench_state; [done | lia | done | |].
    - change (2 ^ 15) with 32768 in *. budget_lia.
    - intros crc' _. by apply corrupt_restores. }
  apply wp_ok in H as (crc' & b' & Hrun' & ->). by exists b, crc'.
Qed.

Lemma core_bench_state_restores_witness :
  exists b crc',
    core_init_state 666 0x3415 (replicate 666 0) = Ok tt b /\
    core_bench_state 666 0x3415 0x3415 0x22 0 b = Ok crc' b.
Proof.
  apply (core_bench_state_restores (replicate 666 0) 0x3415 0x3415 0x3415 0x22 0).
  - rewrite length_replicate. lia.
  - rewrite length_replicate. lia.
  - lia.
  - unfold in_u. lia.
  - reflexivity.
  - repeat constructor; vm_compute; discriminate.
Defined.

(** With equal seeds the undo pass is not always an undo: for seed 0x1c and
    a 400-byte block the input differs after the call, because a character
    that becomes a comma in the first pass is skipped by the second. *)
Theorem core_bench_state_undo_incomplete :
  match core_init_state 400 0x1c (replicate 400 0) with
  | Ok _ b =>
      match core_bench_state 400 0x1c 0x1c 0x22 0 b with
      | Ok _ b' => bool_decide (b' = b) = false
      | Err _ => False
      end
  | Err _ => False
  end.
Proof. vm_compute. reflexivity. Qed.

(** The machine's verdict on the initialisation patterns: the integer and
    float patterns are recognised as such, the error patterns are invalid,
    and so is the scientific pattern "-87e+832", whose mantissa has no dot. *)
Theorem patterns_classified :
  (forall i b, intpat i = Some b -> run_fsm b = CORE_INT) /\
  (forall i b, floatpat i = Some b -> run_fsm b = CORE_FLOAT) /\
  (forall i b, errpat i = Some b -> run_fsm b = CORE_INVALID) /\
  (forall i b, scipat i = Some b ->
     run_fsm b = if i =? 2 then CORE_INVALID else CORE_SCIENTIFIC).
Proof.
  assert (forall (A : Type) (l : list A) i x, length l = 4%nat -> arr_get l i = Some x ->
            i = 0 \/ i = 1 \/ i = 2 \/ i = 3) as Hi.
  { intros A l i x Hl Hx. apply arr_get_Some in Hx. lia. }
  split_and!; intros i b Hb; pose proof Hb as Hx;
    (apply Hi in Hx as [-> | [-> | [-> | ->]]]; [.. | reflexivity]);
    injection Hb as <-; reflexivity.
Qed.
