(* ===== verification/PortMem.v ===== *)
(** * Memory services of core_portme.c

    [align_mem] rounds an address up to a multiple of 8; [portable_malloc] is
    a bump allocator over the static pool [portable_heap], whose only state is
    the offset [heap_off]; [portable_free] does nothing. *)

From Stdlib Require Import ZArith Lia.
From stdpp Require Import base list numbers.
From S2P Require Import Prelude.

Local Open Scope Z_scope.
Local Open Scope cm_scope.

(** ** The code *)

(** [(x + 7u) & ~7u] on 32-bit values. *)
Definition align8 (x : Z) : Z := Z.land (u32 (x + 7)) (u32 (Z.lnot 7)).

Definition align_mem (p : Z) : Z := align8 p.

Definition PORTABLE_HEAP_SIZE : Z := 16 * 1024.

(** The store is [heap_off]; the result is the offset in [portable_heap] of
    the block handed out, [None] for [NULL]. *)
Definition portable_malloc (size : Z) : M Z (option Z) :=
  let size := align8 size in
  let! heap_off := gets id in
  let off := align8 heap_off in
  if PORTABLE_HEAP_SIZE <? u32 (off + size) then ret None
  else modify (fun _ => u32 (off + size)) ;; ret (Some off).

Definition portable_free (p : option Z) : M Z unit := ret tt.

(** ** Alignment *)

Lemma align8_eq x : 0 <= x < 2 ^ 32 - 7 -> align8 x = 8 * ((x + 7) / 8).
Proof.
  intros Hx. unfold align8.
  change (u32 (Z.lnot 7)) with (Z.shiftl (Z.ones 29) 3).
  assert (u32 (x + 7) = x + 7) as -> by (change (2 ^ 32) with 4294967296 in Hx; cint_lia).
  rewrite <- (Z.mul_comm ((x + 7) / 8)). change 8 with (2 ^ 3).
  rewrite <- Z.shiftr_div_pow2, <- Z.shiftl_mul_pow2 by lia.
  apply Z.bits_inj'. intros i Hi. rewrite Z.land_spec.
  destruct (Z.lt_ge_cases i 3) as [Hl | Hl].
  - rewrite !Z.shiftl_spec_low by lia. apply andb_false_r.
  - rewrite !Z.shiftl_spec, Z.shiftr_spec by lia.
    replace (i - 3 + 3) with i by lia. destruct (Z.lt_ge_cases (i - 3) 29) as [H29 | H29].
    + rewrite Z.ones_spec_low by lia. apply andb_true_r.
    + rewrite (testbit_in_u 32) by (unfold in_u; lia). done.
Qed.

Lemma align8_spec x : 0 <= x < 2 ^ 32 - 7 ->
  align8 x mod 8 = 0 /\ x <= align8 x < x + 8.
Proof.
  intros Hx. rewrite align8_eq by done. rewrite Z.mul_comm, Z.mod_mul by lia.
  split; [done |]. Z.to_euclidean_division_equations; lia.
Qed.

Lemma align8_aligned x : 0 <= x < 2 ^ 32 - 7 -> x mod 8 = 0 -> align8 x = x.
Proof. intros Hx H0. rewrite align8_eq by done. Z.to_euclidean_division_equations; lia. Qed.

(** ** The allocator

    The invariant: the offset is aligned and inside the pool. *)
Definition heap_inv (heap_off : Z) : Prop :=
  heap_off mod 8 = 0 /\ 0 <= heap_off <= PORTABLE_HEAP_SIZE.

(** One request of a sane size: a block when it fits, [NULL] and no change of
    the heap when it does not. *)
Lemma portable_malloc_cases size off : heap_inv off -> 0 <= size < 2 ^ 31 ->
  portable_malloc size off =
    if off + align8 size <=? PORTABLE_HEAP_SIZE
    then Ok (Some off) (off + align8 size) else Ok None off.
Proof.
  intros [H8 Ho] Hs. unfold portable_malloc, bind, gets, modify, ret. cbn [id].
  unfold PORTABLE_HEAP_SIZE in *. change (2 ^ 31) with 2147483648 in Hs.
  assert (2 ^ 32 = 4294967296) as H32 by done.
  rewrite (align8_aligned off) by lia.
  destruct (align8_spec size ltac:(lia)) as [_ Hal].
  assert (u32 (off + align8 size) = off + align8 size) as -> by cint_lia.
  destruct (Z.ltb_spec (16 * 1024) (off + align8 size)),
           (Z.leb_spec (off + align8 size) (16 * 1024)); done || lia.
Qed.

(** A sequence of requests, with the block (offset and requested size) that
    each successful one receives. *)
Fixpoint mallocs (sizes : list Z) : M Z (list (Z * Z)) :=
  match sizes with
  | [] => ret []
  | size :: sizes' =>
      let! r := portable_malloc size in
      let! bs := mallocs sizes' in
      ret (match r with Some p => (p, size) :: bs | None => bs end)
  end.

(** The blocks lie in [lo, hi), in order, without overlap. *)
Fixpoint blocks_between (lo hi : Z) (bs : list (Z * Z)) : Prop :=
  match bs with
  | [] => lo <= hi
  | (p, size) :: bs' => lo <= p /\ p mod 8 = 0 /\ 0 <= size /\
      exists lo', p + size <= lo' /\ blocks_between lo' hi bs'
  end.

Lemma mallocs_blocks sizes off :
  heap_inv off -> Forall (fun size => 0 <= size < 2 ^ 31) sizes ->
  wp (mallocs sizes) (fun bs off' => heap_inv off' /\ blocks_between off off' bs) off.
Proof.
  intros Ho Hs. revert off Ho. induction Hs as [| size sizes Hsz Hs IH]; intros off Ho.
  - cbn [mallocs]. rewrite wp_ret. split; [done | cbn; lia].
  - cbn [mallocs]. rewrite wp_bind. unfold wp at 1. rewrite portable_malloc_cases by done.
    destruct (align8_spec size) as [Ha Hb]; [change (2 ^ 31) with 2147483648 in Hsz; lia |].
    destruct Ho as [H8 Hr].
    destruct (Z.leb_spec (off + align8 size) PORTABLE_HEAP_SIZE) as [Hfit | Hfull].
    + rewrite wp_bind. eapply wp_mono; [apply IH |].
      { split; [rewrite Z.add_mod, H8, Ha by lia; done | lia]. }
      intros bs off' [Hi Hbl]. rewrite wp_ret. split; [done |].
      cbn. split_and!; [lia | done | lia |]. exists (off + align8 size). split; [lia | done].
    + rewrite wp_bind. eapply wp_mono; [by apply IH |].
      intros bs off' H. by rewrite wp_ret.
Qed.

(** ** Properties *)

(** The allocator hands out disjoint, 8-aligned blocks inside the pool.
    After [portable_init] reset the heap, any sequence of requests below 2^31
    bytes gets blocks that follow each other without overlap between offset 0
    and the final [heap_off], which stays within the pool. *)
Theorem portable_malloc_disjoint (sizes : list Z) :
  Forall (fun size => 0 <= size < 2 ^ 31) sizes ->
  exists bs off, mallocs sizes 0 = Ok bs off /\ heap_inv off /\ blocks_between 0 off bs.
Proof.
  intros Hs. assert (heap_inv 0) as H0 by (split; [done | unfold PORTABLE_HEAP_SIZE; lia]).
  pose proof (mallocs_blocks sizes 0 H0 Hs) as H.
  apply wp_ok in H as (bs & off & Hrun & H). by exists bs, off.
Qed.

Lemma portable_malloc_disjoint_witness :
  exists bs off, mallocs [2000; 13; 20000; 1] 0 = Ok bs off /\ heap_inv off /\
    blocks_between 0 off bs.
Proof. apply (portable_malloc_disjoint [2000; 13; 20000; 1]). repeat constructor; lia. Defined.

(** The bound check of [portable_malloc] overflows.  With 8 bytes already
    handed out, a request for 2^32 - 8 bytes succeeds: the sum wraps to 0, the
    caller gets a block of the 16 KiB pool and [heap_off] is reset to 0, so the
    blocks handed out before are handed out again. *)
Theorem portable_malloc_overflow :
  portable_malloc (2 ^ 32 - 8) 8 = Ok (Some 8) 0.
Proof. vm_compute. reflexivity. Qed.
