(* ===== verification/Matrix.v ===== *)
(** * The matrix benchmark of core_matrix.c

    Three N x N matrices: A and B of 16-bit [MATDAT], C of 32-bit [MATRES],
    all in one memory block.  [core_init_matrix] chooses N, lays the matrices
    out and fills A and B; [core_bench_matrix] runs [matrix_test] on them. *)

From Stdlib Require Import ZArith Lia.
From stdpp Require Import base list numbers.
From S2P Require Import Prelude Crc PortMem.

Local Open Scope Z_scope.
Local Open Scope cm_scope.

(** ** Data *)

(** [mat_params]: the dimension and the addresses of the matrices. *)
Record mat_params := MatParams { mat_N : Z; mat_A : Z; mat_B : Z; mat_C : Z }.

(** The matrices these addresses point to, row by row. *)
Record mmem := MMem { mA : list Z; mB : list Z; mC : list Z }.

Definition getA (k : Z) : M mmem Z := let! a := gets mA in oget OutOfBounds (arr_get a k).
Definition getB (k : Z) : M mmem Z := let! b := gets mB in oget OutOfBounds (arr_get b k).
Definition getC (k : Z) : M mmem Z := let! c := gets mC in oget OutOfBounds (arr_get c k).
Definition setA (k v : Z) : M mmem unit :=
  let! a := gets mA in
  let! a' := oget OutOfBounds (arr_set a k v) in modify (fun m => MMem a' (mB m) (mC m)).
Definition setB (k v : Z) : M mmem unit :=
  let! b := gets mB in
  let! b' := oget OutOfBounds (arr_set b k v) in modify (fun m => MMem (mA m) b' (mC m)).
Definition setC (k v : Z) : M mmem unit :=
  let! c := gets mC in
  let! c' := oget OutOfBounds (arr_set c k v) in modify (fun m => MMem (mA m) (mB m) c').

(** [i * N + j] in [ee_u32] arithmetic. *)
Definition idx (N i j : Z) : Z := u32 (u32 (i * N) + j).

(** [for (i = 0; i < N; i++) for (j = 0; j < N; j++) body] *)
Definition nest {S A} (N : Z) (body : Z -> Z -> A -> M S A) (a : A) : M S A :=
  for_n (Z.to_nat N) 0 (fun i a => for_n (Z.to_nat N) 0 (fun j a => body i j a) a) a.

(** The macros. *)
Definition matrix_clip (x y : Z) : Z := if truth y then Z.land x 0x0ff else Z.land x 0x0ffff.
Definition matrix_big (x : Z) : Z := Z.lor 0xf000 x.
Definition bit_extract (x from to : Z) : Z :=
  Z.land (u32 (Z.shiftr x from)) (u32 (Z.lnot (u32 (Z.shiftl 0xffffffff to)))).

(** ** Operations *)

Definition matrix_add_const (N val : Z) : M mmem unit :=
  nest N (fun i j _ =>
    let! a := getA (idx N i j) in
    setA (idx N i j) (s16 (a + val))) tt.

Definition matrix_mul_const (N val : Z) : M mmem unit :=
  nest N (fun i j _ =>
    let! a := getA (idx N i j) in
    setC (idx N i j) (s32 (a * val))) tt.

Definition matrix_mul_vect (N : Z) : M mmem unit :=
  for_n (Z.to_nat N) 0 (fun i _ =>
    setC i 0 ;;
    for_n (Z.to_nat N) 0 (fun j _ =>
      let! a := getA (idx N i j) in
      let! b := getB j in
      let! c := getC i in
      setC i (s32 (c + s32 (a * b)))) tt) tt.

Definition matrix_mul_matrix (N : Z) : M mmem unit :=
  nest N (fun i j _ =>
    setC (idx N i j) 0 ;;
    for_n (Z.to_nat N) 0 (fun k _ =>
      let! a := getA (idx N i k) in
      let! b := getB (idx N k j) in
      let! c := getC (idx N i j) in
      setC (idx N i j) (s32 (c + s32 (a * b)))) tt) tt.

Definition matrix_mul_matrix_bitextract (N : Z) : M mmem unit :=
  nest N (fun i j _ =>
    setC (idx N i j) 0 ;;
    for_n (Z.to_nat N) 0 (fun k _ =>
      let! a := getA (idx N i k) in
      let! b := getB (idx N k j) in
      let tmp := s32 (a * b) in
      let! c := getC (idx N i j) in
      setC (idx N i j)
        (s32 (u32 (u32 c + u32 (bit_extract tmp 2 4 * bit_extract tmp 5 7))))) tt) tt.

(** One element of [matrix_sum]: the new [tmp], [prev] and [ret]. *)
Definition matrix_sum_step (clipval cur : Z) (v : Z * Z * Z) : Z * Z * Z :=
  let '(tmp, prev, rt) := v in
  let tmp := s32 (tmp + cur) in
  if clipval <? tmp then (0, cur, s16 (rt + 10))
  else (tmp, cur, s16 (rt + (if prev <? cur then 1 else 0))).

Definition matrix_sum (N clipval : Z) : M mmem Z :=
  let! (_, _, rt) :=
    nest N (fun i j v =>
      let! cur := getC (idx N i j) in
      ret (matrix_sum_step clipval cur v)) (0, 0, 0) in
  ret rt.

Definition matrix_test (N val : Z) : M mmem Z :=
  let crc := 0 in
  let clipval := s16 (matrix_big val) in
  matrix_add_const N val ;;
  matrix_mul_const N val ;;
  let! s := matrix_sum N clipval in
  let crc := crc16 s crc in
  matrix_mul_vect N ;;
  let! s := matrix_sum N clipval in
  let crc := crc16 s crc in
  matrix_mul_matrix N ;;
  let! s := matrix_sum N clipval in
  let crc := crc16 s crc in
  matrix_mul_matrix_bitextract N ;;
  let! s := matrix_sum N clipval in
  let crc := crc16 s crc in
  matrix_add_const N (s16 (- val)) ;;
  ret (s16 crc).

Definition core_bench_matrix (p : mat_params) (seed crc : Z) : M mmem Z :=
  let N := u32 (mat_N p) in
  let val := s16 seed in
  let! r := matrix_test N val in
  ret (crc16 r crc).

(** *** Initialisation *)

(** [while (j < blksize) { i++; j = i * i * 2 * 4; }  N = i - 1;] *)
Definition choose_N {S} (blksize : Z) : M S Z :=
  let! (i, _) :=
    while (fun '(i, j) => ret (j <? blksize))
      (fun '(i, j) => let i := u32 (i + 1) in ret (i, u32 (i * i * 2 * 4))) (0, 0) in
  ret (u32 (i - 1)).

(** The loop body of [core_init_matrix]: the new [seed] and the values of
    B[i*N+j] and A[i*N+j]. *)
Definition init_element (seed order : Z) : Z * Z * Z :=
  let seed := Z.rem (s32 (order * seed)) 65536 in
  let val := s16 (seed + order) in
  let val := s16 (matrix_clip val 0) in
  let b := val in
  let val := s16 (val + order) in
  let val := s16 (matrix_clip val 1) in
  (seed, b, val).

Definition core_init_matrix (blksize memblk seed : Z) : M mmem (Z * mat_params) :=
  let seed := if seed =? 0 then 1 else seed in
  let! N := choose_N blksize in
  let A := align_mem memblk in
  let B := u32 (A + 2 * (N * N)) in
  nest N (fun i j '(seed, order) =>
    let '(seed, b, a) := init_element seed order in
    setB (idx N i j) b ;;
    setA (idx N i j) a ;;
    ret (seed, s32 (order + 1))) (seed, 1) ;;
  let C := align_mem (u32 (B + 2 * (N * N))) in
  ret (N, MatParams N A B C).

(** ** Reasoning about the loop nests *)

(** Well-formed matrices: N small enough for 32-bit indices, and three arrays
    of N * N elements. *)
Definition mat_wf (N : Z) (m : mmem) : Prop :=
  0 <= N < 2 ^ 16 /\ Z.of_nat (length (mA m)) = N * N /\
  Z.of_nat (length (mB m)) = N * N /\ Z.of_nat (length (mC m)) = N * N.

Lemma cell_range N i j : 0 <= i < N -> 0 <= j < N -> 0 <= i * N + j < N * N.
Proof. nia. Qed.

Lemma idx_eq N i j : N < 2 ^ 16 -> 0 <= i < N -> 0 <= j < N -> idx N i j = i * N + j.
Proof.
  intros HN Hi Hj. change (2 ^ 16) with 65536 in HN. unfold idx.
  assert (0 <= i * N + j < 2 ^ 32) by (change (2 ^ 32) with 4294967296; nia).
  assert (0 <= i * N < 2 ^ 32) by (change (2 ^ 32) with 4294967296; nia).
  unfold u32. rewrite (uwrap_id 32 (i * N)), uwrap_id by (done || lia). done.
Qed.

(** The nest visits the cells in order: an invariant indexed by the number of
    cells done. *)
Lemma wp_nest {S A} (Inv : Z -> A -> S -> Prop) N (body : Z -> Z -> A -> M S A) a Q s :
  0 <= N -> Inv 0 a s ->
  (forall i j a s, 0 <= i < N -> 0 <= j < N -> Inv (i * N + j) a s ->
     wp (body i j a) (Inv (i * N + j + 1)) s) ->
  (forall a s, Inv (N * N) a s -> Q a s) ->
  wp (nest N body a) Q s.
Proof.
  intros HN H0 Hb HQ. unfold nest.
  apply (wp_for_n (fun i => Inv (i * N))); [done | |].
  - intros i a1 s1 Hi H1. rewrite Z.add_0_l, Z2Nat.id in Hi by done.
    apply (wp_for_n (fun j => Inv (i * N + j))); [by rewrite Z.add_0_r | |].
    + intros j a2 s2 Hj H2. rewrite Z.add_0_l, Z2Nat.id in Hj by done.
      rewrite Z.add_assoc. by apply Hb.
    + intros a2 s2 H2. rewrite Z.add_0_l, Z2Nat.id in H2 by done.
      by replace ((i + 1) * N) with (i * N + N) by lia.
  - intros a1 s1 H1. rewrite Z.add_0_l, Z2Nat.id in H1 by done. by apply HQ.
Qed.

Lemma wp_getA k Q m :
  0 <= k < Z.of_nat (length (mA m)) ->
  (forall x, arr_get (mA m) k = Some x -> Q x m) -> wp (getA k) Q m.
Proof.
  intros Hk HQ. unfold getA. wp_simpl. rewrite wp_oget.
  destruct (arr_get_is_Some _ _ Hk) as [x Hx]. eauto.
Qed.
Lemma wp_getB k Q m :
  0 <= k < Z.of_nat (length (mB m)) ->
  (forall x, arr_get (mB m) k = Some x -> Q x m) -> wp (getB k) Q m.
Proof.
  intros Hk HQ. unfold getB. wp_simpl. rewrite wp_oget.
  destruct (arr_get_is_Some _ _ Hk) as [x Hx]. eauto.
Qed.
Lemma wp_getC k Q m :
  0 <= k < Z.of_nat (length (mC m)) ->
  (forall x, arr_get (mC m) k = Some x -> Q x m) -> wp (getC k) Q m.
Proof.
  intros Hk HQ. unfold getC. wp_simpl. rewrite wp_oget.
  destruct (arr_get_is_Some _ _ Hk) as [x Hx]. eauto.
Qed.

Lemma wp_setA k v (Q : unit -> mmem -> Prop) m :
  0 <= k < Z.of_nat (length (mA m)) ->
  Q tt (MMem (<[Z.to_nat k := v]> (mA m)) (mB m) (mC m)) -> wp (setA k v) Q m.
Proof.
  intros Hk HQ. unfold setA. wp_simpl. rewrite wp_oget, arr_set_Some by done. eauto.
Qed.
Lemma wp_setB k v (Q : unit -> mmem -> Prop) m :
  0 <= k < Z.of_nat (length (mB m)) ->
  Q tt (MMem (mA m) (<[Z.to_nat k := v]> (mB m)) (mC m)) -> wp (setB k v) Q m.
Proof.
  intros Hk HQ. unfold setB. wp_simpl. rewrite wp_oget, arr_set_Some by done. eauto.
Qed.
Lemma wp_setC k v (Q : unit -> mmem -> Prop) m :
  0 <= k < Z.of_nat (length (mC m)) ->
  Q tt (MMem (mA m) (mB m) (<[Z.to_nat k := v]> (mC m))) -> wp (setC k v) Q m.
Proof.
  intros Hk HQ. unfold setC. wp_simpl. rewrite wp_oget, arr_set_Some by done. eauto.
Qed.

(** [filled N k f l0 l]: the first [k] cells of [l] hold [f], the others what
    they held in [l0]. *)
Definition filled (k : Z) (f : Z -> Z) (l0 l : list Z) : Prop :=
  length l = length l0 /\
  forall c, 0 <= c < Z.of_nat (length l0) ->
    arr_get l c = if c <? k then Some (f c) else arr_get l0 c.

Lemma filled_0 f l : filled 0 f l l.
Proof. split; [done |]. intros c Hc. by rewrite (proj2 (Z.ltb_ge _ _)) by lia. Qed.

Lemma filled_set k f l0 l v :
  filled k f l0 l -> 0 <= k < Z.of_nat (length l0) -> v = f k ->
  filled (k + 1) f l0 (<[Z.to_nat k := v]> l).
Proof.
  intros [Hl Hc] Hk ->. split; [by rewrite length_insert |]. intros c Hc'.
  rewrite arr_get_insert by lia. destruct (Z.eqb_spec c k) as [-> | Hne].
  - by rewrite (proj2 (Z.ltb_lt _ _)) by lia.
  - rewrite Hc by done.
    destruct (Z.ltb_spec c k), (Z.ltb_spec c (k + 1)); done || lia.
Qed.

Lemma filled_all f l0 l k :
  filled k f l0 l -> Z.of_nat (length l0) <= k ->
  forall c, 0 <= c < Z.of_nat (length l0) -> arr_get l c = Some (f c).
Proof. intros [_ Hc] Hk c Hr. rewrite Hc by done. by rewrite (proj2 (Z.ltb_lt _ _)) by lia. Qed.

(** Lists that agree on every cell are equal. *)
Lemma arr_ext (l1 l2 : list Z) :
  length l1 = length l2 ->
  (forall c, 0 <= c < Z.of_nat (length l1) -> arr_get l1 c = arr_get l2 c) -> l1 = l2.
Proof.
  intros Hl H. apply list_eq. intros i. rewrite <- !arr_get_nat.
  destruct (Z.lt_ge_cases (Z.of_nat i) (Z.of_nat (length l1))) as [Hi | Hi]; [apply H; lia |].
  rewrite !arr_get_nat, !lookup_ge_None_2 by lia. done.
Qed.

(** The value of cell [c] of an array, for specifications. *)
Definition cell (l : list Z) (c : Z) : Z := default 0 (arr_get l c).

Lemma cell_get l c x : arr_get l c = Some x -> cell l c = x.
Proof. unfold cell. by intros ->. Qed.

(** ** What each operation computes *)

Lemma wp_nest_fillC N f (body : Z -> Z -> unit -> M mmem unit) m (Q : unit -> mmem -> Prop) :
  mat_wf N m ->
  (forall i j C', 0 <= i < N -> 0 <= j < N -> filled (i * N + j) f (mC m) C' ->
     wp (body i j tt) (fun _ m' => m' = MMem (mA m) (mB m)
         (<[Z.to_nat (i * N + j) := f (i * N + j)]> C')) (MMem (mA m) (mB m) C')) ->
  (forall C', length C' = length (mC m) ->
     (forall c, 0 <= c < N * N -> arr_get C' c = Some (f c)) ->
     Q tt (MMem (mA m) (mB m) C')) ->
  wp (nest N body tt) Q m.
Proof.
  intros (HN & HA & HB & HC) Hbody HQ.
  apply (wp_nest (fun k _ m' => exists C', filled k f (mC m) C' /\
                    m' = MMem (mA m) (mB m) C')).
  - lia.
  - exists (mC m). split; [apply filled_0 | by destruct m].
  - intros i j [] m1 Hi Hj (C' & Hf & ->). eapply wp_mono; [by apply Hbody |].
    intros [] m2 ->. eexists. split; [| done]. apply filled_set; [done | | done].
    rewrite HC. by apply cell_range.
  - intros [] m1 (C' & Hf & ->). apply HQ; [apply Hf |]. rewrite <- HC.
    apply (filled_all _ _ _ (N * N)); [done | lia].
Qed.

Lemma wp_matrix_mul_const N val m (Q : unit -> mmem -> Prop) :
  mat_wf N m ->
  (forall C', length C' = length (mC m) ->
     (forall c, 0 <= c < N * N -> arr_get C' c = Some (s32 (cell (mA m) c * val))) ->
     Q tt (MMem (mA m) (mB m) C')) ->
  wp (matrix_mul_const N val) Q m.
Proof.
  intros Hwf HQ. pose proof Hwf as (HN & HA & HB & HC). unfold matrix_mul_const.
  apply (wp_nest_fillC N (fun c => s32 (cell (mA m) c * val))); [done | | done].
  intros i j C' Hi Hj [Hl _]. pose proof (cell_range N i j Hi Hj).
  rewrite idx_eq, wp_bind by lia. apply wp_getA; [cbn; lia |]. cbn. intros x Hx.
  apply wp_setC; [cbn; lia |]. by rewrite (cell_get _ _ _ Hx).
Qed.

Lemma wp_matrix_add_const N val m (Q : unit -> mmem -> Prop) :
  mat_wf N m ->
  (forall A', length A' = length (mA m) ->
     (forall c, 0 <= c < N * N -> arr_get A' c = Some (s16 (cell (mA m) c + val))) ->
     Q tt (MMem A' (mB m) (mC m))) ->
  wp (matrix_add_const N val) Q m.
Proof.
  intros (HN & HA & HB & HC) HQ. unfold matrix_add_const.
  set (f := fun c => s16 (cell (mA m) c + val)).
  apply (wp_nest (fun k _ m' => exists A', filled k f (mA m) A' /\
                    m' = MMem A' (mB m) (mC m))).
  - lia.
  - exists (mA m). split; [apply filled_0 | by destruct m].
  - intros i j [] m1 Hi Hj (A' & Hf & ->). pose proof (cell_range N i j Hi Hj).
    pose proof Hf as [Hl Hv]. rewrite idx_eq, wp_bind by lia.
    apply wp_getA; [cbn; lia |]. cbn. intros x Hx. apply wp_setA; [cbn; lia |]. cbn.
    eexists. split; [| done]. apply filled_set; [done | lia |].
    rewrite Hv, Z.ltb_irrefl in Hx by lia. unfold f. by rewrite (cell_get _ _ _ Hx).
  - intros [] m1 (A' & Hf & ->). apply HQ; [apply Hf |]. rewrite <- HA.
    apply (filled_all _ _ _ (N * N)); [done | lia].
Qed.

(** *** Accumulation into one cell of C *)

(** The value after [x = acc(k, x)] for k = 0 .. n-1. *)
Fixpoint accum (n : nat) (acc : Z -> Z -> Z) (x : Z) : Z :=
  match n with O => x | S n' => acc (Z.of_nat n') (accum n' acc x) end.

(** The sum of [t k] for k = 0 .. n-1. *)
Fixpoint zsum (n : nat) (t : Z -> Z) : Z :=
  match n with O => 0 | S n' => zsum n' t + t (Z.of_nat n') end.

Lemma accum_s32 n acc t :
  (forall k x, 0 <= k < Z.of_nat n -> acc k x = s32 (x + t k)) ->
  accum n acc 0 = s32 (zsum n t).
Proof.
  induction n as [| n IH]; intros Hacc; [done |]. cbn [accum zsum].
  rewrite Hacc, IH by (intros; apply Hacc; lia) || lia. by apply swrap_add_l.
Qed.

Lemma wp_accumulate n c acc (body : Z -> unit -> M mmem unit) (Q : unit -> mmem -> Prop) A B C :
  0 <= c < Z.of_nat (length C) ->
  (forall k C', 0 <= k < Z.of_nat n -> length C' = length C ->
     wp (body k tt) (fun _ m' => m' = MMem A B (<[Z.to_nat c := acc k (cell C' c)]> C'))
       (MMem A B C')) ->
  Q tt (MMem A B (<[Z.to_nat c := accum n acc 0]> C)) ->
  wp (setC c 0 ;; for_n n 0 body tt) Q (MMem A B C).
Proof.
  intros Hc Hbody HQ. rewrite wp_bind. apply wp_setC; [done |]. cbn [mA mB mC].
  apply (wp_for_n (fun k _ m' =>
    m' = MMem A B (<[Z.to_nat c := accum (Z.to_nat k) acc 0]> C))).
  - done.
  - intros j [] m Hj ->. eapply wp_mono; [apply Hbody; [lia | by rewrite length_insert] |].
    intros [] m' ->. f_equal. rewrite list_insert_insert_eq. f_equal.
    replace (Z.to_nat (j + 1)) with (S (Z.to_nat j)) by lia. cbn [accum].
    rewrite Z2Nat.id by lia. f_equal. apply cell_get.
    by rewrite arr_get_insert, Z.eqb_refl by lia.
  - intros [] m' ->. rewrite Z.add_0_l, Nat2Z.id. done.
Qed.

(** *** Products *)

(** The (i, j) element of the product of A and B, before wrapping. *)
Definition dot (N : Z) (A B : list Z) (c : Z) : Z :=
  zsum (Z.to_nat N) (fun k => cell A ((c / N) * N + k) * cell B (k * N + c mod N)).

Definition dot_bits (N : Z) (A B : list Z) (c : Z) : Z :=
  zsum (Z.to_nat N) (fun k =>
    let tmp := s32 (cell A ((c / N) * N + k) * cell B (k * N + c mod N)) in
    bit_extract tmp 2 4 * bit_extract tmp 5 7).

Definition dot_vect (N : Z) (A B : list Z) (i : Z) : Z :=
  zsum (Z.to_nat N) (fun j => cell A (i * N + j) * cell B j).

Lemma cell_div N i j : 0 <= j < N -> (i * N + j) / N = i /\ (i * N + j) mod N = j.
Proof.
  intros Hj. rewrite Z.div_add_l, Z.div_small, Z.add_0_r by lia.
  by rewrite Z.add_comm, Z.mod_add, Z.mod_small by lia.
Qed.

Lemma wp_matrix_mul_matrix N m (Q : unit -> mmem -> Prop) :
  mat_wf N m ->
  (forall C', length C' = length (mC m) ->
     (forall c, 0 <= c < N * N -> arr_get C' c = Some (s32 (dot N (mA m) (mB m) c))) ->
     Q tt (MMem (mA m) (mB m) C')) ->
  wp (matrix_mul_matrix N) Q m.
Proof.
  intros Hwf HQ. pose proof Hwf as (HN & HA & HB & HC). unfold matrix_mul_matrix.
  apply (wp_nest_fillC N (fun c => s32 (dot N (mA m) (mB m) c))); [done | | done].
  intros i j C' Hi Hj [Hl _]. pose proof (cell_range N i j Hi Hj). rewrite !(idx_eq N i j) by lia.
  apply (wp_accumulate _ _ (fun k x =>
    s32 (x + s32 (cell (mA m) (i * N + k) * cell (mB m) (k * N + j))))); [lia | |].
  - intros k C2 Hk Hl2. rewrite Z2Nat.id in Hk by lia.
    pose proof (cell_range N i k Hi Hk). pose proof (cell_range N k j Hk Hj).
    rewrite !idx_eq, wp_bind by lia. apply wp_getA; [cbn; lia |]. cbn. intros a Ha.
    rewrite wp_bind. apply wp_getB; [cbn; lia |]. cbn. intros b Hb.
    rewrite wp_bind. apply wp_getC; [cbn; lia |]. cbn. intros x Hx.
    apply wp_setC; [cbn; lia |]. cbn.
    by rewrite (cell_get _ _ _ Ha), (cell_get _ _ _ Hb), (cell_get _ _ _ Hx).
  - do 2 f_equal. unfold dot. destruct (cell_div N i j Hj) as [-> ->].
    apply accum_s32. intros k x _. by apply swrap_add_r.
Qed.

(** The unsigned accumulation of the bit-extract product is congruent to the
    signed one. *)
Lemma s32_u32_add x y : s32 (u32 (u32 x + u32 y)) = s32 (x + y).
Proof. rewrite !s32_mod, !u32_mod. Z.to_euclidean_division_equations; lia. Qed.

Lemma wp_matrix_mul_matrix_bitextract N m (Q : unit -> mmem -> Prop) :
  mat_wf N m ->
  (forall C', length C' = length (mC m) ->
     (forall c, 0 <= c < N * N -> arr_get C' c = Some (s32 (dot_bits N (mA m) (mB m) c))) ->
     Q tt (MMem (mA m) (mB m) C')) ->
  wp (matrix_mul_matrix_bitextract N) Q m.
Proof.
  intros Hwf HQ. pose proof Hwf as (HN & HA & HB & HC). unfold matrix_mul_matrix_bitextract.
  apply (wp_nest_fillC N (fun c => s32 (dot_bits N (mA m) (mB m) c))); [done | | done].
  intros i j C' Hi Hj [Hl _]. pose proof (cell_range N i j Hi Hj). rewrite !(idx_eq N i j) by lia.
  apply (wp_accumulate _ _ (fun k x =>
    let tmp := s32 (cell (mA m) (i * N + k) * cell (mB m) (k * N + j)) in
    s32 (u32 (u32 x + u32 (bit_extract tmp 2 4 * bit_extract tmp 5 7))))); [lia | |].
  - intros k C2 Hk Hl2. rewrite Z2Nat.id in Hk by lia.
    pose proof (cell_range N i k Hi Hk). pose proof (cell_range N k j Hk Hj).
    rewrite !idx_eq, wp_bind by lia. apply wp_getA; [cbn; lia |]. cbn -[bit_extract]. intros a Ha.
    rewrite wp_bind. apply wp_getB; [cbn; lia |]. cbn -[bit_extract]. intros b Hb.
    rewrite wp_bind. apply wp_getC; [cbn; lia |]. cbn -[bit_extract]. intros x Hx.
    apply wp_setC; [cbn; lia |]. cbn -[bit_extract].
    by rewrite (cell_get _ _ _ Ha), (cell_get _ _ _ Hb), (cell_get _ _ _ Hx).
  - do 2 f_equal. unfold dot_bits. destruct (cell_div N i j Hj) as [-> ->].
    apply accum_s32. intros k x _. by rewrite s32_u32_add.
Qed.

Lemma wp_matrix_mul_vect N m (Q : unit -> mmem -> Prop) :
  mat_wf N m ->
  (forall C', filled N (fun i => s32 (dot_vect N (mA m) (mB m) i)) (mC m) C' ->
     Q tt (MMem (mA m) (mB m) C')) ->
  wp (matrix_mul_vect N) Q m.
Proof.
  intros (HN & HA & HB & HC) HQ. unfold matrix_mul_vect.
  set (f := fun i => s32 (dot_vect N (mA m) (mB m) i)).
  apply (wp_for_n (fun k _ m' => exists C', filled k f (mC m) C' /\
                    m' = MMem (mA m) (mB m) C')).
  - exists (mC m). split; [apply filled_0 | by destruct m].
  - intros i [] m1 Hi (C' & Hf & ->). rewrite Z.add_0_l, Z2Nat.id in Hi by lia.
    pose proof Hf as [Hl _]. assert (0 <= i < N * N) by nia.
    apply (wp_accumulate _ _ (fun j x =>
      s32 (x + s32 (cell (mA m) (i * N + j) * cell (mB m) j)))); [lia | |].
    + intros j C2 Hj Hl2. rewrite Z2Nat.id in Hj by lia.
      pose proof (cell_range N i j Hi Hj). assert (0 <= j < N * N) by nia.
      rewrite idx_eq, wp_bind by lia. apply wp_getA; [cbn; lia |]. cbn. intros a Ha.
      rewrite wp_bind. apply wp_getB; [cbn; lia |]. cbn. intros b Hb.
      rewrite wp_bind. apply wp_getC; [cbn; lia |]. cbn. intros x Hx.
      apply wp_setC; [cbn; lia |]. cbn.
      by rewrite (cell_get _ _ _ Ha), (cell_get _ _ _ Hb), (cell_get _ _ _ Hx).
    + eexists. split; [| done]. apply filled_set; [done | lia |]. unfold f, dot_vect.
      apply accum_s32. intros k x _. by apply swrap_add_r.
  - intros [] m1 (C' & Hf & ->). rewrite Z.add_0_l, Z2Nat.id in Hf by lia. by apply HQ.
Qed.

(** [matrix_sum] as a fold over the elements of C in memory order. *)
Definition sum_fold (clipval : Z) (l : list Z) : Z * Z * Z :=
  fold_left (fun v cur => matrix_sum_step clipval cur v) l (0, 0, 0).

Lemma wp_matrix_sum N clipval m (Q : Z -> mmem -> Prop) :
  mat_wf N m -> Q (sum_fold clipval (mC m)).2 m -> wp (matrix_sum N clipval) Q m.
Proof.
  intros (HN & HA & HB & HC) HQ. unfold matrix_sum. rewrite wp_bind.
  apply (wp_nest (fun k v m' => m' = m /\ v = sum_fold clipval (take (Z.to_nat k) (mC m)))).
  - lia.
  - done.
  - intros i j v m1 Hi Hj [-> ->]. pose proof (cell_range N i j Hi Hj).
    rewrite idx_eq, wp_bind by lia. apply wp_getC; [lia |]. intros x Hx. rewrite wp_ret.
    split; [done |]. replace (Z.to_nat (i * N + j + 1)) with (S (Z.to_nat (i * N + j))) by lia.
    unfold arr_get in Hx. rewrite (proj2 (Z.leb_le _ _)) in Hx by lia.
    rewrite (take_S_r _ _ x) by done. unfold sum_fold. by rewrite fold_left_app.
  - intros v m1 [-> ->]. rewrite take_ge by lia.
    destruct (sum_fold clipval (mC m)) as [[t p] r] eqn:E. rewrite wp_ret. exact HQ.
Qed.

(** ** The benchmark step *)

(** Adding a constant and its negation, both in 16 bits, is the identity. *)
Lemma s16_add_sub a val : in_s 16 a -> s16 (s16 (a + val) + s16 (- val)) = a.
Proof.
  intros Ha. unfold s16. rewrite swrap_add_r, swrap_add_l by lia.
  replace (a + val + - val) with a by lia. by apply swrap_id.
Qed.

Lemma mat_wf_frame N m A' B' C' :
  mat_wf N m -> length A' = length (mA m) -> length B' = length (mB m) ->
  length C' = length (mC m) -> mat_wf N (MMem A' B' C').
Proof. intros (? & ? & ? & ?) HA HB HC. unfold mat_wf. cbn. by rewrite HA, HB, HC. Qed.

(** The [matrix_sum] call after each product. *)
Ltac sum_step Hwf := rewrite wp_bind; apply wp_matrix_sum; [by apply Hwf |].

Lemma wp_matrix_test N val m (Q : Z -> mmem -> Prop) :
  mat_wf N m -> Forall (in_s 16) (mA m) ->
  (forall r C', in_s 16 r -> length C' = length (mC m) -> Q r (MMem (mA m) (mB m) C')) ->
  wp (matrix_test N val) Q m.
Proof.
  intros Hwf Ha HQ. unfold matrix_test. rewrite wp_bind.
  apply wp_matrix_add_const; [done |]. intros A1 HA1 HvA1.
  assert (Hwf1 : forall C', length C' = length (mC m) -> mat_wf N (MMem A1 (mB m) C'))
    by (intros; by apply (mat_wf_frame N m)).
  rewrite wp_bind. apply wp_matrix_mul_const; [by apply Hwf1 |]. cbn [mA mB mC].
  intros C1 HC1 _. sum_step Hwf1.
  rewrite wp_bind. apply wp_matrix_mul_vect; [by apply Hwf1 |]. cbn [mA mB mC].
  intros C2 [HC2 _]. rewrite HC1 in HC2. sum_step Hwf1.
  rewrite wp_bind. apply wp_matrix_mul_matrix; [by apply Hwf1 |]. cbn [mA mB mC].
  intros C3 HC3 _. rewrite HC2 in HC3. sum_step Hwf1.
  rewrite wp_bind. apply wp_matrix_mul_matrix_bitextract; [by apply Hwf1 |]. cbn [mA mB mC].
  intros C4 HC4 _. rewrite HC3 in HC4. sum_step Hwf1.
  rewrite wp_bind. apply wp_matrix_add_const; [by apply Hwf1 |]. cbn [mA mB mC].
  intros A2 HA2 HvA2. rewrite wp_ret.
  enough (A2 = mA m) as -> by (apply HQ; [apply swrap_range; lia | done]).
  apply arr_ext; [congruence |]. intros c Hc. destruct Hwf as (HN & HlA & _ & _).
  assert (0 <= c < N * N) as Hc' by lia. rewrite HvA2 by done.
  rewrite (cell_get A1 c _ (HvA1 c Hc')).
  destruct (arr_get_is_Some (mA m) c) as [a Hget]; [lia |].
  rewrite Hget. f_equal. rewrite (cell_get _ _ _ Hget). apply s16_add_sub.
  unfold arr_get in Hget. rewrite (proj2 (Z.leb_le _ _)) in Hget by lia.
  by apply (proj1 (Forall_lookup _ _) Ha) in Hget.
Qed.

(** ** Initialisation *)

Lemma wp_core_bench_matrix p m seed crc (Q : Z -> mmem -> Prop) :
  mat_wf (mat_N p) m -> Forall (in_s 16) (mA m) -> in_u 16 crc ->
  (forall crc' C', in_u 16 crc' -> length C' = length (mC m) ->
     Q crc' (MMem (mA m) (mB m) C')) ->
  wp (core_bench_matrix p seed crc) Q m.
Proof.
  intros Hwf Ha Hc HQ. unfold core_bench_matrix. rewrite wp_bind.
  assert (u32 (mat_N p) = mat_N p) as ->.
  { destruct Hwf as [HN _]. change (2 ^ 16) with 65536 in HN. cint_lia. }
  apply wp_matrix_test; [done | done |]. intros r C' _ Hl. rewrite wp_ret.
  apply HQ; [by apply crc16_range | done].
Qed.

(** N is the largest dimension with 8 N^2 below the block size. *)
Definition dim_for (blksize N : Z) : Prop :=
  0 <= N /\ 8 * (N * N) < blksize <= 8 * ((N + 1) * (N + 1)).

Lemma dim_for_unique blksize N N' : dim_for blksize N -> dim_for blksize N' -> N = N'.
Proof. unfold dim_for. nia. Qed.

Lemma dim_for_small blksize N : dim_for blksize N -> blksize <= 2 ^ 31 -> N < 16384.
Proof. unfold dim_for. change (2 ^ 31) with 2147483648. nia. Qed.

Lemma wp_choose_N {S} blksize (Q : Z -> S -> Prop) s :
  1 <= blksize <= 2 ^ 31 -> (forall N, dim_for blksize N -> Q N s) ->
  wp (choose_N blksize) Q s.
Proof.
  intros Hb HQ. change (2 ^ 31) with 2147483648 in Hb. unfold choose_N. rewrite wp_bind.
  apply (wp_while (fun v s' => s' = s /\ 0 <= v.1 /\ v.2 = 8 * (v.1 * v.1) /\
           (v.1 = 0 \/ 8 * ((v.1 - 1) * (v.1 - 1)) < blksize))
           (fun v _ => 16384 - v.1)).
  - split_and!; [done | done | done | by left].
  - cbn. budget_lia.
  - intros [i j] s1 (-> & Hi & Hj & Hl). cbn [fst snd] in *. subst j.
    split; [nia |]. rewrite wp_ret. destruct (Z.ltb_spec (8 * (i * i)) blksize).
    + rewrite wp_ret. cbn [fst snd]. assert (i < 16384) by nia.
      assert (u32 (i + 1) = i + 1) as -> by cint_lia.
      assert (u32 ((i + 1) * (i + 1) * 2 * 4) = 8 * ((i + 1) * (i + 1))) as ->.
      { replace ((i + 1) * (i + 1) * 2 * 4) with (8 * ((i + 1) * (i + 1))) by lia.
        apply (uwrap_id 32); [lia |]. unfold in_u. change (2 ^ 32) with 4294967296. nia. }
      split_and!; [done | lia | done | right | lia].
      by replace (i + 1 - 1) with i by lia.
    + rewrite wp_ret. assert (1 <= i <= 16384) by nia.
      assert (u32 (i - 1) = i - 1) as -> by cint_lia.
      apply HQ. unfold dim_for. destruct Hl as [-> | Hl]; [lia |].
      replace (i - 1 + 1) with i by lia. lia.
Qed.

(** The seed before element [k], and the elements. *)
Fixpoint seed_before (seed : Z) (k : nat) : Z :=
  match k with
  | O => seed
  | S k' => (init_element (seed_before seed k') (Z.of_nat k' + 1)).1.1
  end.
Definition init_B (seed c : Z) : Z :=
  (init_element (seed_before seed (Z.to_nat c)) (c + 1)).1.2.
Definition init_A (seed c : Z) : Z :=
  (init_element (seed_before seed (Z.to_nat c)) (c + 1)).2.

Lemma init_A_range seed c : 0 <= init_A seed c <= 255.
Proof.
  unfold init_A, init_element. cbn [snd]. unfold matrix_clip. cbn [truth Z.eqb negb].
  match goal with |- context [Z.land ?x 0x0ff] => change (Z.land x 0x0ff) with (u8 x); set (y := x) end.
  cint_lia.
Qed.

Lemma init_B_range seed c : in_s 16 (init_B seed c).
Proof. apply swrap_range. lia. Qed.

Lemma wp_core_init_matrix blksize memblk seed N m (Q : Z * mat_params -> mmem -> Prop) :
  1 <= blksize <= 2 ^ 31 -> dim_for blksize N -> mat_wf N m ->
  (forall A' B', length A' = length (mA m) -> length B' = length (mB m) ->
     let seed0 := if seed =? 0 then 1 else seed in
     (forall c, 0 <= c < N * N ->
        arr_get A' c = Some (init_A seed0 c) /\ arr_get B' c = Some (init_B seed0 c)) ->
     let A := align_mem memblk in
     let B := u32 (A + 2 * (N * N)) in
     let C := align_mem (u32 (B + 2 * (N * N))) in
     Q (N, MatParams N A B C) (MMem A' B' (mC m))) ->
  wp (core_init_matrix blksize memblk seed) Q m.
Proof.
  intros Hb Hdim (HN & HlA & HlB & HlC) HQ. unfold core_init_matrix.
  set (seed0 := if seed =? 0 then 1 else seed) in *. rewrite wp_bind.
  apply wp_choose_N; [done |]. intros N' HN'.
  rewrite (dim_for_unique _ _ _ HN' Hdim). clear N' HN'.
  pose proof (dim_for_small _ _ Hdim (proj2 Hb)) as Hsmall. rewrite wp_bind.
  apply (wp_nest (fun k v m' => exists A' B',
    filled k (init_A seed0) (mA m) A' /\ filled k (init_B seed0) (mB m) B' /\
    m' = MMem A' B' (mC m) /\ v = (seed_before seed0 (Z.to_nat k), k + 1))).
  - lia.
  - exists (mA m), (mB m). split_and!; [apply filled_0 | apply filled_0 | by destruct m | done].
  - intros i j [sd order] m1 Hi Hj (A' & B' & HfA & HfB & -> & [= -> ->]).
    pose proof (cell_range N i j Hi Hj) as Hc. rewrite idx_eq by lia.
    set (c := i * N + j) in *.
    destruct (init_element (seed_before seed0 (Z.to_nat c)) (c + 1)) as [[sd' b] a] eqn:E.
    rewrite wp_bind. pose proof HfA as [HlA' _]. pose proof HfB as [HlB' _].
    apply wp_setB; [cbn; lia |]. cbn [mA mB mC]. rewrite wp_bind.
    apply wp_setA; [cbn; lia |]. cbn [mA mB mC]. rewrite wp_ret.
    eexists _, _. split_and!; [| | done |].
    + apply filled_set; [done | lia |]. unfold init_A. by rewrite E.
    + apply filled_set; [done | lia |]. unfold init_B. by rewrite E.
    + replace (Z.to_nat (c + 1)) with (S (Z.to_nat c)) by lia. cbn [seed_before].
      rewrite Z2Nat.id, E by lia. f_equal. assert (c < 268435456) by nia. cint_lia.
  - intros v m1 (A' & B' & HfA & HfB & -> & _). rewrite wp_ret.
    apply HQ; [apply HfA | apply HfB |]. intros c Hc. split.
    + apply (filled_all _ _ _ _ HfA); lia.
    + apply (filled_all _ _ _ _ HfB); lia.
Qed.

(** ** Bounds *)

Lemma zsum_bound n t b :
  (forall k, 0 <= k < Z.of_nat n -> - b <= t k <= b) -> - (Z.of_nat n * b) <= zsum n t <= Z.of_nat n * b.
Proof.
  induction n as [| n IH]; intros Ht; [cbn; lia |]. cbn [zsum].
  pose proof (Ht (Z.of_nat n) ltac:(lia)). pose proof (IH ltac:(intros; apply Ht; lia)). nia.
Qed.

Lemma cell_Forall (P : Z -> Prop) l c :
  Forall P l -> 0 <= c < Z.of_nat (length l) -> P (cell l c).
Proof.
  intros HP Hc. destruct (arr_get_is_Some l c Hc) as [x Hx].
  rewrite (cell_get _ _ _ Hx). unfold arr_get in Hx.
  rewrite (proj2 (Z.leb_le _ _)) in Hx by lia.
  by apply (proj1 (Forall_lookup _ _) HP) in Hx.
Qed.

(** The elements the benchmark multiplies: A holds a byte plus the constant
    added by [matrix_test], B any [MATDAT]. *)
Definition small_elems (m : mmem) : Prop :=
  Forall (fun a => 0 <= a <= 510) (mA m) /\ Forall (in_s 16) (mB m).

Lemma dot_exact N m c :
  mat_wf N m -> N <= 128 -> small_elems m -> 0 <= c < N * N ->
  in_s 32 (dot N (mA m) (mB m) c).
Proof.
  intros (HN & HA & HB & HC) Hs [Ha Hb] Hc. unfold dot.
  assert (0 < N) by nia. pose proof (Z.div_mod c N) as Hd. pose proof (Z.mod_pos_bound c N).
  assert (0 <= c / N < N) as Hq by (split; [apply Z.div_pos; lia | apply Z.div_lt_upper_bound; lia]).
  pose proof (zsum_bound (Z.to_nat N)
    (fun k => cell (mA m) ((c / N) * N + k) * cell (mB m) (k * N + c mod N)) 16711680) as Hz.
  rewrite Z2Nat.id in Hz by lia. unfold in_s. change (2 ^ (32 - 1)) with 2147483648.
  enough (- (N * 16711680) <= zsum (Z.to_nat N)
    (fun k => cell (mA m) ((c / N) * N + k) * cell (mB m) (k * N + c mod N)) <= N * 16711680) by lia.
  apply Hz. intros k Hk.
  pose proof (cell_range N (c / N) k Hq Hk). pose proof (cell_range N k (c mod N) Hk ltac:(lia)).
  pose proof (cell_Forall _ (mA m) (c / N * N + k) Ha ltac:(lia)) as Hx.
  pose proof (cell_Forall _ (mB m) (k * N + c mod N) Hb ltac:(lia)) as Hy.
  cbv beta in Hx. unfold in_s in Hy. change (2 ^ (16 - 1)) with 32768 in Hy.
  revert Hx Hy. generalize (cell (mA m) (c / N * N + k)) (cell (mB m) (k * N + c mod N)).
  clear. intros. nia.
Qed.

(** ** Properties *)

(** C28: [matrix_mul_matrix] computes the matrix product.  For N up to 128 and
    the element ranges of the benchmark no 32-bit accumulation overflows:
    every C[i][j] is exactly the sum over k of A[i][k] * B[k][j], and A and B
    are unchanged. *)
Theorem matrix_mul_matrix_exact (N : Z) (m : mmem) :
  mat_wf N m -> N <= 128 -> small_elems m ->
  exists C', matrix_mul_matrix N m = Ok tt (MMem (mA m) (mB m) C') /\
    forall i j, 0 <= i < N -> 0 <= j < N ->
      arr_get C' (i * N + j) =
      Some (zsum (Z.to_nat N) (fun k => cell (mA m) (i * N + k) * cell (mB m) (k * N + j))).
Proof.
  intros Hwf HN Hs.
  assert (wp (matrix_mul_matrix N) (fun _ m' => exists C', m' = MMem (mA m) (mB m) C' /\
    forall c, 0 <= c < N * N -> arr_get C' c = Some (s32 (dot N (mA m) (mB m) c))) m) as H.
  { apply wp_matrix_mul_matrix; [done |]. intros C' _ HC. by exists C'. }
  apply wp_ok in H as ([] & m' & Hrun & C' & -> & HC). exists C'. split; [done |].
  intros i j Hi Hj. pose proof (cell_range N i j Hi Hj) as Hc.
  rewrite HC by done. unfold s32. rewrite swrap_id by (lia || by apply dot_exact).
  unfold dot. by destruct (cell_div N i j Hj) as [-> ->].
Qed.

Lemma matrix_mul_matrix_exact_witness :
  exists C', matrix_mul_matrix 2 (MMem [1; 2; 3; 510] [5; -32768; 7; 32767] [0; 0; 0; 0])
      = Ok tt (MMem [1; 2; 3; 510] [5; -32768; 7; 32767] C') /\
    forall i j, 0 <= i < 2 -> 0 <= j < 2 ->
      arr_get C' (i * 2 + j) =
      Some (zsum 2 (fun k => cell [1; 2; 3; 510] (i * 2 + k)
                              * cell [5; -32768; 7; 32767] (k * 2 + j))).
Proof.
  apply (matrix_mul_matrix_exact 2 (MMem [1; 2; 3; 510] [5; -32768; 7; 32767] [0; 0; 0; 0])).
  - split_and!; reflexivity || lia.
  - lia.
  - split; repeat constructor; unfold in_s; cbn; lia.
Defined.

(** C29: [core_bench_matrix] leaves A and B as it found them (the last step of
    [matrix_test] undoes the first in 16-bit arithmetic, for every constant,
    -32768 included), stays inside the three matrices, finishes, and returns
    a 16-bit CRC. *)
Theorem core_bench_matrix_restores (p : mat_params) (m : mmem) (seed crc : Z) :
  mat_wf (mat_N p) m -> Forall (in_s 16) (mA m) -> in_u 16 crc ->
  exists crc' C',
    core_bench_matrix p seed crc m = Ok crc' (MMem (mA m) (mB m) C') /\
    in_u 16 crc' /\ length C' = length (mC m).
Proof.
  intros Hwf Ha Hc.
  assert (wp (core_bench_matrix p seed crc) (fun crc' m' => exists C',
    m' = MMem (mA m) (mB m) C' /\ in_u 16 crc' /\ length C' = length (mC m)) m) as H
    by (apply wp_core_bench_matrix; eauto).
  apply wp_ok in H as (crc' & m' & Hrun & C' & -> & Hr & Hl). by exists crc', C'.
Qed.

Lemma core_bench_matrix_restores_witness :
  exists crc' C',
    core_bench_matrix (MatParams 2 0 8 16) (-32768) 7 (MMem [1; 2; 3; 4] [5; 6; 7; 8] [0; 0; 0; 0])
      = Ok crc' (MMem [1; 2; 3; 4] [5; 6; 7; 8] C') /\
    in_u 16 crc' /\ length C' = 4%nat.
Proof.
  apply (core_bench_matrix_restores (MatParams 2 0 8 16)
    (MMem [1; 2; 3; 4] [5; 6; 7; 8] [0; 0; 0; 0]) (-32768) 7).
  - split_and!; reflexivity || (cbn; lia).
  - repeat constructor; unfold in_s; cbn; lia.
  - unfold in_u. lia.
Defined.

Lemma arr_Forall (P : Z -> Prop) l n f :
  Z.of_nat (length l) = n -> (forall c, 0 <= c < n -> arr_get l c = Some (f c)) ->
  (forall c, P (f c)) -> Forall P l.
Proof.
  intros Hl Hg HP. apply Forall_lookup. intros i x Hx. rewrite <- arr_get_nat in Hx.
  pose proof (arr_get_Some _ _ _ Hx). rewrite Hg in Hx by lia. by injection Hx as <-.
Qed.

(** The addresses: A is aligned at or above the block, B follows A, C is
    aligned at or above the end of B and at most 4 bytes further. *)
Lemma matrix_addresses memblk N :
  0 <= memblk -> 0 <= N < 16384 -> memblk + 8 * (N * N) < 2 ^ 31 ->
  let A := align_mem memblk in
  let B := u32 (A + 2 * (N * N)) in
  let C := align_mem (u32 (B + 2 * (N * N))) in
  memblk <= A <= memblk + 7 /\ A mod 8 = 0 /\ B = A + 2 * (N * N) /\
  C mod 8 = 0 /\ B + 2 * (N * N) <= C <= B + 2 * (N * N) + 4.
Proof.
  intros Hm HN Hr A B C. change (2 ^ 31) with 2147483648 in Hr.
  assert (2 ^ 32 = 4294967296) as H32 by done.
  assert (0 <= N * N <= 268435456) as HNN by nia.
  destruct (align8_spec memblk ltac:(lia)) as [HA8 HA]. fold (align_mem memblk) in HA8, HA.
  fold A in HA8, HA.
  assert (B = A + 2 * (N * N)) as HB by (unfold B; cint_lia).
  assert (u32 (B + 2 * (N * N)) = A + 4 * (N * N)) as HE by cint_lia.
  assert (C = align8 (A + 4 * (N * N))) as HC by (unfold C, align_mem; by rewrite HE).
  destruct (align8_spec (A + 4 * (N * N)) ltac:(lia)) as [HC8 HC']. rewrite <- HC in *.
  clearbody A B C. split_and!; try lia. Z.to_euclidean_division_equations; lia.
Qed.

(** Three matrices in a row inside the block, when 11 bytes are to spare. *)
Definition matrix_layout (blksize memblk N : Z) (p : mat_params) : Prop :=
  mat_N p = N /\
  memblk <= mat_A p /\ mat_A p mod 8 = 0 /\ mat_A p + 2 * (N * N) = mat_B p /\
  mat_B p + 2 * (N * N) <= mat_C p /\ mat_C p mod 8 = 0 /\
  (8 * (N * N) + 11 <= blksize -> mat_C p + 4 * (N * N) <= memblk + blksize).

Lemma matrix_layout_ok blksize memblk N :
  0 <= memblk -> memblk + blksize < 2 ^ 31 -> dim_for blksize N ->
  let A := align_mem memblk in
  let B := u32 (A + 2 * (N * N)) in
  let C := align_mem (u32 (B + 2 * (N * N))) in
  matrix_layout blksize memblk N (MatParams N A B C).
Proof.
  intros Hm Hr Hd A B C. pose proof (dim_for_small _ _ Hd ltac:(lia)) as HN.
  destruct Hd as [HN0 Hd].
  destruct (matrix_addresses memblk N Hm ltac:(lia) ltac:(lia)) as (? & ? & ? & ? & ?).
  fold A in H, H0, H1, H2, H3. fold B in H1, H2, H3. fold C in H2, H3.
  unfold matrix_layout. cbn [mat_N mat_A mat_B mat_C]. clearbody A B C.
  split_and!; lia.
Qed.

(** [core_init_matrix] picks the largest N with 8 N^2 below the block
    size, fills A with bytes and B with 16-bit values, and lays A, B and C out
    one after the other without overlap from the start of the block; when the
    block has 11 bytes to spare for the alignment, C ends inside it. *)
Theorem core_init_matrix_layout (blksize memblk seed N : Z) (m : mmem) :
  1 <= blksize -> dim_for blksize N -> mat_wf N m ->
  0 <= memblk -> memblk + blksize < 2 ^ 31 ->
  exists p A' B',
    core_init_matrix blksize memblk seed m = Ok (N, p) (MMem A' B' (mC m)) /\
    Forall (fun a => 0 <= a <= 255) A' /\ Forall (in_s 16) B' /\
    mat_wf N (MMem A' B' (mC m)) /\ matrix_layout blksize memblk N p.
Proof.
  intros Hb Hd Hwf Hm Hr.
  assert (wp (core_init_matrix blksize memblk seed) (fun r m' => exists p A' B',
    r = (N, p) /\ m' = MMem A' B' (mC m) /\
    Forall (fun a => 0 <= a <= 255) A' /\ Forall (in_s 16) B' /\
    mat_wf N (MMem A' B' (mC m)) /\ matrix_layout blksize memblk N p) m) as H.
  { apply (wp_core_init_matrix _ _ _ N); [lia | done | done |].
    intros A' B' HA HB seed0 Hv A B C. eexists _, A', B'.
    pose proof Hwf as (_ & HlA & HlB & _). split_and!; [done | done | ..].
    - apply (arr_Forall _ _ (N * N) (init_A seed0));
        [by rewrite HA | apply Hv | apply init_A_range].
    - apply (arr_Forall _ _ (N * N) (init_B seed0));
        [by rewrite HB | apply Hv | apply init_B_range].
    - by apply (mat_wf_frame N m).
    - by apply matrix_layout_ok. }
  apply wp_ok in H as (r & m' & Hrun & p & A' & B' & -> & -> & H). by exists p, A', B'.
Qed.

Lemma core_init_matrix_layout_witness :
  exists p A' B',
    core_init_matrix 666 668 7 (MMem (replicate 81 0) (replicate 81 0) (replicate 81 0))
      = Ok (9, p) (MMem A' B' (replicate 81 0)) /\
    Forall (fun a => 0 <= a <= 255) A' /\ Forall (in_s 16) B' /\
    mat_wf 9 (MMem A' B' (replicate 81 0)) /\ matrix_layout 666 668 9 p.
Proof.
  apply (core_init_matrix_layout 666 668 7 9
           (MMem (replicate 81 0) (replicate 81 0) (replicate 81 0))).
  - lia.
  - unfold dim_for. lia.
  - split_and!; reflexivity || lia.
  - lia.
  - reflexivity.
Defined.

(** Without that slack the matrices can leave the block: for the profile
    size of 400 bytes per algorithm and a block at an odd address, C ends 3
    bytes past the end of the block. *)
Theorem core_init_matrix_overrun :
  match core_init_matrix 400 1 8 (MMem (replicate 49 0) (replicate 49 0) (replicate 49 0)) with
  | Ok (N, p) _ => N = 7 /\ mat_C p + 4 * (N * N) = (1 + 400) + 3
  | Err _ => False
  end.
Proof. vm_compute. split; reflexivity. Qed.
