(* ===== verification/ListHeap.v ===== *)
(** * The linked list of core_list_join.c: cells and basic operations

    A list cell ([list_head]) holds a pointer to the next cell and one to its
    data item ([list_data]).  Cells and items live in two arrays carved out of
    one memory block; a pointer is an index into its array, [None] is [NULL],
    and the store maps the indices in range to their contents. *)

From Stdlib Require Import ZArith Lia.
From stdpp Require Import base list gmap numbers.
From S2P Require Import Prelude.

Local Open Scope Z_scope.
Local Open Scope cm_scope.

(** ** Data *)

Record list_data := LData { data16 : Z; idx16 : Z }.
Record list_head := LHead { next : option Z; info : option Z }.

#[export] Instance list_data_eq_dec : EqDecision list_data.
Proof. solve_decision. Defined.
#[export] Instance list_head_eq_dec : EqDecision list_head.
Proof. solve_decision. Defined.

(** The two arrays. *)
Record lstore := LStore { heads : gmap Z list_head; datas : gmap Z list_data }.

(** ** Accesses *)

Definition deref {S A} (m : gmap Z A) (p : option Z) : M S A :=
  match p with
  | None => fail NullDeref
  | Some a => oget OutOfBounds (m !! a)
  end.

(** [p->next], [p->info] *)
Definition get_head (p : option Z) : M (gmap Z list_head) list_head :=
  let! h := gets id in deref h p.
Definition get_next (p : option Z) : M (gmap Z list_head) (option Z) :=
  let! c := get_head p in ret (next c).
Definition get_info (p : option Z) : M (gmap Z list_head) (option Z) :=
  let! c := get_head p in ret (info c).

(** [p->next = q], [p->info = d] *)
Definition put_head (p : option Z) (c : list_head) : M (gmap Z list_head) unit :=
  match p with
  | None => fail NullDeref
  | Some a => modify (<[a := c]>)
  end.
Definition set_next (p q : option Z) : M (gmap Z list_head) unit :=
  let! c := get_head p in put_head p (LHead q (info c)).
Definition set_info (p d : option Z) : M (gmap Z list_head) unit :=
  let! c := get_head p in put_head p (LHead (next c) d).

(** [*d], and [*d = v] for an item in its array *)
Definition get_data (d : option Z) : M (gmap Z list_data) list_data :=
  let! m := gets id in deref m d.
Definition put_data (d : option Z) (v : list_data) : M (gmap Z list_data) unit :=
  let! _ := get_data d in
  match d with
  | None => fail NullDeref
  | Some a => modify (<[a := v]>)
  end.

(** The same on the store of both arrays. *)
Definition on_heads {A} (m : M (gmap Z list_head) A) : M lstore A :=
  zoom heads (fun h s => LStore h (datas s)) m.
Definition on_datas {A} (m : M (gmap Z list_data) A) : M lstore A :=
  zoom datas (fun d s => LStore (heads s) d) m.

(** ** Operations *)

Definition copy_info (to : option Z) (from : list_data) : M (gmap Z list_data) unit :=
  let! t := get_data to in
  put_data to (LData (data16 from) (idx16 t)) ;;
  let! t := get_data to in
  put_data to (LData (data16 t) (idx16 from)).

(** Returns the new item and the advanced [*memblock] and [*datablock]. *)
Definition core_list_insert_new (insert_point : option Z) (info : list_data)
    (memblock datablock memblock_end datablock_end : Z) : M lstore (option Z * Z * Z) :=
  if memblock_end <=? memblock + 1 then ret (None, memblock, datablock)
  else if datablock_end <=? datablock + 1 then ret (None, memblock, datablock)
  else
    let newitem := Some memblock in
    let memblock := memblock + 1 in
    let! n := on_heads (get_next insert_point) in
    on_heads (set_next newitem n) ;;
    on_heads (set_next insert_point newitem) ;;
    on_heads (set_info newitem (Some datablock)) ;;
    let datablock' := datablock + 1 in
    let! d := on_heads (get_info newitem) in
    on_datas (copy_info d info) ;;
    ret (newitem, memblock, datablock').

Definition core_list_remove (item : option Z) : M (gmap Z list_head) (option Z) :=
  let! rt := get_next item in
  let! tmp := get_info item in
  let! i := get_info rt in
  set_info item i ;;
  set_info rt tmp ;;
  let! n := get_next item in
  let! nn := get_next n in
  set_next item nn ;;
  set_next rt None ;;
  ret rt.

Definition core_list_undo_remove (item_removed item_modified : option Z)
  : M (gmap Z list_head) (option Z) :=
  let! tmp := get_info item_removed in
  let! i := get_info item_modified in
  set_info item_removed i ;;
  set_info item_modified tmp ;;
  let! n := get_next item_modified in
  set_next item_removed n ;;
  set_next item_modified item_removed ;;
  ret item_removed.

(** The test of the search loops: does the item of cell [list] match? *)
Definition find_match (list : option Z) (info : list_data) : M lstore bool :=
  let! d := on_heads (get_info list) in
  let! v := on_datas (get_data d) in
  ret (if 0 <=? idx16 info then idx16 v =? idx16 info
       else Z.land (data16 v) 0xff =? data16 info).

Definition core_list_find (list : option Z) (info : list_data) : M lstore (option Z) :=
  while (fun list =>
    match list with
    | None => ret false
    | Some _ => let! b := find_match list info in ret (negb b)
    end) (fun list => on_heads (get_next list)) list.

Definition core_list_reverse (list : option Z) : M (gmap Z list_head) (option Z) :=
  let! (_, nxt) :=
    while (fun '(list, _) => ret (bool_decide (list <> None)))
      (fun '(list, nxt) =>
         let! tmp := get_next list in
         set_next list nxt ;;
         ret (tmp, list)) (list, None) in
  ret nxt.

(** ** Chains

    [chain h p l q]: following [next] from [p] visits the cells of [l], in
    order, and arrives at [q]; an element of [l] is the index of a cell and
    the index of its item. *)
Fixpoint chain (h : gmap Z list_head) (p : option Z) (l : list (Z * Z)) (q : option Z) : Prop :=
  match l with
  | [] => p = q
  | (a, d) :: l' => p = Some a /\ exists n, h !! a = Some (LHead n (Some d)) /\ chain h n l' q
  end.

Abbreviation nodes l := (l.*1).

Lemma chain_app h p l1 l2 q :
  chain h p (l1 ++ l2) q <-> exists r, chain h p l1 r /\ chain h r l2 q.
Proof.
  revert p. induction l1 as [| [a d] l1 IH]; intros p; cbn [app chain].
  - split; [by exists p | by intros (r & -> & H)].
  - setoid_rewrite IH. split.
    + intros (-> & n & Hn & r & H1 & H2). exists r. split; [| done]. split; [done | eauto].
    + intros (r & (-> & n & Hn & H1) & H2). split; [done |]. exists n. split; [done | eauto].
Qed.

Lemma chain_frame h p l q a c :
  a ∉ nodes l -> chain (<[a := c]> h) p l q <-> chain h p l q.
Proof.
  revert p. induction l as [| [b d] l IH]; intros p Ha; cbn [chain]; [done |].
  cbn in Ha. apply not_elem_of_cons in Ha as [Hne Ha].
  setoid_rewrite (fun n => IH n Ha). by rewrite lookup_insert_ne by done.
Qed.

Lemma chain_nil_inv h l q : chain h None l q -> l = [] /\ q = None.
Proof. destruct l as [| [a d] l]; cbn; [by intros <- | by intros [? _]]. Qed.

Lemma chain_cons_inv h a l : chain h (Some a) l None -> exists d n l',
  l = (a, d) :: l' /\ h !! a = Some (LHead n (Some d)) /\ chain h n l' None.
Proof.
  destruct l as [| [b d] l']; cbn; [done |]. intros ([= ->] & n & Hn & H). eauto 6.
Qed.

(** Two heaps that agree on a chain's cells have the same chain. *)
Lemma chain_ext h h' p l q :
  (forall a, a ∈ nodes l -> h' !! a = h !! a) -> chain h p l q -> chain h' p l q.
Proof.
  revert p. induction l as [| [a d] l IH]; intros p He; cbn [chain]; [done |].
  intros (-> & n & Hn & Hc). split; [done |]. exists n. split.
  - rewrite He; [done | by left].
  - apply IH; [| done]. intros b Hb. apply He. by right.
Qed.

(** ** Rules for the accesses *)

Lemma wp_get_next a c Q h : h !! a = Some c -> wp (get_next (Some a)) Q h <-> Q (next c) h.
Proof.
  intros Ha. unfold get_next, get_head, deref. wp_simpl. cbn [id]. rewrite wp_oget, Ha.
  split; [by intros (x & [= ->] & H) | eauto].
Qed.

Lemma wp_get_info a c Q h : h !! a = Some c -> wp (get_info (Some a)) Q h <-> Q (info c) h.
Proof.
  intros Ha. unfold get_info, get_head, deref. wp_simpl. cbn [id]. rewrite wp_oget, Ha.
  split; [by intros (x & [= ->] & H) | eauto].
Qed.

Lemma wp_set_next a c v Q h : h !! a = Some c ->
  wp (set_next (Some a) v) Q h <-> Q tt (<[a := LHead v (info c)]> h).
Proof.
  intros Ha. unfold set_next, get_head, put_head, deref. wp_simpl. cbn [id].
  rewrite wp_oget, Ha. split; [by intros (x & [= ->] & H) | eauto].
Qed.

Lemma wp_set_info a c v Q h : h !! a = Some c ->
  wp (set_info (Some a) v) Q h <-> Q tt (<[a := LHead (next c) v]> h).
Proof.
  intros Ha. unfold set_info, get_head, put_head, deref. wp_simpl. cbn [id].
  rewrite wp_oget, Ha. split; [by intros (x & [= ->] & H) | eauto].
Qed.

Lemma wp_get_data a v Q (m : gmap Z list_data) :
  m !! a = Some v -> wp (get_data (Some a)) Q m <-> Q v m.
Proof.
  intros Ha. unfold get_data, deref. wp_simpl. cbn [id]. rewrite wp_oget, Ha.
  split; [by intros (x & [= ->] & H) | eauto].
Qed.

Lemma wp_put_data a v w Q (m : gmap Z list_data) :
  m !! a = Some v -> wp (put_data (Some a) w) Q m <-> Q tt (<[a := w]> m).
Proof. intros Ha. unfold put_data. wp_simpl. by rewrite (wp_get_data a v). Qed.

(** ** Reverse *)

Definition agree_off (ns : list Z) (h h' : gmap Z list_head) : Prop :=
  forall a, a ∉ ns -> h' !! a = h !! a.

Lemma wp_core_list_reverse h p l (Q : option Z -> gmap Z list_head -> Prop) :
  chain h p l None -> NoDup (nodes l) -> Z.of_nat (length l) < Zpos budget ->
  (forall p' h', chain h' p' (reverse l) None -> agree_off (nodes l) h h' -> Q p' h') ->
  wp (core_list_reverse p) Q h.
Proof.
  intros Hc Hnd Hlen HQ. unfold core_list_reverse. rewrite wp_bind.
  apply (wp_while_n (fun n v h' => exists l1 l2, n = length l2 /\ l = l1 ++ l2 /\
    chain h' v.1 l2 None /\ chain h' v.2 (reverse l1) None /\ agree_off (nodes l1) h h')
    _ _ (length l)).
  - exists [], l. split_and!; done.
  - done.
  - intros n [cur nxt] h1 (l1 & l2 & -> & -> & H2 & H1 & Hag). cbn [fst snd] in *.
    rewrite wp_ret. destruct cur as [a |].
    + rewrite bool_decide_true by done.
      apply chain_cons_inv in H2 as (d & n & l2' & -> & Ha & H2).
      rewrite wp_bind, (wp_get_next a _ _ _ Ha), wp_bind, (wp_set_next a _ _ _ _ Ha), wp_ret.
      cbn [next info fst snd].
      rewrite fmap_app, fmap_cons in Hnd. apply list.NoDup_app in Hnd as (Hnd1 & Hdis & Hnd2).
      apply list.NoDup_cons in Hnd2 as [Ha2 Hnd2]. cbn in Hdis.
      assert (a ∉ nodes l1) as Ha1 by (intros H; apply (Hdis a H); by left).
      exists (length l2'). split; [cbn; lia |]. exists (l1 ++ [(a, d)]), l2'.
      split_and!; [done | by rewrite <- app_assoc | | |].
      * by apply chain_frame.
      * rewrite reverse_snoc. cbn [chain]. split; [done |]. exists nxt.
        rewrite lookup_insert_eq. split; [done |]. apply chain_frame; [| done].
        by rewrite fmap_reverse, elem_of_reverse.
      * intros b Hb. rewrite fmap_app in Hb. apply not_elem_of_app in Hb as [Hb1 Hb2].
        rewrite lookup_insert_ne by (cbn in Hb2; set_solver). by apply Hag.
    + rewrite bool_decide_false by (by intros []). rewrite wp_ret.
      apply chain_nil_inv in H2 as [-> _]. rewrite app_nil_r in *. by apply HQ.
Qed.

(** ** Symbolic execution of cell accesses *)

(** The content of a cell in a heap built by insertions. *)
Ltac cell_at := first [eassumption | by simplify_map_eq | by rewrite lookup_insert_eq].

Ltac cell_step :=
  first
    [ rewrite wp_bind | rewrite wp_ret
    | erewrite wp_get_next by cell_at | erewrite wp_get_info by cell_at
    | erewrite wp_set_next by cell_at | erewrite wp_set_info by cell_at ];
  cbn [next info fst snd].
Ltac cell_steps := repeat cell_step.

(** Two heaps built by insertions at the cells [a] and [b] are equal. *)
Ltac heap_eq a b :=
  let c := fresh "c" in
  apply map_eq; intros c; destruct (decide (c = a)), (decide (c = b)); by simplify_map_eq.

(** ** Remove and undo *)

Lemma wp_core_list_remove a b nb da db Q h :
  h !! a = Some (LHead (Some b) da) -> h !! b = Some (LHead nb db) -> a <> b ->
  wp (core_list_remove (Some a)) Q h <->
  Q (Some b) (<[b := LHead None da]> (<[a := LHead nb db]> h)).
Proof.
  intros Ha Hb Hne. unfold core_list_remove. cell_steps.
  match goal with |- Q _ ?x <-> Q _ ?y => replace x with y by heap_eq a b end. done.
Qed.

Lemma wp_core_list_undo_remove a b na nb da db Q h :
  h !! a = Some (LHead na da) -> h !! b = Some (LHead nb db) -> a <> b ->
  wp (core_list_undo_remove (Some b) (Some a)) Q h <->
  Q (Some b) (<[a := LHead (Some b) db]> (<[b := LHead na da]> h)).
Proof.
  intros Ha Hb Hne. unfold core_list_undo_remove. cell_steps.
  match goal with |- Q _ ?x <-> Q _ ?y => replace x with y by heap_eq a b end. done.
Qed.

(** Unlinking a cell: the chain loses the item of cell [a], which now holds
    the item of its successor. *)
Lemma chain_remove h p l1 a b da db l2 q :
  chain h p (l1 ++ (a, da) :: (b, db) :: l2) q ->
  NoDup (nodes (l1 ++ (a, da) :: (b, db) :: l2)) ->
  exists nb, h !! a = Some (LHead (Some b) (Some da)) /\ h !! b = Some (LHead nb (Some db)) /\
    a <> b /\
    chain (<[b := LHead None (Some da)]> (<[a := LHead nb (Some db)]> h)) p (l1 ++ (a, db) :: l2) q.
Proof.
  intros Hc Hnd. apply chain_app in Hc as (r & H1 & -> & n & Ha & -> & nb & Hb & H2).
  rewrite fmap_app, !fmap_cons in Hnd. cbn [fst] in Hnd.
  apply list.NoDup_app in Hnd as (_ & Hdis & Hnd2).
  apply list.NoDup_cons in Hnd2 as [Ha2 Hnd2]. apply list.NoDup_cons in Hnd2 as [Hb2 _].
  apply not_elem_of_cons in Ha2 as [Hab Ha2].
  assert ((a ∉ nodes l1) /\ (b ∉ nodes l1)) as [Ha1 Hb1].
  { split; intros H; apply (Hdis _ H); [by left | by right; left]. }
  exists nb. split_and!; [done | done | done |].
  apply chain_app. exists (Some a). split; [by rewrite !chain_frame |].
  split; [done |]. exists nb. split; [by simplify_map_eq | by rewrite !chain_frame].
Qed.

(** Removing the item of a cell that has a successor takes exactly that
    item out of the list (the cell keeps its place and receives the item of
    its successor, whose cell is unlinked and returned), and
    [core_list_undo_remove] applied to the two cells puts the heap back,
    cell for cell, as it was. *)
Theorem core_list_remove_undo h p l1 a b da db l2 :
  chain h p (l1 ++ (a, da) :: (b, db) :: l2) None ->
  NoDup (nodes (l1 ++ (a, da) :: (b, db) :: l2)) ->
  exists h', core_list_remove (Some a) h = Ok (Some b) h' /\
    chain h' p (l1 ++ (a, db) :: l2) None /\
    h' !! b = Some (LHead None (Some da)) /\
    core_list_undo_remove (Some b) (Some a) h' = Ok (Some b) h.
Proof.
  intros Hc Hnd. destruct (chain_remove _ _ _ _ _ _ _ _ _ Hc Hnd) as (nb & Ha & Hb & Hne & Hc').
  assert (wp (core_list_remove (Some a)) (fun r h' => r = Some b /\
    h' = <[b := LHead None (Some da)]> (<[a := LHead nb (Some db)]> h)) h) as Hr
    by (by rewrite (wp_core_list_remove a b nb (Some da) (Some db))).
  apply wp_ok in Hr as (r & h' & Hr & -> & Eh'). exists h'. rewrite Hr, Eh'.
  split_and!; [done | done | by simplify_map_eq |].
  assert (wp (core_list_undo_remove (Some b) (Some a)) (fun r h2 => r = Some b /\ h2 = h) h') as Hu.
  { rewrite Eh', (wp_core_list_undo_remove a b nb None (Some db) (Some da));
      [| by simplify_map_eq | by simplify_map_eq | done].
    split; [done |]. heap_eq a b. }
  rewrite <- Eh'. apply wp_ok in Hu as (r & h2 & -> & -> & ->). done.
Qed.

Definition three_cells : gmap Z list_head :=
  <[0 := LHead (Some 1) (Some 10)]> (<[1 := LHead (Some 2) (Some 11)]>
    (<[2 := LHead None (Some 12)]> ∅)).

Lemma core_list_remove_undo_witness :
  exists h', core_list_remove (Some 1) three_cells = Ok (Some 2) h' /\
    chain h' (Some 0) [(0, 10); (1, 12)] None /\
    h' !! 2 = Some (LHead None (Some 11)) /\
    core_list_undo_remove (Some 2) (Some 1) h' = Ok (Some 2) three_cells.
Proof.
  apply (core_list_remove_undo three_cells (Some 0) [(0, 10)] 1 2 11 12 []).
  - cbn. split; [done |]. eexists. split; [reflexivity |]. split; [done |].
    eexists. split; [reflexivity |]. split; [done |]. eexists. by split.
  - apply (bool_decide_unpack _). vm_compute. exact I.
Defined.

(** ** Reversal is an involution *)

(** A chain determines its cells, so two heaps that have the same chain and
    agree elsewhere are equal. *)
Lemma chain_heap_unique h h' p p' l :
  chain h p l None -> chain h' p' l None -> agree_off (nodes l) h h' -> p = p' /\ h = h'.
Proof.
  intros Hc Hc' Hag.
  assert (p = p' /\ forall a, a ∈ nodes l -> h !! a = h' !! a) as [-> He].
  { clear Hag. revert p p' Hc Hc'. induction l as [| [a d] l IH]; cbn [chain]; intros p p'.
    - intros -> ->. split; [done |]. by intros a ?%elem_of_nil.
    - intros (-> & n & Hn & Hc) (-> & n' & Hn' & Hc'). destruct (IH n n' Hc Hc') as [-> He].
      split; [done |]. intros b [-> | Hb]%elem_of_cons; [| by apply He].
      cbn [fst]. congruence. }
  split; [done |]. apply map_eq. intros a.
  destruct (decide (a ∈ nodes l)); [by apply He | symmetry; by apply Hag].
Qed.

(** [core_list_reverse] reverses any acyclic list in place: the result
    visits the same cells with the same items in the opposite order, every
    other cell is untouched, and reversing again restores the heap exactly. *)
Theorem core_list_reverse_reverses h p l :
  chain h p l None -> NoDup (nodes l) -> Z.of_nat (length l) < Zpos budget ->
  exists p' h', core_list_reverse p h = Ok p' h' /\
    chain h' p' (reverse l) None /\ agree_off (nodes l) h h' /\
    core_list_reverse p' h' = Ok p h.
Proof.
  intros Hc Hnd Hlen.
  assert (wp (core_list_reverse p) (fun p' h' => chain h' p' (reverse l) None /\
    agree_off (nodes l) h h') h) as H1 by (by apply (wp_core_list_reverse h p l)).
  apply wp_ok in H1 as (p' & h' & E1 & Hc' & Hag). exists p', h'. split_and!; [done.. |].
  assert (wp (core_list_reverse p') (fun p2 h2 => chain h2 p2 l None /\
    agree_off (nodes (reverse l)) h' h2) h') as H2.
  { apply (wp_core_list_reverse h' p' (reverse l)); [done | | by rewrite length_reverse |].
    - by rewrite fmap_reverse, reverse_Permutation.
    - intros p2 h2 H2 Hag2. by rewrite reverse_involutive in H2. }
  apply wp_ok in H2 as (p2 & h2 & E2 & Hc2 & Hag2).
  destruct (chain_heap_unique h h2 p p2 l) as [<- <-]; [done | done | | done].
  intros a Ha. rewrite Hag2; [by apply Hag |]. by rewrite fmap_reverse, elem_of_reverse.
Qed.

(** A chain written as equations, for concrete heaps. *)
Ltac solve_chain :=
  cbn; repeat first [done | split; [done |] | eexists; split; [reflexivity |]].

Lemma core_list_reverse_reverses_witness :
  exists p' h', core_list_reverse (Some 0) three_cells = Ok p' h' /\
    chain h' p' (reverse [(0, 10); (1, 11); (2, 12)]) None /\
    agree_off [0; 1; 2] three_cells h' /\
    core_list_reverse p' h' = Ok (Some 0) three_cells.
Proof.
  apply (core_list_reverse_reverses three_cells (Some 0) [(0, 10); (1, 11); (2, 12)]).
  - solve_chain.
  - apply (bool_decide_unpack _). vm_compute. exact I.
  - vm_compute. reflexivity.
Defined.

(** ** Find *)

(** What a search for [info] accepts: the index when [info] carries one
    (non-negative), otherwise the low byte of the datum. *)
Definition item_matches (info v : list_data) : bool :=
  if 0 <=? idx16 info then idx16 v =? idx16 info
  else Z.land (data16 v) 0xff =? data16 info.

(** Every item of the chain exists. *)
Definition has_items (ds : gmap Z list_data) (l : list (Z * Z)) : Prop :=
  forall x, x ∈ l -> is_Some (ds !! x.2).

(** The first cell of [l] whose item is accepted. *)
Fixpoint first_match (ds : gmap Z list_data) (info : list_data) (l : list (Z * Z)) : option Z :=
  match l with
  | [] => None
  | (a, d) :: l' =>
      if from_option (item_matches info) false (ds !! d) then Some a
      else first_match ds info l'
  end.

Lemma wp_find_match h ds key a n d v (Q : bool -> lstore -> Prop) :
  h !! a = Some (LHead n (Some d)) -> ds !! d = Some v ->
  wp (find_match (Some a) key) Q (LStore h ds) <-> Q (item_matches key v) (LStore h ds).
Proof.
  intros Ha Hd. unfold find_match, on_heads, on_datas. wp_simpl. cbn [heads datas].
  rewrite (wp_get_info _ _ _ _ Ha). wp_simpl. cbn [info heads datas].
  rewrite (wp_get_data _ _ _ _ Hd). done.
Qed.

Lemma wp_core_list_find h ds p info l (Q : option Z -> lstore -> Prop) :
  chain h p l None -> has_items ds l -> Z.of_nat (length l) < Zpos budget ->
  Q (first_match ds info l) (LStore h ds) ->
  wp (core_list_find p info) Q (LStore h ds).
Proof.
  intros Hc Hi Hlen HQ. unfold core_list_find.
  apply (wp_while_n (fun n p s => exists l2, n = length l2 /\ s = LStore h ds /\
    chain h p l2 None /\ has_items ds l2 /\ first_match ds info l = first_match ds info l2)
    _ _ (length l)); [by exists l | done |].
  clear Hc Hi Hlen p. intros n p s (l2 & -> & -> & Hc & Hi & Hf).
  destruct p as [a |].
  - apply chain_cons_inv in Hc as (d & n & l3 & -> & Ha & Hc).
    destruct (Hi (a, d)) as [v Hv]; [by left |]. cbn [snd] in Hv.
    rewrite wp_bind, (wp_find_match _ _ _ _ _ _ _ _ Ha Hv), wp_ret.
    cbn [first_match] in Hf. rewrite Hv in Hf. cbn [from_option] in Hf.
    destruct (item_matches info v); cbn [negb]; [by rewrite Hf in HQ |].
    unfold on_heads. rewrite wp_zoom. cbn [heads datas]. rewrite (wp_get_next _ _ _ _ Ha).
    cbn [next]. exists (length l3). split; [cbn; lia |]. exists l3.
    split_and!; [done | done | done | | done]. intros x Hx. apply Hi. by right.
  - rewrite wp_ret. apply chain_nil_inv in Hc as [-> _]. by rewrite Hf in HQ.
Qed.

Lemma first_match_spec ds info l :
  match first_match ds info l with
  | Some a => exists l1 d v l2, l = l1 ++ (a, d) :: l2 /\ ds !! d = Some v /\
      item_matches info v = true /\
      (forall x v, x ∈ l1 -> ds !! x.2 = Some v -> item_matches info v = false)
  | None => forall x v, x ∈ l -> ds !! x.2 = Some v -> item_matches info v = false
  end.
Proof.
  induction l as [| [a d] l IH]; cbn [first_match]; [by intros x v ?%elem_of_nil |].
  destruct (from_option (item_matches info) false (ds !! d)) eqn:Hm.
  - destruct (ds !! d) as [v |] eqn:Hd; [| done].
    exists [], d, v, l. split_and!; [done.. |]. by intros x w ?%elem_of_nil.
  - assert (forall v, ds !! d = Some v -> item_matches info v = false) as Hd
      by (by intros v E; rewrite E in Hm).
    destruct (first_match ds info l) as [b |].
    + destruct IH as (l1 & d1 & v1 & l2 & -> & Hd1 & Hm1 & H1).
      exists ((a, d) :: l1), d1, v1, l2. split_and!; [done.. |].
      intros x w [-> | Hx]%elem_of_cons; eauto.
    + intros x w [-> | Hx]%elem_of_cons; eauto.
Qed.

(** A search over a well-formed list returns the first cell, in list
    order, whose item is accepted (by its index when the index searched for
    is zero or more, by the low byte of its datum otherwise), or NULL when
    no item is; it always returns and changes nothing. *)
Theorem core_list_find_first h ds p info l :
  chain h p l None -> has_items ds l -> Z.of_nat (length l) < Zpos budget ->
  exists r, core_list_find p info (LStore h ds) = Ok r (LStore h ds) /\
    match r with
    | Some a => exists l1 d v l2, l = l1 ++ (a, d) :: l2 /\ ds !! d = Some v /\
        item_matches info v = true /\
        (forall x v, x ∈ l1 -> ds !! x.2 = Some v -> item_matches info v = false)
    | None => forall x v, x ∈ l -> ds !! x.2 = Some v -> item_matches info v = false
    end.
Proof.
  intros Hc Hi Hlen. exists (first_match ds info l). split; [| apply first_match_spec].
  assert (wp (core_list_find p info) (fun r s => r = first_match ds info l /\ s = LStore h ds)
    (LStore h ds)) as Hw by (by apply (wp_core_list_find h ds p info l)).
  apply wp_ok in Hw as (r & s & -> & -> & ->). done.
Qed.

Definition three_items : gmap Z list_data :=
  <[10 := LData 0x180 0]> (<[11 := LData 0x3c3c 7]> (<[12 := LData 0xf3c 7]> ∅)).

Lemma core_list_find_first_witness :
  core_list_find (Some 0) (LData 0 7) (LStore three_cells three_items) =
    Ok (Some 1) (LStore three_cells three_items) /\
  exists r, core_list_find (Some 0) (LData 0x3c (-1)) (LStore three_cells three_items) =
    Ok r (LStore three_cells three_items).
Proof.
  assert (forall i, exists r, core_list_find (Some 0) i (LStore three_cells three_items) =
    Ok r (LStore three_cells three_items)) as Hf.
  { intros i. destruct (core_list_find_first three_cells three_items (Some 0) i
      [(0, 10); (1, 11); (2, 12)]) as (r & H & _).
    - solve_chain.
    - intros x Hx. repeat (apply elem_of_cons in Hx as [-> | Hx]; [by eexists |]).
      by apply elem_of_nil in Hx.
    - vm_compute. reflexivity.
    - by exists r. }
  split; [vm_compute; reflexivity | apply Hf].
Defined.

(** ** Insertion *)

Lemma wp_copy_info d v w (Q : unit -> gmap Z list_data -> Prop) ds :
  ds !! d = Some v -> wp (copy_info (Some d) w) Q ds <-> Q tt (<[d := w]> ds).
Proof.
  intros Hd. unfold copy_info. rewrite wp_bind, (wp_get_data _ _ _ _ Hd).
  rewrite wp_bind, (wp_put_data _ _ _ _ _ Hd), wp_bind.
  rewrite (wp_get_data d (LData (data16 w) (idx16 v))) by (by simplify_map_eq).
  rewrite (wp_put_data d (LData (data16 w) (idx16 v))) by (by simplify_map_eq).
  rewrite insert_insert_eq. by destruct w.
Qed.

(** The arrays are full: one of the two allocation pointers reached its
    limit. *)
Definition full (memblock datablock memblock_end datablock_end : Z) : bool :=
  (memblock_end <=? memblock + 1) || (datablock_end <=? datablock + 1).

Lemma wp_insert_new_full p v mb db mend dend (Q : option Z * Z * Z -> lstore -> Prop) s :
  full mb db mend dend = true ->
  wp (core_list_insert_new p v mb db mend dend) Q s <-> Q (None, mb, db) s.
Proof.
  unfold full, core_list_insert_new. intros Hf.
  destruct (mend <=? mb + 1); [done |]. by rewrite orb_false_l in Hf; rewrite Hf.
Qed.

Lemma wp_insert_new a n i v mb db mend dend c w (Q : option Z * Z * Z -> lstore -> Prop) h ds :
  full mb db mend dend = false -> a <> mb ->
  h !! a = Some (LHead n i) -> h !! mb = Some c -> ds !! db = Some w ->
  wp (core_list_insert_new (Some a) v mb db mend dend) Q (LStore h ds) <->
  Q (Some mb, mb + 1, db + 1)
    (LStore (<[mb := LHead n (Some db)]> (<[a := LHead (Some mb) i]> h)) (<[db := v]> ds)).
Proof.
  unfold full. intros [Hf1 Hf2]%orb_false_elim Hne Ha Hm Hd.
  unfold core_list_insert_new. rewrite Hf1, Hf2. unfold on_heads, on_datas.
  repeat (rewrite wp_bind, wp_zoom; cbn [heads datas]; cell_step).
  rewrite wp_bind, wp_zoom. cbn [heads datas]. rewrite (wp_copy_info _ _ _ _ _ Hd), wp_ret.
  match goal with |- Q _ (LStore ?x _) <-> Q _ (LStore ?y _) =>
    replace x with y by heap_eq a mb end. done.
Qed.

Lemma chain_insert h p l1 a d l2 q mb i db :
  chain h p (l1 ++ (a, d) :: l2) q -> NoDup (nodes (l1 ++ (a, d) :: l2)) ->
  mb ∉ nodes (l1 ++ (a, d) :: l2) -> i = Some d -> exists n, h !! a = Some (LHead n i) /\
  chain (<[mb := LHead n (Some db)]> (<[a := LHead (Some mb) i]> h)) p
    (l1 ++ (a, d) :: (mb, db) :: l2) q.
Proof.
  intros Hc Hnd Hmb ->. apply chain_app in Hc as (r & H1 & -> & n & Ha & H2).
  rewrite fmap_app, fmap_cons in *. cbn [fst] in *.
  apply list.NoDup_app in Hnd as (_ & Hdis & [Ha2 _]%list.NoDup_cons).
  apply not_elem_of_app in Hmb as [Hm1 [Hma Hm2]%not_elem_of_cons].
  assert (a ∉ nodes l1) as Ha1 by (intros H; apply (Hdis _ H); by left).
  exists n. split; [done |]. apply chain_app. exists (Some a).
  split; [by rewrite !chain_frame |]. split; [done |]. exists (Some mb).
  split; [by simplify_map_eq |]. split; [done |]. exists n.
  split; [by simplify_map_eq | by rewrite !chain_frame].
Qed.

(** [core_list_insert_new] either reports that the arrays are full,
    returning NULL with the store and both allocation pointers unchanged, or
    takes the next free cell and item, fills the item, links the cell
    directly behind the insertion point and advances both pointers by one;
    the rest of the list keeps its order. *)
Theorem core_list_insert_new_inserts h ds p l1 a d l2 v mb db mend dend :
  chain h p (l1 ++ (a, d) :: l2) None -> NoDup (nodes (l1 ++ (a, d) :: l2)) ->
  mb ∉ nodes (l1 ++ (a, d) :: l2) -> is_Some (h !! mb) -> is_Some (ds !! db) ->
  if full mb db mend dend then
    core_list_insert_new (Some a) v mb db mend dend (LStore h ds) =
      Ok (None, mb, db) (LStore h ds)
  else exists h',
    core_list_insert_new (Some a) v mb db mend dend (LStore h ds) =
      Ok (Some mb, mb + 1, db + 1) (LStore h' (<[db := v]> ds)) /\
    chain h' p (l1 ++ (a, d) :: (mb, db) :: l2) None /\
    agree_off [a; mb] h h'.
Proof.
  intros Hc Hnd Hm [c Hmb] [w Hdb]. destruct (full mb db mend dend) eqn:Hf.
  - assert (wp (core_list_insert_new (Some a) v mb db mend dend)
      (fun r s => r = (None, mb, db) /\ s = LStore h ds) (LStore h ds)) as Hw
      by (by rewrite wp_insert_new_full).
    by apply wp_ok in Hw as (r & s & -> & -> & ->).
  - destruct (chain_insert _ _ _ _ _ _ _ mb _ db Hc Hnd Hm eq_refl) as (n & Ha & Hc').
    set (h' := <[mb := LHead n (Some db)]> (<[a := LHead (Some mb) (Some d)]> h)) in Hc'.
    assert (a <> mb) as Hne.
    { intros ->. apply Hm. rewrite fmap_app. apply elem_of_app. right. by left. }
    exists h'. split_and!; [| done |].
    + assert (wp (core_list_insert_new (Some a) v mb db mend dend)
        (fun r s => r = (Some mb, mb + 1, db + 1) /\ s = LStore h' (<[db := v]> ds))
        (LStore h ds)) as Hw by (by rewrite (wp_insert_new a n (Some d) v mb db mend dend c w)).
      by apply wp_ok in Hw as (r & s & -> & -> & ->).
    + intros b Hb. unfold h'. by rewrite !lookup_insert_ne by set_solver.
Qed.

Definition one_cell : gmap Z list_head := <[0 := LHead None (Some 10)]> three_cells.

Lemma core_list_insert_new_inserts_witness :
  core_list_insert_new (Some 0) (LData 5 6) 2 12 3 13 (LStore one_cell three_items) =
    Ok (None, 2, 12) (LStore one_cell three_items) /\
  exists h',
    core_list_insert_new (Some 0) (LData 5 6) 2 12 4 14 (LStore one_cell three_items) =
      Ok (Some 2, 3, 13) (LStore h' (<[12 := LData 5 6]> three_items)) /\
    chain h' (Some 0) [(0, 10); (2, 12)] None /\
    agree_off [0; 2] one_cell h'.
Proof.
  assert (chain one_cell (Some 0) ([] ++ [(0, 10)]) None) as Hc by solve_chain.
  assert (NoDup (nodes ([] ++ [(0, 10)]))) as Hnd
    by (apply (bool_decide_unpack _); vm_compute; exact I).
  assert (2 ∉ nodes ([] ++ [(0, 10)])) as Hm
    by (apply (bool_decide_unpack _); vm_compute; exact I).
  split.
  - apply (core_list_insert_new_inserts one_cell three_items (Some 0) [] 0 10 []
      (LData 5 6) 2 12 3 13 Hc Hnd Hm); by eexists.
  - apply (core_list_insert_new_inserts one_cell three_items (Some 0) [] 0 10 []
      (LData 5 6) 2 12 4 14 Hc Hnd Hm); by eexists.
Defined.
