(* ===== verification/MergeSort.v ===== *)
(** * The in-place merge sort of core_list_join.c

    The code, the interface a comparison function has to satisfy
    ([Comparator]), and the proof that under this interface
    [core_list_mergesort] is a total, in-place, stable sort. *)

From Stdlib Require Import ZArith Lia.
From stdpp Require Import base list gmap numbers sorting.
From S2P Require Import Prelude ListHeap.

Local Open Scope Z_scope.
Local Open Scope cm_scope.

(** ** The code

    [D] is the part of the store the comparison function works on: everything
    but the list cells, which it gets no pointer to.  [cmp] receives the two
    data pointers; its third argument [res] is fixed for a whole sort and is
    part of the closure. *)

Section code.
Context {D : Type} (cmp : option Z -> option Z -> M D Z).

Definition cells {A} (m : M (gmap Z list_head) A) : M (gmap Z list_head * D) A :=
  zoom fst (fun h s => (h, s.2)) m.
Definition others {A} (m : M D A) : M (gmap Z list_head * D) A :=
  zoom snd (fun d s => (s.1, d)) m.

(** [for (i = 0; i < insize; i++) { psize++; q = q->next; if (!q) break; }] *)
Definition advance (insize : Z) (q : option Z) : M (gmap Z list_head * D) (option Z * Z) :=
  iter (fun '(i, q, psize) =>
    if i <? insize then
      let psize := psize + 1 in
      let! q := cells (get_next q) in
      match q with
      | None => ret (inr (q, psize))
      | Some _ => ret (inl (i + 1, q, psize))
      end
    else ret (inr (q, psize))) (0, q, 0).

(** The variables of the merge loop. *)
Record mvars := MVars { vp : option Z; vq : option Z; vpsize : Z; vqsize : Z;
                        vlist : option Z; vtail : option Z }.

(** [e = p; p = p->next; psize--;] and [e = q; q = q->next; qsize--;] *)
Definition take_p (v : mvars) : M (gmap Z list_head * D) (option Z * mvars) :=
  let '(MVars p q psize qsize list tail) := v in
  let e := p in
  let! p := cells (get_next p) in
  ret (e, MVars p q (psize - 1) qsize list tail).
Definition take_q (v : mvars) : M (gmap Z list_head * D) (option Z * mvars) :=
  let '(MVars p q psize qsize list tail) := v in
  let e := q in
  let! q := cells (get_next q) in
  ret (e, MVars p q psize (qsize - 1) list tail).

(** [if (tail) tail->next = e; else list = e; tail = e;] *)
Definition link (e : option Z) (v : mvars) : M (gmap Z list_head * D) mvars :=
  let '(MVars p q psize qsize list tail) := v in
  let! list :=
    match tail with
    | Some _ => cells (set_next tail e) ;; ret list
    | None => ret e
    end in
  ret (MVars p q psize qsize list e).

(** One iteration of [while (psize > 0 || (qsize > 0 && q))]. *)
Definition merge_body (v : mvars) : M (gmap Z list_head * D) (mvars + mvars) :=
  if (0 <? vpsize v) || ((0 <? vqsize v) && bool_decide (vq v <> None)) then
    let! (e, v) :=
      if vpsize v =? 0 then take_q v
      else if (vqsize v =? 0) || bool_decide (vq v = None) then take_p v
      else
        let! pi := cells (get_info (vp v)) in
        let! qi := cells (get_info (vq v)) in
        let! c := others (cmp pi qi) in
        if c <=? 0 then take_p v else take_q v in
    let! v := link e v in
    ret (inl v)
  else ret (inr v).

(** One iteration of [while (p)]; the loop variables are [p], [list], [tail]
    and [nmerges]. *)
Definition pass_body (insize : Z) (v : option Z * option Z * option Z * Z)
  : M (gmap Z list_head * D) ((option Z * option Z * option Z * Z) +
                             (option Z * option Z * Z)) :=
  let '(p, list, tail, nmerges) := v in
  match p with
  | None => ret (inr (list, tail, nmerges))
  | Some _ =>
      let nmerges := nmerges + 1 in
      let! (q, psize) := advance insize p in
      let qsize := insize in
      let! v := iter merge_body (MVars p q psize qsize list tail) in
      ret (inl (vq v, vlist v, vtail v, nmerges))
  end.

(** One iteration of [while (1)]. *)
Definition sort_body (v : option Z * Z)
  : M (gmap Z list_head * D) ((option Z * Z) + option Z) :=
  let '(list, insize) := v in
  let! (list, tail, nmerges) := iter (pass_body insize) (list, None, None, 0) in
  cells (set_next tail None) ;;
  if nmerges <=? 1 then ret (inr list) else ret (inl (list, s32 (insize * 2))).

Definition core_list_mergesort (list : option Z) : M (gmap Z list_head * D) (option Z) :=
  iter sort_body (list, 1).
End code.

(** ** What a comparison function promises

    The comparison may change the store [D] (the value comparison caches what
    it computes), so the key of an item is a relation on stores: [keyed d a k]
    says that in [d] the key of item [a] is settled and equal to [k].  A
    settled key stays the same in every later store ([cext]), and a
    comparison settles the keys of its two arguments and returns their
    difference. *)
Class Comparator {D} (cmp : option Z -> option Z -> M D Z) := {
  citem : Z -> Prop;
  cinv : D -> Prop;
  cext : D -> D -> Prop;
  keyed : D -> Z -> Z -> Prop;
  cext_refl d : cext d d;
  cext_trans d1 d2 d3 : cext d1 d2 -> cext d2 d3 -> cext d1 d3;
  keyed_fun d a k k' : keyed d a k -> keyed d a k' -> k = k';
  keyed_ext d d' a k : cext d d' -> keyed d a k -> keyed d' a k;
  cmp_spec a b d : citem a -> citem b -> cinv d ->
    wp (cmp (Some a) (Some b)) (fun v d' => cinv d' /\ cext d d' /\
      exists ka kb, keyed d' a ka /\ keyed d' b kb /\ v = ka - kb) d
}.
#[export] Hint Resolve cext_refl : core.

(** ** Sortedness

    [B] is an arbitrary relation the input list is ordered by, for instance
    "comes before"; [ord d x y]: the key of [x] is smaller than that of [y],
    or the keys agree and [B x y]. *)
Section sorted.
Context {D : Type} (cmp : option Z -> option Z -> M D Z) `{!Comparator cmp}.
Context (B : Z * Z -> Z * Z -> Prop).

Definition ord (d : D) (x y : Z * Z) : Prop :=
  exists kx ky, keyed d x.2 kx /\ keyed d y.2 ky /\ (kx < ky \/ kx = ky /\ B x y).

Lemma ord_ext d d' x y : cext d d' -> ord d x y -> ord d' x y.
Proof.
  intros He (kx & ky & Hx & Hy & H). exists kx, ky. split_and!; eauto using keyed_ext.
Qed.

Lemma sorted_ext d d' l :
  cext d d' -> StronglySorted (ord d) l -> StronglySorted (ord d') l.
Proof.
  intros He. induction l as [| x l IH]; intros Hs; [constructor |].
  apply StronglySorted_cons in Hs as [Hx Hl]. apply StronglySorted_cons. split; [| by apply IH].
  eapply list.Forall_impl; [exact Hx |]. intros y. by apply ord_ext.
Qed.

(** The heads of two sorted runs, the first run [B]-before the second, were
    compared: the smaller one is below both runs. *)
Lemma ord_left d x y l2 kx ky :
  keyed d x.2 kx -> keyed d y.2 ky -> kx <= ky ->
  StronglySorted (ord d) (y :: l2) -> (forall z, z ∈ y :: l2 -> B x z) ->
  Forall (ord d x) (y :: l2).
Proof.
  intros Hx Hy Hle [Hs _]%StronglySorted_cons HB. apply list.Forall_forall. intros z Hz.
  pose proof (HB z Hz) as HBz. apply elem_of_cons in Hz as [-> | Hz].
  - exists kx, ky. split_and!; [done | done |]. destruct (decide (kx = ky)); [by right | left; lia].
  - rewrite list.Forall_forall in Hs. destruct (Hs z Hz) as (ky' & kz & Hy' & Hz' & H).
    rewrite (keyed_fun d y.2 ky' ky Hy' Hy) in H. exists kx, kz. split_and!; [done | done |].
    destruct (decide (kx = kz)); [by right | left; lia].
Qed.

Lemma ord_right d x l1 y kx ky :
  keyed d x.2 kx -> keyed d y.2 ky -> ky < kx ->
  StronglySorted (ord d) (x :: l1) -> Forall (ord d y) (x :: l1).
Proof.
  intros Hx Hy Hlt [Hs _]%StronglySorted_cons. apply list.Forall_forall. intros z Hz.
  apply elem_of_cons in Hz as [-> | Hz].
  - exists ky, kx. split_and!; [done | done | by left].
  - rewrite list.Forall_forall in Hs. destruct (Hs z Hz) as (kx' & kz & Hx' & Hz' & H).
    rewrite (keyed_fun d x.2 kx' kx Hx' Hx) in H. exists ky, kz. split_and!; [done | done |].
    left. lia.
Qed.

(** Inserting the smallest remaining element between what is merged and what
    is left of the other run. *)
Lemma sorted_insert (R : Z * Z -> Z * Z -> Prop) m x l1 l2 :
  StronglySorted R (m ++ x :: l1) -> StronglySorted R (m ++ l2) -> Forall (R x) l2 ->
  StronglySorted R ((m ++ [x]) ++ l2).
Proof.
  rewrite !StronglySorted_app, StronglySorted_cons. intros (Hm1 & Hm & _) (Hm2 & _ & Hl2) Hx.
  rewrite list.Forall_forall in Hx. split_and!; [| | done | by repeat constructor | done].
  - intros a b [Ha | ->%list_elem_of_singleton]%elem_of_app Hb; [by apply Hm2 | by apply Hx].
  - intros a b Ha ->%list_elem_of_singleton. apply Hm1; [done | by left].
Qed.
End sorted.

(** ** The pointer manipulation *)
Section heap.
Context {D : Type}.
Implicit Types (h : gmap Z list_head) (d : D).

Lemma wp_cells {A} (m : M (gmap Z list_head) A) (Q : A -> gmap Z list_head * D -> Prop) h d :
  wp (cells m) Q (h, d) <-> wp m (fun a h' => Q a (h', d)) h.
Proof. unfold cells. by rewrite wp_zoom. Qed.

Lemma wp_others {A} (m : M D A) (Q : A -> gmap Z list_head * D -> Prop) h d :
  wp (others m) Q (h, d) <-> wp m (fun a d' => Q a (h, d')) d.
Proof. unfold others. by rewrite wp_zoom. Qed.

(** Stepping [insize] cells along splits the list after its first [insize]
    elements. *)
Lemma wp_advance insize p l (Q : option Z * Z -> gmap Z list_head * D -> Prop) h d :
  chain h p l None -> l <> [] -> 1 <= insize -> Z.of_nat (length l) < Zpos budget ->
  (forall q, chain h p (take (Z.to_nat insize) l) q ->
     chain h q (drop (Z.to_nat insize) l) None ->
     Q (q, Z.of_nat (length (take (Z.to_nat insize) l))) (h, d)) ->
  wp (advance insize p) Q (h, d).
Proof.
  intros Hc Hne Hi Hlen HQ. unfold advance.
  apply (wp_iter_n (fun k '(i, q, psize) s => s = (h, d) /\ exists l1 l2, l = l1 ++ l2 /\
    chain h p l1 q /\ chain h q l2 None /\ l2 <> [] /\ i = Z.of_nat (length l1) /\
    psize = i /\ i <= insize /\ k = length l2) _ (length l)).
  { split; [done |]. exists [], l. by split_and!; [| | | | | | lia |]. }
  { done. }
  clear Hne. intros k [[i q] psize] s (-> & l1 & l2 & El & H1 & H2 & Hne & Ei & -> & Hle & ->).
  destruct (Z.ltb_spec i insize).
  - destruct q as [a |]; [| by apply chain_nil_inv in H2 as [-> _]].
    apply chain_cons_inv in H2 as (da & n & l3 & -> & Ha & H2).
    rewrite wp_bind, wp_cells. cell_step.
    assert (chain h p (l1 ++ [(a, da)]) n) as H1'.
    { apply chain_app. exists (Some a). split; [done |]. cbn. split; [done | by exists n]. }
    destruct n as [b |]; rewrite wp_ret.
    + exists (length l3). split; [cbn; lia |]. split; [done |].
      exists (l1 ++ [(a, da)]), l3. rewrite <- app_assoc, length_app. cbn [length].
      split_and!; try done; try lia. by intros ->.
    + apply chain_nil_inv in H2 as [-> _].
      specialize (HQ None). rewrite take_ge, drop_ge in HQ
        by (rewrite El, length_app; cbn [length]; lia).
      replace (i + 1) with (Z.of_nat (length l)) by (rewrite El, length_app; cbn [length]; lia).
      apply HQ; [by rewrite El | done].
  - rewrite wp_ret. assert (Z.to_nat insize = length l1) as En by lia.
    rewrite En, El, take_app_length, drop_app_length in HQ. rewrite Ei. by apply HQ.
Qed.

(** The list under construction: [list] to [tail], the last cell still
    linked to its old successor. *)
Definition output h (first tail : option Z) (acc : list (Z * Z)) : Prop :=
  tail = fst <$> last acc /\ (acc = [] -> first = None) /\ exists n, chain h first acc n.

Lemma wp_append e de ne list tail acc (Q : option Z -> gmap Z list_head * D -> Prop) h d :
  output h list tail acc -> NoDup (nodes acc) -> e ∉ nodes acc ->
  h !! e = Some (LHead ne (Some de)) ->
  (forall list' h', output h' list' (Some e) (acc ++ [(e, de)]) ->
     agree_off (nodes acc) h h' -> Q list' (h', d)) ->
  wp (match tail with
      | Some _ => bind (cells (set_next tail (Some e))) (fun _ => ret list)
      | None => ret (Some e)
      end) Q (h, d).
Proof.
  intros (-> & Hnil & n & Hc) Hnd He Hcell HQ.
  destruct acc as [| [t dt] acc _] using rev_ind; cbn [last fmap option_fmap option_map].
  - rewrite wp_ret. apply HQ; [| done]. split_and!; [done | done |].
    exists ne. cbn. split; [done |]. by exists ne.
  - rewrite last_snoc. cbn [fmap option_fmap option_map fst]. apply chain_app in Hc as (r & H1 & -> & n' & Ht & ->).
    rewrite fmap_app in *. apply list.NoDup_app in Hnd as (_ & Hdis & _).
    apply not_elem_of_app in He as [He1 He2]. cbn in He2, Hdis.
    assert (t ∉ nodes acc) as Ht1 by (intros H; apply (Hdis t H); by left).
    assert (e <> t) as Het by set_solver.
    rewrite wp_bind, wp_cells. cell_step. rewrite wp_ret. apply HQ.
    + split_and!; [by rewrite last_snoc | by intros [_ [=]]%app_nil |]. exists ne.
      rewrite <- app_assoc. apply chain_app. exists (Some t). split; [by apply chain_frame |].
      cbn. split; [done |]. exists (Some e). split; [by simplify_map_eq |].
      split; [done |]. exists ne. split; [by simplify_map_eq | done].
    + intros b Hb. cbn in Hb. rewrite lookup_insert_ne; [done |]. set_solver.
Qed.
End heap.

(** ** One merge *)
Section merge.
Context {D : Type} (cmp : option Z -> option Z -> M D Z) `{!Comparator cmp}.
Context (B : Z * Z -> Z * Z -> Prop).

(** The merge loop: [r1] and [r2] are the runs being merged, [acc] the output
    of the pass before them and [rest] the part of the list behind them; [m]
    is the output so far, [l1] and [l2] what is left of the runs. *)
Record minv (acc r1 r2 rest : list (Z * Z)) (h0 : gmap Z list_head) (d0 : D)
    (m l1 l2 : list (Z * Z)) (v : mvars) (h : gmap Z list_head) (d : D) : Prop := {
  mi_out : output h (vlist v) (vtail v) (acc ++ m);
  mi_p : exists r, chain h (vp v) l1 r;
  mi_q : chain h (vq v) (l2 ++ rest) None;
  mi_psize : vpsize v = Z.of_nat (length l1);
  mi_qsize : Z.of_nat (length l2) <= vqsize v /\
             (vqsize v = Z.of_nat (length l2) \/ rest = []);
  mi_perm : m ++ l1 ++ l2 ≡ₚ r1 ++ r2;
  mi_nodup : NoDup (nodes ((acc ++ m) ++ l1 ++ l2 ++ rest));
  mi_agree : agree_off (nodes (acc ++ r1 ++ r2)) h0 h;
  mi_inv : cinv d;
  mi_ext : cext d0 d;
  mi_items : forall x, x ∈ r1 ++ r2 -> citem x.2;
  mi_sorted1 : StronglySorted (ord cmp B d) (m ++ l1);
  mi_sorted2 : StronglySorted (ord cmp B d) (m ++ l2);
  mi_cross : forall x y, x ∈ l1 -> y ∈ l2 -> B x y
}.

Lemma nodup_off (a b : list (Z * Z)) x : NoDup (nodes (a ++ b)) -> x ∈ nodes b -> x ∉ nodes a.
Proof. rewrite fmap_app. intros (_ & H & _)%list.NoDup_app Hb Ha. by apply (H x). Qed.

Lemma agree_off_mono (ns ns' : list Z) h h' h'' :
  agree_off ns h h' -> agree_off ns' h' h'' -> (forall a, a ∈ ns' -> a ∈ ns) -> agree_off ns h h''.
Proof. intros H1 H2 Hs a Ha. rewrite H2 by (intros H; by apply Ha, Hs). by apply H1. Qed.

(** Appending a cell of the remaining part [rem] leaves the chains of [rem]
    as they are. *)
Lemma wp_link e de n p q psize qsize list tail acc rem
    (Q : mvars -> gmap Z list_head * D -> Prop) h d :
  output h list tail acc -> NoDup (nodes (acc ++ rem)) -> (e, de) ∈ rem ->
  h !! e = Some (LHead n (Some de)) ->
  (forall list' h', output h' list' (Some e) (acc ++ [(e, de)]) -> agree_off (nodes acc) h h' ->
     (forall p l r, l ⊆ rem -> chain h p l r -> chain h' p l r) ->
     Q (MVars p q psize qsize list' (Some e)) (h', d)) ->
  wp (link (Some e) (MVars p q psize qsize list tail)) Q (h, d).
Proof.
  intros Hout Hnd He Hcell HQ. unfold link. rewrite wp_bind.
  assert (forall x, x ∈ rem -> x.1 ∉ nodes acc) as Hoff.
  { intros x Hx. eapply nodup_off; [exact Hnd |]. by apply list_elem_of_fmap_2. }
  apply (wp_append e de n list tail acc); [done | | by apply (Hoff (e, de)) | done |].
  - rewrite fmap_app in Hnd. by apply list.NoDup_app in Hnd as [? _].
  - intros list' h' Hout' Hag. rewrite wp_ret. apply HQ; [done | done |].
    intros p1 l r Hl Hc. eapply chain_ext; [| exact Hc].
    intros a (x & -> & Hx)%list_elem_of_fmap. by apply Hag, Hoff, Hl.
Qed.

Lemma merge_take_p acc r1 r2 rest h0 d0 m x l1 l2 v h d
    (Q : mvars -> gmap Z list_head * D -> Prop) :
  minv acc r1 r2 rest h0 d0 m (x :: l1) l2 v h d -> Forall (ord cmp B d x) l2 ->
  (forall v' h', minv acc r1 r2 rest h0 d0 (m ++ [x]) l1 l2 v' h' d -> Q v' (h', d)) ->
  wp (take_p v) (fun ev => wp (link ev.1 ev.2) Q) (h, d).
Proof.
  intros [Hout [r Hp] Hq Hps Hqs Hperm Hnd Hag Hinv Hext Hit Hs1 Hs2 Hx] Hle HQ.
  destruct v as [p q psize qsize list tail], x as [e de].
  cbn [vp vq vpsize vqsize vlist vtail length] in *.
  destruct Hp as (-> & n & He & Hp). unfold take_p.
  rewrite wp_bind, wp_cells. cell_step. rewrite wp_ret. cbn [fst snd].
  eapply (wp_link e de); [done | exact Hnd | by left | exact He |].
  intros list' h' Hout' Hag' Hc. apply HQ.
  constructor; cbn [vp vq vpsize vqsize vlist vtail]; try done.
  - by rewrite <- app_assoc in Hout'.
  - exists r. apply Hc; [clear; set_solver | done].
  - apply Hc; [| done]. intros x. rewrite !elem_of_app, ?elem_of_cons. tauto.
  - lia.
  - by rewrite <- Hperm, <- app_assoc.
  - by rewrite <- !app_assoc in *.
  - eapply agree_off_mono; [exact Hag | exact Hag' |]. intros a. rewrite <- Hperm.
    rewrite !fmap_app, !elem_of_app. tauto.
  - by rewrite <- app_assoc.
  - by apply (sorted_insert _ m (e, de) l1).
  - intros x y Hx1 Hy. apply Hx; [by right | done].
Qed.

Lemma merge_take_q acc r1 r2 rest h0 d0 m y l1 l2 v h d
    (Q : mvars -> gmap Z list_head * D -> Prop) :
  minv acc r1 r2 rest h0 d0 m l1 (y :: l2) v h d -> Forall (ord cmp B d y) l1 ->
  (forall v' h', minv acc r1 r2 rest h0 d0 (m ++ [y]) l1 l2 v' h' d -> Q v' (h', d)) ->
  wp (take_q v) (fun ev => wp (link ev.1 ev.2) Q) (h, d).
Proof.
  intros [Hout [r Hp] Hq Hps Hqs Hperm Hnd Hag Hinv Hext Hit Hs1 Hs2 Hx] Hle HQ.
  destruct v as [p q psize qsize list tail], y as [e de].
  cbn [vp vq vpsize vqsize vlist vtail length] in *.
  destruct Hq as (-> & n & He & Hq). unfold take_q.
  rewrite wp_bind, wp_cells. cell_step. rewrite wp_ret. cbn [fst snd].
  eapply (wp_link e de); [done | exact Hnd | clear; set_solver | exact He |].
  intros list' h' Hout' Hag' Hc. apply HQ.
  constructor; cbn [vp vq vpsize vqsize vlist vtail]; try done.
  - by rewrite <- app_assoc in Hout'.
  - exists r. apply Hc; [clear; set_solver | done].
  - apply Hc; [| done]. intros x. rewrite !elem_of_app, ?elem_of_cons. tauto.
  - split; [lia |]. destruct Hqs as [_ [? | ?]]; [left; lia | by right].
  - rewrite <- Hperm, <- app_assoc. cbn [app]. by rewrite (Permutation_middle l1).
  - rewrite <- !app_assoc in *. cbn [app] in *.
    by rewrite <- (Permutation_middle l1) in Hnd.
  - eapply agree_off_mono; [exact Hag | exact Hag' |]. intros a. rewrite <- Hperm.
    rewrite !fmap_app, !elem_of_app. tauto.
  - by apply (sorted_insert _ m (e, de) l2).
  - by rewrite <- app_assoc.
  - intros x y Hx1 Hy. apply Hx; [done | by right].
Qed.

Lemma minv_ext acc r1 r2 rest h0 d0 m l1 l2 v h d d' :
  minv acc r1 r2 rest h0 d0 m l1 l2 v h d -> cinv d' -> cext d d' ->
  minv acc r1 r2 rest h0 d0 m l1 l2 v h d'.
Proof.
  intros [] Hi He. constructor; eauto using cext_trans, sorted_ext.
Qed.

(** Nothing is left of the second run exactly when the code sees [qsize] zero
    or [q] null. *)
Lemma minv_q_left acc r1 r2 rest h0 d0 m l1 l2 v h d :
  minv acc r1 r2 rest h0 d0 m l1 l2 v h d ->
  ((0 <? vqsize v) && bool_decide (vq v <> None)) = negb (bool_decide (l2 = [])) /\
  ((vqsize v =? 0) || bool_decide (vq v = None)) = bool_decide (l2 = []).
Proof.
  intros [_ _ Hq _ [Hle Hqs] _ _ _ _ _ _ _ _ _]. destruct l2 as [| [a da] l2].
  - rewrite (bool_decide_true ([] = [])) by done. cbn [app negb length] in *.
    destruct Hqs as [-> | ->]; [done |]. cbn in Hq. subst. rewrite Hq.
    by rewrite andb_false_r, orb_true_r.
  - destruct Hq as (-> & _). cbn [length] in Hle.
    rewrite (bool_decide_false ((a, da) :: l2 = [])) by done.
    rewrite (proj2 (Z.ltb_lt _ _)), (proj2 (Z.eqb_neq _ _)) by lia. done.
Qed.

(** Some iteration of the merge loop has been done: fewer elements are
    left. *)
Definition progress acc r1 r2 rest h0 d0 (k : nat) (v : mvars) (s : gmap Z list_head * D) : Prop :=
  exists m l1 l2, k = (length l1 + length l2)%nat /\ minv acc r1 r2 rest h0 d0 m l1 l2 v s.1 s.2.

Lemma merge_compare acc r1 r2 rest h0 d0 m x l1 y l2 v h d :
  minv acc r1 r2 rest h0 d0 m (x :: l1) (y :: l2) v h d ->
  wp (let! pi := cells (get_info (vp v)) in
      let! qi := cells (get_info (vq v)) in
      let! c := others (cmp pi qi) in
      if c <=? 0 then take_p v else take_q v)
    (fun ev => wp (link ev.1 ev.2)
       (progress acc r1 r2 rest h0 d0 (S (length l1 + length l2)))) (h, d).
Proof.
  intros Hi. destruct (mi_p _ _ _ _ _ _ _ _ _ _ _ _ Hi) as [r Hp].
  pose proof (mi_q _ _ _ _ _ _ _ _ _ _ _ _ Hi) as Hq.
  pose proof (mi_items _ _ _ _ _ _ _ _ _ _ _ _ Hi) as Hit.
  assert (citem x.2 /\ citem y.2) as [Hcx Hcy].
  { split; apply Hit; rewrite <- (mi_perm _ _ _ _ _ _ _ _ _ _ _ _ Hi), !elem_of_app,
      !elem_of_cons; tauto. }
  destruct x as [a da], y as [b db]. destruct Hp as (-> & n & Ha & _), Hq as (-> & n' & Hb & _).
  rewrite wp_bind, wp_cells. cell_step. rewrite wp_bind, wp_cells. cell_step.
  rewrite wp_bind, wp_others.
  eapply wp_mono; [apply cmp_spec; [exact Hcx | exact Hcy | apply Hi] |].
  intros c d2 (Hi2 & He2 & ka & kb & Hka & Hkb & ->).
  pose proof (minv_ext _ _ _ _ _ _ _ _ _ _ _ _ _ Hi Hi2 He2) as Hm2.
  destruct (Z.leb_spec (ka - kb) 0).
  - eapply merge_take_p; [exact Hm2 | |].
    + apply (ord_left cmp B d2 (a, da) (b, db) l2 ka kb); [done | done | lia | |].
      * by apply (StronglySorted_app_1_r _ m), Hm2.
      * intros z Hz. apply (mi_cross _ _ _ _ _ _ _ _ _ _ _ _ Hm2); [by left | done].
    + intros v2 h2 H2. exists (m ++ [(a, da)]), l1, ((b, db) :: l2). split; [cbn; lia | done].
  - eapply merge_take_q; [exact Hm2 | |].
    + apply (ord_right cmp B d2 (a, da) l1 (b, db) ka kb); [done | done | lia |].
      by apply (StronglySorted_app_1_r _ m), Hm2.
    + intros v2 h2 H2. exists (m ++ [(b, db)]), ((a, da) :: l1), l2. split; [cbn; lia | done].
Qed.

Lemma merge_step (choice : M (gmap Z list_head * D) (option Z * mvars)) R
    (Q : mvars -> gmap Z list_head * D -> Prop) s :
  wp choice (fun ev => wp (link ev.1 ev.2) R) s ->
  wp (bind choice (fun ev => let (e, v) := ev in bind (link e v) (fun v => ret (inl v))))
    (fun r s' => match r with inl v' => R v' s' | inr b => Q b s' end) s.
Proof.
  intros Hc. rewrite wp_bind. eapply wp_mono; [exact Hc |].
  intros [e v2] s2 Hl. cbn [fst snd] in Hl. by rewrite wp_bind.
Qed.

Lemma wp_merge acc r1 r2 rest v h d (Q : mvars -> gmap Z list_head * D -> Prop) :
  minv acc r1 r2 rest h d [] r1 r2 v h d ->
  Z.of_nat (length r1 + length r2) < Zpos budget ->
  (forall v' h' d' m, minv acc r1 r2 rest h d m [] [] v' h' d' -> Q v' (h', d')) ->
  wp (iter (merge_body cmp) v) Q (h, d).
Proof.
  intros Hm Hlen HQ.
  apply (wp_iter_n (progress acc r1 r2 rest h d) _ (length r1 + length r2));
    [by exists [], r1, r2 | done |].
  intros k v1 [h1 d1] (m & l1 & l2 & -> & Hi). cbn [fst snd] in Hi. unfold merge_body.
  destruct (minv_q_left _ _ _ _ _ _ _ _ _ _ _ _ Hi) as [-> ->].
  rewrite (mi_psize _ _ _ _ _ _ _ _ _ _ _ _ Hi).
  assert (forall k', (k' < length l1 + length l2)%nat -> forall v' s',
    progress acc r1 r2 rest h d k' v' s' -> exists k, (k < length l1 + length l2)%nat /\
      progress acc r1 r2 rest h d k v' s') as Hk by eauto.
  destruct l1 as [| x l1], l2 as [| y l2].
  - rewrite bool_decide_true by done. cbn. by apply HQ with (m := m).
  - rewrite bool_decide_false by done. cbn -[bind take_p take_q link ret cells others]. apply merge_step.
    eapply merge_take_q; [exact Hi | constructor |]. intros v2 h2 H2.
    apply (Hk (length l2)); [cbn; lia | by exists (m ++ [y]), [], l2].
  - rewrite bool_decide_true by done. cbn -[bind take_p take_q link ret cells others]. apply merge_step.
    eapply merge_take_p; [exact Hi | constructor |]. intros v2 h2 H2.
    apply (Hk (length l1)); [cbn; lia | exists (m ++ [x]), l1, []; split; [cbn; lia | done]].
  - rewrite bool_decide_false by done. cbn -[bind take_p take_q link ret cells others]. apply merge_step.
    eapply wp_mono; [by eapply merge_compare |]. intros ev s2 H2.
    eapply wp_mono; [exact H2 |]. apply Hk. cbn. lia.
Qed.
End merge.

(** ** One pass, and the sort *)
Section sort.
Context {D : Type} (cmp : option Z -> option Z -> M D Z) `{!Comparator cmp}.
Context (B : Z * Z -> Z * Z -> Prop).

(** The list is a sequence of sorted runs of length [n], the last one possibly
    shorter, earlier runs [B]-before later ones. *)
Inductive runs (d : D) (n : nat) : list (Z * Z) -> Prop :=
| runs_nil : runs d n []
| runs_cons r l :
    (length r <= n)%nat -> r <> [] -> length r = n \/ l = [] ->
    StronglySorted (ord cmp B d) r -> (forall x y, x ∈ r -> y ∈ l -> B x y) ->
    runs d n l -> runs d n (r ++ l).

Lemma runs_ext d d' n l : cext d d' -> runs d n l -> runs d' n l.
Proof. intros He. induction 1; constructor; eauto using sorted_ext. Qed.

Lemma runs_single d l : StronglySorted B l -> runs d 1 l.
Proof.
  induction 1 as [| x l Hs IH Hx]; [constructor |].
  apply (runs_cons d 1 [x] l); [done | done | by left | by repeat constructor | | done].
  intros y z ->%list_elem_of_singleton Hz. by rewrite list.Forall_forall in Hx; apply Hx.
Qed.

Lemma runs_sorted d n l : runs d n l -> (length l <= n)%nat -> StronglySorted (ord cmp B d) l.
Proof.
  intros [| r l' Hr Hne Hn Hs _ Hl'] Hlen; [constructor |]. rewrite length_app in Hlen.
  assert (l' = []) as -> by (destruct Hn as [Hn | ->]; [| done]; apply nil_length_inv; lia).
  by rewrite app_nil_r.
Qed.

(** The two runs at the front, and what follows them. *)
Record front (d : D) (n : nat) (l r1 r2 rest : list (Z * Z)) : Prop := {
  fr_split : l = r1 ++ r2 ++ rest;
  fr_take : take n l = r1;
  fr_drop : drop n l = r2 ++ rest;
  fr_len1 : (0 < length r1 <= n)%nat;
  fr_len2 : (length r2 <= n)%nat;
  fr_full1 : length r1 = n \/ r2 ++ rest = [];
  fr_full2 : length r2 = n \/ rest = [];
  fr_sorted1 : StronglySorted (ord cmp B d) r1;
  fr_sorted2 : StronglySorted (ord cmp B d) r2;
  fr_cross : forall x y, x ∈ r1 -> y ∈ r2 -> B x y;
  fr_rest : forall x y, x ∈ r1 ++ r2 -> y ∈ rest -> B x y;
  fr_runs : runs d n rest
}.

Lemma runs_front d n l : runs d n l -> l <> [] -> exists r1 r2 rest, front d n l r1 r2 rest.
Proof.
  intros [| r1 l1 Hr1 Hne1 Hf1 Hs1 Hx1 Hl1] Hne; [done |].
  assert (0 < length r1)%nat as Hp1 by (destruct r1; [done | cbn; lia]).
  assert (take n (r1 ++ l1) = r1 /\ drop n (r1 ++ l1) = l1) as [Ht Hd].
  { destruct Hf1 as [<- | ->]; [by rewrite take_app_length, drop_app_length |].
    rewrite app_nil_r. by rewrite take_ge, drop_ge. }
  destruct Hl1 as [| r2 l2 Hr2 Hne2 Hf2 Hs2 Hx2 Hl2].
  - exists r1, [], []. constructor; try done; try (by constructor); try (by right);
      try (cbn; lia); by intros x y _ ?%elem_of_nil.
  - exists r1, r2, l2. constructor; try done; try lia.
    + intros x y Hx Hy. apply Hx1; [done |]. apply elem_of_app. by left.
    + intros x y [Hx | Hx]%elem_of_app Hy; [| by apply Hx2].
      apply Hx1; [done |]. apply elem_of_app. by right.
Qed.

(** The loop over the pairs of runs: [acc] is the output so far, [todo] the
    rest of the input of the pass. *)
Record pinv (n : nat) (l0 : list (Z * Z)) (h0 : gmap Z list_head) (d0 : D)
    (acc todo : list (Z * Z)) (v : option Z * option Z * option Z * Z)
    (h : gmap Z list_head) (d : D) : Prop := {
  pi_out : output h v.1.1.2 v.1.2 acc;
  pi_p : chain h v.1.1.1 todo None;
  pi_perm : acc ++ todo ≡ₚ l0;
  pi_agree : agree_off (nodes l0) h0 h;
  pi_inv : cinv d;
  pi_ext : cext d0 d;
  pi_runs : runs d n todo;
  pi_done : forall d' l, cext d d' -> runs d' (2 * n) l -> (forall x, x ∈ l -> x ∈ todo) ->
    runs d' (2 * n) (acc ++ l);
  pi_count : 0 <= v.2 /\ Z.of_nat (length acc) <= v.2 * (2 * Z.of_nat n) /\
    (v.2 - 1) * (2 * Z.of_nat n) < Z.of_nat (length acc);
  pi_full : todo = [] \/ Z.of_nat (length acc) = v.2 * (2 * Z.of_nat n)
}.

Lemma pass_merge_start n l0 h0 d0 acc todo p list tail nm h d r1 r2 rest q :
  pinv n l0 h0 d0 acc todo (p, list, tail, nm) h d -> front d n todo r1 r2 rest ->
  NoDup (nodes l0) -> (forall x, x ∈ l0 -> citem x.2) ->
  chain h p r1 q -> chain h q (r2 ++ rest) None ->
  minv cmp B acc r1 r2 rest h d [] r1 r2
    (MVars p q (Z.of_nat (length r1)) (Z.of_nat n) list tail) h d.
Proof.
  intros [Hout Hpc Hperm Hag Hinv Hext Hruns Hdone Hcount Hfull]
    [Esplit Htake Hdrop Hlen1 Hlen2 Hfull1 Hfull2 Hsrt1 Hsrt2 Hcross Hrest Hrruns] Hnd Hit Hp Hq. subst todo. cbn [fst snd] in *.
  constructor; cbn [vp vq vpsize vqsize vlist vtail app]; try done.
  - by rewrite app_nil_r.
  - by exists q.
  - split; [lia |]. destruct Hfull2 as [-> | ->]; [by left | by right].
  - rewrite app_nil_r. by rewrite Hperm.
  - intros x Hx. apply Hit. rewrite <- Hperm, !elem_of_app. rewrite elem_of_app in Hx. tauto.
Qed.

Lemma pass_merge_end n l0 h0 d0 acc todo p list tail nm h d r1 r2 rest v m h' d' :
  (1 <= n)%nat ->
  pinv n l0 h0 d0 acc todo (p, list, tail, nm) h d -> front d n todo r1 r2 rest ->
  minv cmp B acc r1 r2 rest h d m [] [] v h' d' ->
  pinv n l0 h0 d0 (acc ++ m) rest (vq v, vlist v, vtail v, nm + 1) h' d'.
Proof.
  intros Hn [Hout Hpc Hperm Hag Hinv Hext Hruns Hdone Hcount Hfull]
    [Esplit Htake Hdrop Hlen1 Hlen2 Hfull1 Hfull2 Hsrt1 Hsrt2 Hcross Hrest Hrruns]
    [Mout _ Mq _ _ Mperm _ Magree Minv Mext _ Msorted _ _]. subst todo. cbn [fst snd app] in *. rewrite app_nil_r in *.
  assert (length m = length r1 + length r2)%nat as Hlm by (by rewrite Mperm, length_app).
  constructor; cbn [fst snd]; try done.
  - rewrite <- Hperm, <- app_assoc, Mperm. by rewrite <- !app_assoc.
  - eapply agree_off_mono; [exact Hag | exact Magree |]. intros a.
    rewrite <- Hperm, !fmap_app, !elem_of_app. tauto.
  - by eapply cext_trans.
  - by eapply runs_ext.
  - intros d2 l He Hr Hl. rewrite <- app_assoc. apply Hdone.
    + by eapply cext_trans.
    + constructor; [lia | intros -> | | by eapply sorted_ext | | done].
      * cbn in Hlm. lia.
      * destruct Hfull2 as [Hf2 | ->].
        -- destruct Hfull1 as [Hf1 | [-> ->]%app_nil]; [left; lia |].
           cbn in Hf2. lia.
        -- right. destruct l as [| x l]; [done |]. exfalso. apply (not_elem_of_nil x), Hl. by left.
      * intros x y Hx Hy. rewrite Mperm in Hx. apply Hrest; [done | by apply Hl].
    + intros x. rewrite elem_of_app. intros [Hx | Hx%Hl].
      * rewrite Mperm in Hx. rewrite !elem_of_app in *. tauto.
      * rewrite !elem_of_app. tauto.
  - rewrite length_app. destruct Hfull as [[? _]%app_nil | Hf]; [subst r1; cbn in *; lia |]. lia.
  - rewrite length_app. destruct Hfull as [[? _]%app_nil | Hf]; [subst r1; cbn in *; lia |].
    destruct Hfull2 as [Hf2 | ->]; [| by left].
    destruct Hfull1 as [Hf1 | [_ ->]%app_nil]; [right; lia | by left].
Qed.

Lemma pinv_lengths n l0 h0 d0 acc todo v h d :
  pinv n l0 h0 d0 acc todo v h d -> length l0 = (length acc + length todo)%nat.
Proof. intros Hp. by rewrite <- (pi_perm _ _ _ _ _ _ _ _ _ Hp), length_app. Qed.

Lemma wp_pass n l0 h0 d0 p h d (Q : option Z * option Z * Z -> gmap Z list_head * D -> Prop) :
  (1 <= n)%nat -> NoDup (nodes l0) -> (forall x, x ∈ l0 -> citem x.2) ->
  Z.of_nat (length l0) < Zpos budget ->
  (exists l, pinv n l0 h0 d0 [] l (p, None, None, 0) h d) ->
  (forall list tail nm h' d' acc, pinv n l0 h0 d0 acc [] (None, list, tail, nm) h' d' ->
     Q (list, tail, nm) (h', d')) ->
  wp (iter (pass_body cmp (Z.of_nat n)) (p, None, None, 0)) Q (h, d).
Proof.
  intros Hn Hnd Hit Hlen [l Hp] HQ.
  apply (wp_iter_n (fun k v s => exists acc todo, k = length todo /\
    pinv n l0 h0 d0 acc todo v s.1 s.2) _ (length l)); [by exists [], l | |].
  { apply pinv_lengths in Hp. lia. }
  clear Hp p h d l. intros k [[[p list] tail] nm] [h d] (acc & todo & -> & Hp).
  cbn [fst snd] in Hp. pose proof (pinv_lengths _ _ _ _ _ _ _ _ _ Hp) as Hl.
  pose proof (pi_p _ _ _ _ _ _ _ _ _ Hp) as Hc. cbn [fst snd] in Hc.
  destruct p as [a |]; cbn [pass_body].
  - destruct (runs_front d n todo) as (r1 & r2 & rest & Hf);
      [by apply Hp | by intros -> |].
    rewrite wp_bind.
    apply (wp_advance (Z.of_nat n) (Some a) todo); [done | by intros -> | lia | lia |].
    rewrite Nat2Z.id, (fr_take _ _ _ _ _ _ Hf), (fr_drop _ _ _ _ _ _ Hf). intros q H1 H2.
    pose proof (f_equal length (fr_split _ _ _ _ _ _ Hf)) as Hlt. rewrite !length_app in Hlt.
    rewrite wp_bind. apply (wp_merge cmp B acc r1 r2 rest);
      [by eapply pass_merge_start | lia |].
    intros v h' d' m Hm. rewrite wp_ret. exists (length rest).
    split; [pose proof (fr_len1 _ _ _ _ _ _ Hf); lia |]. exists (acc ++ m), rest.
    split; [done |]. by eapply pass_merge_end.
  - rewrite wp_ret. apply chain_nil_inv in Hc as [-> _]. by eapply HQ.
Qed.

Lemma wp_close h d (list tail : option Z) acc (Q : unit -> gmap Z list_head * D -> Prop) :
  output h list tail acc -> acc <> [] -> NoDup (nodes acc) ->
  (forall h', chain h' list acc None -> agree_off (nodes acc) h h' -> Q tt (h', d)) ->
  wp (cells (set_next tail None)) Q (h, d).
Proof.
  intros (-> & _ & n & Hc) Hne Hnd HQ.
  destruct acc as [| [t dt] acc _] using rev_ind; [done |].
  rewrite last_snoc. cbn [fmap option_fmap option_map fst].
  apply chain_app in Hc as (r & H1 & -> & n' & Ht & _).
  rewrite fmap_app in *. apply list.NoDup_app in Hnd as (_ & Hdis & _).
  assert (t ∉ nodes acc) as Ht1 by (intros H; apply (Hdis t H); by left).
  rewrite wp_cells. cell_step. apply HQ.
  - apply chain_app. exists (Some t). split; [by apply chain_frame |].
    cbn. split; [done |]. exists None. split; [by simplify_map_eq | done].
  - intros b Hb. rewrite lookup_insert_ne; [done |]. cbn in Hb. set_solver.
Qed.

(** One iteration of the outer loop: sorted runs of length [n] become sorted
    runs of length [2 * n]. *)
Record sinv (l0 : list (Z * Z)) (h0 : gmap Z list_head) (d0 : D) (n : nat) (l : list (Z * Z))
    (p : option Z) (h : gmap Z list_head) (d : D) : Prop := {
  si_chain : chain h p l None;
  si_perm : l ≡ₚ l0;
  si_agree : agree_off (nodes l0) h0 h;
  si_inv : cinv d;
  si_ext : cext d0 d;
  si_runs : runs d n l
}.

Lemma sinv_pinv l0 h0 d0 n l p h d : (1 <= n)%nat ->
  sinv l0 h0 d0 n l p h d -> pinv n l0 h0 d0 [] l (p, None, None, 0) h d.
Proof.
  intros Hn []. constructor; cbn [fst snd app length]; try done; try lia; try (by right).
  split_and!; [done | done |]. by exists None.
Qed.

Lemma wp_sort_body l0 h0 d0 n l p h d
    (Q : (option Z * Z) + option Z -> gmap Z list_head * D -> Prop) :
  (1 <= n)%nat -> l0 <> [] -> NoDup (nodes l0) -> (forall x, x ∈ l0 -> citem x.2) ->
  Z.of_nat (length l0) < 2 ^ 31 -> sinv l0 h0 d0 n l p h d ->
  (forall l' p' h' d', sinv l0 h0 d0 (2 * n) l' p' h' d' ->
     if (length l0 <=? 2 * n)%nat then Q (inr p') (h', d')
     else Q (inl (p', Z.of_nat (2 * n))) (h', d')) ->
  wp (sort_body cmp (p, Z.of_nat n)) Q (h, d).
Proof.
  intros Hn Hne Hnd Hit Hlen Hs HQ. unfold sort_body. rewrite wp_bind.
  apply (wp_pass n l0 h0 d0); [done | done | done | budget_lia | |].
  { exists l. by apply sinv_pinv. }
  intros list tail nm h1 d1 acc Hp. pose proof (pinv_lengths _ _ _ _ _ _ _ _ _ Hp) as Hl.
  destruct Hp as [Hout _ Hperm Hag Hinv Hext _ Hdone Hcount _].
  cbn [fst snd length] in *. rewrite app_nil_r in *. rewrite wp_bind.
  eapply wp_close; [exact Hout | | by rewrite Hperm |].
  { intros ->. cbn in Hl. destruct l0; [done | cbn in Hl; lia]. }
  intros h2 Hc Hag2.
  assert (sinv l0 h0 d0 (2 * n) acc list h2 d1) as Hs2.
  { constructor; try done.
    - eapply agree_off_mono; [exact Hag | exact Hag2 |]. intros a. by rewrite Hperm.
    - rewrite <- (app_nil_r acc). apply Hdone; [done | constructor | done]. }
  specialize (HQ _ _ _ _ Hs2).
  destruct (Nat.leb_spec (length l0) (2 * n)), (Z.leb_spec nm 1); rewrite ?wp_ret; try nia.
  - done.
  - replace (s32 (Z.of_nat n * 2)) with (Z.of_nat (2 * n)) by (change (2 ^ 31) with 2147483648 in *; cint_lia).
    done.
Qed.

Lemma wp_core_list_mergesort l p h d (Q : option Z -> gmap Z list_head * D -> Prop) :
  chain h p l None -> l <> [] -> NoDup (nodes l) -> (forall x, x ∈ l -> citem x.2) ->
  Z.of_nat (length l) < 2 ^ 31 -> cinv d -> StronglySorted B l ->
  (forall l' p' h' d', chain h' p' l' None -> l' ≡ₚ l -> agree_off (nodes l) h h' ->
     cinv d' -> cext d d' -> StronglySorted (ord cmp B d') l' -> Q p' (h', d')) ->
  wp (core_list_mergesort cmp p) Q (h, d).
Proof.
  intros Hc Hne Hnd Hit Hlen Hinv HB HQ. unfold core_list_mergesort.
  apply (wp_iter_n (fun k v s => exists n l1, (1 <= n)%nat /\ k = (length l - n)%nat /\
    v.2 = Z.of_nat n /\ sinv l h d n l1 v.1 s.1 s.2) _ (length l - 1)).
  - exists 1%nat, l. split_and!; [done.. |]. constructor; try done. by apply runs_single.
  - budget_lia.
  - intros k [p1 insize] [h1 d1] (n & l1 & Hn & -> & Ei & Hs). cbn [fst snd] in *. subst insize.
    eapply wp_sort_body; try done. intros l2 p2 h2 d2 H2.
    destruct (Nat.leb_spec (length l) (2 * n)).
    + destruct H2. eapply HQ; try done. eapply runs_sorted; [done |].
      by rewrite si_perm0.
    + exists (length l - 2 * n)%nat. split; [lia |]. exists (2 * n)%nat, l2.
      split_and!; [lia | done | done | done].
Qed.
End sort.

(** ** The theorems *)

(** C8: [core_list_mergesort] is a stable sort, for every comparison function
    that satisfies [Comparator], also one that changes the store while it
    compares.  From any non-empty acyclic list it returns (no null or wild
    dereference, every loop ends, [insize] does not overflow), and the result
    has exactly the cells and items of the input, in an order in which the
    final keys ascend and items with equal keys keep their relative order:
    [B] is any relation by which the input list is ordered.  Cells outside
    the list are not touched. *)
Theorem core_list_mergesort_stable {D} (cmp : option Z -> option Z -> M D Z)
    `{!Comparator cmp} (B : Z * Z -> Z * Z -> Prop) l p h d :
  chain h p l None -> l <> [] -> NoDup (nodes l) -> (forall x, x ∈ l -> citem x.2) ->
  Z.of_nat (length l) < 2 ^ 31 -> cinv d -> StronglySorted B l ->
  exists l' p' h' d', core_list_mergesort cmp p (h, d) = Ok p' (h', d') /\
    chain h' p' l' None /\ l' ≡ₚ l /\ agree_off (nodes l) h h' /\ cinv d' /\ cext d d' /\
    StronglySorted (fun x y => exists kx ky, keyed d' x.2 kx /\ keyed d' y.2 ky /\
      (kx < ky \/ kx = ky /\ B x y)) l'.
Proof.
  intros Hc Hne Hnd Hit Hlen Hi HB.
  assert (wp (core_list_mergesort cmp p) (fun p' s' => exists l',
    chain s'.1 p' l' None /\ l' ≡ₚ l /\ agree_off (nodes l) h s'.1 /\ cinv s'.2 /\
    cext d s'.2 /\ StronglySorted (ord cmp B s'.2) l') (h, d)) as Hw.
  { apply (wp_core_list_mergesort cmp B l); try done. intros l' p' h' d' H1 H2 H3 H4 H5 H6.
    by exists l'. }
  apply wp_ok in Hw as (p' & [h' d'] & E & l' & H). exists l', p', h', d'. by split.
Qed.

(** A comparison by the remainder of the item's index modulo 2. *)
Definition cmp_parity (a b : option Z) : M unit Z :=
  match a, b with
  | Some a, Some b => ret (a mod 2 - b mod 2)
  | _, _ => fail NullDeref
  end.

#[export] Program Instance cmp_parity_comparator : Comparator cmp_parity := {|
  citem _ := True; cinv _ := True; cext _ _ := True; keyed _ a k := k = a mod 2 |}.
Solve All Obligations with try naive_solver.
Next Obligation. intros a b d _ _ _. cbn. eauto 10. Qed.

Lemma core_list_mergesort_stable_witness :
  exists l' p' h' d', core_list_mergesort cmp_parity (Some 0) (three_cells, tt) = Ok p' (h', d') /\
    chain h' p' l' None /\ l' ≡ₚ [(0, 10); (1, 11); (2, 12)] /\
    agree_off (nodes [(0, 10); (1, 11); (2, 12)]) three_cells h' /\ cinv d' /\ cext tt d' /\
    StronglySorted (fun x y => exists kx ky, keyed d' x.2 kx /\ keyed d' y.2 ky /\
      (kx < ky \/ kx = ky /\ x.1 < y.1)) l'.
Proof.
  apply (core_list_mergesort_stable cmp_parity (fun x y => x.1 < y.1)
    [(0, 10); (1, 11); (2, 12)] (Some 0) three_cells tt).
  - solve_chain.
  - done.
  - apply (bool_decide_unpack _). vm_compute. exact I.
  - done.
  - vm_compute. reflexivity.
  - done.
  - repeat constructor.
Defined.

(** On the empty list [core_list_mergesort] dereferences the null pointer
    [tail] after its first, empty pass, before the test of [nmerges] that is
    meant to allow for that case. *)
Theorem core_list_mergesort_empty_faults {D} (cmp : option Z -> option Z -> M D Z) h d :
  core_list_mergesort cmp None (h, d) = Err NullDeref.
Proof. reflexivity. Qed.
