(* ===== verification/ListBench.v ===== *)
(** * The list benchmark of core_list_join.c

    [core_list_init] builds the list; [core_bench_list] searches, reverses,
    sorts by computed values, removes and reinserts an item, and sorts back by
    index.  Comparing by value ([cmp_complex]) runs the matrix and the state
    benchmark through [calc_func], which caches its result in the item. *)

From Stdlib Require Import ZArith Lia.
From stdpp Require Import base list gmap numbers.
From S2P Require Import Prelude Crc StateMachine Matrix ListHeap MergeSort.

Local Open Scope Z_scope.
Local Open Scope cm_scope.

(** ** Data *)

(** [core_results] (coremark.h). *)
Record core_results := Results {
  seed1 : Z; seed2 : Z; seed3 : Z;
  memblock : list Z;          (* memblock[4], as addresses *)
  size : Z; iterations : Z; execs : Z;
  rlist : option Z;           (* list *)
  mat : mat_params;
  crc : Z; crclist : Z; crcmatrix : Z; crcstate : Z;
  err : Z;
  portable_id : Z             (* port.portable_id *)
}.

Definition set_crc (r : core_results) (c : Z) : core_results :=
  Results (seed1 r) (seed2 r) (seed3 r) (memblock r) (size r) (iterations r) (execs r)
    (rlist r) (mat r) c (crclist r) (crcmatrix r) (crcstate r) (err r) (portable_id r).
Definition set_crclist (r : core_results) (c : Z) : core_results :=
  Results (seed1 r) (seed2 r) (seed3 r) (memblock r) (size r) (iterations r) (execs r)
    (rlist r) (mat r) (crc r) c (crcmatrix r) (crcstate r) (err r) (portable_id r).
Definition set_crcmatrix (r : core_results) (c : Z) : core_results :=
  Results (seed1 r) (seed2 r) (seed3 r) (memblock r) (size r) (iterations r) (execs r)
    (rlist r) (mat r) (crc r) (crclist r) c (crcstate r) (err r) (portable_id r).
Definition set_crcstate (r : core_results) (c : Z) : core_results :=
  Results (seed1 r) (seed2 r) (seed3 r) (memblock r) (size r) (iterations r) (execs r)
    (rlist r) (mat r) (crc r) (crclist r) (crcmatrix r) c (err r) (portable_id r).

(** What the comparison functions reach: the data items, the results record,
    the matrices and the state-machine input (the block at memblock[3]). *)
Record env := Env { e_datas : gmap Z list_data; e_res : core_results;
                    e_mats : mmem; e_text : list Z }.

(** The whole store: the list cells and the rest. *)
Abbreviation world := (gmap Z list_head * env)%type.

Definition env_datas {A} (m : M (gmap Z list_data) A) : M env A :=
  zoom e_datas (fun d e => Env d (e_res e) (e_mats e) (e_text e)) m.
Definition env_mats {A} (m : M mmem A) : M env A :=
  zoom e_mats (fun mm e => Env (e_datas e) (e_res e) mm (e_text e)) m.
Definition env_text {A} (m : M (list Z) A) : M env A :=
  zoom e_text (fun t e => Env (e_datas e) (e_res e) (e_mats e) t) m.
Definition get_res : M env core_results := gets e_res.
Definition upd_res (f : core_results -> core_results) : M env unit :=
  modify (fun e => Env (e_datas e) (f (e_res e)) (e_mats e) (e_text e)).

(** The list operations on the whole store. *)
Definition on_list {A} (m : M lstore A) : M world A :=
  zoom (fun w => LStore (w.1) (e_datas w.2))
    (fun s w => (heads s, Env (datas s) (e_res w.2) (e_mats w.2) (e_text w.2))) m.

(** ** Comparison functions *)

(** The [switch (flag)] of [calc_func]. *)
Definition calc_switch (data : Z) : M env Z :=
  let flag := Z.land data 0x7 in
  let dtype := Z.land (Z.shiftr data 3) 0xf in
  let dtype := Z.lor dtype (Z.shiftl dtype 4) in
  let! res := get_res in
  match flag with
  | 0 =>
      let dtype := if dtype <? 0x22 then 0x22 else dtype in
      let! r := env_text (core_bench_state (size res) (seed1 res) (seed2 res) dtype (crc res)) in
      let retval := s16 r in
      upd_res (fun res => if crcstate res =? 0 then set_crcstate res (u16 retval) else res) ;;
      ret retval
  | 1 =>
      let! r := env_mats (core_bench_matrix (mat res) dtype (crc res)) in
      let retval := s16 r in
      upd_res (fun res => if crcmatrix res =? 0 then set_crcmatrix res (u16 retval) else res) ;;
      ret retval
  | _ => ret data
  end.

Definition calc_func (pdata : option Z) : M env Z :=
  let! d := env_datas (get_data pdata) in
  let data := data16 d in
  let optype := u8 (Z.land (Z.shiftr data 7) 1) in
  if truth optype then ret (Z.land data 0x007f)
  else
    let! retval := calc_switch data in
    upd_res (fun res => set_crc res (crcu16 (u16 retval) (crc res))) ;;
    let retval := Z.land retval 0x007f in
    let! d := env_datas (get_data pdata) in
    env_datas (put_data pdata
      (LData (s16 (Z.lor (Z.lor (Z.land data 0xff00) 0x0080) retval)) (idx16 d))) ;;
    ret retval.

Definition cmp_complex (a b : option Z) : M env Z :=
  let! val1 := calc_func a in
  let! val2 := calc_func b in
  ret (val1 - val2).

(** [x->data16 = (x->data16 & 0xff00) | (0x00ff & (x->data16 >> 8))] *)
Definition regen_data (x : option Z) : M env unit :=
  let! d := env_datas (get_data x) in
  env_datas (put_data x
    (LData (s16 (Z.lor (Z.land (data16 d) 0xff00) (Z.land 0x00ff (Z.shiftr (data16 d) 8))))
       (idx16 d))).

(** [res_null]: the argument [res] is [NULL]. *)
Definition cmp_idx (res_null : bool) (a b : option Z) : M env Z :=
  (if res_null then regen_data a ;; regen_data b else ret tt) ;;
  let! da := env_datas (get_data a) in
  let! db := env_datas (get_data b) in
  ret (idx16 da - idx16 db).

(** ** The benchmark *)

(** [p->info->data16] *)
Definition item_data (p : option Z) : M world Z :=
  let! d := cells (get_info p) in
  let! v := others (env_datas (get_data d)) in
  ret (data16 v).

(** The variables of the search loop: [list], [info.idx], [retval], [found],
    [missed]. *)
Record fvars := FVars { flist : option Z; fidx : Z; fretval : Z; ffound : Z; fmissed : Z }.

(** [this_find->next = finder->next; finder->next = list->next;
    list->next = finder;] *)
Definition relink (this_find list finder : option Z) : M world unit :=
  let! fn := cells (get_next finder) in
  cells (set_next this_find fn) ;;
  let! ln := cells (get_next list) in
  cells (set_next finder ln) ;;
  cells (set_next list finder).

Definition find_body (i : Z) (v : fvars) : M world fvars :=
  let '(FVars list fi retval found missed) := v in
  let info := LData (Z.land i 0xff) fi in
  let! this_find := on_list (core_list_find list info) in
  let! list := cells (core_list_reverse list) in
  let! (retval, found, missed) :=
    match this_find with
    | None =>
        let missed := u16 (missed + 1) in
        let! n := cells (get_next list) in
        let! d := item_data n in
        ret (u16 (retval + Z.land (Z.shiftr d 8) 1), found, missed)
    | Some _ =>
        let found := u16 (found + 1) in
        let! d := item_data this_find in
        let retval :=
          if truth (Z.land d 0x1) then u16 (retval + Z.land (Z.shiftr d 9) 1) else retval in
        let! finder := cells (get_next this_find) in
        match finder with
        | Some _ => relink this_find list finder ;; ret (retval, found, missed)
        | None => ret (retval, found, missed)
        end
    end in
  let fi := if 0 <=? fi then s16 (fi + 1) else fi in
  ret (FVars list fi retval found missed).

(** [while (finder) { retval = crc16(list->info->data16, retval);
    finder = finder->next; }] *)
Definition crc_loop (list finder : option Z) (retval : Z) : M world Z :=
  let! (_, retval) :=
    while (fun '(finder, _) => ret (bool_decide (finder <> None)))
      (fun '(finder, retval) =>
         let! d := item_data list in
         let retval := crc16 d retval in
         let! finder := cells (get_next finder) in
         ret (finder, retval)) (finder, retval) in
  ret retval.

(** From [remover = core_list_remove(list->next)] to [remover =
    core_list_undo_remove(remover, list->next)]: the CRC of the list with one
    item taken out. *)
Definition remove_crc_undo (info : list_data) (list : option Z) (retval : Z) : M world Z :=
  let! ln := cells (get_next list) in
  let! remover := cells (core_list_remove ln) in
  let! finder := on_list (core_list_find list info) in
  let! finder := match finder with None => cells (get_next list) | Some _ => ret finder end in
  let! retval := crc_loop list finder retval in
  let! ln := cells (get_next list) in
  cells (core_list_undo_remove remover ln) ;;
  ret retval.

Definition core_bench_list (finder_idx : Z) : M world Z :=
  let! res := others get_res in
  let find_num := seed3 res in
  let! v := for_n (Z.to_nat find_num) 0 find_body (FVars (rlist res) finder_idx 0 0 0) in
  (* the last value stored in info.data16, used when info.idx is negative *)
  let info := LData (if 0 <? find_num then Z.land (find_num - 1) 0xff else 0) (fidx v) in
  let list := flist v in
  let retval := u16 (fretval v + (ffound v * 4 - fmissed v)) in
  let! list := if 0 <? finder_idx then core_list_mergesort cmp_complex list else ret list in
  let! retval := remove_crc_undo info list retval in
  let! list := core_list_mergesort (cmp_idx true) list in
  let! finder := cells (get_next list) in
  crc_loop list finder retval.

(** ** Initialisation *)

(** [sizeof(struct list_data_s)] is 4. *)
Definition list_size (blksize : Z) : Z :=
  let per_item := 16 + 4 in u32 (blksize / per_item - 2).

(** The datum of the [i]-th inserted item. *)
Definition init_data (seed i : Z) : Z :=
  let datpat := Z.land (u16 (Z.lxor (u32 seed) i)) 0xf in
  let dat := u16 (Z.lor (Z.shiftl datpat 3) (Z.land i 0x7)) in
  s16 (Z.lor (Z.shiftl dat 8) dat).

(** [finder->info->idx = v] *)
Definition set_item_idx (p : option Z) (v : Z) : M lstore unit :=
  let! d := on_heads (get_info p) in
  let! x := on_datas (get_data d) in
  on_datas (put_data d (LData (data16 x) v)).

(** The index given to the item reached with counter [i], and the counter
    after it. *)
Definition init_idx (size seed i : Z) : Z * Z :=
  if i <? size / 5 then (s16 i, u32 (i + 1))
  else
    let pat := u16 (Z.lxor i (u32 seed)) in
    let i := u32 (i + 1) in
    (s16 (Z.land 0x3fff (Z.lor (Z.shiftl (Z.land i 0x07) 8) pat)), i).

Definition index_loop (size seed : Z) (finder : option Z) : M lstore (option Z * Z) :=
  while (fun '(finder, _) =>
      let! n := on_heads (get_next finder) in ret (bool_decide (n <> None)))
    (fun '(finder, i) =>
       let '(v, i) := init_idx size seed i in
       set_item_idx finder v ;;
       let! n := on_heads (get_next finder) in
       ret (n, i)) (finder, 1).

(** Cells and items 0 .. size-1 are the arrays at [memblock] and
    [datablock]. *)
Definition core_list_build (size seed : Z) : M lstore (option Z) :=
  let memblock_end := size in
  let datablock_end := size in
  let list := Some 0 in
  on_heads (set_next list None) ;;
  on_heads (set_info list (Some 0)) ;;
  set_item_idx list 0x0000 ;;
  let! d := on_heads (get_info list) in
  let! x := on_datas (get_data d) in
  on_datas (put_data d (LData (s16 0x8080) (idx16 x))) ;;
  let info := LData (s16 0xffff) 0x7fff in
  let! (_, memblock, datablock) :=
    core_list_insert_new list info 1 1 memblock_end datablock_end in
  for_n (Z.to_nat size) 0 (fun i '(memblock, datablock) =>
    let info := LData (init_data seed i) 0x7fff in
    let! (_, memblock, datablock) :=
      core_list_insert_new list info memblock datablock memblock_end datablock_end in
    ret (memblock, datablock)) (memblock, datablock) ;;
  let! finder := on_heads (get_next list) in
  index_loop size seed finder ;;
  ret list.

Definition core_list_init (blksize seed : Z) : M world (option Z) :=
  let size := list_size blksize in
  let! list := on_list (core_list_build size seed) in
  core_list_mergesort (cmp_idx true) list.
