(* ===== verification/ListItems.v ===== *)
(** * The comparison functions of core_list_join.c

    What [calc_func], [cmp_complex] and [cmp_idx] do to the data items, and
    that the two comparisons satisfy the interface of the sort. *)

From Stdlib Require Import ZArith Lia.
From stdpp Require Import base list gmap numbers.
From S2P Require Import Prelude Crc StateMachine StateBench Matrix ListHeap MergeSort ListBench.

Local Open Scope Z_scope.
Local Open Scope cm_scope.

(** ** Packing two bytes in a signed halfword *)

Lemma land_ff00 x : Z.land x 0xff00 = 256 * ((x / 256) mod 256).
Proof.
  replace (256 * ((x / 256) mod 256)) with (Z.shiftl (Z.land (Z.shiftr x 8) (Z.ones 8)) 8)
    by (rewrite Z.land_ones, Z.shiftr_div_pow2, Z.shiftl_mul_pow2 by lia;
        change (2 ^ 8) with 256; lia).
  apply Z.bits_inj'. intros i Hi. rewrite Z.land_spec.
  change 0xff00 with (Z.shiftl (Z.ones 8) 8).
  destruct (Z.lt_ge_cases i 8).
  - by rewrite !Z.shiftl_spec_low, andb_false_r by done.
  - rewrite !Z.shiftl_spec_high, Z.land_spec, Z.shiftr_spec by lia.
    by replace (i - 8 + 8) with i by lia.
Qed.

Lemma lor_add a b w : 0 <= w -> 0 <= b < 2 ^ w -> Z.lor (2 ^ w * a) b = 2 ^ w * a + b.
Proof.
  intros Hw Hb. rewrite <- Z.add_lor_land.
  enough (Z.land (2 ^ w * a) b = 0) as -> by lia.
  apply Z.bits_inj'. intros i Hi. rewrite Z.land_spec, Z.testbit_0_l.
  rewrite Z.mul_comm, <- Z.shiftl_mul_pow2 by done. destruct (Z.lt_ge_cases i w).
  - by rewrite Z.shiftl_spec_low.
  - rewrite (testbit_in_u w b i) by done. by rewrite andb_false_r.
Qed.

(** Replacing the low byte. *)
Lemma pack_byte d x :
  in_s 16 d -> 0 <= x < 256 -> s16 (Z.lor (Z.land d 0xff00) x) = 256 * (d / 256) + x.
Proof.
  intros Hd Hx. rewrite land_ff00. change 256 with (2 ^ 8) at 1.
  rewrite lor_add by (change (2 ^ 8) with 256; lia). cint_lia.
Qed.

(** The datum an item was built from: the upper byte twice. *)
Definition regen (d : Z) : Z :=
  s16 (Z.lor (Z.land d 0xff00) (Z.land 0x00ff (Z.shiftr d 8))).

Lemma land_ff x : Z.land 0x00ff x = x mod 256.
Proof. rewrite Z.land_comm. change 0xff with (Z.ones 8). by apply Z.land_ones. Qed.
Lemma land_7f x : Z.land x 0x007f = x mod 128.
Proof. change 0x7f with (Z.ones 7). by apply Z.land_ones. Qed.
Lemma land_1 x : Z.land x 1 = x mod 2.
Proof. change 1 with (Z.ones 1) at 1. by apply Z.land_ones. Qed.

Lemma regen_eq d : in_s 16 d -> regen d = 256 * (d / 256) + (d / 256) mod 256.
Proof.
  intros Hd. unfold regen. rewrite land_ff, Z.shiftr_div_pow2 by lia. change (2 ^ 8) with 256.
  apply pack_byte; [done |]. apply Z.mod_pos_bound. lia.
Qed.

(** It only depends on the upper byte, and doing it twice is doing it once. *)
Lemma regen_hi d d' : in_s 16 d -> in_s 16 d' -> d / 256 = d' / 256 -> regen d = regen d'.
Proof. intros H H' E. by rewrite !regen_eq, E by done. Qed.

Lemma regen_range d : in_s 16 (regen d).
Proof. apply swrap_range. lia. Qed.

Lemma regen_idem d : in_s 16 d -> regen (regen d) = regen d.
Proof.
  intros H. apply regen_hi; [apply regen_range | done |]. rewrite regen_eq by done. cint_lia.
Qed.

(** ** Cached values *)

Definition cached (d : Z) : bool := truth (u8 (Z.land (Z.shiftr d 7) 1)).

Lemma cached_eq d : cached d = truth ((d / 128) mod 2).
Proof.
  unfold cached. rewrite land_1, Z.shiftr_div_pow2 by lia. change (2 ^ 7) with 128.
  f_equal. cint_lia.
Qed.

(** What [calc_func] stores for the result [r]. *)
Definition cache (d r : Z) : Z := s16 (Z.lor (Z.lor (Z.land d 0xff00) 0x0080) r).

Lemma cache_eq d r : in_s 16 d -> 0 <= r < 128 -> cache d r = 256 * (d / 256) + (128 + r).
Proof.
  intros Hd Hr. unfold cache. rewrite <- Z.lor_assoc.
  assert (Z.lor 0x80 r = 128 + r) as ->.
  { change 0x80 with (2 ^ 7 * 1). rewrite lor_add by (change (2 ^ 7) with 128; lia). done. }
  apply pack_byte; [done | lia].
Qed.

Lemma cache_spec d r : in_s 16 d -> 0 <= r < 128 ->
  in_s 16 (cache d r) /\ cached (cache d r) = true /\ Z.land (cache d r) 0x7f = r /\
  regen (cache d r) = regen d.
Proof.
  intros Hd Hr. assert (in_s 16 (cache d r)) as Hc by (apply swrap_range; lia).
  pose proof (cache_eq d r Hd Hr) as E. split_and!; [done | | |].
  - rewrite cached_eq, E. unfold truth.
    assert ((256 * (d / 256) + (128 + r)) / 128 mod 2 = 1) as ->; [| done].
    Z.to_euclidean_division_equations; lia.
  - rewrite land_7f, E. Z.to_euclidean_division_equations; lia.
  - apply regen_hi; [done | done |]. rewrite E. Z.to_euclidean_division_equations; lia.
Qed.

(** ** The environment of the comparisons *)

(** Only the running CRCs of the results record changed. *)
Definition res_frame (r r' : core_results) : Prop :=
  r' = Results (seed1 r) (seed2 r) (seed3 r) (memblock r) (size r) (iterations r) (execs r)
    (rlist r) (mat r) (crc r') (crclist r) (crcmatrix r') (crcstate r') (err r) (portable_id r).

(** Matrices A and B, the state-machine input and the rest of the results
    record are as before; C is scratch space.  The matrix and state CRCs are
    recorded once: a value other than zero stays. *)
Definition env_frame (e e' : env) : Prop :=
  e_text e' = e_text e /\ mA (e_mats e') = mA (e_mats e) /\ mB (e_mats e') = mB (e_mats e) /\
  length (mC (e_mats e')) = length (mC (e_mats e)) /\ res_frame (e_res e) (e_res e') /\
  (in_u 16 (crc (e_res e)) -> in_u 16 (crc (e_res e'))) /\
  (crcmatrix (e_res e) <> 0 -> crcmatrix (e_res e') = crcmatrix (e_res e)) /\
  (crcstate (e_res e) <> 0 -> crcstate (e_res e') = crcstate (e_res e)).

Lemma res_frame_refl r : res_frame r r.
Proof. by destruct r. Qed.
Lemma res_frame_trans r1 r2 r3 : res_frame r1 r2 -> res_frame r2 r3 -> res_frame r1 r3.
Proof. unfold res_frame. intros H1 H2. rewrite H2, H1. done. Qed.

#[export] Instance env_frame_preorder : PreOrder env_frame.
Proof.
  split.
  - intros e. split_and!; auto using res_frame_refl.
  - intros e1 e2 e3 (?&?&?&?&?&?&Hm1&Hs1) (?&?&?&?&?&?&Hm2&Hs2).
    split_and!; [congruence.. | by eapply res_frame_trans | auto | |].
    + intros Hz. rewrite <- Hm1 by done. apply Hm2. by rewrite Hm1.
    + intros Hz. rewrite <- Hs1 by done. apply Hs2. by rewrite Hs1.
Qed.

(** What the two benchmarks called by [calc_func] need. *)
Definition env_ok (e : env) : Prop :=
  let r := e_res e in
  size r = Z.of_nat (length (e_text e)) /\ size r < 2 ^ 31 /\
  terminated (e_text e) /\ Forall (restorable (seed1 r)) (e_text e) /\
  u8 (seed1 r) = u8 (seed2 r) /\
  mat_wf (mat_N (mat r)) (e_mats e) /\ Forall (in_s 16) (mA (e_mats e)) /\
  in_u 16 (crc r).

Lemma env_ok_frame e e' : env_frame e e' -> env_ok e -> env_ok e'.
Proof.
  intros (Ht & HA & HB & HC & Hr & Hcrc & _) (H1 & H2 & H3 & H4 & H5 & H6 & H7 & H8).
  unfold env_ok. rewrite Ht, HA. unfold res_frame in Hr. unfold mat_wf in *.
  rewrite HA, HB, HC. destruct (e_res e), (e_res e'). cbn in *.
  injection Hr as -> -> -> -> -> -> -> -> -> -> -> ->. by split_and!; auto; apply H6.
Qed.

(** The items of a list are present and hold a signed halfword. *)
Definition items_ok (items : list Z) (e : env) : Prop :=
  forall a, a ∈ items -> exists v, e_datas e !! a = Some v /\ in_s 16 (data16 v).

(** [e'] comes after [e]: items keep their index and the datum they were
    built from, those satisfying [P] are not changed at all, and nothing
    outside [items] is. *)
Definition items_ext (P : list_data -> Prop) (items : list Z) (e e' : env) : Prop :=
  (forall a, a ∉ items -> e_datas e' !! a = e_datas e !! a) /\
  forall a v, e_datas e !! a = Some v -> in_s 16 (data16 v) ->
    exists v', e_datas e' !! a = Some v' /\ in_s 16 (data16 v') /\ idx16 v' = idx16 v /\
      regen (data16 v') = regen (data16 v) /\ (P v -> v' = v).

#[export] Instance items_ext_preorder P items : PreOrder (items_ext P items).
Proof.
  split.
  - intros e. split; [done |]. intros a v Hv Hs. by exists v.
  - intros e1 e2 e3 [Ho1 H1] [Ho2 H2]. split; [intros a Ha; by rewrite Ho2, Ho1 |].
    intros a v1 Hv1 Hs1. destruct (H1 a v1 Hv1 Hs1) as (v2 & Hv2 & Hs2 & Hi2 & Hr2 & HP2).
    destruct (H2 a v2 Hv2 Hs2) as (v3 & Hv3 & Hs3 & Hi3 & Hr3 & HP3).
    exists v3. split_and!; [done | done | congruence | congruence |].
    intros HP. rewrite HP3; [auto |]. by rewrite HP2.
Qed.

Lemma items_ok_ext P items e e' : items_ext P items e e' -> items_ok items e -> items_ok items e'.
Proof.
  intros [_ H] Hi a Ha. destruct (Hi a Ha) as (v & Hv & Hs).
  destruct (H a v Hv Hs) as (v' & Hv' & Hs' & _). eauto.
Qed.

(** Writing one item. *)
Lemma items_ext_put P items e a v v' r m t :
  e_datas e !! a = Some v -> a ∈ items -> in_s 16 (data16 v') -> idx16 v' = idx16 v ->
  regen (data16 v') = regen (data16 v) -> (P v -> v' = v) ->
  items_ext P items e (Env (<[a := v']> (e_datas e)) r m t).
Proof.
  intros Hv Ha Hs Hi Hr HP. split.
  - intros b Hb. cbn. rewrite lookup_insert_ne; [done |]. by intros ->.
  - intros b w Hw Hsw. cbn. destruct (decide (a = b)) as [<- | Hne].
    + rewrite lookup_insert_eq. exists v'. replace w with v in * by congruence. done.
    + rewrite lookup_insert_ne by done. by exists w.
Qed.

(** ** Comparison by index *)

Definition regenerated (v : list_data) : Prop := regen (data16 v) = data16 v.

Definition idx_key (e : env) (a k : Z) : Prop :=
  exists v, e_datas e !! a = Some v /\ in_s 16 (data16 v) /\ regenerated v /\ idx16 v = k.

Definition idx_ext (items : list Z) (e e' : env) : Prop :=
  items_ext regenerated items e e' /\
  e_res e' = e_res e /\ e_mats e' = e_mats e /\ e_text e' = e_text e.

#[export] Instance idx_ext_preorder items : PreOrder (idx_ext items).
Proof.
  split; [intros e; split_and!; done |].
  intros e1 e2 e3 (?&?&?&?) (?&?&?&?). split_and!; [by etransitivity | congruence..].
Qed.

Lemma idx_key_ext items e e' a k : idx_ext items e e' -> idx_key e a k -> idx_key e' a k.
Proof.
  intros ((_ & H) & _) (v & Hv & Hs & Hr & Hi).
  destruct (H a v Hv Hs) as (v' & Hv' & _ & _ & _ & HP). exists v'. by rewrite HP in *.
Qed.

Lemma wp_regen_data items a v (Q : unit -> env -> Prop) e :
  a ∈ items -> e_datas e !! a = Some v -> in_s 16 (data16 v) ->
  (forall e', idx_ext items e e' -> idx_key e' a (idx16 v) -> Q tt e') ->
  wp (regen_data (Some a)) Q e.
Proof.
  intros Ha Hv Hs HQ. unfold regen_data, env_datas. wp_simpl.
  rewrite (wp_get_data _ _ _ _ Hv). wp_simpl. rewrite (wp_put_data _ _ _ _ _ Hv).
  fold (regen (data16 v)). apply HQ.
  - split; [| done]. apply (items_ext_put _ _ _ _ v); cbn; auto using regen_range.
    + by apply regen_idem.
    + unfold regenerated. intros ->. by destruct v.
  - eexists. cbn. rewrite lookup_insert_eq. split_and!; [done | apply regen_range | | done].
    unfold regenerated. cbn. by apply regen_idem.
Qed.

Lemma wp_cmp_idx items a b e : a ∈ items -> b ∈ items -> items_ok items e ->
  wp (cmp_idx true (Some a) (Some b)) (fun v e' => items_ok items e' /\ idx_ext items e e' /\
    exists ka kb, idx_key e' a ka /\ idx_key e' b kb /\ v = ka - kb) e.
Proof.
  intros Ha Hb Hok. unfold cmp_idx. wp_simpl.
  destruct (Hok a Ha) as (va & Hva & Hsa).
  apply (wp_regen_data items a va); [done.. |]. intros e1 He1 Hka.
  assert (items_ok items e1) as Hok1 by (eapply items_ok_ext; [apply He1 | done]).
  destruct (Hok1 b Hb) as (vb & Hvb & Hsb).
  apply (wp_regen_data items b vb); [done.. |]. intros e2 He2 Hkb.
  pose proof (idx_key_ext _ _ _ _ _ He2 Hka) as Hka2.
  pose proof Hka2 as (wa & Hwa & _ & _ & Ea). pose proof Hkb as (wb & Hwb & _ & _ & Eb).
  unfold env_datas. wp_simpl. rewrite (wp_get_data _ _ _ _ Hwa). wp_simpl. cbn [e_datas].
  rewrite (wp_get_data _ _ _ _ Hwb). wp_simpl. cbn.
  replace (Env (e_datas e2) (e_res e2) (e_mats e2) (e_text e2)) with e2 by (by destruct e2).
  split_and!; [eapply items_ok_ext; [apply He2 | done] | by etransitivity |].
  exists (idx16 va), (idx16 vb). split_and!; [done | done | congruence].
Qed.

(** The comparison used to put the list back in order. *)
#[export] Instance cmp_idx_comparator (items : list Z) : Comparator (cmp_idx true) := {|
  citem a := a ∈ items;
  cinv := items_ok items;
  cext := idx_ext items;
  keyed := idx_key;
  cext_refl := reflexivity;
  cext_trans := transitivity;
  keyed_fun e a k k' := ltac:(by intros (v & Hv & _ & _ & <-) (v' & Hv' & _ & _ & <-);
                              congruence);
  keyed_ext := idx_key_ext items;
  cmp_spec := wp_cmp_idx items
|}.

(** ** Comparison by value *)

Definition val_key (e : env) (a k : Z) : Prop :=
  exists v, e_datas e !! a = Some v /\ in_s 16 (data16 v) /\ cached (data16 v) = true /\
    Z.land (data16 v) 0x7f = k.

Definition val_ext (items : list Z) (e e' : env) : Prop :=
  items_ext (fun v => cached (data16 v) = true) items e e' /\ env_frame e e'.

#[export] Instance val_ext_preorder items : PreOrder (val_ext items).
Proof.
  split; [intros e; split; done |].
  intros e1 e2 e3 [] []. split; by etransitivity.
Qed.

Lemma val_key_ext items e e' a k : val_ext items e e' -> val_key e a k -> val_key e' a k.
Proof.
  intros [[_ H] _] (v & Hv & Hs & Hr & Hi).
  destruct (H a v Hv Hs) as (v' & Hv' & _ & _ & _ & HP). exists v'. by rewrite HP in *.
Qed.

(** The nibble of the datum, doubled, is a step the state benchmark accepts
    once the minimum is enforced. *)
Lemma dtype_range data : let dtype := Z.land (Z.shiftr data 3) 0xf in
  0 <= Z.lor dtype (Z.shiftl dtype 4) < 256.
Proof.
  intros dtype. assert (in_u 8 (Z.lor dtype (Z.shiftl dtype 4))) as H; [| exact H].
  assert (0 <= dtype < 16) as Hd.
  { unfold dtype. change 0xf with (Z.ones 4). rewrite Z.land_ones by lia.
    apply Z.mod_pos_bound. done. }
  rewrite Z.lor_comm, Z.shiftl_mul_pow2, Z.mul_comm by lia.
  rewrite lor_add by (change (2 ^ 4) with 16; lia). change (2 ^ 4) with 16. cint_unfold. lia.
Qed.

Lemma wp_calc_switch data (Q : Z -> env -> Prop) e :
  env_ok e -> in_s 16 data ->
  (forall r e', in_s 16 r -> env_frame e e' -> e_datas e' = e_datas e -> Q r e') ->
  wp (calc_switch data) Q e.
Proof.
  intros Hok Hd HQ. unfold calc_switch, get_res, env_text, env_mats, upd_res. wp_simpl.
  pose proof (dtype_range data) as Hdt. cbv zeta in Hdt.
  set (dtype := Z.lor (Z.land (Z.shiftr data 3) 15) (Z.shiftl (Z.land (Z.shiftr data 3) 15) 4)) in *.
  destruct Hok as (H1 & H2 & H3 & H4 & H5 & H6 & H7 & H8).
  assert (forall r, in_s 16 (s16 r)) as Hs by (intros r; apply swrap_range; lia).
  destruct (Z.land data 0x7) as [| [p | p |] | p] eqn:Ef;
    try (rewrite wp_ret; apply HQ; done).
  - wp_simpl. rewrite H1. apply wp_core_bench_state; [done | | done | |].
    + destruct (Z.ltb_spec dtype 34); lia.
    + destruct (Z.ltb_spec dtype 34); budget_lia.
    + intros c Hc. rewrite corrupt_restores by done. wp_simpl. apply HQ; [done | | done].
      destruct e as [ds [] mm t]. unfold env_frame, res_frame. cbn in *.
      destruct (Z.eqb_spec crcstate 0); by split_and!.
  - wp_simpl. apply wp_core_bench_matrix; [done | done | done |].
    intros c C' Hc HC. wp_simpl. apply HQ; [done | | done].
    destruct e as [ds [] mm t]. unfold env_frame, res_frame. cbn in *.
    destruct (Z.eqb_spec crcmatrix 0); by split_and!.
Qed.

Lemma wp_calc_func items a (Q : Z -> env -> Prop) e :
  a ∈ items -> items_ok items e -> env_ok e ->
  (forall r e', items_ok items e' -> env_ok e' -> val_ext items e e' -> val_key e' a r ->
     0 <= r < 128 -> Q r e') ->
  wp (calc_func (Some a)) Q e.
Proof.
  intros Ha Hit Hok HQ. destruct (Hit a Ha) as (v & Hv & Hs).
  assert (forall x, 0 <= Z.land x 0x7f < 128) as H7f
    by (intros x; rewrite land_7f; apply Z.mod_pos_bound; lia).
  unfold calc_func, env_datas. wp_simpl. rewrite (wp_get_data _ _ _ _ Hv).
  replace (Env (e_datas e) (e_res e) (e_mats e) (e_text e)) with e by (by destruct e).
  fold (cached (data16 v)). destruct (cached (data16 v)) eqn:Hc.
  - rewrite wp_ret. apply HQ; [done | done | done | by exists v | apply H7f].
  - rewrite wp_bind. apply wp_calc_switch; [done | done |]. intros r e1 Hr Hf Hds.
    unfold upd_res. wp_simpl. cbn [e_datas]. rewrite <- Hds in Hv.
    rewrite (wp_get_data _ _ _ _ Hv). wp_simpl. cbn [e_datas e_res e_mats e_text].
    rewrite (wp_put_data _ _ _ _ _ Hv), wp_ret.
    fold (cache (data16 v) (Z.land r 0x7f)).
    destruct (cache_spec (data16 v) (Z.land r 0x7f) Hs (H7f r)) as (Hcs & Hcc & Hck & Hcr).
    set (v' := LData (cache (data16 v) (Z.land r 0x7f)) (idx16 v)).
    set (e' := Env _ _ _ _).
    assert (env_frame e e') as Hfr.
    { etransitivity; [exact Hf |]. unfold e'. destruct e1 as [ds [] mm t].
      unfold env_frame, res_frame. cbn. split_and!; try done.
      intros Hu. by apply crcu16_range. }
    assert (items_ext (fun v => cached (data16 v) = true) items e e') as Hext.
    { unfold e'. rewrite Hds. apply (items_ext_put _ _ _ _ v); try done.
      by rewrite <- Hds. cbn. congruence. }
    apply HQ; [by eapply items_ok_ext | by eapply env_ok_frame | done | | apply H7f].
    exists v'. unfold e'. cbn. by rewrite lookup_insert_eq.
Qed.

Lemma wp_cmp_complex items a b e : a ∈ items -> b ∈ items -> items_ok items e /\ env_ok e ->
  wp (cmp_complex (Some a) (Some b)) (fun v e' => (items_ok items e' /\ env_ok e') /\
    val_ext items e e' /\ exists ka kb, val_key e' a ka /\ val_key e' b kb /\ v = ka - kb) e.
Proof.
  intros Ha Hb [Hit Hok]. unfold cmp_complex. rewrite wp_bind.
  apply (wp_calc_func items); [done.. |]. intros ka e1 Hit1 Hok1 He1 Hka _. rewrite wp_bind.
  apply (wp_calc_func items); [done.. |]. intros kb e2 Hit2 Hok2 He2 Hkb _. rewrite wp_ret.
  split; [done |]. split; [by etransitivity |].
  exists ka, kb. split_and!; [by eapply val_key_ext | done | done].
Qed.

(** The comparison by value, which computes and caches as it compares. *)
#[export] Instance cmp_complex_comparator (items : list Z) : Comparator cmp_complex := {|
  citem a := a ∈ items;
  cinv e := items_ok items e /\ env_ok e;
  cext := val_ext items;
  keyed := val_key;
  cext_refl := reflexivity;
  cext_trans := transitivity;
  keyed_fun e a k k' := ltac:(by intros (v & Hv & _ & _ & <-) (v' & Hv' & _ & _ & <-);
                              congruence);
  keyed_ext := val_key_ext items;
  cmp_spec := wp_cmp_complex items
|}.

(** A key that is settled is read back without touching the store. *)
Lemma calc_func_cached e a k : val_key e a k -> calc_func (Some a) e = Ok k e.
Proof.
  intros (v & Hv & _ & Hc & <-).
  assert (wp (calc_func (Some a)) (fun r e' => r = Z.land (data16 v) 0x7f /\ e' = e) e) as Hw.
  { unfold calc_func, env_datas. wp_simpl. rewrite (wp_get_data _ _ _ _ Hv).
    fold (cached (data16 v)). rewrite Hc, wp_ret. by destruct e. }
  by apply wp_ok in Hw as (r & e' & -> & -> & ->).
Qed.

(** [calc_func] always returns, with a value between 0 and 127; it runs
    the state or the matrix benchmark when the datum asks for it, but leaves
    the state-machine input, matrices A and B, every other item, and the
    index and upper byte of its item unchanged; and from then on the value is
    cached: a second call returns the same value and changes nothing. *)
Theorem calc_func_caches items a e :
  a ∈ items -> items_ok items e -> env_ok e ->
  exists r e', calc_func (Some a) e = Ok r e' /\ 0 <= r < 128 /\
    calc_func (Some a) e' = Ok r e' /\ env_frame e e' /\ env_ok e' /\
    items_ext (fun v => cached (data16 v) = true) [a] e e'.
Proof.
  intros Ha Hit Hok.
  assert (wp (calc_func (Some a)) (fun r e' => 0 <= r < 128 /\ val_key e' a r /\
    env_frame e e' /\ env_ok e' /\
    items_ext (fun v => cached (data16 v) = true) [a] e e') e) as Hw.
  { apply (wp_calc_func [a]); [by left | | done |].
    - intros b ->%list_elem_of_singleton. by apply Hit.
    - intros r e' _ Hok' [Hext Hfr] Hk Hr. done. }
  apply wp_ok in Hw as (r & e' & E & Hr & Hk & H). exists r, e'. destruct H as (Hfr & Hok' & Hext).
  split; [done |]. split; [done |]. split; [by apply calc_func_cached | done].
Qed.

(** A small environment: one item that asks for the state benchmark. *)
Definition small_env : env :=
  Env (<[10 := LData 0x1010 3]> ∅)
    (Results 0 0 0 [] 4 1 7 None (MatParams 0 0 0 0) 0 0 0 0 0 0)
    (MMem [] [] []) [49; 44; 0; 0].

Lemma small_env_ok : items_ok [10] small_env /\ env_ok small_env.
Proof.
  split.
  - intros a ->%list_elem_of_singleton. exists (LData 0x1010 3). split; [done |]. cint_unfold.
    cbn. lia.
  - unfold env_ok, mat_wf. cbn. split_and!; try done; try lia.
    + by exists [49; 44].
    + repeat constructor; try (cint_unfold; lia); try done; right; done.
Qed.

Lemma calc_func_caches_witness :
  exists r e', calc_func (Some 10) small_env = Ok r e' /\ 0 <= r < 128 /\
    calc_func (Some 10) e' = Ok r e' /\ env_frame small_env e' /\ env_ok e' /\
    items_ext (fun v => cached (data16 v) = true) [10] small_env e'.
Proof.
  destruct small_env_ok as [Hi He]. apply (calc_func_caches [10] 10 small_env); [by left | done | done].
Defined.
