(* ===== verification/ListRestore.v ===== *)
(** * The list benchmark puts the list back

    [core_bench_list] of core_list_join.c reorders the list, caches computed
    values in its items and takes an item out and back in.  The proof follows
    the routine step by step: each search step, the sort by value, the remove
    and undo, and the sort by index; the conclusion is that cells and items
    end exactly as they were. *)

From Stdlib Require Import ZArith Lia.
From stdpp Require Import base list gmap numbers sorting.
From S2P Require Import Prelude Crc StateMachine StateBench Matrix ListHeap MergeSort.
From S2P Require Import ListBench ListItems.

Local Open Scope Z_scope.
Local Open Scope cm_scope.

(** ** Accesses on the whole store *)

Ltac world_step := first [rewrite wp_bind | rewrite wp_ret | rewrite wp_cells; cell_step].
Ltac world_steps := repeat world_step.

Lemma wp_item_data a n d v (Q : Z -> world -> Prop) h e :
  h !! a = Some (LHead n (Some d)) -> e_datas e !! d = Some v ->
  wp (item_data (Some a)) Q (h, e) <-> Q (data16 v) (h, e).
Proof.
  intros Ha Hd. unfold item_data, env_datas. rewrite wp_bind, wp_cells. cell_step.
  rewrite wp_bind, wp_others, wp_zoom, (wp_get_data _ _ _ _ Hd), wp_ret. by destruct e.
Qed.

Lemma wp_list_find p info l (Q : option Z -> world -> Prop) h e :
  chain h p l None -> has_items (e_datas e) l -> Z.of_nat (length l) < Zpos budget ->
  Q (first_match (e_datas e) info l) (h, e) ->
  wp (on_list (core_list_find p info)) Q (h, e).
Proof.
  intros Hc Hi Hl HQ. unfold on_list. rewrite wp_zoom. cbn [fst snd].
  apply (wp_core_list_find _ _ _ _ l); [done.. |]. by destruct e.
Qed.

(** ** One step of the search loop *)

(** Moving the successor [b] of cell [a] behind the first cell [c]. *)
Lemma chain_move h c dc l1 a d b db l3 :
  chain h (Some c) ((c, dc) :: l1 ++ (a, d) :: (b, db) :: l3) None ->
  NoDup (nodes ((c, dc) :: l1 ++ (a, d) :: (b, db) :: l3)) ->
  exists n1 n3, h !! c = Some (LHead n1 (Some dc)) /\
    h !! a = Some (LHead (Some b) (Some d)) /\ h !! b = Some (LHead n3 (Some db)) /\
    c <> a /\ c <> b /\ a <> b /\
    chain (<[c := LHead (Some b) (Some dc)]> (<[b := LHead n1 (Some db)]>
      (<[a := LHead n3 (Some d)]> h))) (Some c) ((c, dc) :: (b, db) :: l1 ++ (a, d) :: l3) None.
Proof.
  intros (_ & n1 & Hc & H) Hnd.
  apply chain_app in H as (r & H1 & -> & n2 & Ha & -> & n3 & Hb & H3).
  rewrite fmap_cons, fmap_app, !fmap_cons in Hnd. cbn [fst] in Hnd.
  apply list.NoDup_cons in Hnd as [Hc1 Hnd]. apply list.NoDup_app in Hnd as (_ & Hd & Hnd).
  apply list.NoDup_cons in Hnd as [Ha1 Hnd]. apply list.NoDup_cons in Hnd as [Hb1 _].
  apply not_elem_of_app in Hc1 as [Hc1 Hc2].
  apply not_elem_of_cons in Hc2 as [Hca Hc2]. apply not_elem_of_cons in Hc2 as [Hcb Hc2].
  apply not_elem_of_cons in Ha1 as [Hab Ha1].
  assert (a ∉ nodes l1) as Ha2 by (intros H; apply (Hd _ H); by left).
  assert (b ∉ nodes l1) as Hb2 by (intros H; apply (Hd _ H); by right; left).
  exists n1, n3. split_and!; [done.. |]. cbn [chain]. split; [done |].
  exists (Some b). split; [by simplify_map_eq |]. split; [done |].
  exists n1. split; [by simplify_map_eq |]. apply chain_app. exists (Some a).
  split; [by rewrite !chain_frame |]. split; [done |]. exists n3.
  split; [by simplify_map_eq | by rewrite !chain_frame].
Qed.

Lemma wp_relink l1 a d b db l3 p h (e : env) (Q : unit -> world -> Prop) :
  let l := l1 ++ (a, d) :: (b, db) :: l3 in
  chain h p l None -> NoDup (nodes l) ->
  (forall h' l', chain h' p l' None -> l' ≡ₚ l -> agree_off (nodes l) h h' -> Q tt (h', e)) ->
  wp (relink (Some a) p (Some b)) Q (h, e).
Proof.
  intros l Hc Hnd HQ. unfold relink.
  assert (a ∈ nodes l /\ b ∈ nodes l) as [Hal Hbl].
  { unfold l. rewrite fmap_app. split; apply elem_of_app; right; [by left | by right; left]. }
  destruct l1 as [| [c dc] l1].
  - cbn [l app] in *. destruct Hc as (-> & n & Ha & -> & n3 & Hb & H3).
    assert (a <> b) as Hne.
    { apply list.NoDup_cons in Hnd as [Hn _]. intros ->. apply Hn. by left. }
    world_steps. apply (HQ _ ((a, d) :: (b, db) :: l3)); [| done |].
    + match goal with |- chain ?x _ _ _ => replace x with h by heap_eq a b end.
      cbn. split; [done |]. exists (Some b). split; [done |]. split; [done |]. by exists n3.
    + intros x Hx. rewrite !lookup_insert_ne; [done | by intros <-..].
  - assert (p = Some c) as -> by (by destruct Hc).
    destruct (chain_move _ _ _ _ _ _ _ _ _ Hc Hnd)
      as (n1 & n3 & Hcc & Ha & Hb & Hca & Hcb & Hab & Hc').
    world_steps. eapply HQ; [exact Hc' | |].
    + unfold l. cbn [app]. constructor. rewrite (Permutation_middle l1).
      apply Permutation_app_head, perm_swap.
    + intros x Hx. rewrite !lookup_insert_ne; [done | by intros <-.. |].
      intros <-. apply Hx. unfold l. cbn. by left.
Qed.

Lemma reverse_swap {A} (l1 l2 : list A) x : reverse l2 ++ x :: reverse l1 ≡ₚ l1 ++ x :: l2.
Proof. by rewrite !reverse_Permutation, <- !Permutation_middle, Permutation_app_comm. Qed.

(** One iteration keeps a well-formed list well-formed: it permutes the cells
    and leaves all items alone. *)
Lemma wp_find_body i v l (Q : fvars -> world -> Prop) h e :
  chain h (flist v) l None -> NoDup (nodes l) -> has_items (e_datas e) l ->
  (2 <= length l)%nat -> Z.of_nat (length l) < Zpos budget ->
  (forall v' h' l', chain h' (flist v') l' None -> l' ≡ₚ l -> agree_off (nodes l) h h' ->
     Q v' (h', e)) ->
  wp (find_body i v) Q (h, e).
Proof.
  intros Hc Hnd Hi H2 Hlen HQ. destruct v as [list fi retval found missed]. cbn [flist] in Hc.
  unfold find_body. rewrite wp_bind. apply (wp_list_find _ _ l); [done.. |].
  pose proof (first_match_spec (e_datas e) (LData (Z.land i 255) fi) l) as Hf.
  destruct (first_match (e_datas e) (LData (Z.land i 255) fi) l) as [a |].
  - destruct Hf as (l1 & d & v & l2 & El & Hd & _).
    rewrite wp_bind, wp_cells. apply (wp_core_list_reverse h list l); [done.. |].
    intros p' h1 Hc1 Hag1. rewrite El, reverse_app, reverse_cons, <- app_assoc in Hc1.
    cbn [app] in Hc1.
    assert (exists n, h1 !! a = Some (LHead n (Some d)) /\ chain h1 n (reverse l1) None)
      as (n & Ha & Hn).
    { apply chain_app in Hc1 as (r & _ & _ & n & Ha & Hn). eauto. }
    rewrite wp_bind, wp_bind. rewrite (wp_item_data _ _ _ _ _ _ _ Ha Hd). world_steps.
    destruct n as [b |]; world_steps.
    + apply chain_cons_inv in Hn as (db & nb & l3 & El3 & Hb & _). rewrite El3 in Hc1.
      assert (reverse l2 ++ (a, d) :: (b, db) :: l3 ≡ₚ l) as Hp.
      { by rewrite <- El3, El, reverse_swap. }
      eapply wp_relink; [exact Hc1 | by rewrite Hp |]. intros h2 l' Hc2 Hp2 Hag2. world_steps.
      apply HQ with (l' := l'); [done | by rewrite Hp2 |].
      eapply agree_off_mono; [exact Hag1 | exact Hag2 |]. intros x. by rewrite Hp.
    + apply HQ with (l' := reverse l2 ++ (a, d) :: reverse l1); [done | | done].
      by rewrite El, reverse_swap.
  - rewrite wp_bind, wp_cells. apply (wp_core_list_reverse h list l); [done.. |].
    intros p' h1 Hc1 Hag1.
    destruct (reverse l) as [| [a da] [| [b db] l']] eqn:Er;
      [by apply (f_equal length) in Er; rewrite length_reverse in Er; cbn in Er; lia.. |].
    pose proof Hc1 as (-> & n & Ha & -> & n2 & Hb & _).
    destruct (Hi (b, db)) as [vb Hvb].
    { apply elem_of_reverse. rewrite Er. by right; left. }
    rewrite wp_bind. world_steps. rewrite (wp_item_data _ _ _ _ _ _ _ Hb Hvb). world_steps.
    eapply HQ; [exact Hc1 | | done]. by rewrite <- Er, reverse_Permutation.
Qed.

(** The whole search loop. *)
Lemma wp_find_loop n v l (Q : fvars -> world -> Prop) h e :
  chain h (flist v) l None -> NoDup (nodes l) -> has_items (e_datas e) l ->
  (2 <= length l)%nat -> Z.of_nat (length l) < Zpos budget ->
  (forall v' h' l', chain h' (flist v') l' None -> l' ≡ₚ l -> agree_off (nodes l) h h' ->
     Q v' (h', e)) ->
  wp (for_n n 0 find_body v) Q (h, e).
Proof.
  intros Hc Hnd Hi H2 Hlen HQ.
  apply (wp_for_n (fun _ v' w => w.2 = e /\ exists l', chain w.1 (flist v') l' None /\
    l' ≡ₚ l /\ agree_off (nodes l) h w.1)).
  - split; [done |]. by exists l.
  - intros j v1 [h1 e1] _ [Ee (l1 & Hc1 & Hp1 & Hag1)]. cbn [fst snd] in *. subst e1.
    apply (wp_find_body _ _ l1); [done | by rewrite Hp1 | | by rewrite Hp1 | by rewrite Hp1 |].
    { intros x Hx. apply Hi. by rewrite <- Hp1. }
    intros v2 h2 l2 Hc2 Hp2 Hag2. split; [done |]. exists l2. split_and!; [done | by rewrite Hp2 |].
    eapply agree_off_mono; [exact Hag1 | exact Hag2 |]. intros x. by rewrite Hp1.
  - intros v1 [h1 e1] [Ee (l1 & Hc1 & Hp1 & Hag1)]. cbn in Ee. subst e1. by eapply HQ.
Qed.

(** ** The CRC loops *)

Lemma wp_crc_loop a n d v finder l retval (Q : Z -> world -> Prop) h e :
  h !! a = Some (LHead n (Some d)) -> e_datas e !! d = Some v ->
  chain h finder l None -> Z.of_nat (length l) < Zpos budget -> in_u 16 retval ->
  Q (Nat.iter (length l) (crc16 (data16 v)) retval) (h, e) ->
  wp (crc_loop (Some a) finder retval) Q (h, e).
Proof.
  intros Ha Hd Hc Hlen Hr HQ. unfold crc_loop. rewrite wp_bind.
  apply (wp_while_n (fun k fv w => w = (h, e) /\ exists l2, k = length l2 /\
    chain h fv.1 l2 None /\ Nat.iter (length l) (crc16 (data16 v)) retval =
      Nat.iter (length l2) (crc16 (data16 v)) fv.2) _ _ (length l)).
  - split; [done |]. by exists l.
  - done.
  - clear Hc. intros k [p r] w (-> & l2 & -> & Hc & E). cbn [fst snd] in *. rewrite wp_ret.
    destruct p as [b |].
    + rewrite bool_decide_true by done. rewrite wp_bind, (wp_item_data _ _ _ _ _ _ _ Ha Hd).
      apply chain_cons_inv in Hc as (db & nb & l3 & -> & Hb & Hc). world_steps.
      exists (length l3). split; [cbn; lia |]. split; [done |]. exists l3.
      split_and!; [done | done |]. rewrite E. cbn [length]. by rewrite Nat.iter_succ_r.
    + rewrite bool_decide_false by (by intros []). rewrite wp_ret.
      apply chain_nil_inv in Hc as [-> _]. by rewrite E in HQ.
Qed.

Lemma crc_iter16_range k d r : in_u 16 r -> in_u 16 (Nat.iter k (crc16 d) r).
Proof. intros Hr. induction k; [done |]. cbn. by apply crc16_range. Qed.

(** From the cell a search found on, or from the second cell. *)
Lemma first_match_suffix h p l ds info a :
  chain h p l None -> first_match ds info l = Some a ->
  exists l2, chain h (Some a) l2 None /\ (length l2 <= length l)%nat.
Proof.
  intros Hc Hf. pose proof (first_match_spec ds info l) as Hs. rewrite Hf in Hs.
  destruct Hs as (l1 & d & v & l2 & -> & _). apply chain_app in Hc as (r & _ & Hc).
  exists ((a, d) :: l2). split; [| rewrite length_app; lia]. by destruct (proj1 Hc).
Qed.

(** ** The middle of the routine: remove, checksum, undo *)

Lemma wp_remove_crc_undo info p l retval (Q : Z -> world -> Prop) h e :
  chain h p l None -> NoDup (nodes l) -> has_items (e_datas e) l ->
  (3 <= length l)%nat -> Z.of_nat (length l) < Zpos budget -> in_u 16 retval ->
  (forall r, in_u 16 r -> Q r (h, e)) ->
  wp (remove_crc_undo info p retval) Q (h, e).
Proof.
  intros Hc Hnd Hi H3 Hlen Hr HQ.
  destruct l as [| [a da] [| [b db] [| [c dc] l]]]; [by cbn in H3; lia.. |]. clear H3.
  destruct (chain_remove h p [(a, da)] b c db dc l None Hc Hnd) as (nc & Hb & Hcc & Hne & Hc').
  assert (a <> b /\ a <> c) as [Hab Hac].
  { rewrite !fmap_cons in Hnd. cbn [fst] in Hnd. apply list.NoDup_cons in Hnd as [Hn _].
    apply not_elem_of_cons in Hn as [? Hn]. by apply not_elem_of_cons in Hn as [? _]. }
  destruct Hc as (-> & n & Ha & -> & _). cbn [app] in Hc'.
  unfold remove_crc_undo. world_steps. rewrite wp_cells, (wp_core_list_remove b c nc _ _ _ _ Hb Hcc Hne).
  set (h1 := <[c := LHead None (Some db)]> (<[b := LHead nc (Some dc)]> h)) in *.
  assert (h1 !! a = Some (LHead (Some b) (Some da))) as Ha1 by (unfold h1; by simplify_map_eq).
  assert (h1 !! b = Some (LHead nc (Some dc))) as Hb1 by (unfold h1; by simplify_map_eq).
  assert (h1 !! c = Some (LHead None (Some db))) as Hc1 by (unfold h1; by simplify_map_eq).
  assert (has_items (e_datas e) ((a, da) :: (b, dc) :: l)) as Hi'.
  { intros x [-> | [-> | Hx]%elem_of_cons]%elem_of_cons.
    - apply (Hi (a, da)). by left.
    - apply (Hi (c, dc)). by right; right; left.
    - apply Hi. by right; right; right. }
  destruct (Hi' (a, da)) as [va Hva]; [by left |].
  assert (forall f l2, chain h1 f l2 None -> Z.of_nat (length l2) < Zpos budget ->
    wp (let! retval := crc_loop (Some a) f retval in
        let! ln := cells (get_next (Some a)) in
        cells (core_list_undo_remove (Some c) ln) ;; ret retval) Q (h1, e)) as Htail.
  { intros f l2 Hf Hl2. rewrite wp_bind. apply (wp_crc_loop a (Some b) da va f l2); [done.. |].
    world_steps. rewrite wp_cells.
    rewrite (wp_core_list_undo_remove b c nc None (Some dc) (Some db)), wp_ret by done.
    match goal with |- Q _ (?x, _) => replace x with h by (unfold h1; heap_eq b c) end.
    by apply HQ, crc_iter16_range. }
  rewrite wp_bind. apply (wp_list_find _ _ _ _ _ _ Hc'); [done | cbn in *; lia |].
  rewrite wp_bind.
  destruct (first_match _ _ _) as [f |] eqn:Ef; [rewrite wp_ret | rewrite wp_cells; cell_step].
  - destruct (first_match_suffix _ _ _ _ _ _ Hc' Ef) as (l2 & Hl2 & Hle).
    apply (Htail (Some f) l2 Hl2). cbn in *. lia.
  - destruct Hc' as (_ & n' & Ea & Hc'). assert (n' = Some b) as -> by congruence.
    apply (Htail (Some b) _ Hc'). cbn in *. lia.
Qed.

(** ** The routine *)

(** A list as [core_list_init] leaves it: three cells or more, ordered by
    distinct indices, every item holding its datum twice. *)
Definition idx_below (e : env) (x y : Z * Z) : Prop :=
  exists vx vy, e_datas e !! x.2 = Some vx /\ e_datas e !! y.2 = Some vy /\ idx16 vx < idx16 vy.

Record list_ok (l : list (Z * Z)) (p : option Z) (h : gmap Z list_head) (e : env) : Prop := {
  lo_chain : chain h p l None;
  lo_nodup : NoDup (nodes l);
  lo_long : (3 <= length l)%nat;
  lo_short : Z.of_nat (length l) < 2 ^ 31;
  lo_items : forall x, x ∈ l -> exists v, e_datas e !! x.2 = Some v /\
    in_s 16 (data16 v) /\ regenerated v;
  lo_sorted : StronglySorted (idx_below e) l
}.

Lemma items_ext_weaken (P P' : list_data -> Prop) items e e' :
  (forall v, P' v -> P v) -> items_ext P items e e' -> items_ext P' items e e'.
Proof.
  intros HP [Ho H]. split; [done |]. intros a v Hv Hs.
  destruct (H a v Hv Hs) as (v' & ? & ? & ? & ? & ?). exists v'. split_and!; auto.
Qed.

(** Items whose origin was kept and which were regenerated at the end are
    what they were. *)
Lemma items_restored items e e' :
  items_ext (fun _ => False) items e e' ->
  (forall a, a ∈ items -> exists v, e_datas e !! a = Some v /\ in_s 16 (data16 v) /\ regenerated v) ->
  (forall a, a ∈ items -> exists k, idx_key e' a k) -> e_datas e' = e_datas e.
Proof.
  intros [Ho H] Hi Hk. apply map_eq. intros a.
  destruct (decide (a ∈ items)) as [Ha | Ha]; [| by apply Ho].
  destruct (Hi a Ha) as (v & Hv & Hs & Hr). destruct (Hk a Ha) as (k & w & Hw & _ & Hrw & _).
  destruct (H a v Hv Hs) as (v' & Hv' & _ & Hidx & Hreg & _).
  rewrite Hv', Hv. f_equal. assert (w = v') as -> by congruence.
  unfold regenerated in *. destruct v, v'; cbn in *; congruence.
Qed.

Lemma sorted_keyed {D} (cmp : option Z -> option Z -> M D Z) `{!Comparator cmp} B d l x :
  StronglySorted (ord cmp B d) l -> (2 <= length l)%nat -> x ∈ l -> exists k, keyed d x.2 k.
Proof.
  intros Hs H2 (l1 & l2 & ->)%list_elem_of_split.
  destruct l1 as [| y l1].
  - destruct l2 as [| y l2]; [cbn in H2; lia |]. cbn in Hs.
    apply StronglySorted_cons in Hs as [Hy _]. inversion Hy as [| ? ? (k & ? & Hk & _) _]; eauto.
  - destruct (StronglySorted_app_1_elem_of _ (y :: l1) (x :: l2) y x Hs)
      as (? & k & _ & Hk & _); [by left | by left | eauto].
Qed.

(** Strictly ordered lists have no two elements with the same index. *)
Lemma sorted_trichotomy {A} (R : A -> A -> Prop) l x y :
  StronglySorted R l -> x ∈ l -> y ∈ l -> x = y \/ R x y \/ R y x.
Proof.
  induction 1 as [| z l Hs IH Hz]; [by intros ?%elem_of_nil |].
  rewrite list.Forall_forall in Hz.
  intros [-> | Hx]%elem_of_cons [-> | Hy]%elem_of_cons; auto.
Qed.

Lemma sorted_same_order items l l' e :
  StronglySorted (idx_below e) l -> l' ≡ₚ l ->
  StronglySorted (ord (cmp_idx true) (Comparator0 := cmp_idx_comparator items)
    (fun _ _ => True) e) l' -> (2 <= length l)%nat -> l' = l.
Proof.
  intros Hl Hp Hl' H2.
  set (R := ord _ _ e) in *.
  assert (forall x, x ∈ l -> exists k, idx_key e x.2 k) as Hk.
  { intros x Hx. apply (sorted_keyed (cmp_idx true) (Comparator0 := cmp_idx_comparator items)
      (fun _ _ => True) e l'); [exact Hl' | by rewrite Hp | by rewrite Hp]. }
  assert (forall x y, x ∈ l -> y ∈ l -> idx_below e x y -> R x y) as Hbr.
  { intros x y Hx Hy (vx & vy & Hvx & Hvy & Hlt).
    destruct (Hk x Hx) as (kx & Hkx), (Hk y Hy) as (ky & Hky). exists kx, ky.
    split; [exact Hkx |]. split; [exact Hky |]. left.
    destruct Hkx as (? & ? & _ & _ & <-), Hky as (? & ? & _ & _ & <-). congruence. }
  apply (StronglySorted_unique_strong R); [| done | | done].
  - intros x y Hx Hy (kx & ky & Hkx & Hky & Hxy) (ky' & kx' & Hky' & Hkx' & Hyx).
    rewrite Hp in Hx.
    destruct Hkx as (vx & Hvx & _ & _ & Ex), Hky as (vy & Hvy & _ & _ & Ey).
    destruct Hkx' as (vx' & Hvx' & _ & _ & Ex'), Hky' as (vy' & Hvy' & _ & _ & Ey').
    destruct (sorted_trichotomy _ _ x y Hl Hx Hy) as [-> | [(v1 & v2 & H1 & H2' & Hlt) |
      (v1 & v2 & H1 & H2' & Hlt)]]; [done | |]; simplify_eq; lia.
  - clear - Hl Hbr. induction Hl as [| x l Hs IH Hx]; constructor.
    + apply IH. intros y z Hy Hz. apply Hbr; by right.
    + rewrite list.Forall_forall in *. intros y Hy. apply Hbr; [by left | by right | by apply Hx].
Qed.

Lemma sorted_trivial {A} (l : list A) : StronglySorted (fun _ _ => True) l.
Proof. induction l; constructor; [done |]. by apply list.Forall_true. Qed.

(** The final sort: from any order, with the items' origins kept, back to the
    list, the items and the heap the routine started from. *)
Lemma wp_sort_back l p0 h0 e0 p l2 h2 e2 (Q : option Z -> world -> Prop) :
  list_ok l p0 h0 e0 -> chain h2 p l2 None -> l2 ≡ₚ l -> agree_off (nodes l) h0 h2 ->
  items_ok (l.*2) e2 -> items_ext (fun _ => False) (l.*2) e0 e2 ->
  Q p0 (h0, Env (e_datas e0) (e_res e2) (e_mats e2) (e_text e2)) ->
  wp (core_list_mergesort (cmp_idx true) p) Q (h2, e2).
Proof.
  intros [Hc Hnd H3 Hlen Hit Hsort] Hc2 Hp Hag Hiok Hext HQ.
  apply (wp_core_list_mergesort (cmp_idx true) (Comparator0 := cmp_idx_comparator (l.*2))
    (fun _ _ => True) l2); [done | | by rewrite Hp | | by rewrite Hp | done | |].
  - intros ->. apply Permutation_nil_l in Hp. subst l. cbn in H3. lia.
  - intros x Hx. cbn. apply list_elem_of_fmap_2. by rewrite <- Hp.
  - apply sorted_trivial.
  - intros l3 p3 h3 e3 Hc3 Hp3 Hag3 _ (Hx3 & Hr3 & Hm3 & Ht3) Hs3. rewrite Hp in Hp3.
    assert (e_datas e3 = e_datas e0) as Hds.
    { apply (items_restored (l.*2)).
      - etransitivity; [exact Hext |]. by eapply items_ext_weaken; [| exact Hx3].
      - intros a (x & -> & Hx)%list_elem_of_fmap. by apply Hit.
      - intros a (x & -> & Hx)%list_elem_of_fmap.
        apply (sorted_keyed (cmp_idx true) (Comparator0 := cmp_idx_comparator (l.*2))
          (fun _ _ => True) e3 l3); [exact Hs3 | rewrite Hp3; lia | by rewrite Hp3]. }
    assert (l3 = l) as ->.
    { apply (sorted_same_order (l.*2) l l3 e3); [| done | done | lia].
      unfold idx_below. by rewrite Hds. }
    destruct (chain_heap_unique h0 h3 p0 p3 l) as [<- <-]; [done | done | |].
    { eapply agree_off_mono; [exact Hag | exact Hag3 |]. intros x. by rewrite Hp. }
    rewrite <- Hds, <- Hr3, <- Hm3, <- Ht3 in HQ. by destruct e3.
Qed.

Lemma wp_core_bench_list finder_idx l h e (Q : Z -> world -> Prop) :
  list_ok l (rlist (e_res e)) h e -> env_ok e ->
  (forall r e', in_u 16 r -> env_frame e e' -> e_datas e' = e_datas e -> Q r (h, e')) ->
  wp (core_bench_list finder_idx) Q (h, e).
Proof.
  intros Hok Henv HQ. pose proof Hok as [Hc Hnd H3 Hlen Hit Hsort].
  assert (items_ok (l.*2) e) as Hiok.
  { intros a (x & -> & Hx)%list_elem_of_fmap. destruct (Hit x Hx) as (v & ? & ? & _). eauto. }
  assert (forall e l', items_ok (l.*2) e -> l' ≡ₚ l -> has_items (e_datas e) l') as Hhas.
  { intros e1 l' Hi Hp x Hx. destruct (Hi x.2) as (v & Hv & _); [| eauto].
    apply list_elem_of_fmap_2. by rewrite <- Hp. }
  unfold core_bench_list. rewrite wp_bind, wp_others. unfold get_res. rewrite wp_gets, wp_bind.
  apply (wp_find_loop _ _ l); [done | done | by apply Hhas | lia | budget_lia |].
  intros v1 h1 l1 Hc1 Hp1 Hag1. rewrite wp_bind.
  set (retval := u16 _). assert (in_u 16 retval) as Hr by (by apply uwrap_range).
  assert (forall p2 l2 h2 e2, chain h2 p2 l2 None -> l2 ≡ₚ l -> agree_off (nodes l) h h2 ->
    items_ok (l.*2) e2 -> val_ext (l.*2) e e2 ->
    wp (let! retval := remove_crc_undo
            (LData (if 0 <? seed3 (e_res e) then Z.land (seed3 (e_res e) - 1) 0xff else 0)
               (fidx v1)) p2 retval in
        let! list := core_list_mergesort (cmp_idx true) p2 in
        let! finder := cells (get_next list) in
        crc_loop list finder retval) Q (h2, e2)) as Hrest.
  { intros p2 l2 h2 e2 Hc2 Hp2 Hag2 Hi2 [Hx2 Hf2]. rewrite wp_bind.
    apply (wp_remove_crc_undo _ _ l2); [done | by rewrite Hp2 | by apply Hhas |
      rewrite Hp2; lia | rewrite Hp2; budget_lia | done |].
    intros r3 Hr3. rewrite wp_bind. eapply wp_sort_back; try done.
    { by eapply items_ext_weaken; [| exact Hx2]. }
    destruct l as [| [a da] l]; [cbn in H3; lia |]. destruct Hc as (-> & n & Ha & Hn).
    destruct (Hit (a, da)) as (va & Hva & _); [by left |]. rewrite wp_bind, wp_cells. cell_step.
    eapply (wp_crc_loop a n da va n l); [done | done | done | cbn in Hlen; budget_lia | done |].
    by apply HQ; [apply crc_iter16_range | |]. }
  destruct (0 <? finder_idx).
  - apply (wp_core_list_mergesort cmp_complex (Comparator0 := cmp_complex_comparator (l.*2))
      (fun _ _ => True) l1); [done | | by rewrite Hp1 | | by rewrite Hp1 | done | |].
    + intros ->. apply Permutation_nil_l in Hp1. subst l. cbn in H3. lia.
    + intros x Hx. cbn. apply list_elem_of_fmap_2. by rewrite <- Hp1.
    + apply sorted_trivial.
    + intros l2 p2 h2 e2 Hc2 Hp2 Hag2 [Hi2 _] Hx2 _. rewrite Hp1 in Hp2.
      apply (Hrest p2 l2); [done | done | | done | done].
      eapply agree_off_mono; [exact Hag1 | exact Hag2 |]. intros x. by rewrite Hp1.
  - rewrite wp_ret. by apply (Hrest _ l1).
Qed.

(** ** The theorems *)

(** C11: the list benchmark is repeatable.  On a list as [core_list_init]
    leaves it (at least three cells, distinct ascending indices), with the
    matrices and the state-machine input well-formed ([env_ok]: the input ends
    in two NULs, the bytes of seed1 and seed2 are equal, and xor with that byte
    turns no character of the input into a comma), [core_bench_list] returns
    without a fault for every [finder_idx] and number of searches,
    and every list cell, every data item, the state-machine input, matrices A
    and B and the results record (the running CRCs apart) are exactly as
    before the call. *)
Theorem core_bench_list_restores finder_idx l h e :
  list_ok l (rlist (e_res e)) h e -> env_ok e ->
  exists crc' e', core_bench_list finder_idx (h, e) = Ok crc' (h, e') /\
    in_u 16 crc' /\ e_datas e' = e_datas e /\ env_frame e e' /\
    list_ok l (rlist (e_res e')) h e' /\ env_ok e'.
Proof.
  intros Hl He.
  assert (wp (core_bench_list finder_idx) (fun r w => w.1 = h /\ in_u 16 r /\
    e_datas w.2 = e_datas e /\ env_frame e w.2) (h, e)) as Hw.
  { by apply (wp_core_bench_list _ l). }
  apply wp_ok in Hw as (r & [h' e'] & E & Hh & Hr & Hd & Hf). cbn [fst snd] in *. subst h'.
  exists r, e'. split; [done |]. split; [done |]. split; [done |]. split; [done |].
  split; [| by eapply env_ok_frame].
  pose proof Hf as (_ & _ & _ & _ & Hres & _). unfold res_frame in Hres.
  rewrite (f_equal rlist Hres). cbn [rlist]. destruct Hl as [H1 H2 H3 H4 H5 H6].
  constructor; try done.
  - by rewrite Hd.
  - unfold idx_below. by rewrite Hd.
Qed.

(** Three items, one of which asks for the state benchmark. *)
Definition small_world : world :=
  (three_cells,
   Env (<[10 := LData 0x1010 0]> (<[11 := LData 0x1212 1]> (<[12 := LData 0x1313 2]> ∅)))
     (Results 0 0 5 [] 4 1 7 (Some 0) (MatParams 0 0 0 0) 0 0 0 0 0 0)
     (MMem [] [] []) [49; 44; 0; 0]).

Lemma small_world_ok :
  list_ok [(0, 10); (1, 11); (2, 12)] (Some 0) small_world.1 small_world.2 /\
  env_ok small_world.2.
Proof.
  split; [| apply small_env_ok]. constructor.
  - solve_chain.
  - apply (bool_decide_unpack _). vm_compute. exact I.
  - cbn. lia.
  - cbn. lia.
  - intros x Hx. repeat (apply elem_of_cons in Hx as [-> | Hx];
      [by eexists; split; [reflexivity |]; split; [cint_unfold; cbn; lia | reflexivity] |]).
    by apply elem_of_nil in Hx.
  - repeat constructor; eexists _, _; repeat split.
Qed.

Lemma core_bench_list_restores_witness :
  exists crc' e', core_bench_list 1 small_world = Ok crc' (small_world.1, e') /\
    in_u 16 crc' /\ e_datas e' = e_datas small_world.2 /\ env_frame small_world.2 e' /\
    list_ok [(0, 10); (1, 11); (2, 12)] (rlist (e_res e')) small_world.1 e' /\ env_ok e'.
Proof.
  destruct small_world_ok as [Hl He].
  exact (core_bench_list_restores 1 [(0, 10); (1, 11); (2, 12)] small_world.1 small_world.2 Hl He).
Defined.

(** The two checksum loops of [core_bench_list] fold the datum of the
    list's first cell once per cell from [finder] on; the data of the cells
    they visit do not enter the result. *)
Theorem crc_loop_folds_head a n d v finder l retval h e :
  h !! a = Some (LHead n (Some d)) -> e_datas e !! d = Some v ->
  chain h finder l None -> Z.of_nat (length l) < Zpos budget -> in_u 16 retval ->
  crc_loop (Some a) finder retval (h, e) =
    Ok (Nat.iter (length l) (crc16 (data16 v)) retval) (h, e).
Proof.
  intros Ha Hd Hc Hl Hr.
  assert (wp (crc_loop (Some a) finder retval) (fun r w =>
    r = Nat.iter (length l) (crc16 (data16 v)) retval /\ w = (h, e)) (h, e)) as Hw
    by (by apply (wp_crc_loop a n d v finder l)).
  by apply wp_ok in Hw as (r & w & -> & -> & ->).
Qed.

Lemma crc_loop_folds_head_witness :
  crc_loop (Some 0) (Some 1) 7 small_world =
    Ok (crc16 0x1010 (crc16 0x1010 7)) small_world.
Proof.
  apply (crc_loop_folds_head 0 (Some 1) 10 (LData 0x1010 0) (Some 1) [(1, 11); (2, 12)] 7
    small_world.1 small_world.2); [reflexivity | reflexivity | solve_chain | reflexivity |].
  cint_unfold. lia.
Defined.
