(* ===== verification/ListInit.v ===== *)
(** * The list [core_list_init] builds

    The layout of cells and items in the memory block, the list before it is
    sorted, the indices given to the items, and that the result satisfies
    what the list benchmark needs. *)

From Stdlib Require Import ZArith Lia.
From stdpp Require Import base list gmap numbers sorting.
From S2P Require Import Prelude Crc StateMachine StateBench Matrix ListHeap MergeSort.
From S2P Require Import ListBench ListItems ListRestore.

Local Open Scope Z_scope.
Local Open Scope cm_scope.

(** ** The data of the items *)

Lemma init_data_eq seed i : exists dat, 0 <= dat < 128 /\ init_data seed i = 257 * dat.
Proof.
  unfold init_data. set (datpat := Z.land (u16 (Z.lxor (u32 seed) i)) 0xf).
  assert (0 <= datpat < 16) as Hd.
  { unfold datpat. change 0xf with (Z.ones 4). rewrite Z.land_ones by lia.
    apply Z.mod_pos_bound. done. }
  assert (0 <= Z.land i 7 < 8) as Hi.
  { change 7 with (Z.ones 3). rewrite Z.land_ones by lia. apply Z.mod_pos_bound. done. }
  exists (8 * datpat + Z.land i 7). split; [lia |].
  replace (Z.shiftl datpat 3) with (2 ^ 3 * datpat) by (rewrite Z.shiftl_mul_pow2; lia).
  rewrite lor_add by (change (2 ^ 3) with 8; lia). change (2 ^ 3) with 8.
  assert (u16 (8 * datpat + Z.land i 7) = 8 * datpat + Z.land i 7) as -> by cint_lia.
  set (dat := 8 * datpat + Z.land i 7).
  replace (Z.shiftl dat 8) with (2 ^ 8 * dat) by (rewrite Z.shiftl_mul_pow2; lia).
  rewrite lor_add by (change (2 ^ 8) with 256; lia).
  change (2 ^ 8) with 256. cint_lia.
Qed.

Definition item_fine (v : list_data) : Prop := in_s 16 (data16 v) /\ regenerated v.

Lemma init_data_fine seed i k : item_fine (LData (init_data seed i) k).
Proof.
  destruct (init_data_eq seed i) as (dat & Hd & E). unfold item_fine, regenerated. cbn [data16].
  rewrite E. assert (in_s 16 (257 * dat)) as Hs by (cint_unfold; lia).
  split; [done |]. rewrite regen_eq by done. Z.to_euclidean_division_equations; lia.
Qed.

(** ** The list before sorting *)

(** The cells 2 .. n+1, last inserted first, each with the item of the same
    number. *)
Fixpoint inserted (n : nat) : list (Z * Z) :=
  match n with
  | O => []
  | S n' => (2 + Z.of_nat n', 2 + Z.of_nat n') :: inserted n'
  end.

Definition built (n : nat) : list (Z * Z) := (0, 0) :: inserted n ++ [(1, 1)].

Lemma inserted_spec n x : x ∈ inserted n <-> x.1 = x.2 /\ 2 <= x.1 < 2 + Z.of_nat n.
Proof.
  induction n as [| n IH]; cbn [inserted].
  - rewrite elem_of_nil. lia.
  - rewrite elem_of_cons, IH. destruct x as [a d]. cbn. split.
    + intros [[= -> ->] | H]; lia.
    + intros [-> H]. destruct (decide (d = 2 + Z.of_nat n)) as [-> | Hne]; [by left |].
      right. lia.
Qed.

Lemma built_spec n x : x ∈ built n <-> x.1 = x.2 /\ 0 <= x.1 < 2 + Z.of_nat n.
Proof.
  unfold built. rewrite elem_of_cons, elem_of_app, list_elem_of_singleton, inserted_spec.
  destruct x as [a d]. cbn. split.
  - intros [[= -> ->] | [H | [= -> ->]]]; lia.
  - intros [-> H]. destruct (decide (d = 0)) as [-> | H0]; [by left |].
    destruct (decide (d = 1)) as [-> | H1]; [by do 2 right |]. right. left. lia.
Qed.

Lemma built_nodes n a : a ∈ nodes (built n) <-> 0 <= a < 2 + Z.of_nat n.
Proof.
  rewrite list_elem_of_fmap. setoid_rewrite built_spec. split.
  - intros ([b d] & -> & H). cbn in *. lia.
  - intros H. exists (a, a). cbn. lia.
Qed.

Lemma inserted_length n : length (inserted n) = n.
Proof. induction n; cbn; congruence. Qed.

Lemma built_length n : length (built n) = (n + 2)%nat.
Proof. unfold built. cbn. rewrite length_app, inserted_length. cbn. lia. Qed.

Lemma built_nodup n : NoDup (nodes (built n)).
Proof.
  unfold built. cbn. apply list.NoDup_cons. split.
  - rewrite fmap_app, elem_of_app. intros [H | H].
    + apply list_elem_of_fmap in H as (x & E & Hx%inserted_spec). lia.
    + cbn in H. apply list_elem_of_singleton in H. lia.
  - induction n as [| n IH]; cbn; [repeat constructor; by intros ?%elem_of_nil |].
    apply list.NoDup_cons. split; [| done]. rewrite fmap_app, elem_of_app. intros [H | H].
    + apply list_elem_of_fmap in H as (x & E & Hx%inserted_spec). lia.
    + cbn in H. apply list_elem_of_singleton in H. lia.
Qed.

(** ** Building *)
Section build.
Context (size seed : Z) (Hsize : 4 <= size < 2 ^ 31).

(** The number of items between the first and the last. *)
Let N : nat := Z.to_nat (size - 3).

Lemma N_eq : Z.of_nat N = size - 3.
Proof. unfold N. lia. Qed.

(** The arrays hold [size] elements. *)
Definition arrays (s : lstore) : Prop := forall k, 0 <= k < size ->
  is_Some (heads s !! k) /\ is_Some (datas s !! k).

(** The items after [n] insertions; the ones in front of number [m] still
    without index. *)
Definition item_at (m : nat) (j : nat) : list_data :=
  LData (init_data seed (Z.of_nat j))
    (if (j <? m)%nat then 0x7fff else (init_idx size seed (Z.of_nat (N - j))).1).

Definition items_at (n m : nat) (ds : gmap Z list_data) : Prop :=
  ds !! 0 = Some (LData (s16 0x8080) 0) /\ ds !! 1 = Some (LData (s16 0xffff) 0x7fff) /\
  forall j, (j < n)%nat -> ds !! (2 + Z.of_nat j) = Some (item_at m j).

(** Cells and items beyond the ones in use keep what they hold. *)
Definition unused (k : Z) : Prop := k < 0 \/ size - 1 <= k.
Definition keeps_unused (s s' : lstore) : Prop :=
  forall k, unused k -> heads s' !! k = heads s !! k /\ datas s' !! k = datas s !! k.

Lemma keeps_insert s h ds a d c v :
  keeps_unused s (LStore h ds) -> ~ unused a -> ~ unused d ->
  keeps_unused s (LStore (<[a := c]> h) (<[d := v]> ds)).
Proof.
  intros H Ha Hd k Hk. destruct (H k Hk) as [Hh Hds]. cbn [heads datas] in *.
  rewrite !lookup_insert_ne by (intros ->; done). done.
Qed.

Lemma keeps_insert_item s h ds d v :
  keeps_unused s (LStore h ds) -> ~ unused d -> keeps_unused s (LStore h (<[d := v]> ds)).
Proof.
  intros H Hd k Hk. destruct (H k Hk) as [Hh Hds]. cbn [heads datas] in *.
  rewrite lookup_insert_ne by (intros ->; done). done.
Qed.

Lemma keeps_insert_cell s h ds a c :
  keeps_unused s (LStore h ds) -> ~ unused a -> keeps_unused s (LStore (<[a := c]> h) ds).
Proof.
  intros H Ha k Hk. destruct (H k Hk) as [Hh Hds]. cbn [heads datas] in *.
  rewrite lookup_insert_ne by (intros ->; done). done.
Qed.

(** Accesses on the two arrays. *)
Lemma wp_on_heads {A} (m : M (gmap Z list_head) A) (Q : A -> lstore -> Prop) h ds :
  wp (on_heads m) Q (LStore h ds) <-> wp m (fun a h' => Q a (LStore h' ds)) h.
Proof. unfold on_heads. by rewrite wp_zoom. Qed.
Lemma wp_on_datas {A} (m : M (gmap Z list_data) A) (Q : A -> lstore -> Prop) h ds :
  wp (on_datas m) Q (LStore h ds) <-> wp m (fun a ds' => Q a (LStore h ds')) ds.
Proof. unfold on_datas. by rewrite wp_zoom. Qed.

Lemma wp_set_item_idx a n d v k (Q : unit -> lstore -> Prop) h ds :
  h !! a = Some (LHead n (Some d)) -> ds !! d = Some v ->
  wp (set_item_idx (Some a) k) Q (LStore h ds) <->
  Q tt (LStore h (<[d := LData (data16 v) k]> ds)).
Proof.
  intros Ha Hd. unfold set_item_idx. rewrite wp_bind, wp_on_heads. cell_step.
  rewrite wp_bind, wp_on_datas, (wp_get_data _ _ _ _ Hd), wp_on_datas.
  by rewrite (wp_put_data _ _ _ _ _ Hd).
Qed.

(** *** The insertion loop *)

Definition insert_inv (s0 : lstore) (i : Z) (v : Z * Z) (s : lstore) : Prop :=
  exists n, Z.of_nat n = Z.min i (Z.of_nat N) /\ v = (2 + Z.of_nat n, 2 + Z.of_nat n) /\
    arrays s /\ chain (heads s) (Some 0) (built n) None /\ items_at n N (datas s) /\ keeps_unused s0 s.

Lemma insert_step s0 i mb db s : 0 <= i -> insert_inv s0 i (mb, db) s ->
  wp (core_list_insert_new (Some 0) (LData (init_data seed i) 0x7fff) mb db size size)
    (fun r => insert_inv s0 (i + 1) (r.1.2, r.2)) s.
Proof.
  intros Hi (n & Hn & [= -> ->] & Harr & Hc & (H0 & H1 & Hit) & Hk). destruct s as [h ds]. cbn [heads datas] in *.
  destruct (full (2 + Z.of_nat n) (2 + Z.of_nat n) size size) eqn:Hf.
  - rewrite wp_insert_new_full by done. exists n. cbn [fst snd heads datas].
    split_and!; try done. unfold full in Hf. rewrite orb_diag, Z.leb_le in Hf. lia.
  - assert (2 + Z.of_nat n + 1 < size) as Hlt
      by (unfold full in Hf; rewrite orb_diag, Z.leb_gt in Hf; lia).
    destruct (Harr (2 + Z.of_nat n)) as [[c Hcell] [w Hw]]; [lia |]. cbn in Hcell, Hw.
    destruct (chain_insert h (Some 0) [] 0 0 (inserted n ++ [(1, 1)]) None
      (2 + Z.of_nat n) (Some 0) (2 + Z.of_nat n)) as (nx & Ha & Hc'); [done | by apply built_nodup | | done |].
    { pose proof (built_nodes n (2 + Z.of_nat n)) as Hb. unfold built in Hb.
      cbn [app]. rewrite Hb. lia. }
    rewrite (wp_insert_new 0 nx (Some 0) _ _ _ _ _ c w) by (done || lia).
    exists (S n). cbn [fst snd heads datas]. split_and!; [lia | f_equal; lia | | done | |].
    + intros k Hkk. destruct (Harr k Hkk). cbn in *. rewrite !lookup_insert_is_Some'. tauto.
    + split_and!; [by rewrite lookup_insert_ne by lia.. |].
      intros j Hj. destruct (decide (j = n)) as [-> | Hne].
      * rewrite lookup_insert_eq. unfold item_at. rewrite (proj2 (Nat.ltb_lt _ _)) by lia.
        do 3 f_equal. lia.
      * rewrite lookup_insert_ne by lia. apply Hit. lia.
    + apply keeps_insert; [apply keeps_insert_cell; [done |] | |]; unfold unused; lia.
Qed.

(** *** The indexing loop *)

Lemma init_idx_next i : 0 <= i < 2 ^ 31 -> (init_idx size seed i).2 = i + 1.
Proof.
  intros Hi. unfold init_idx. change (2 ^ 31) with 2147483648 in Hi.
  destruct (i <? size / 5); cbn; cint_lia.
Qed.

Lemma items_at_index m ds :
  items_at N (S m) ds -> (m < N)%nat ->
  items_at N m (<[2 + Z.of_nat m := LData (init_data seed (Z.of_nat m))
    (init_idx size seed (Z.of_nat (N - m))).1]> ds).
Proof.
  intros (H0 & H1 & Hit) Hm. split_and!.
  - by rewrite lookup_insert_ne by lia.
  - by rewrite lookup_insert_ne by lia.
  - intros j Hj. destruct (decide (j = m)) as [-> | Hne].
    + rewrite lookup_insert_eq. unfold item_at. by rewrite (proj2 (Nat.ltb_ge _ _)) by lia.
    + rewrite lookup_insert_ne, Hit by lia. unfold item_at.
      destruct (Nat.ltb_spec j (S m)), (Nat.ltb_spec j m); done || lia.
Qed.

Lemma wp_index_loop s0 h ds p (Q : option Z * Z -> lstore -> Prop) :
  chain h p (inserted N ++ [(1, 1)]) None -> items_at N N ds -> keeps_unused s0 (LStore h ds) ->
  (forall r ds', items_at N 0 ds' -> keeps_unused s0 (LStore h ds') -> Q r (LStore h ds')) ->
  wp (index_loop size seed p) Q (LStore h ds).
Proof.
  intros Hc Hit Hk HQ. unfold index_loop.
  apply (wp_while_n (fun m v s => (m <= N)%nat /\ heads s = h /\
    chain h v.1 (inserted m ++ [(1, 1)]) None /\ v.2 = Z.of_nat (N - m) + 1 /\
    items_at N m (datas s) /\ keeps_unused s0 s) _ _ N).
  - split_and!; try done. cbn. lia.
  - pose proof N_eq. budget_lia.
  - intros m [f i] [h1 ds1] (Hm & Eh & Hc1 & Ei & Hit1 & Hk1). cbn [fst snd heads datas] in *.
    subst h1 i. destruct m as [| m]; cbn [inserted app] in Hc1.
    + destruct Hc1 as (-> & n & Hn & Hn'). cbn in Hn'. subst n.
      rewrite wp_bind, wp_on_heads. cell_step. rewrite wp_ret, bool_decide_false by (by intros []).
      by apply HQ.
    + destruct Hc1 as (-> & n & Hn & Hc1). rewrite wp_bind, wp_on_heads. cell_step.
      assert (n <> None) as Hsome.
      { intros ->. apply chain_nil_inv in Hc1 as [[_ ?]%app_nil _]. done. }
      rewrite wp_ret, bool_decide_true by done.
      pose proof Hit1 as (_ & _ & Hj). specialize (Hj m ltac:(lia)).
      pose proof (init_idx_next (Z.of_nat (N - S m) + 1)) as Hnx.
      destruct (init_idx size seed (Z.of_nat (N - S m) + 1)) as [v i] eqn:Ev. cbn in Hnx.
      rewrite wp_bind, (wp_set_item_idx _ _ _ _ _ _ _ _ Hn Hj).
      rewrite wp_bind, wp_on_heads. cell_step. rewrite wp_ret.
      exists m. split; [lia |]. cbn [fst snd heads datas].
      replace (Z.of_nat (N - S m) + 1) with (Z.of_nat (N - m)) in * by lia.
      replace v with (init_idx size seed (Z.of_nat (N - m))).1 by (by rewrite Ev).
      split_and!; [lia | done | done | pose proof N_eq; lia | by apply items_at_index |].
      apply keeps_insert_item; [done |]. unfold unused. pose proof N_eq. lia.
Qed.

Lemma wp_core_list_build (Q : option Z -> lstore -> Prop) s :
  arrays s ->
  (forall h ds, chain h (Some 0) (built N) None -> items_at N 0 ds -> keeps_unused s (LStore h ds) ->
     Q (Some 0) (LStore h ds)) ->
  wp (core_list_build size seed) Q s.
Proof.
  intros Harr HQ. destruct s as [h ds]. pose proof N_eq as HN.
  destruct (Harr 0) as [[c0 H0] [v0 D0]]; [lia |]. destruct (Harr 1) as [[c1 H1] [v1 D1]]; [lia |].
  cbn [heads datas] in *. unfold core_list_build.
  do 2 (rewrite wp_bind, wp_on_heads; cell_step). rewrite insert_insert_eq, wp_bind.
  rewrite (wp_set_item_idx 0 None 0 v0) by (done || by rewrite lookup_insert_eq).
  rewrite wp_bind, wp_on_heads. cell_step. rewrite wp_bind, wp_on_datas.
  rewrite (wp_get_data 0 (LData (data16 v0) 0)) by (by rewrite lookup_insert_eq).
  rewrite wp_bind, wp_on_datas.
  rewrite (wp_put_data 0 (LData (data16 v0) 0)) by (by rewrite lookup_insert_eq).
  rewrite insert_insert_eq, wp_bind. cbn [idx16].
  rewrite (wp_insert_new 0 None (Some 0) _ _ _ _ _ c1 v1); cycle 1.
  { unfold full. rewrite orb_diag. by apply Z.leb_gt; lia. }
  { done. }
  { by rewrite lookup_insert_eq. }
  { by rewrite lookup_insert_ne. }
  { by rewrite lookup_insert_ne. }
  rewrite insert_insert_eq.
  rewrite wp_bind. apply (wp_for_n (insert_inv (LStore h ds))).
  - exists 0%nat. split_and!; [lia | done | | | |].
    + intros k Hk. destruct (Harr k Hk). cbn in *. rewrite !lookup_insert_is_Some'. tauto.
    + cbn. split; [done |]. eexists. split; [by simplify_map_eq |]. split; [done |].
      eexists. split; [by simplify_map_eq |]. done.
    + split_and!; [by simplify_map_eq.. |]. intros j Hj. lia.
    + repeat (apply keeps_insert_cell || apply keeps_insert_item); (done || unfold unused; lia).
  - intros i [mb db] s Hi Hinv. rewrite wp_bind. eapply wp_mono; [apply insert_step; [lia | done] |].
    intros [[r mb'] db'] s' H'. by rewrite wp_ret.
  - intros [mb db] s (n & Hn & _ & _ & Hc & Hit & Hk). destruct s as [h' ds']. cbn [heads datas] in *.
    assert (n = N) as -> by lia. pose proof Hc as (_ & f & Hf & Hc').
    rewrite wp_bind, wp_on_heads. cell_step. rewrite wp_bind.
    apply (wp_index_loop (LStore h ds)); [done | done | done |]. intros r ds'' Hit' Hk'. rewrite wp_ret. by apply HQ.
Qed.

(** The indices given to the items, in list order. *)
Definition init_indices : list Z :=
  0 :: map (fun i => (init_idx size seed (Z.of_nat i)).1) (seq 1 N) ++ [0x7fff].

Lemma inserted_indices ds m :
  items_at N 0 ds -> (m <= N)%nat ->
  (fun x : Z * Z => from_option idx16 0 (ds !! x.2)) <$> inserted m =
  map (fun i => (init_idx size seed (Z.of_nat i)).1) (seq (N - m + 1) m).
Proof.
  intros (_ & _ & Hit). induction m as [| m IH]; intros Hm; [done |].
  cbn [inserted]. rewrite fmap_cons. cbn [seq map snd]. rewrite (Hit m) by lia. cbn [from_option].
  replace (N - S m + 1)%nat with (N - m)%nat by lia. f_equal. rewrite IH by lia.
  do 2 f_equal; lia.
Qed.

Lemma built_indices ds :
  items_at N 0 ds ->
  (fun x : Z * Z => from_option idx16 0 (ds !! x.2)) <$> built N = init_indices.
Proof.
  intros Hit. pose proof Hit as (H0 & H1 & _). unfold built, init_indices.
  rewrite fmap_cons, fmap_app. cbn [snd fmap list_fmap]. rewrite H0, H1. cbn.
  rewrite inserted_indices by (done || lia). by replace (N - N + 1)%nat with 1%nat by lia.
Qed.

(** Every item holds its datum twice. *)
Lemma built_items ds x :
  items_at N 0 ds -> x ∈ built N -> exists v, ds !! x.2 = Some v /\ item_fine v.
Proof.
  intros (H0 & H1 & Hit) [E Hx]%built_spec. destruct x as [a d]. cbn in *. subst a.
  destruct (decide (d = 0)) as [-> | N0].
  { eexists. split; [exact H0 |]. split; [apply swrap_range; lia | reflexivity]. }
  destruct (decide (d = 1)) as [-> | N1].
  { eexists. split; [exact H1 |]. split; [apply swrap_range; lia | reflexivity]. }
  specialize (Hit (Z.to_nat (d - 2)) ltac:(lia)).
  replace (2 + Z.of_nat (Z.to_nat (d - 2))) with d in Hit by lia.
  eexists. split; [exact Hit |]. apply init_data_fine.
Qed.
End build.

(** ** The whole initialisation *)

(** Ascending and pairwise distinct is strictly ascending. *)
Lemma ascending_strict items l e :
  StronglySorted (ord (cmp_idx true) (Comparator0 := cmp_idx_comparator items)
    (fun _ _ => True) e) l ->
  NoDup ((fun x : Z * Z => from_option idx16 0 (e_datas e !! x.2)) <$> l) ->
  StronglySorted (idx_below e) l.
Proof.
  induction 1 as [| x l Hs IH Hx]; intros Hnd; [constructor |].
  apply list.NoDup_cons in Hnd as [Hn Hnd]. constructor; [by apply IH |].
  rewrite list.Forall_forall in *. intros y Hy.
  destruct (Hx y Hy) as (kx & ky & (vx & Hvx & _ & _ & Ex) & (vy & Hvy & _ & _ & Ey) & Hle).
  exists vx, vy. split_and!; [done | done |].
  assert (idx16 vx <> idx16 vy); [| lia]. intros E. apply Hn.
  rewrite Hvx. cbn. rewrite E. apply list_elem_of_fmap. exists y. by rewrite Hvy.
Qed.

Lemma list_size_bounds blksize : 120 <= blksize < 2 ^ 31 -> 4 <= list_size blksize < 2 ^ 31.
Proof. intros Hb. unfold list_size. change (2 ^ 31) with 2147483648 in *. cint_lia. Qed.

Lemma wp_core_list_init blksize seed (Q : option Z -> world -> Prop) h e :
  let size := list_size blksize in
  120 <= blksize < 2 ^ 31 -> arrays size (LStore h (e_datas e)) ->
  NoDup (init_indices size seed) ->
  (forall p h' e' l, list_ok l p h' e' -> l ≡ₚ built (Z.to_nat (size - 3)) ->
     e_res e' = e_res e -> e_mats e' = e_mats e -> e_text e' = e_text e ->
     items_at size seed (Z.to_nat (size - 3)) 0 (e_datas e') ->
     keeps_unused size (LStore h (e_datas e)) (LStore h' (e_datas e')) -> Q p (h', e')) ->
  wp (core_list_init blksize seed) Q (h, e).
Proof.
  intros size Hb Harr Hnd HQ.
  pose proof (list_size_bounds blksize Hb) as Hsize. fold size in Hsize.
  unfold core_list_init. fold size. clearbody size. rewrite wp_bind. unfold on_list. rewrite wp_zoom.
  cbn [fst snd]. apply wp_core_list_build; [done | done |]. intros h1 ds Hc Hit Hkeep.
  cbn [heads datas]. set (e1 := Env ds (e_res e) (e_mats e) (e_text e)).
  set (l0 := built (Z.to_nat (size - 3))) in *.
  assert (length l0 = Z.to_nat (size - 1)) as Hlen by (unfold l0; rewrite built_length; lia).
  assert (forall x, x ∈ l0 -> exists v, ds !! x.2 = Some v /\ item_fine v) as Hfine
    by (intros x; by apply (built_items size seed)).
  apply (wp_core_list_mergesort (cmp_idx true) (Comparator0 := cmp_idx_comparator (l0.*2))
    (fun _ _ => True) l0); [done | done | apply built_nodup | | rewrite Hlen; budget_lia | | apply sorted_trivial |].
  - intros x Hx. cbn [citem cmp_idx_comparator]. by apply list_elem_of_fmap_2.
  - intros a (x & -> & Hx)%list_elem_of_fmap. destruct (Hfine x Hx) as (v & Hv & Hs & _). by exists v.
  - intros l p h2 e2 Hc2 Hp Hag Hinv ((Ho & Hx) & Hr & Hm & Ht) Hs.
    assert (e_datas e2 = ds) as Hds.
    { apply map_eq. intros a. destruct (decide (a ∈ l0.*2)) as [Ha | Ha]; [| by apply Ho].
      apply list_elem_of_fmap in Ha as (x & -> & Hin). destruct (Hfine x Hin) as (v & Hv & Hsv & Hrv).
      destruct (Hx _ v Hv Hsv) as (v' & Hv' & _ & _ & _ & Heq). rewrite Hv', Hv. f_equal. by apply Heq. }
    apply (HQ p h2 e2 l); [| done | done | done | done | by rewrite Hds |].
    2: { intros k Hk. destruct (Hkeep k Hk) as [<- <-]. rewrite Hds. split; [| done]. apply Hag.
         unfold l0. rewrite built_nodes. unfold unused in Hk. lia. }
    constructor.
    + done.
    + rewrite Hp. apply built_nodup.
    + rewrite Hp. lia.
    + rewrite Hp, Hlen. budget_lia.
    + intros x Hxl. rewrite Hds. apply Hfine. by rewrite <- Hp.
    + eapply ascending_strict; [exact Hs |]. rewrite Hp, Hds.
      unfold l0. by rewrite (built_indices size seed Hsize ds Hit).
Qed.

(** The fake head and tail are the ends of the sorted list. *)
Section ends.
Context (size seed : Z) (Hsize : 4 <= size < 2 ^ 31) (Hnd : NoDup (init_indices size seed)).
Let N : nat := Z.to_nat (size - 3).

(** Distinct indices cannot reach that of the tail. *)
Lemma init_idx_range i :
  (1 <= i <= N)%nat -> 0 <= (init_idx size seed (Z.of_nat i)).1 <= 0x7fff.
Proof.
  intros Hi. unfold init_idx. destruct (Z.ltb_spec (Z.of_nat i) (size / 5)) as [Hlt | _]; cbn [fst].
  - destruct (Z.leb_spec (Z.of_nat i) 0x7fff); [cint_lia |]. exfalso.
    apply list.NoDup_cons in Hnd as [_ Hd]. apply NoDup_app in Hd as (_ & Hd & _). apply (Hd 0x7fff); [| by left].
    apply list_elem_of_fmap. exists (Z.to_nat 0x7fff). unfold init_idx.
    rewrite Z2Nat.id by lia. rewrite (proj2 (Z.ltb_lt 0x7fff (size / 5))) by lia. split; [reflexivity |].
    apply elem_of_seq. lia.
  - change 0x3fff with (Z.ones 14). rewrite Z.land_comm, Z.land_ones by lia.
    match goal with |- context [?x mod 2 ^ 14] => pose proof (Z.mod_pos_bound x (2 ^ 14) ltac:(lia)) end.
    cint_lia.
Qed.

Lemma built_range e x vx :
  items_at size seed N 0 (e_datas e) -> x ∈ built N -> e_datas e !! x.2 = Some vx -> 0 <= idx16 vx <= 0x7fff.
Proof.
  intros (H0 & H1 & Hit) [E Hx]%built_spec Hv. destruct x as [a d]. cbn in E, Hx, Hv. subst a.
  destruct (decide (d = 0)) as [-> | N0]; [rewrite H0 in Hv; injection Hv as <-; cbn; lia |].
  destruct (decide (d = 1)) as [-> | N1]; [rewrite H1 in Hv; injection Hv as <-; cbn; lia |].
  specialize (Hit (Z.to_nat (d - 2)) ltac:(lia)). replace (2 + Z.of_nat (Z.to_nat (d - 2))) with d in Hit by lia.
  rewrite Hit in Hv. injection Hv as <-. cbn [idx16 item_at]. apply init_idx_range. lia.
Qed.

Lemma sorted_ends e l :
  items_at size seed N 0 (e_datas e) -> l ≡ₚ built N -> StronglySorted (idx_below e) l ->
  exists mid, l = (0, 0) :: mid ++ [(1, 1)] /\ mid ≡ₚ inserted N.
Proof.
  intros Hit Hp Hs. assert (forall x, x ∈ l -> x ∈ built N) as Hin by (intros x; by rewrite Hp).
  assert ((0, 0) ∈ l /\ (1, 1) ∈ l) as [Hh Ht].
  { rewrite Hp, !built_spec. cbn. lia. }
  pose proof Hit as (H0 & H1 & _).
  destruct l as [| x l]; [by apply not_elem_of_nil in Hh |].
  assert (x = (0, 0)) as ->.
  { apply elem_of_cons in Hh as [| Hh]; [done |]. exfalso.
    apply StronglySorted_inv in Hs as [_ Hx]. rewrite list.Forall_forall in Hx.
    destruct (Hx _ Hh) as (vx & vy & Ex & Ey & Hlt). cbn in Ey. rewrite H0 in Ey. injection Ey as <-. cbn in Hlt.
    pose proof (built_range e x vx Hit (Hin x ltac:(by left)) Ex). lia. }
  apply elem_of_cons in Ht as [| Ht]; [done |].
  destruct l as [| y mid _] using rev_ind; [by apply not_elem_of_nil in Ht |].
  assert (y = (1, 1)) as ->.
  { apply elem_of_app in Ht as [Ht | Ht%list_elem_of_singleton]; [| done]. exfalso.
    apply StronglySorted_inv in Hs as [Hs _]. 
    destruct (StronglySorted_app_1_elem_of _ _ _ (1, 1) y Hs Ht ltac:(by left)) as (vx & vy & Ex & Ey & Hlt). cbn in Ex. rewrite H1 in Ex. injection Ex as <-. cbn in Hlt.
    pose proof (built_range e y vy Hit (Hin y ltac:(right; apply elem_of_app; right; by left)) Ey). lia. }
  exists mid. split; [done |]. unfold built in Hp. apply (inj (cons _)) in Hp.
  by apply (inj (.++ [(1, 1)])) in Hp.
Qed.
End ends.

(** C18: on every block of 120 bytes or more whose cell and item arrays have
    [list_size] elements, when the indices it hands out are pairwise distinct,
    [core_list_init] succeeds without leaving the arrays and returns a list that
    [core_bench_list] restores ([list_ok]): the fake head (cell and item 0),
    the cells 2 to size - 2 in strictly ascending order of their indices, each
    with the item of its number, and the fake tail (cell and item 1).  The items
    hold the constants of head and tail, and item [2 + j] the datum [init_data]
    of [j] and the index [init_idx] of [size - 3 - j].  Cells and items beyond
    size - 2 and the rest of the store are not touched. *)
Theorem core_list_init_builds blksize seed h e :
  let size := list_size blksize in
  120 <= blksize < 2 ^ 31 -> arrays size (LStore h (e_datas e)) ->
  NoDup (init_indices size seed) ->
  exists p h' e' mid, core_list_init blksize seed (h, e) = Ok p (h', e') /\
    list_ok ((0, 0) :: mid ++ [(1, 1)]) p h' e' /\
    (forall x, x ∈ mid <-> x.1 = x.2 /\ 2 <= x.1 <= size - 2) /\
    e_datas e' !! 0 = Some (LData (s16 0x8080) 0) /\
    e_datas e' !! 1 = Some (LData (s16 0xffff) 0x7fff) /\
    (forall j, 0 <= j < size - 3 ->
       e_datas e' !! (2 + j) = Some (LData (init_data seed j) (init_idx size seed (size - 3 - j)).1)) /\
    (forall k, k < 0 \/ size - 1 <= k -> h' !! k = h !! k /\ e_datas e' !! k = e_datas e !! k) /\
    e_res e' = e_res e /\ e_mats e' = e_mats e /\ e_text e' = e_text e.
Proof.
  intros size Hb Harr Hnd. pose proof (list_size_bounds blksize Hb) as Hsize. fold size in Hsize.
  assert (wp (core_list_init blksize seed) (fun p w => exists l, list_ok l p w.1 w.2 /\
    l ≡ₚ built (Z.to_nat (size - 3)) /\ e_res w.2 = e_res e /\ e_mats w.2 = e_mats e /\
    e_text w.2 = e_text e /\ items_at size seed (Z.to_nat (size - 3)) 0 (e_datas w.2) /\
    keeps_unused size (LStore h (e_datas e)) (LStore w.1 (e_datas w.2))) (h, e)) as Hw.
  { apply wp_core_list_init; [done | done | done |]. intros p h' e' l. by exists l. }
  apply wp_ok in Hw as (p & [h' e'] & E & l & Hl & Hp & Hr & Hm & Ht & Hit & Hk).
  cbn [fst snd] in *.
  destruct (sorted_ends size seed Hsize Hnd e' l Hit Hp (lo_sorted _ _ _ _ Hl)) as (mid & -> & Hmid).
  destruct Hit as (H0 & H1 & Hj). exists p, h', e', mid. split_and!; try done.
  - intros x. rewrite Hmid, inserted_spec. lia.
  - intros j Hlt. specialize (Hj (Z.to_nat j) ltac:(lia)). rewrite Z2Nat.id in Hj by lia. rewrite Hj.
    unfold item_at. cbn. rewrite Z2Nat.id by lia. do 4 f_equal. lia.
Qed.

(** The arrays of [n] cells and items, as the block holds them at first. *)
Definition blank_heads (n : nat) : gmap Z list_head :=
  list_to_map (map (fun k => (Z.of_nat k, LHead None None)) (seq 0 n)).
Definition blank_datas (n : nat) : gmap Z list_data :=
  list_to_map (map (fun k => (Z.of_nat k, LData 0 0)) (seq 0 n)).

Lemma blank_lookup {A} (x : A) n k :
  0 <= k < Z.of_nat n ->
  (list_to_map (map (fun k => (Z.of_nat k, x)) (seq 0 n)) : gmap Z A) !! k = Some x.
Proof.
  intros Hk. apply elem_of_list_to_map_1.
  - change (NoDup ((fun k => (Z.of_nat k, x)) <$> seq 0 n).*1).
    rewrite <- list_fmap_compose. apply NoDup_fmap_2; [intros a b; cbn; lia | apply NoDup_seq].
  - apply list_elem_of_In, in_map_iff. exists (Z.to_nat k). rewrite Z2Nat.id by lia.
    split; [done |]. apply in_seq. lia.
Qed.

Lemma blank_arrays n : arrays (Z.of_nat n) (LStore (blank_heads n) (blank_datas n)).
Proof. intros k Hk. cbn. unfold blank_heads, blank_datas. by rewrite !blank_lookup. Qed.

(** The performance run with the memory size of this port: 31 elements, the
    last datum and index written out. *)
Lemma core_list_init_builds_witness :
  exists p h' e' mid,
    core_list_init 666 0x3415 (blank_heads 31, Env (blank_datas 31)
      (e_res small_env) (MMem [] [] []) []) = Ok p (h', e') /\
    list_ok ((0, 0) :: mid ++ [(1, 1)]) p h' e' /\
    e_datas e' !! 29 = Some (LData 0x7373 1) /\ h' !! 30 = Some (LHead None None).
Proof.
  destruct (core_list_init_builds 666 0x3415 (blank_heads 31)
    (Env (blank_datas 31) (e_res small_env) (MMem [] [] []) [])) as (p & h' & e' & mid & E & Hl & _ & _ & _ & Hj & Hk & _).
  - lia.
  - apply (blank_arrays 31).
  - apply (bool_decide_unpack _). vm_compute. exact I.
  - exists p, h', e', mid. split; [exact E |]. split; [exact Hl |]. split.
    + apply (Hj 27). split; [discriminate | reflexivity].
    + rewrite (proj1 (Hk 30 ltac:(right; discriminate))). reflexivity.
Defined.
