(* ===== verification/PortIO.v ===== *)
(** * Console output of core_portme.c

    The UART is a memory-mapped register; what the program prints is the
    sequence of its writes.  [uart_put_unsigned] and [uart_put_signed] format
    numbers, [ee_printf] interprets format strings. *)

From Stdlib Require Import String ZArith Lia.
From stdpp Require Import base list numbers.
From S2P Require Import Prelude.

Local Open Scope Z_scope.
Local Open Scope cm_scope.

(** ** The code *)

(** The registers, by the symbols of link.ld. *)
Inductive mmio_reg := UART_TX_ADDR | TOHOST_ADDR.

#[export] Instance mmio_reg_eq_dec : EqDecision mmio_reg.
Proof. solve_decision. Defined.

(** The writes so far, oldest first. *)
Definition mmio_trace : Type := list (mmio_reg * Z).

Definition mmio_write32 (addr : mmio_reg) (value : Z) : M mmio_trace unit :=
  modify (fun tr => tr ++ [(addr, u32 value)]).

Definition uart_putc (c : Z) : M mmio_trace unit := mmio_write32 UART_TX_ADDR (u8 c).

Definition ch_nl : Z := 10.      (* '\n' *)
Definition ch_cr : Z := 13.      (* '\r' *)
Definition ch_space : Z := 32.   (* ' ' *)
Definition ch_percent : Z := 37. (* '%' *)
Definition ch_neg : Z := 45.     (* '-' *)
Definition ch_zero : Z := 48.    (* '0' *)
Definition ch_nine : Z := 57.    (* '9' *)
Definition ch_a : Z := 97.       (* 'a' *)

(** A C string: its bytes and the terminating NUL. *)
Definition cstr (s : string) : list Z := bytes s ++ [0].

(** [s[p]] *)
Definition char_at {S} (s : list Z) (p : Z) : M S Z := oget OutOfBounds (arr_get s p).

Definition uart_puts (s : list Z) : M mmio_trace unit :=
  let! _ :=
    while (fun p => let! c := char_at s p in ret (truth c))
      (fun p =>
         let! c := char_at s p in
         (if c =? ch_nl then uart_putc ch_cr else ret tt) ;;
         uart_putc c ;;
         ret (p + 1)) 0 in
  ret tt.

(** [(digit < 10u) ? '0' + digit : 'a' + digit - 10u] *)
Definition digit_char (digit : Z) : Z :=
  if digit <? 10 then ch_zero + digit else ch_a + digit - 10.

(** The conversion loop: [buf] and [pos] after it. *)
Definition put_digits (value base : Z) : M mmio_trace (list Z * Z) :=
  let buf := replicate 32 0 in
  if value =? 0 then
    let! buf := oget OutOfBounds (arr_set buf 0 ch_zero) in ret (buf, 1)
  else
    let! (_, buf, pos) :=
      while (fun '(value, _, _) => ret (negb (value =? 0)))
        (fun '(value, buf, pos) =>
           if base =? 0 then fail DivByZero else
           let digit := value mod base in
           let! buf := oget OutOfBounds (arr_set buf pos (digit_char digit)) in
           ret (value / base, buf, pos + 1)) (value, buf, 0) in
    ret (buf, pos).

Definition uart_put_unsigned (value base width pad : Z) : M mmio_trace unit :=
  let! (buf, pos) := put_digits value base in
  let! _ :=
    while (fun width => ret (pos <? width))
      (fun width => uart_putc pad ;; ret (width - 1)) width in
  let! _ :=
    while (fun pos => ret (0 <? pos))
      (fun pos =>
         let pos := pos - 1 in
         let! c := oget OutOfBounds (arr_get buf pos) in
         uart_putc c ;; ret pos) pos in
  ret tt.

Definition uart_put_signed (value width pad : Z) : M mmio_trace unit :=
  let! magnitude :=
    if value <? 0
    then uart_putc ch_neg ;; ret (u32 (u32 (s32 (- (s32 (value + 1)))) + 1))
    else ret (u32 value) in
  uart_put_unsigned magnitude 10 width pad.

(** The variable arguments: 32-bit integers ([int] and [long] alike) and
    string pointers.  Taking one that is not there, or one of the other kind,
    is undefined. *)
Inductive va_arg := VInt (v : Z) | VStr (s : option (list Z)).

Definition take_int (ap : list va_arg) : M mmio_trace (Z * list va_arg) :=
  match ap with VInt v :: ap => ret (v, ap) | _ => fail OutOfBounds end.
Definition take_str (ap : list va_arg) : M mmio_trace (option (list Z) * list va_arg) :=
  match ap with VStr s :: ap => ret (s, ap) | _ => fail OutOfBounds end.

(** [while (( *p >= '0') && ( *p <= '9')) { width = width * 10 + ( *p - '0');
    p++; }] *)
Definition parse_width (fmt : list Z) (p : Z) : M mmio_trace (Z * Z) :=
  while (fun '(p, _) =>
      let! c := char_at fmt p in ret ((ch_zero <=? c) && (c <=? ch_nine)))
    (fun '(p, width) =>
       let! c := char_at fmt p in
       ret (p + 1, s32 (s32 (width * 10) + (c - ch_zero)))) (p, 0).

(** The [switch ( *p)]: the remaining arguments. *)
Definition print_directive (fmt : list Z) (p width pad : Z) (ap : list va_arg)
  : M mmio_trace (list va_arg) :=
  let! c := char_at fmt p in
  if (c =? 100) || (c =? 105) then                        (* 'd', 'i' *)
    let! (v, ap) := take_int ap in
    uart_put_signed (s32 v) width pad ;; ret ap
  else if c =? 117 then                                   (* 'u' *)
    let! (v, ap) := take_int ap in
    uart_put_unsigned (u32 v) 10 width pad ;; ret ap
  else if (c =? 120) || (c =? 88) then                    (* 'x', 'X' *)
    let! (v, ap) := take_int ap in
    uart_put_unsigned (u32 v) 16 width pad ;; ret ap
  else if c =? 99 then                                    (* 'c' *)
    let! (v, ap) := take_int ap in
    uart_putc v ;; ret ap
  else if c =? 115 then                                   (* 's' *)
    let! (s, ap) := take_str ap in
    uart_puts (default (cstr "(null)") s) ;; ret ap
  else
    uart_putc ch_percent ;;
    (if truth c then uart_putc c else ret tt) ;;
    ret ap.

(** One iteration of the [for] loop. *)
Definition printf_body (fmt : list Z) (v : Z * list va_arg)
  : M mmio_trace ((Z * list va_arg) + unit) :=
  let '(p, ap) := v in
  let! c := char_at fmt p in
  if negb (truth c) then ret (inr tt)
  else if negb (c =? ch_percent) then
    (if c =? ch_nl then uart_putc ch_cr else ret tt) ;;
    uart_putc c ;;
    ret (inl (p + 1, ap))
  else
    let p := p + 1 in
    let! c := char_at fmt p in
    if c =? ch_percent then
      uart_putc ch_percent ;; ret (inl (p + 1, ap))
    else
      let '(pad, p) := if c =? ch_zero then (ch_zero, p + 1) else (ch_space, p) in
      let! (p, width) := parse_width fmt p in
      let! c := char_at fmt p in
      let p := if c =? 108 then p + 1 else p in           (* 'l' *)
      let! ap := print_directive fmt p width pad ap in
      ret (inl (p + 1, ap)).

Definition ee_printf (fmt : list Z) (args : list va_arg) : M mmio_trace Z :=
  iter (printf_body fmt) (0, args) ;; ret 0.

(** ** Numerals *)

(** The number written by the digits [ds], most significant first. *)
Definition of_digits (base : Z) (ds : list Z) : Z :=
  fold_left (fun a d => a * base + d) ds 0.

(** [ds] is the numeral of [v]: digits in range, no leading zero. *)
Definition numeral (base v : Z) (ds : list Z) : Prop :=
  Forall (fun d => 0 <= d < base) ds /\ of_digits base ds = v /\
  (ds = [0] \/ exists d ds', ds = d :: ds' /\ d <> 0).

Lemma of_digits_acc base ds a :
  fold_left (fun a d => a * base + d) ds a =
  a * base ^ Z.of_nat (length ds) + of_digits base ds.
Proof.
  unfold of_digits. revert a. induction ds as [| d ds IH]; intros a; cbn [fold_left length].
  - cbn. lia.
  - rewrite IH, (IH (0 * base + d)). rewrite Nat2Z.inj_succ, Z.pow_succ_r by lia. lia.
Qed.

Lemma of_digits_cons base d ds :
  of_digits base (d :: ds) = d * base ^ Z.of_nat (length ds) + of_digits base ds.
Proof. unfold of_digits at 1. cbn [fold_left]. rewrite of_digits_acc. f_equal. Qed.

Lemma of_digits_range base ds :
  0 < base -> Forall (fun d => 0 <= d < base) ds ->
  0 <= of_digits base ds < base ^ Z.of_nat (length ds).
Proof.
  intros Hb. induction 1 as [| d ds Hd Hds IH]; [cbn; lia |].
  rewrite of_digits_cons. cbn [length]. rewrite Nat2Z.inj_succ, Z.pow_succ_r by lia. nia.
Qed.

(** The buffer after the conversion loop. *)
Definition digit_buf (ds : list Z) : list Z :=
  reverse (map digit_char ds) ++ replicate (32 - length ds) 0.

Lemma digit_buf_set ds d :
  (length ds < 32)%nat ->
  arr_set (digit_buf ds) (Z.of_nat (length ds)) (digit_char d) = Some (digit_buf (d :: ds)).
Proof.
  intros Hl. assert (length (reverse (map digit_char ds)) = length ds) as Hr
    by (by rewrite length_reverse, length_map).
  unfold digit_buf. rewrite arr_set_Some.
  - f_equal. rewrite Nat2Z.id. cbn [map length]. rewrite reverse_cons, <- app_assoc.
    rewrite insert_app_r_alt by lia. f_equal. rewrite Hr, Nat.sub_diag.
    by replace (32 - length ds)%nat with (S (32 - S (length ds))) by lia.
  - rewrite length_app, length_replicate, Hr. lia.
Qed.

Lemma wp_put_digits value base (Q : list Z * Z -> mmio_trace -> Prop) tr :
  2 <= base -> 0 <= value < 2 ^ 32 ->
  (forall ds, numeral base value ds -> (1 <= length ds <= 32)%nat ->
     Q (digit_buf ds, Z.of_nat (length ds)) tr) ->
  wp (put_digits value base) Q tr.
Proof.
  intros Hb Hv HQ. unfold put_digits. destruct (Z.eqb_spec value 0) as [-> | Hne].
  - apply (HQ [0]); [| cbn; lia]. split_and!; [| done | by left]. repeat constructor; lia.
  - rewrite wp_bind.
    apply (wp_while (fun '(v, buf, pos) tr' => tr' = tr /\ 0 <= v /\ exists ds,
      buf = digit_buf ds /\ pos = Z.of_nat (length ds) /\ Forall (fun d => 0 <= d < base) ds /\
      value = v * base ^ pos + of_digits base ds /\
      (v = 0 -> exists d ds', ds = d :: ds' /\ d <> 0)) (fun '(v, _, _) _ => v)).
    + split; [done |]. split; [lia |]. exists []. split_and!; try done. cbn. lia.
    + budget_lia.
    + intros [[v buf] pos] tr' (-> & H0 & ds & -> & -> & Hds & E & Hlead). split; [done |].
      rewrite wp_ret. pose proof (of_digits_range base ds ltac:(lia) Hds) as Hr.
      destruct (Z.eqb_spec v 0) as [-> | Hnz]; cbn [negb].
      * rewrite wp_ret. destruct (Hlead eq_refl) as (d & ds' & -> & Hd).
        assert (numeral base value (d :: ds')) as Hnum by (split_and!; [done | lia | eauto]).
        apply HQ; [done |]. split; [cbn; lia |].
        assert (2 ^ Z.of_nat (length ds') <= base ^ Z.of_nat (length ds'))
          by (apply Z.pow_le_mono_l; lia).
        rewrite of_digits_cons in E. apply (Forall_inv (P := fun d => 0 <= d < base)) in Hds as Hd0.
        assert (Z.of_nat (length ds') < 32); [| cbn; lia].
        apply (Z.pow_lt_mono_r_iff 2); [lia | lia |].
        apply Forall_inv_tail in Hds. pose proof (of_digits_range base ds' ltac:(lia) Hds). nia.
      * rewrite (proj2 (Z.eqb_neq base 0)) by lia. rewrite wp_bind, wp_oget.
        assert (2 ^ Z.of_nat (length ds) <= base ^ Z.of_nat (length ds))
          by (apply Z.pow_le_mono_l; lia).
        assert (Z.of_nat (length ds) < 32) as Hl
          by (apply (Z.pow_lt_mono_r_iff 2); [lia | lia |]; nia).
        rewrite digit_buf_set by lia. eexists. split; [done |]. rewrite wp_ret.
        pose proof (Z.div_mod v base ltac:(lia)). pose proof (Z.mod_pos_bound v base ltac:(lia)).
        split; [| apply Z.div_lt; lia]. split; [done |]. split; [apply Z.div_pos; lia |].
        exists (v mod base :: ds). split_and!; [done | cbn [length]; lia | by constructor | |].
        -- rewrite of_digits_cons. rewrite Z.add_1_r, Z.pow_succ_r by lia. nia.
        -- intros Hz. exists (v mod base), ds. split; [done |]. lia.
Qed.

(** ** What is printed *)

(** Bytes sent to the UART. *)
Definition uart (l : list Z) : mmio_trace := map (fun c => (UART_TX_ADDR, c)) l.

Lemma uart_app l1 l2 : uart (l1 ++ l2) = uart l1 ++ uart l2.
Proof. apply map_app. Qed.

Lemma wp_uart_putc c (Q : unit -> mmio_trace -> Prop) tr :
  wp (uart_putc c) Q tr <-> Q tt (tr ++ uart [u8 c]).
Proof.
  unfold uart_putc, mmio_write32. rewrite wp_modify. cbn.
  by assert (u32 (u8 c) = u8 c) as -> by cint_lia.
Qed.

Lemma digit_char_byte base d : base <= 36 -> 0 <= d < base -> u8 (digit_char d) = digit_char d.
Proof.
  intros Hb Hd. unfold digit_char, ch_zero, ch_a. destruct (Z.ltb_spec d 10); cint_lia.
Qed.

(** The padding loop. *)
Lemma wp_pad pos width pad (Q : Z -> mmio_trace -> Prop) tr :
  0 <= pos -> width < Zpos budget ->
  (forall w, Q w (tr ++ uart (replicate (Z.to_nat (width - pos)) (u8 pad)))) ->
  wp (while (fun width => ret (pos <? width))
        (fun width => uart_putc pad ;; ret (width - 1)) width) Q tr.
Proof.
  intros Hp Hw HQ.
  apply (wp_while (fun w tr' => w <= width /\ (pos <= w \/ w = width) /\
    tr' = tr ++ uart (replicate (Z.to_nat (width - w)) (u8 pad)))
    (fun w _ => Z.max 0 (w - pos))).
  - split_and!; [lia | by right |]. by rewrite Z.sub_diag, app_nil_r.
  - lia.
  - intros w tr' (Hle & Hor & ->). split; [lia |]. rewrite wp_ret.
    destruct (Z.ltb_spec pos w).
    + rewrite wp_bind, wp_uart_putc, wp_ret. split; [| lia]. split_and!; [lia | lia |].
      rewrite <- app_assoc, <- uart_app. do 2 f_equal.
      replace (Z.to_nat (width - (w - 1))) with (Z.to_nat (width - w) + 1)%nat by lia.
      by rewrite replicate_add.
    + destruct Hor as [Hle2 | ->].
      * by replace (width - w) with (width - pos) by lia.
      * replace (Z.to_nat (width - pos)) with 0%nat in HQ by lia.
        rewrite Z.sub_diag. apply HQ.
Qed.

(** The emission loop. *)
Lemma wp_emit base ds (Q : Z -> mmio_trace -> Prop) tr :
  base <= 36 -> Forall (fun d => 0 <= d < base) ds -> (length ds <= 32)%nat ->
  (forall p, Q p (tr ++ uart (map digit_char ds))) ->
  wp (while (fun pos => ret (0 <? pos))
        (fun pos => let pos := pos - 1 in
           let! c := oget OutOfBounds (arr_get (digit_buf ds) pos) in
           uart_putc c ;; ret pos) (Z.of_nat (length ds))) Q tr.
Proof.
  intros Hb Hds Hl HQ.
  apply (wp_while (fun pos tr' => exists l1 l2, ds = l1 ++ l2 /\ pos = Z.of_nat (length l2) /\
    tr' = tr ++ uart (map digit_char l1)) (fun pos _ => pos)).
  - exists [], ds. split_and!; [done | done | by rewrite app_nil_r].
  - budget_lia.
  - intros pos tr' (l1 & l2 & E & -> & ->). split; [lia |]. rewrite wp_ret.
    destruct l2 as [| d l2]; cbn [length].
    + rewrite app_nil_r in E. subst l1. apply HQ.
    + rewrite (proj2 (Z.ltb_lt _ _)) by lia. rewrite wp_bind, wp_oget.
      exists (digit_char d). split.
      { replace (Z.of_nat (S (length l2)) - 1) with (Z.of_nat (length l2)) by lia.
        rewrite arr_get_nat. unfold digit_buf. rewrite E, map_app, reverse_app. cbn [map].
        rewrite reverse_cons, <- !app_assoc.
        rewrite lookup_app_r; rewrite length_reverse, length_map; [| lia].
        by rewrite Nat.sub_diag. }
      assert (0 <= d < base) as Hd.
      { rewrite E in Hds. apply Forall_app in Hds as [_ Hds]. by inversion Hds. }
      rewrite wp_bind, wp_uart_putc, wp_ret, (digit_char_byte base) by done.
      split; [| lia]. exists (l1 ++ [d]), l2. rewrite <- app_assoc. split_and!; [done | lia |].
      by rewrite <- app_assoc, <- uart_app, map_app.
Qed.

Lemma wp_uart_put_unsigned value base width pad (Q : unit -> mmio_trace -> Prop) tr :
  2 <= base <= 36 -> 0 <= value < 2 ^ 32 -> width < Zpos budget ->
  (forall ds, numeral base value ds -> (1 <= length ds <= 32)%nat ->
     Q tt (tr ++ uart (replicate (Z.to_nat (width - Z.of_nat (length ds))) (u8 pad) ++
                       map digit_char ds))) ->
  wp (uart_put_unsigned value base width pad) Q tr.
Proof.
  intros Hb Hv Hw HQ. unfold uart_put_unsigned. rewrite wp_bind.
  apply wp_put_digits; [lia | done |]. intros ds Hn Hl.
  rewrite wp_bind. apply wp_pad; [lia | done |]. intros _.
  rewrite wp_bind. apply (wp_emit base); [lia | apply Hn | lia |]. intros _.
  rewrite wp_ret, <- app_assoc, <- uart_app. by apply HQ.
Qed.

Lemma wp_uart_put_signed value width pad (Q : unit -> mmio_trace -> Prop) tr :
  in_s 32 value -> width < Zpos budget ->
  (forall ds, numeral 10 (Z.abs value) ds -> (1 <= length ds <= 32)%nat ->
     Q tt (tr ++ uart ((if value <? 0 then [ch_neg] else []) ++
       replicate (Z.to_nat (width - Z.of_nat (length ds))) (u8 pad) ++ map digit_char ds))) ->
  wp (uart_put_signed value width pad) Q tr.
Proof.
  intros Hv Hw HQ. unfold uart_put_signed. rewrite wp_bind.
  destruct (Z.ltb_spec value 0).
  - rewrite wp_bind, wp_uart_putc, wp_ret.
    assert (u32 (u32 (s32 (- s32 (value + 1))) + 1) = Z.abs value) as -> by cint_lia.
    apply wp_uart_put_unsigned; [lia | cint_unfold; lia | done |]. intros ds Hn Hl.
    rewrite <- app_assoc, <- uart_app. by apply HQ.
  - rewrite wp_ret. assert (u32 value = Z.abs value) as -> by cint_lia.
    apply wp_uart_put_unsigned; [lia | cint_unfold; lia | done |]. intros ds Hn Hl.
    by apply HQ.
Qed.

(** Line ends become CR LF. *)
Definition crlf (l : list Z) : list Z :=
  flat_map (fun c => if c =? ch_nl then [ch_cr; ch_nl] else [c]) l.

Lemma crlf_app l1 l2 : crlf (l1 ++ l2) = crlf l1 ++ crlf l2.
Proof. apply flat_map_app. Qed.

(** The text before the NUL: bytes, none of them zero. *)
Definition text (l : list Z) : Prop := Forall (fun c => 0 < c < 256) l.

Lemma wp_put_text c (Q : unit -> mmio_trace -> Prop) tr :
  0 < c < 256 -> Q tt (tr ++ uart (crlf [c])) ->
  wp ((if c =? ch_nl then uart_putc ch_cr else ret tt) ;; uart_putc c) Q tr.
Proof.
  intros Hc HQ. rewrite wp_bind. assert (u8 c = c) as E by cint_lia. cbn [crlf flat_map] in HQ.
  destruct (Z.eqb_spec c ch_nl) as [-> | Hne]; [rewrite wp_uart_putc | rewrite wp_ret];
    rewrite wp_uart_putc, ?E; [| done]. by rewrite <- app_assoc.
Qed.

Lemma char_at_text {S} l1 c l2 (Q : Z -> S -> Prop) s :
  wp (char_at (l1 ++ c :: l2) (Z.of_nat (length l1))) Q s <-> Q c s.
Proof.
  unfold char_at. rewrite wp_oget, arr_get_nat, list_lookup_middle by done.
  split; [by intros (? & [= <-] & H) | eauto].
Qed.

Lemma wp_uart_puts l (Q : unit -> mmio_trace -> Prop) tr :
  text l -> Z.of_nat (length l) < Zpos budget ->
  Q tt (tr ++ uart (crlf l)) -> wp (uart_puts (l ++ [0])) Q tr.
Proof.
  intros Hl Hlen HQ. unfold uart_puts. rewrite wp_bind.
  apply (wp_while (fun p tr' => exists l1 l2, l = l1 ++ l2 /\ p = Z.of_nat (length l1) /\
    tr' = tr ++ uart (crlf l1)) (fun p _ => Z.of_nat (length l) - p)).
  - exists [], l. split_and!; [done | done | by rewrite app_nil_r].
  - lia.
  - intros p tr' (l1 & l2 & -> & -> & ->). rewrite length_app. split; [lia |].
    rewrite <- app_assoc, wp_bind. destruct l2 as [| c l2]; cbn [app].
    + rewrite char_at_text, wp_ret. cbn. by rewrite app_nil_r in HQ.
    + rewrite char_at_text, wp_ret. unfold text in Hl. apply Forall_app in Hl as [_ Hl].
      apply Forall_inv in Hl. unfold truth. rewrite (proj2 (Z.eqb_neq _ _)) by lia. cbn [negb].
      rewrite wp_bind, char_at_text.
      pose proof (wp_put_text c) as Hput. setoid_rewrite wp_bind in Hput. rewrite wp_bind.
      eapply wp_mono; [by apply (Hput (fun _ tr' => tr' = (tr ++ uart (crlf l1)) ++ uart (crlf [c]))) |].
      intros [] tr1 Hput1. rewrite wp_bind. eapply wp_mono; [exact Hput1 |]. intros [] tr2 ->.
      rewrite wp_ret. cbn [length]. split; [| lia].
      exists (l1 ++ [c]), l2. rewrite <- app_assoc. split_and!; [done | rewrite length_app; cbn; lia |].
      by rewrite <- app_assoc, <- uart_app, <- crlf_app.
Qed.

(** ** The theorems *)

(** Printing an unsigned number.  For every 32-bit value and every base
    from 2 to 36 the conversion stays inside its 32-byte buffer and the UART
    receives the padding up to [width] followed by the numeral of the value:
    digits of the base, most significant first, without leading zeros. *)
Theorem uart_put_unsigned_prints value base width pad tr :
  2 <= base <= 36 -> in_u 32 value -> in_s 32 width ->
  exists ds, numeral base value ds /\ (1 <= length ds <= 32)%nat /\
    uart_put_unsigned value base width pad tr =
      Ok tt (tr ++ uart (replicate (Z.to_nat (width - Z.of_nat (length ds))) (u8 pad) ++
                         map digit_char ds)).
Proof.
  intros Hb Hv Hw.
  assert (wp (uart_put_unsigned value base width pad) (fun _ tr' => exists ds,
    numeral base value ds /\ (1 <= length ds <= 32)%nat /\
    tr' = tr ++ uart (replicate (Z.to_nat (width - Z.of_nat (length ds))) (u8 pad) ++
                      map digit_char ds)) tr) as H.
  { apply wp_uart_put_unsigned; [done | done | cint_unfold; budget_lia |].
    intros ds Hn Hl. by exists ds. }
  apply wp_ok in H as ([] & tr' & E & ds & Hn & Hl & ->). by exists ds.
Qed.

Lemma uart_put_unsigned_prints_witness :
  exists ds, numeral 16 0xe3c1 ds /\ (1 <= length ds <= 32)%nat /\
    uart_put_unsigned 0xe3c1 16 4 ch_zero [] =
      Ok tt ([] ++ uart (replicate (Z.to_nat (4 - Z.of_nat (length ds))) (u8 ch_zero) ++
                         map digit_char ds)).
Proof.
  apply (uart_put_unsigned_prints 0xe3c1 16 4 ch_zero []); [lia | | ]; cint_unfold; lia.
Defined.

(** [ee_printf] reads behind the end of a format string that ends inside
    a directive: after the last character the loop steps over the NUL. *)
Theorem ee_printf_overreads :
  ee_printf (cstr "100%") [] [] = Err OutOfBounds /\
  ee_printf (cstr "%08l") [] [] = Err OutOfBounds.
Proof. split; vm_compute; reflexivity. Qed.
