(* ===== verification/Util.v ===== *)
(** * Seeds and self-checks of core_util.c

    Where the benchmark's parameters come from: the volatile globals of this
    port ([get_seed_32]) or, in the other configurations of the same file, the
    command line ([parseval], [get_seed_args]) or functions of the platform
    ([get_seed_32_func]); and [check_data_types].  The CRCs of core_util.c are
    in Crc. *)

From Stdlib Require Import String ZArith Lia.
From stdpp Require Import base list numbers.
From S2P Require Import Prelude PortIO.

Local Open Scope Z_scope.
Local Open Scope cm_scope.

(** ** The code *)

(** The globals [seed1_volatile] .. [seed5_volatile] of core_portme.c. *)
Record seeds := Seeds { seed1_volatile : Z; seed2_volatile : Z; seed3_volatile : Z;
                        seed4_volatile : Z; seed5_volatile : Z }.

Definition ITERATIONS : Z := 1.
Definition port_seeds : seeds := Seeds 0x3415 0x3415 0x66 ITERATIONS 0.

Definition get_seed_32 (g : seeds) (i : Z) : Z :=
  match i with
  | 1 => seed1_volatile g
  | 2 => seed2_volatile g
  | 3 => seed3_volatile g
  | 4 => seed4_volatile g
  | 5 => seed5_volatile g
  | _ => 0
  end.

(** The variant for [SEED_FUNC]: the seeds come from functions of the
    platform, which are parameters. *)
Section seed_func.
Context {S : Type} (portme_sys1 portme_sys2 portme_sys3 portme_sys4 portme_sys5 : M S Z).

Definition get_seed_32_func (i : Z) : M S Z :=
  match i with
  | 1 => portme_sys1
  | 2 => portme_sys2
  | 3 => portme_sys3
  | 4 => portme_sys4
  | 5 => portme_sys5
  | _ => ret 0
  end.
End seed_func.

(** With functions that read the globals the two variants agree. *)
Lemma get_seed_32_func_volatile {S} (g : seeds) i (s : S) :
  get_seed_32_func (ret (seed1_volatile g)) (ret (seed2_volatile g)) (ret (seed3_volatile g))
    (ret (seed4_volatile g)) (ret (seed5_volatile g)) i s = Ok (get_seed_32 g i) s.
Proof. unfold get_seed_32_func, get_seed_32. by repeat case_match. Qed.

(** The macro [get_seed(x)] of core_main.c. *)
Definition get_seed (g : seeds) (i : Z) : Z := s16 (get_seed_32 g i).

(** *** Command-line seeds *)

Section parse.
Context {S : Type} (valstring : list Z).

Definition is_dec (c : Z) : bool := (ch_zero <=? c) && (c <=? ch_nine).
Definition is_hex (c : Z) : bool := is_dec c || ((ch_a <=? c) && (c <=? 102)).

(** The loops over the digits, from [p] on: [retval] and the final [p]. *)
Definition parse_hex (p : Z) : M S (Z * Z) :=
  while (fun '(_, p) => let! c := char_at valstring p in ret (is_hex c))
    (fun '(retval, p) =>
       let! c := char_at valstring p in
       let digit := c - ch_zero in
       let digit := if 9 <? digit then 10 + c - ch_a else digit in
       let retval := s32 (retval * 16) in
       let retval := s32 (retval + digit) in
       ret (retval, p + 1)) (0, p).

Definition parse_dec (p : Z) : M S (Z * Z) :=
  while (fun '(_, p) => let! c := char_at valstring p in ret (is_dec c))
    (fun '(retval, p) =>
       let! c := char_at valstring p in
       let digit := c - ch_zero in
       let retval := s32 (retval * 10) in
       let retval := s32 (retval + digit) in
       ret (retval, p + 1)) (0, p).

Definition parseval : M S Z :=
  let! c := char_at valstring 0 in
  let '(neg, p) := if c =? ch_neg then (-1, 1) else (1, 0) in
  let! c0 := char_at valstring p in
  let! hexmode :=
    if c0 =? ch_zero then let! c1 := char_at valstring (p + 1) in ret (c1 =? 120)
    else ret false in
  let! (retval, p) := if hexmode : bool then parse_hex (p + 2) else parse_dec p in
  let! c := char_at valstring p in
  let retval := if c =? 75 then s32 (retval * 1024) else retval in          (* 'K' *)
  let retval := if c =? 77 then s32 (retval * (1024 * 1024)) else retval in (* 'M' *)
  ret (s32 (retval * neg)).
End parse.

Definition get_seed_args {S} (i argc : Z) (argv : list (list Z)) : M S Z :=
  if i <? argc then
    let! v := oget OutOfBounds (arr_get argv i) in parseval v
  else ret 0.

(** *** Data types *)

(** The sizes of the types of core_portme.h and of [int *], in bytes. *)
Record sizes := Sizes { sz_ee_u8 : Z; sz_ee_u16 : Z; sz_ee_s16 : Z; sz_ee_s32 : Z;
                        sz_ee_u32 : Z; sz_ee_ptr_int : Z; sz_int_ptr : Z }.

(** The types of this port on rv32. *)
Definition port_sizes : sizes := Sizes 1 2 2 4 4 4 4.

Definition check_size (size expected : Z) (msg : list Z) (retval : Z) : M mmio_trace Z :=
  if negb (size =? expected) then ee_printf msg [] ;; ret (u8 (retval + 1)) else ret retval.

Definition nl : string := String (Ascii.ascii_of_nat 10) EmptyString.

Definition check_data_types (z : sizes) : M mmio_trace Z :=
  let! r := check_size (sz_ee_u8 z) 1
    (cstr ("ERROR: ee_u8 is not an 8b datatype!" ++ nl)) 0 in
  let! r := check_size (sz_ee_u16 z) 2
    (cstr ("ERROR: ee_u16 is not a 16b datatype!" ++ nl)) r in
  let! r := check_size (sz_ee_s16 z) 2
    (cstr ("ERROR: ee_s16 is not a 16b datatype!" ++ nl)) r in
  let! r := check_size (sz_ee_s32 z) 4
    (cstr ("ERROR: ee_s32 is not a 32b datatype!" ++ nl)) r in
  let! r := check_size (sz_ee_u32 z) 4
    (cstr ("ERROR: ee_u32 is not a 32b datatype!" ++ nl)) r in
  let! r := check_size (sz_ee_ptr_int z) (sz_int_ptr z)
    (cstr ("ERROR: ee_ptr_int is not a datatype that holds an int pointer!" ++ nl)) r in
  (if 0 <? r
   then ee_printf (cstr ("ERROR: Please modify the datatypes in core_portme.h!" ++ nl)) [] ;; ret tt
   else ret tt) ;;
  ret r.

(** ** Parsing what was printed *)

Lemma digit_char_dec d : 0 <= d < 10 -> digit_char d = ch_zero + d /\ is_dec (digit_char d) = true.
Proof.
  intros Hd. unfold digit_char. rewrite (proj2 (Z.ltb_lt _ _)) by lia. split; [done |].
  unfold is_dec, ch_zero, ch_nine. rewrite andb_true_iff, !Z.leb_le. lia.
Qed.

(** The value [parse_hex] gives a character. *)
Definition hex_value (c : Z) : Z :=
  if 9 <? c - ch_zero then 10 + c - ch_a else c - ch_zero.

Lemma digit_char_hex d : 0 <= d < 16 -> hex_value (digit_char d) = d /\ is_hex (digit_char d) = true.
Proof.
  intros Hd. unfold digit_char, hex_value, is_hex, is_dec, ch_zero, ch_nine, ch_a.
  destruct (Z.ltb_spec d 10), (Z.ltb_spec 9 (if d <? 10 then 48 + d else 97 + d - 10 - 48));
    split; rewrite ?orb_true_iff, ?andb_true_iff, ?Z.leb_le; repeat case_match; lia.
Qed.

Lemma s32_digit base x d : base = 10 \/ base = 16 ->
  s32 (s32 (s32 x * base) + d) = s32 (x * base + d).
Proof. intros [-> | ->]; cint_lia. Qed.

(** Both digit loops, over a numeral followed by a character that is not a
    digit. *)
Lemma wp_parse_loop {S} base (test : Z -> bool) (value : Z -> Z) pre ds c post
    (Q : Z * Z -> S -> Prop) s :
  base = 10 \/ base = 16 ->
  Forall (fun d => value (digit_char d) = d /\ test (digit_char d) = true) ds ->
  test c = false -> Z.of_nat (length ds) < Zpos budget ->
  Q (s32 (of_digits base ds), Z.of_nat (length pre + length ds)) s ->
  let str := pre ++ map digit_char ds ++ c :: post in
  wp (while (fun '(_, p) => let! c := char_at str p in ret (test c))
        (fun '(retval, p) =>
           let! c := char_at str p in
           ret (s32 (s32 (retval * base) + value c), p + 1))
        (0, Z.of_nat (length pre))) Q s.
Proof.
  intros Hb Hds Hc Hlen HQ str.
  apply (wp_while (fun v s' => s' = s /\ exists l1 l2, ds = l1 ++ l2 /\
    v.1 = s32 (of_digits base l1) /\ v.2 = Z.of_nat (length pre + length l1))
    (fun v _ => Z.of_nat (length pre + length ds) - v.2)).
  - split; [done |]. exists [], ds. split_and!; [done | done | cbn; lia].
  - cbn [snd]. lia.
  - intros [r p] s' (-> & l1 & l2 & E & Er & Ep). cbn [fst snd] in *. subst r p.
    subst ds. rewrite length_app in *. split; [lia |].
    assert (str = (pre ++ map digit_char l1) ++ map digit_char l2 ++ c :: post) as Estr
      by (unfold str; by rewrite map_app, <- !app_assoc).
    assert (length pre + length l1 = length (pre ++ map digit_char l1))%nat as Elen
      by (by rewrite length_app, length_map).
    rewrite wp_bind. rewrite Elen, Estr. destruct l2 as [| d l2]; cbn [map app].
    + rewrite char_at_text, wp_ret, Hc. rewrite <- Elen. cbn [length] in HQ.
      by rewrite app_nil_r, Nat.add_0_r in HQ.
    + apply Forall_app in Hds as [_ Hds]. apply Forall_inv in Hds as [Hv Ht].
      rewrite char_at_text, wp_ret, Ht, wp_bind, char_at_text, wp_ret, Hv.
      cbn [length fst snd]. split; [| lia]. split; [done |]. exists (l1 ++ [d]), l2.
      rewrite <- app_assoc. split_and!; [done | |].
      * rewrite s32_digit by done. unfold of_digits. by rewrite fold_left_app.
      * rewrite !length_app, length_map. cbn [length]. lia.
Qed.

Lemma dec_digits ds : Forall (fun d => 0 <= d < 10) ds ->
  Forall (fun d => digit_char d - ch_zero = d /\ is_dec (digit_char d) = true) ds.
Proof.
  intros H. eapply Forall_impl; [| exact H]. intros d Hd.
  destruct (digit_char_dec d Hd) as [E ?]. split; [lia | done].
Qed.

Lemma hex_digits ds : Forall (fun d => 0 <= d < 16) ds ->
  Forall (fun d => hex_value (digit_char d) = d /\ is_hex (digit_char d) = true) ds.
Proof. intros H. eapply Forall_impl; [| exact H]. apply digit_char_hex. Qed.

(** A numeral does not start like a hexadecimal constant. *)
Lemma numeral_head v ds : numeral 10 v ds -> exists d ds', ds = d :: ds' /\ 0 <= d < 10 /\
  (d = 0 -> ds' = []).
Proof.
  intros (Hds & _ & [-> | (d & ds' & -> & Hd)]).
  - exists 0, []. split_and!; [done | lia | lia | done].
  - exists d, ds'. apply Forall_inv in Hds. split_and!; [done | lia | lia | lia].
Qed.

Lemma wp_parseval_dec {S} v ds (neg : bool) (Q : Z -> S -> Prop) s :
  numeral 10 v ds -> (length ds <= 32)%nat ->
  Q (s32 (s32 v * (if neg then -1 else 1))) s ->
  wp (parseval ((if neg then [ch_neg] else []) ++ map digit_char ds ++ [0])) Q s.
Proof.
  intros Hn Hl HQ. destruct (numeral_head v ds Hn) as (d & ds' & E & Hd & H0).
  destruct Hn as (Hds & Ev & _). destruct (digit_char_dec d Hd) as [Ed Hdec].
  set (pre := if neg then [ch_neg] else []).
  set (str := pre ++ map digit_char ds ++ [0]).
  assert (exists c tl, str = c :: tl /\ (c =? ch_neg) = neg) as (c & tl & Ec & Hneg).
  { unfold str, pre. destruct neg; [by eexists _, _ |]. rewrite E. cbn [map app].
    eexists _, _. split; [done |]. rewrite Ed. unfold ch_zero, ch_neg. apply Z.eqb_neq. lia. }
  unfold parseval. rewrite wp_bind. rewrite Ec. rewrite (char_at_text [] c tl). rewrite <- Ec.
  rewrite Hneg.
  replace (if neg then (-1, 1) else (1, 0))
    with (if neg then -1 else 1, Z.of_nat (length pre)) by (by destruct neg).
  assert (forall R : Z -> S -> Prop,
    wp (char_at str (Z.of_nat (length pre))) R s <-> R (digit_char d) s) as Hfirst
    by (intros R; unfold str; rewrite E; apply char_at_text).
  rewrite wp_bind, Hfirst, wp_bind.
  assert (forall R : bool -> S -> Prop, R false s ->
    wp (if digit_char d =? ch_zero
        then let! c1 := char_at str (Z.of_nat (length pre) + 1) in ret (c1 =? 120)
        else ret false) R s) as Hhex.
  { intros R HR. destruct (Z.eqb_spec (digit_char d) ch_zero) as [E0 |]; [| done].
    rewrite wp_bind. assert (d = 0) as -> by lia. rewrite H0 in E by done. subst ds.
    unfold str. cbn [map]. rewrite (app_assoc pre [digit_char 0] [0]).
    replace (Z.of_nat (length pre) + 1) with (Z.of_nat (length (pre ++ [digit_char 0])))
      by (rewrite length_app; cbn; lia).
    rewrite char_at_text. done. }
  apply Hhex. rewrite wp_bind.
  apply (wp_parse_loop 10 is_dec (fun c => c - ch_zero) pre ds 0 []);
    [by left | by apply dec_digits | done | budget_lia |].
  rewrite wp_bind. unfold str. rewrite app_assoc.
  replace (Z.of_nat (length pre + length ds)) with (Z.of_nat (length (pre ++ map digit_char ds)))
    by (by rewrite length_app, length_map).
  rewrite char_at_text. cbn [Z.eqb]. by rewrite wp_ret, Ev.
Qed.

Lemma wp_parseval_hex {S} v ds (Q : Z -> S -> Prop) s :
  numeral 16 v ds -> (length ds <= 32)%nat -> Q (s32 v) s ->
  wp (parseval (ch_zero :: 120 :: map digit_char ds ++ [0])) Q s.
Proof.
  intros (Hds & Ev & _) Hl HQ. set (str := ch_zero :: 120 :: map digit_char ds ++ [0]).
  assert (forall R : Z -> S -> Prop, wp (char_at str 0) R s <-> R ch_zero s) as H0
    by (intros R; apply (char_at_text [])).
  assert (forall R : Z -> S -> Prop, wp (char_at str (0 + 1)) R s <-> R 120 s) as H1
    by (intros R; apply (char_at_text [ch_zero])).
  unfold parseval. rewrite wp_bind, H0. change (ch_zero =? ch_neg) with false. cbv iota.
  rewrite wp_bind, H0. change (ch_zero =? ch_zero) with true. cbv iota.
  rewrite !wp_bind, H1, wp_ret.
  change (120 =? 120) with true. cbv iota. rewrite wp_bind.
  apply (wp_parse_loop 16 is_hex hex_value [ch_zero; 120] ds 0 []);
    [by right | by apply hex_digits | done | budget_lia |].
  rewrite wp_bind. change str with ([ch_zero; 120] ++ map digit_char ds ++ [0]).
  rewrite app_assoc.
  replace (Z.of_nat (length [ch_zero; 120] + length ds))
    with (Z.of_nat (length ([ch_zero; 120] ++ map digit_char ds)))
    by (by rewrite length_app, length_map).
  rewrite char_at_text. cbn [Z.eqb]. rewrite wp_ret, Ev.
  by replace (s32 (s32 v * 1)) with (s32 v) by cint_lia.
Qed.

(** What the port prints, the seed parser reads back.  For every 32-bit
    signed value [uart_put_signed] (the smallest negative number included)
    sends a text [l] that [parseval] turns into the same value. *)
Theorem print_parse_signed (v : Z) (tr : mmio_trace) :
  in_s 32 v ->
  exists l, uart_put_signed v 0 ch_space tr = Ok tt (tr ++ uart l) /\
    forall S (s : S), parseval (l ++ [0]) s = Ok v s.
Proof.
  intros Hv.
  assert (wp (uart_put_signed v 0 ch_space) (fun _ tr' => exists ds,
    numeral 10 (Z.abs v) ds /\ (length ds <= 32)%nat /\
    tr' = tr ++ uart ((if v <? 0 then [ch_neg] else []) ++ map digit_char ds)) tr) as H.
  { apply wp_uart_put_signed; [done | done |]. intros ds Hn Hl. exists ds.
    replace (Z.to_nat (0 - Z.of_nat (length ds))) with 0%nat by lia. split_and!; [done | lia | done]. }
  apply wp_ok in H as ([] & tr' & E & ds & Hn & Hl & ->).
  eexists. split; [exact E |]. intros S s.
  assert (wp (parseval ((if v <? 0 then [ch_neg] else []) ++ map digit_char ds ++ [0]))
    (fun r s' => r = v /\ s' = s) s) as Hw.
  { apply (wp_parseval_dec (Z.abs v)); [done | done |]. split; [| done].
    destruct (Z.ltb_spec v 0); cint_lia. }
  rewrite <- app_assoc. by apply wp_ok in Hw as (r & s' & -> & -> & ->).
Qed.

Lemma print_parse_signed_witness :
  exists l, uart_put_signed (-2147483648) 0 ch_space [] = Ok tt ([] ++ uart l) /\
    forall S (s : S), parseval (l ++ [0]) s = Ok (-2147483648) s.
Proof. apply (print_parse_signed (-2147483648) []). cint_unfold. lia. Defined.

(** The hexadecimal output of a 32-bit word, behind "0x", is read back as
    the signed word with the same bits. *)
Theorem print_parse_hex (v : Z) (tr : mmio_trace) :
  in_u 32 v ->
  exists l, uart_put_unsigned v 16 0 ch_space tr = Ok tt (tr ++ uart l) /\
    forall S (s : S), parseval (bytes "0x" ++ l ++ [0]) s = Ok (s32 v) s.
Proof.
  intros Hv.
  assert (wp (uart_put_unsigned v 16 0 ch_space) (fun _ tr' => exists ds,
    numeral 16 v ds /\ (length ds <= 32)%nat /\ tr' = tr ++ uart (map digit_char ds)) tr) as H.
  { apply wp_uart_put_unsigned; [lia | done | done |]. intros ds Hn Hl. exists ds.
    replace (Z.to_nat (0 - Z.of_nat (length ds))) with 0%nat by lia. split_and!; [done | lia | done]. }
  apply wp_ok in H as ([] & tr' & E & ds & Hn & Hl & ->).
  eexists. split; [exact E |]. intros S s.
  assert (wp (parseval (ch_zero :: 120 :: map digit_char ds ++ [0]))
    (fun r s' => r = s32 v /\ s' = s) s) as Hw by (by apply (wp_parseval_hex v)).
  change (bytes "0x") with [ch_zero; 120]. cbn [app]. by apply wp_ok in Hw as (r & s' & -> & -> & ->).
Qed.

Lemma print_parse_hex_witness :
  exists l, uart_put_unsigned 0xdeadbeef 16 0 ch_space [] = Ok tt ([] ++ uart l) /\
    forall S (s : S), parseval (bytes "0x" ++ l ++ [0]) s = Ok (s32 0xdeadbeef) s.
Proof. apply (print_parse_hex 0xdeadbeef []). cint_unfold. lia. Defined.
