(* ===== verification/Port.v ===== *)
(** * Timing, start-up and shutdown of core_portme.c

    The cycle and instruction counters, the conversion to seconds, and what
    the program does first ([portable_init]) and last ([portable_fini]). *)

From Stdlib Require Import String ZArith Lia.
From stdpp Require Import base list numbers.
From S2P Require Import Prelude PortMem PortIO Util.

Local Open Scope Z_scope.
Local Open Scope cm_scope.

(** ** The code *)

(** The static variables of core_portme.c, the MMIO writes, and the number of
    times a counter register has been read. *)
Record port := Port {
  trace : mmio_trace;
  t0 : Z; t1 : Z; instret0 : Z; instret1 : Z;
  heap_off : Z;
  reads : nat
}.

Definition on_trace {A} (m : M mmio_trace A) : M port A :=
  zoom trace (fun tr p => Port tr (t0 p) (t1 p) (instret0 p) (instret1 p) (heap_off p) (reads p)) m.

Definition CORE_CLOCK_HZ : Z := 100000000.

Section port.
(** The counters of the processor: the value the [n]-th read of a counter
    register returns, when it reads the cycle or the instret counter. *)
Context (rdcycle rdinstret : nat -> Z).

Definition read_cycle32 : M port Z :=
  let! n := gets reads in
  modify (fun p => Port (trace p) (t0 p) (t1 p) (instret0 p) (instret1 p) (heap_off p) (S n)) ;;
  ret (u32 (rdcycle n)).
Definition read_instret32 : M port Z :=
  let! n := gets reads in
  modify (fun p => Port (trace p) (t0 p) (t1 p) (instret0 p) (instret1 p) (heap_off p) (S n)) ;;
  ret (u32 (rdinstret n)).

Definition start_time : M port unit :=
  let! c := read_cycle32 in
  modify (fun p => Port (trace p) c (t1 p) (instret0 p) (instret1 p) (heap_off p) (reads p)) ;;
  let! i := read_instret32 in
  modify (fun p => Port (trace p) (t0 p) (t1 p) i (instret1 p) (heap_off p) (reads p)).

Definition stop_time : M port unit :=
  let! c := read_cycle32 in
  modify (fun p => Port (trace p) (t0 p) c (instret0 p) (instret1 p) (heap_off p) (reads p)) ;;
  let! i := read_instret32 in
  modify (fun p => Port (trace p) (t0 p) (t1 p) (instret0 p) i (heap_off p) (reads p)).

Definition get_time : M port Z := gets (fun p => u32 (t1 p - t0 p)).

Definition time_in_secs (ticks : Z) : Z :=
  if ticks =? 0 then 0 else u32 (ticks + (CORE_CLOCK_HZ - 1)) / CORE_CLOCK_HZ.

(** The result is what is stored in [p->portable_id], if [p] is not null. *)
Definition portable_init (p_null : bool) : M port (option Z) :=
  modify (fun p => Port (trace p) (t0 p) (t1 p) (instret0 p) (instret1 p) 0 (reads p)) ;;
  let id := if p_null then None else Some 1 in
  on_trace (uart_puts (cstr ("[coremark] UART online, benchmark starting" ++ nl))) ;;
  on_trace (uart_puts (cstr ("[coremark] Timing uses CSR cycle/mcycle" ++ nl))) ;;
  on_trace (uart_puts (cstr "[coremark] Core clock for seconds conversion = ")) ;;
  on_trace (uart_put_unsigned CORE_CLOCK_HZ 10 0 ch_space) ;;
  on_trace (uart_puts (cstr (" Hz" ++ nl))) ;;
  ret id.

(** Instructions per cycle, in units of 1/10000, rounded. *)
Definition ipc (measured_cycles retired_instructions : Z) : Z :=
  if negb (measured_cycles =? 0)
  then u32 (u64 (u64 (retired_instructions * 10000) + measured_cycles / 2) / measured_cycles)
  else 0.

(** Up to the endless loop at its end. *)
Definition portable_fini : M port unit :=
  let! measured_cycles := gets (fun p => u32 (t1 p - t0 p)) in
  let! retired_instructions := gets (fun p => u32 (instret1 p - instret0 p)) in
  let ipc_x10000 := ipc measured_cycles retired_instructions in
  on_trace (uart_puts (cstr "[coremark] Retired instructions = ")) ;;
  on_trace (uart_put_unsigned retired_instructions 10 0 ch_space) ;;
  on_trace (uart_puts (cstr (nl ++ "[coremark] Measured IPC = "))) ;;
  on_trace (uart_put_unsigned (ipc_x10000 / 10000) 10 0 ch_space) ;;
  on_trace (uart_putc 46) ;;                                       (* '.' *)
  on_trace (uart_put_unsigned (ipc_x10000 mod 10000) 10 4 ch_zero) ;;
  on_trace (uart_putc ch_nl) ;;
  on_trace (uart_puts (cstr ("[coremark] Benchmark finished, signaling tohost=1" ++ nl))) ;;
  on_trace (mmio_write32 TOHOST_ADDR 1).
End port.

(** ** Properties *)

(** The elapsed time.  When the counters are the low words of running
    64-bit counters, [start_time]; [stop_time]; [get_time] returns the number
    of cycles between the two reads of the cycle counter, modulo 2^32, even
    when the low word wrapped in between. *)
Theorem get_time_elapsed (cycles instret : nat -> Z) (p : port) :
  exists p', (start_time cycles instret ;; stop_time cycles instret ;; get_time) p =
    Ok (u32 (cycles (reads p + 2)%nat - cycles (reads p))) p' /\
    trace p' = trace p /\ heap_off p' = heap_off p /\ reads p' = (reads p + 4)%nat.
Proof.
  assert (wp (start_time cycles instret ;; stop_time cycles instret ;; get_time)
    (fun r p' => r = u32 (cycles (reads p + 2)%nat - cycles (reads p)) /\
       trace p' = trace p /\ heap_off p' = heap_off p /\ reads p' = (reads p + 4)%nat) p) as H.
  { cbv [wp bind ret gets modify start_time stop_time get_time read_cycle32 read_instret32
         trace t0 t1 instret0 instret1 heap_off reads]. destruct p as [tr a b c d off n].
    split_and!; [| done | done | lia].
    replace (n + 2)%nat with (S (S n)) by lia. cint_lia. }
  apply wp_ok in H as (r & p' & E & -> & H). by exists p'.
Qed.

(** Seconds are ticks divided by the clock frequency, rounded up, for all
    tick counts up to 2^32 - 10^8; so a run counts as zero seconds only when
    no tick passed. *)
Theorem time_in_secs_ceiling ticks :
  0 <= ticks <= 2 ^ 32 - CORE_CLOCK_HZ ->
  let secs := time_in_secs ticks in
  ticks <= secs * CORE_CLOCK_HZ < ticks + CORE_CLOCK_HZ /\ (secs = 0 <-> ticks = 0).
Proof.
  intros Ht secs. unfold secs, time_in_secs, CORE_CLOCK_HZ in *.
  change (2 ^ 32) with 4294967296 in Ht. destruct (Z.eqb_spec ticks 0) as [-> | Hne]; [lia |].
  assert (u32 (ticks + (100000000 - 1)) = ticks + 99999999) as -> by cint_lia.
  split; Z.to_euclidean_division_equations; lia.
Qed.

Lemma time_in_secs_ceiling_witness :
  let secs := time_in_secs 1000000001 in
  1000000001 <= secs * CORE_CLOCK_HZ < 1000000001 + CORE_CLOCK_HZ /\ (secs = 0 <-> 1000000001 = 0).
Proof. apply (time_in_secs_ceiling 1000000001). unfold CORE_CLOCK_HZ. lia. Defined.

(** Beyond that the addition wraps: the longest measurable run, 42.9
    seconds, is converted to 0 seconds, against the stated rounding up. *)
Theorem time_in_secs_wraps : time_in_secs (2 ^ 32 - 1) = 0 /\ time_in_secs (2 ^ 32 - 10 ^ 8 + 1) = 0.
Proof. split; vm_compute; reflexivity. Qed.

(** ** Shutdown *)

(** The port with more MMIO writes behind it. *)
Definition emit (l : mmio_trace) (p : port) : port :=
  Port (trace p ++ l) (t0 p) (t1 p) (instret0 p) (instret1 p) (heap_off p) (reads p).

Lemma emit_emit l1 l2 p : emit l2 (emit l1 p) = emit (l1 ++ l2) p.
Proof. unfold emit. cbn. by rewrite app_assoc. Qed.

Lemma wp_on_trace {A} (m : M mmio_trace A) (Q : A -> port -> Prop) p :
  wp m (fun a tr => exists l, tr = trace p ++ l /\ Q a (emit l p)) (trace p) ->
  wp (on_trace m) Q p.
Proof.
  intros H. unfold on_trace. rewrite wp_zoom. eapply wp_mono; [exact H |].
  by intros a tr (l & -> & HQ).
Qed.

(** String literals are texts. *)
Definition printable (s : string) : bool := forallb (fun c => 0 <? c) (bytes s).

Lemma printable_text s : printable s = true -> text (bytes s).
Proof.
  unfold printable, text, bytes. intros H. apply List.Forall_forall. intros c Hc.
  rewrite forallb_forall in H. pose proof (H c Hc) as H0. apply Z.ltb_lt in H0.
  apply in_map_iff in Hc as (a & <- & _). split; [done |].
  pose proof (Ascii.N_ascii_bounded a). lia.
Qed.

Lemma wp_puts s (Q : unit -> port -> Prop) p :
  printable s = true -> Z.of_nat (length (bytes s)) < Zpos budget ->
  Q tt (emit (uart (crlf (bytes s))) p) -> wp (on_trace (uart_puts (cstr s))) Q p.
Proof.
  intros Hs Hl HQ. apply wp_on_trace, wp_uart_puts; [by apply printable_text | done | by eexists].
Qed.

Lemma wp_put_unsigned value width pad (Q : unit -> port -> Prop) p :
  0 <= value < 2 ^ 32 -> width < Zpos budget ->
  (forall ds, numeral 10 value ds -> (1 <= length ds <= 32)%nat ->
     Q tt (emit (uart (replicate (Z.to_nat (width - Z.of_nat (length ds))) (u8 pad) ++
                       map digit_char ds)) p)) ->
  wp (on_trace (uart_put_unsigned value 10 width pad)) Q p.
Proof.
  intros Hv Hw HQ. apply wp_on_trace, wp_uart_put_unsigned; [lia | done | done |].
  intros ds Hn Hl. eexists. split; [done |]. by apply HQ.
Qed.

Lemma wp_putc c (Q : unit -> port -> Prop) p :
  Q tt (emit (uart [u8 c]) p) -> wp (on_trace (uart_putc c)) Q p.
Proof. intros HQ. apply wp_on_trace, wp_uart_putc. by eexists. Qed.

Lemma numeral_length base v ds k :
  2 <= base -> numeral base v ds -> v < base ^ Z.of_nat k -> (1 <= k)%nat -> (length ds <= k)%nat.
Proof.
  intros Hb (Hds & E & [-> | (d & ds' & -> & Hd)]) Hv Hk; [done |].
  rewrite of_digits_cons in E. apply Forall_inv in Hds as Hd0. apply Forall_inv_tail in Hds.
  pose proof (of_digits_range base ds' ltac:(lia) Hds). cbn [length].
  assert (Z.of_nat (length ds') < Z.of_nat k); [| lia].
  apply (Z.pow_lt_mono_r_iff base); [lia | lia |]. nia.
Qed.

(** The printed ratio is the nearest one. *)
Lemma ipc_nearest c r :
  in_u 32 c -> c <> 0 -> in_u 32 r -> 10000 * r + c / 2 < 2 ^ 32 * c ->
  0 <= ipc c r < 2 ^ 32 /\ 2 * Z.abs (ipc c r * c - 10000 * r) <= c.
Proof.
  intros Hc H0 Hr Hq. unfold ipc. rewrite (proj2 (Z.eqb_neq _ _)) by done. cbn [negb].
  assert (0 < c) as Hpos by (unfold in_u in Hc; lia).
  assert (u64 (r * 10000) = r * 10000) as -> by cint_lia.
  assert (0 <= c / 2 <= c) as Hc2 by (split; [apply Z.div_pos; lia | apply Z.div_le_upper_bound; lia]).
  assert (u64 (r * 10000 + c / 2) = r * 10000 + c / 2) as ->
    by (cint_unfold; rewrite Z.mod_small; lia).
  set (q := (r * 10000 + c / 2) / c).
  assert (0 <= q < 2 ^ 32) as Hq2.
  { split; [apply Z.div_pos; unfold in_u in Hr; lia |].
    apply Z.div_lt_upper_bound; [done |]. lia. }
  assert (u32 q = q) as -> by (by apply uwrap_id). split; [done |].
  pose proof (Z.div_mod (r * 10000 + c / 2) c ltac:(lia)) as E. fold q in E.
  pose proof (Z.mod_pos_bound (r * 10000 + c / 2) c ltac:(lia)).
  pose proof (Z.div_mod c 2 ltac:(lia)). pose proof (Z.mod_pos_bound c 2 ltac:(lia)). nia.
Qed.

(** [portable_fini] reports and stops the simulation.  It prints the
    retired instructions and the instructions per cycle rounded to the
    nearest ten-thousandth, the fraction with exactly four digits, and its
    last action is to write 1 to tohost. *)
Theorem portable_fini_reports p :
  let c := u32 (t1 p - t0 p) in
  let r := u32 (instret1 p - instret0 p) in
  c <> 0 -> 10000 * r + c / 2 < 2 ^ 32 * c ->
  exists q dr di df,
    2 * Z.abs (q * c - 10000 * r) <= c /\ numeral 10 r dr /\ numeral 10 (q / 10000) di /\
    numeral 10 (q mod 10000) df /\ (length df <= 4)%nat /\
    portable_fini p = Ok tt (emit (uart (
      bytes "[coremark] Retired instructions = " ++ map digit_char dr ++
      crlf (bytes (nl ++ "[coremark] Measured IPC = ")) ++ map digit_char di ++ [46] ++
      replicate (4 - length df) ch_zero ++ map digit_char df ++ [ch_nl] ++
      crlf (bytes ("[coremark] Benchmark finished, signaling tohost=1" ++ nl))) ++
      [(TOHOST_ADDR, 1)]) p).
Proof.
  intros c r Hc Hq.
  assert (in_u 32 c /\ in_u 32 r) as [Hcr Hrr] by (split; by apply uwrap_range).
  destruct (ipc_nearest c r Hcr Hc Hrr Hq) as [Hr Hnear]. set (q := ipc c r) in *.
  change (2 ^ 32) with 4294967296 in Hr.
  assert (0 <= q / 10000 < 2 ^ 32) as Hdiv
    by (change (2 ^ 32) with 4294967296; Z.to_euclidean_division_equations; lia).
  assert (0 <= q mod 10000 < 10000) as Hmod by (apply Z.mod_pos_bound; lia).
  enough (wp portable_fini (fun _ p' => exists dr di df,
    numeral 10 r dr /\ numeral 10 (q / 10000) di /\ numeral 10 (q mod 10000) df /\
    (length df <= 4)%nat /\ p' = emit (uart (
      bytes "[coremark] Retired instructions = " ++ map digit_char dr ++
      crlf (bytes (nl ++ "[coremark] Measured IPC = ")) ++ map digit_char di ++ [46] ++
      replicate (4 - length df) ch_zero ++ map digit_char df ++ [ch_nl] ++
      crlf (bytes ("[coremark] Benchmark finished, signaling tohost=1" ++ nl))) ++
      [(TOHOST_ADDR, 1)]) p) p) as H.
  { apply wp_ok in H as ([] & p' & E & dr & di & df & H1 & H2 & H3 & H4 & ->).
    exists q, dr, di, df. split_and!; done. }
  unfold portable_fini. rewrite wp_bind, wp_gets, wp_bind, wp_gets. fold c r. fold q.
  rewrite wp_bind. apply wp_puts; [done | done |].
  rewrite wp_bind. apply wp_put_unsigned; [done | done |]. intros dr Hdr _.
  rewrite wp_bind. apply wp_puts; [done | done |].
  rewrite wp_bind. apply wp_put_unsigned; [done | done |]. intros di Hdi _.
  rewrite wp_bind. apply wp_putc.
  rewrite wp_bind. apply wp_put_unsigned; [lia | done |]. intros df Hdf _.
  rewrite wp_bind. apply wp_putc.
  rewrite wp_bind. apply wp_puts; [done | done |].
  assert (length df <= 4)%nat as H4.
  { apply (numeral_length 10 (q mod 10000)); [lia | done | change (10 ^ Z.of_nat 4) with 10000; lia | lia]. }
  apply wp_on_trace. unfold mmio_write32. rewrite wp_modify. eexists. split; [done |].
  exists dr, di, df. split_and!; [done.. |]. rewrite !emit_emit. f_equal.
  replace (Z.to_nat (0 - Z.of_nat (length dr))) with 0%nat by lia.
  replace (Z.to_nat (0 - Z.of_nat (length di))) with 0%nat by lia.
  replace (Z.to_nat (4 - Z.of_nat (length df))) with (4 - length df)%nat by lia.
  change (replicate 0 (u8 ch_space)) with (@nil Z). rewrite !app_nil_l, !uart_app, <- ?app_assoc.
  reflexivity.
Qed.

(** Counters as after a run of 1000 cycles and 873 instructions. *)
Definition port_after_run : port := Port [] 5 1005 7 880 0 4.

Lemma portable_fini_reports_witness :
  exists q dr di df,
    2 * Z.abs (q * 1000 - 10000 * 873) <= 1000 /\ numeral 10 873 dr /\
    numeral 10 (q / 10000) di /\ numeral 10 (q mod 10000) df /\ (length df <= 4)%nat /\
    portable_fini port_after_run = Ok tt (emit (uart (
      bytes "[coremark] Retired instructions = " ++ map digit_char dr ++
      crlf (bytes (nl ++ "[coremark] Measured IPC = ")) ++ map digit_char di ++ [46] ++
      replicate (4 - length df) ch_zero ++ map digit_char df ++ [ch_nl] ++
      crlf (bytes ("[coremark] Benchmark finished, signaling tohost=1" ++ nl))) ++
      [(TOHOST_ADDR, 1)]) port_after_run).
Proof.
  apply (portable_fini_reports port_after_run); [by vm_compute | vm_compute; reflexivity].
Defined.
