(* ===== verification/Printf.v ===== *)
(** * [ee_printf] against a specification of its format language

    [render] gives the text a format string and its arguments stand for; the
    theorem says [ee_printf] sends exactly that text. *)

From Stdlib Require Import String ZArith Lia.
From stdpp Require Import base list numbers.
From S2P Require Import Prelude PortIO.

Local Open Scope Z_scope.
Local Open Scope cm_scope.

(** ** Specification *)

(** The digits of a number, least significant first, at most [n]. *)
Fixpoint digits_rev (n : nat) (base v : Z) : list Z :=
  match n with
  | O => []
  | S n' => if v =? 0 then [] else v mod base :: digits_rev n' base (v / base)
  end.
Definition digits (base v : Z) : list Z :=
  if v =? 0 then [0] else rev (digits_rev 32 base v).

(** A number, right-aligned in a field. *)
Definition field (width pad : Z) (l : list Z) : list Z :=
  replicate (Z.to_nat (width - Z.of_nat (length l))) pad ++ l.
Definition show_unsigned (base v width pad : Z) : list Z :=
  field width pad (map digit_char (digits base v)).
Definition show_signed (v width pad : Z) : list Z :=
  (if v <? 0 then [ch_neg] else []) ++ show_unsigned 10 (Z.abs v) width pad.

(** The text of one conversion, and the arguments left. *)
Definition show_conv (c width pad : Z) (args : list va_arg) : option (list Z * list va_arg) :=
  if (c =? 100) || (c =? 105) then
    match args with VInt v :: args => Some (show_signed (s32 v) width pad, args) | _ => None end
  else if c =? 117 then
    match args with VInt v :: args => Some (show_unsigned 10 (u32 v) width pad, args) | _ => None end
  else if (c =? 120) || (c =? 88) then
    match args with VInt v :: args => Some (show_unsigned 16 (u32 v) width pad, args) | _ => None end
  else if c =? 99 then
    match args with VInt v :: args => Some ([u8 v], args) | _ => None end
  else if c =? 115 then
    match args with
    | VStr None :: args => Some (bytes "(null)", args)
    | VStr (Some s) :: args => Some (crlf (removelast s), args)
    | _ => None
    end
  else Some ([ch_percent; c], args).

(** The decimal number at the front of [l]. *)
Fixpoint scan_width (w : Z) (l : list Z) : Z * list Z :=
  match l with
  | c :: l' => if (ch_zero <=? c) && (c <=? ch_nine)
               then scan_width (s32 (s32 (w * 10) + (c - ch_zero))) l' else (w, l)
  | [] => (w, [])
  end.

(** Padding character, width, length modifier: what precedes the conversion
    character. *)
Definition scan_flags (l : list Z) : Z * Z * list Z :=
  let '(pad, l) := match l with
                   | c :: l' => if c =? ch_zero then (ch_zero, l') else (ch_space, l)
                   | [] => (ch_space, l)
                   end in
  let '(width, l) := scan_width 0 l in
  let l := match l with c :: l' => if c =? 108 then l' else l | [] => l end in
  (pad, width, l).

(** [None]: the format ends inside a directive, or an argument is missing or
    of the wrong kind.  [n] bounds the length of the format. *)
Fixpoint render (n : nat) (l : list Z) (args : list va_arg) : option (list Z) :=
  match n, l with
  | _, [] => Some []
  | O, _ => None
  | S n', c :: l =>
      if negb (c =? ch_percent) then app (crlf [c]) <$> render n' l args
      else match l with
           | [] => None
           | c :: l' =>
               if c =? ch_percent then cons ch_percent <$> render n' l' args
               else
                 let '(pad, width, l) := scan_flags l in
                 match l with
                 | [] => None
                 | c :: l =>
                     match show_conv c width pad args with
                     | Some (out, args) => app out <$> render n' l args
                     | None => None
                     end
                 end
           end
  end.

(** ** The digits *)

Lemma digits_rev_spec n base v :
  2 <= base -> 0 <= v < 2 ^ Z.of_nat n ->
  Forall (fun d => 0 <= d < base) (digits_rev n base v) /\
  of_digits base (rev (digits_rev n base v)) = v /\
  (v <> 0 -> exists d ds, rev (digits_rev n base v) = d :: ds /\ d <> 0).
Proof.
  intros Hb. revert v. induction n as [| n IH]; intros v Hv; cbn [digits_rev].
  - cbn in Hv. split_and!; [constructor | cbn; lia | lia].
  - destruct (Z.eqb_spec v 0) as [-> | Hne]; [split_and!; [constructor | done | done] |].
    rewrite Nat2Z.inj_succ, Z.pow_succ_r in Hv by lia.
    pose proof (Z.div_mod v base ltac:(lia)). pose proof (Z.mod_pos_bound v base ltac:(lia)).
    assert (0 <= v / base) by (apply Z.div_pos; lia).
    assert (v / base < 2 ^ Z.of_nat n) by nia.
    destruct (IH (v / base)) as (I1 & I2 & I3); [lia |]. cbn [rev].
    split_and!; [by constructor | |].
    + unfold of_digits in *. rewrite fold_left_app, I2. cbn. lia.
    + intros _. destruct (Z.eq_dec (v / base) 0) as [E | E].
      * rewrite E. destruct n; cbn; eexists _, _; (split; [done | lia]).
      * destruct (I3 E) as (d & ds & -> & Hd). by exists d, (ds ++ [v mod base]).
Qed.

Lemma digits_numeral base v : 2 <= base -> 0 <= v < 2 ^ 32 -> numeral base v (digits base v).
Proof.
  intros Hb Hv. unfold digits. destruct (Z.eqb_spec v 0) as [-> | Hne].
  - split_and!; [repeat constructor; lia | done | by left].
  - destruct (digits_rev_spec 32 base v Hb Hv) as (H1 & H2 & H3).
    split_and!; [by apply Forall_rev | done | right; by apply H3].
Qed.

(** Numerals are unique. *)
Lemma of_digits_inj base ds ds' :
  2 <= base -> Forall (fun d => 0 <= d < base) ds -> Forall (fun d => 0 <= d < base) ds' ->
  length ds = length ds' -> of_digits base ds = of_digits base ds' -> ds = ds'.
Proof.
  intros Hb Hds. revert ds'. induction Hds as [| d ds Hd Hds IH]; intros ds' Hds' Hl E;
    destruct Hds' as [| d' ds' Hd' Hds']; try done.
  cbn in Hl. injection Hl as Hl. rewrite !of_digits_cons, Hl in E.
  pose proof (of_digits_range base ds ltac:(lia) Hds) as H1. rewrite Hl in H1.
  pose proof (of_digits_range base ds' ltac:(lia) Hds') as H2.
  assert (d = d') as -> by nia. f_equal. apply IH; [done | done | lia].
Qed.

Lemma numeral_length_lt base v ds ds' :
  2 <= base -> numeral base v ds -> numeral base v ds' -> (length ds <= length ds')%nat.
Proof.
  intros Hb (Hds & E & [-> | (d & t & -> & Hd)]) (Hds' & E' & Hl').
  - destruct Hl' as [-> | (? & ? & -> & _)]; cbn; lia.
  - pose proof (of_digits_range base ds' ltac:(lia) Hds') as Hr.
    rewrite of_digits_cons in E. apply Forall_inv in Hds as Hd0. apply Forall_inv_tail in Hds.
    pose proof (of_digits_range base t ltac:(lia) Hds). cbn [length].
    assert (Z.of_nat (length t) < Z.of_nat (length ds')); [| lia].
    apply (Z.pow_lt_mono_r_iff base); [lia | lia |]. nia.
Qed.

Lemma numeral_unique base v ds :
  2 <= base -> 0 <= v < 2 ^ 32 -> numeral base v ds -> ds = digits base v.
Proof.
  intros Hb Hv Hn. pose proof (digits_numeral base v Hb Hv) as Hd.
  pose proof (numeral_length_lt _ _ _ _ Hb Hn Hd). pose proof (numeral_length_lt _ _ _ _ Hb Hd Hn).
  destruct Hn as (H1 & E1 & _), Hd as (H2 & E2 & _).
  apply (of_digits_inj base); [done | done | done | lia | congruence].
Qed.

Lemma wp_show_unsigned base v width pad (Q : unit -> mmio_trace -> Prop) tr :
  2 <= base <= 36 -> 0 <= v < 2 ^ 32 -> width < Zpos budget -> in_u 8 pad ->
  Q tt (tr ++ uart (show_unsigned base v width pad)) ->
  wp (uart_put_unsigned v base width pad) Q tr.
Proof.
  intros Hb Hv Hw Hp HQ. apply wp_uart_put_unsigned; [done | done | done |].
  intros ds Hn Hl. rewrite (numeral_unique base v ds) by (done || lia).
  assert (u8 pad = pad) as -> by (by apply uwrap_id).
  unfold show_unsigned, field in HQ. by rewrite length_map in HQ.
Qed.

Lemma wp_show_signed v width pad (Q : unit -> mmio_trace -> Prop) tr :
  in_s 32 v -> width < Zpos budget -> in_u 8 pad ->
  Q tt (tr ++ uart (show_signed v width pad)) -> wp (uart_put_signed v width pad) Q tr.
Proof.
  intros Hv Hw Hp HQ. apply wp_uart_put_signed; [done | done |].
  intros ds Hn Hl. rewrite (numeral_unique 10 (Z.abs v) ds) by (done || cint_unfold; lia).
  assert (u8 pad = pad) as -> by (by apply uwrap_id).
  unfold show_signed, show_unsigned, field in HQ. by rewrite length_map in HQ.
Qed.

(** ** The interpreter *)

Lemma scan_width_range w l : in_s 32 w -> in_s 32 (scan_width w l).1.
Proof.
  revert w. induction l as [| c l IH]; intros w Hw; cbn [scan_width]; [done |].
  destruct (_ && _); [| done]. apply IH. apply swrap_range. lia.
Qed.

(** A format with the NUL, read at the position behind [l1]. *)
Definition fmt_at (fmt l1 l2 : list Z) (p : Z) : Prop :=
  fmt = l1 ++ l2 ++ [0] /\ p = Z.of_nat (length l1) /\ text l2 /\
  Z.of_nat (length l2) < Zpos budget.

Lemma fmt_at_char {S} fmt l1 l2 p (Q : Z -> S -> Prop) s :
  fmt_at fmt l1 l2 p -> wp (char_at fmt p) Q s <-> Q (hd 0 l2) s.
Proof.
  intros (-> & -> & _). destruct l2 as [| c l2]; cbn [app hd]; apply char_at_text.
Qed.

Lemma fmt_at_next fmt l1 c l2 p : fmt_at fmt l1 (c :: l2) p -> fmt_at fmt (l1 ++ [c]) l2 (p + 1).
Proof.
  intros (-> & -> & Ht & Hl). split_and!.
  - by rewrite <- app_assoc.
  - rewrite length_app. cbn. lia.
  - by apply Forall_inv_tail in Ht.
  - cbn in Hl. lia.
Qed.

Lemma text_hd c l : text (c :: l) -> 0 < c < 256.
Proof. apply Forall_inv. Qed.

Lemma wp_parse_width fmt l1 l2 p (Q : Z * Z -> mmio_trace -> Prop) tr :
  fmt_at fmt l1 l2 p ->
  (forall l1' p', fmt_at fmt l1' (scan_width 0 l2).2 p' -> Q (p', (scan_width 0 l2).1) tr) ->
  wp (parse_width fmt p) Q tr.
Proof.
  intros Hat HQ. unfold parse_width.
  apply (wp_while_n (fun k v tr' => tr' = tr /\ exists l1' l2', k = length l2' /\
    fmt_at fmt l1' l2' v.1 /\ scan_width v.2 l2' = scan_width 0 l2) _ _ (length l2)).
  - split; [done |]. by exists l1, l2.
  - destruct Hat as (_ & _ & _ & H). lia.
  - clear Hat p. intros k [p w] tr' (-> & l1' & l2' & -> & Hat & E). cbn [fst snd] in *.
    rewrite wp_bind, (fmt_at_char _ _ _ _ _ _ Hat), wp_ret.
    destruct l2' as [| c l2']; cbn [hd].
    + change ((ch_zero <=? 0) && (0 <=? ch_nine)) with false. cbv iota. cbn in E.
      rewrite <- E in HQ. by apply (HQ l1').
    + cbn [scan_width] in E. destruct ((ch_zero <=? c) && (c <=? ch_nine)).
      * rewrite wp_bind, (fmt_at_char _ _ _ _ _ _ Hat), wp_ret. cbn [hd].
        exists (length l2'). split; [cbn; lia |]. split; [done |].
        exists (l1' ++ [c]), l2'. cbn [fst snd]. split_and!; [done | by apply fmt_at_next | done].
      * rewrite <- E in HQ. by apply (HQ l1').
Qed.

(** The string arguments are NUL-terminated texts. *)
Definition arg_ok (a : va_arg) : Prop :=
  match a with
  | VStr (Some s) => exists t, s = t ++ [0] /\ text t /\ Z.of_nat (length t) < Zpos budget
  | _ => True
  end.

(** Take the argument of a directive. *)
Ltac int_arg args Hargs :=
  let Ha := fresh "Ha" in
  destruct args as [| [v | s] args]; try done; apply Forall_cons_iff in Hargs as [Ha Hargs];
  rewrite wp_bind; cbn [take_int take_str]; rewrite wp_ret, wp_bind.

Lemma wp_print_directive fmt l1 c l2 p width pad args out args' 
    (Q : list va_arg -> mmio_trace -> Prop) tr :
  fmt_at fmt l1 (c :: l2) p -> in_s 32 width -> in_u 8 pad -> Forall arg_ok args ->
  show_conv c width pad args = Some (out, args') -> (Forall arg_ok args' -> Q args' (tr ++ uart out)) ->
  wp (print_directive fmt p width pad args) Q tr.
Proof.
  intros Hat Hw Hp Hargs Hs HQ. unfold print_directive, show_conv in *.
  assert (width < Zpos budget) as Hwb by (cint_unfold; budget_lia).
  assert (forall v, 0 <= u32 v < 2 ^ 32) as Hu by (intros v; by apply uwrap_range).
  rewrite wp_bind, (fmt_at_char _ _ _ _ _ _ Hat). cbn [hd].
  destruct Hat as (_ & _ & Ht & _). pose proof (text_hd _ _ Ht) as Hc.
  destruct ((c =? 100) || (c =? 105)).
  { int_arg args Hargs. injection Hs as <- <-.
    apply wp_show_signed; [apply swrap_range; lia | done | done |]. by apply HQ. }
  destruct (c =? 117).
  { int_arg args Hargs. injection Hs as <- <-.
    apply wp_show_unsigned; [lia | apply Hu | done | done |]. by apply HQ. }
  destruct ((c =? 120) || (c =? 88)).
  { int_arg args Hargs. injection Hs as <- <-.
    apply wp_show_unsigned; [lia | apply Hu | done | done |]. by apply HQ. }
  destruct (c =? 99).
  { int_arg args Hargs. injection Hs as <- <-. rewrite wp_uart_putc. by apply HQ. }
  destruct (c =? 115).
  { int_arg args Hargs. destruct s as [s |]; injection Hs as <- <-; cbn [default from_option].
    - destruct Ha as (t & -> & Htx & Hl). apply wp_uart_puts; [done | done |].
      rewrite removelast_last in HQ. by apply HQ.
    - apply (wp_uart_puts (bytes "(null)")); [by repeat constructor | done |]. by apply HQ. }
  injection Hs as <- <-. rewrite wp_bind, wp_uart_putc, wp_bind.
  unfold truth. rewrite (proj2 (Z.eqb_neq c 0)) by lia. cbn [negb].
  rewrite wp_uart_putc, wp_ret, <- app_assoc, <- uart_app.
  assert (u8 c = c) as -> by cint_lia. by apply HQ.
Qed.

Lemma scan_width_length w l : (length (scan_width w l).2 <= length l)%nat.
Proof.
  revert w. induction l as [| c l IH]; intros w; cbn [scan_width]; [done |].
  destruct (_ && _); [| done]. specialize (IH (s32 (s32 (w * 10) + (c - ch_zero)))). cbn. lia.
Qed.

(** Padding, width and length modifier, as the code reads them. *)
Lemma wp_flags fmt l1 l2 p (k : Z -> Z -> Z -> M mmio_trace ((Z * list va_arg) + unit)) Q tr :
  fmt_at fmt l1 l2 p ->
  (forall l1' l3 p' pad width, fmt_at fmt l1' l3 p' -> scan_flags l2 = (pad, width, l3) ->
     in_u 8 pad -> in_s 32 width -> (length l3 <= length l2)%nat -> wp (k p' width pad) Q tr) ->
  wp (let '(pad, p) := if hd 0 l2 =? ch_zero then (ch_zero, p + 1) else (ch_space, p) in
      let! (p, width) := parse_width fmt p in
      let! c := char_at fmt p in
      let p := if c =? 108 then p + 1 else p in
      k p width pad) Q tr.
Proof.
  intros Hat Hk.
  assert (exists pad l3 l1' p', (if hd 0 l2 =? ch_zero then (ch_zero, p + 1) else (ch_space, p)) = (pad, p') /\
    fmt_at fmt l1' l3 p' /\ in_u 8 pad /\ (length l3 <= length l2)%nat /\
    match l2 with c :: l' => if c =? ch_zero then (ch_zero, l') else (ch_space, l2)
                | [] => (ch_space, l2) end = (pad, l3))
    as (pad & l3 & l1' & p' & -> & Hat' & Hpad & Hlen & Epad).
  { destruct l2 as [| c l2]; cbn [hd].
    - exists ch_space, [], l1, p. by split_and!.
    - destruct (c =? ch_zero); [exists ch_zero, l2, (l1 ++ [c]), (p + 1) | exists ch_space, (c :: l2), l1, p];
        split_and!; try done; [by apply fmt_at_next | cbn; lia]. }
  rewrite wp_bind. apply (wp_parse_width _ _ _ _ _ _ Hat'). clear Hat' l1' p'.
  intros l1' p' Hat'. rewrite wp_bind, (fmt_at_char _ _ _ _ _ _ Hat').
  pose proof (scan_width_range 0 l3) as Hwr. pose proof (scan_width_length 0 l3) as Hwl.
  unfold scan_flags in Hk. rewrite Epad in Hk. destruct (scan_width 0 l3) as [w l4].
  cbn [fst snd] in *. assert (in_s 32 w) as Hw by (apply Hwr; cint_unfold; lia).
  destruct l4 as [| c l4]; cbn [hd].
  - apply (Hk l1' []); [done | done | done | done | cbn; lia].
  - destruct (c =? 108).
    + apply (Hk (l1' ++ [c]) l4); [by apply fmt_at_next | done | done | done | cbn in Hwl; lia].
    + apply (Hk l1' (c :: l4)); [done | done | done | done | lia].
Qed.

Definition printf_inv (fmt : list Z) (total : mmio_trace) (k : nat) (v : Z * list va_arg)
    (tr : mmio_trace) : Prop :=
  exists n l1 l2 out, fmt_at fmt l1 l2 v.1 /\ k = length l2 /\ Forall arg_ok v.2 /\
    render n l2 v.2 = Some out /\ tr ++ uart out = total.

Lemma wp_printf_body fmt total k v tr :
  printf_inv fmt total k v tr ->
  wp (printf_body fmt v) (fun r tr' => match r with
    | inl v' => exists k', (k' < k)%nat /\ printf_inv fmt total k' v' tr'
    | inr _ => tr' = total end) tr.
Proof.
  destruct v as [p args]. intros (n & l1 & l2 & out & Hat & -> & Hargs & Hr & <-).
  cbn [fst snd printf_body] in *. rewrite wp_bind, (fmt_at_char _ _ _ _ _ _ Hat).
  destruct l2 as [| c l2]; cbn [hd].
  { change (negb (truth 0)) with true. cbv iota. rewrite wp_ret.
    destruct n; injection Hr as <-; by rewrite app_nil_r. }
  pose proof Hat as (_ & _ & Ht & _). pose proof (text_hd _ _ Ht) as Hc.
  unfold truth. rewrite (proj2 (Z.eqb_neq c 0)) by lia. cbn [negb].
  destruct n as [| n]; [done |]. cbn [render] in Hr. destruct (c =? ch_percent); cbn [negb] in *.
  - apply fmt_at_next in Hat. rewrite wp_bind, (fmt_at_char _ _ _ _ _ _ Hat).
    destruct l2 as [| c2 l2]; [done |]. cbn [hd]. destruct (c2 =? ch_percent) eqn:Hc2.
    + rewrite wp_bind, wp_uart_putc, wp_ret.
      destruct (render n l2 args) as [o |] eqn:Eo; [| done]. injection Hr as <-.
      exists (length l2). split; [cbn; lia |]. exists n, ((l1 ++ [c]) ++ [c2]), l2, o.
      split_and!; [by apply fmt_at_next | done | done | done |].
      by rewrite <- app_assoc, <- uart_app.
    + apply (wp_flags fmt (l1 ++ [c]) (c2 :: l2) (p + 1) (fun p width pad =>
        let! ap := print_directive fmt p width pad args in ret (inl (p + 1, ap)))); [done |].
      intros l1' l3 p' pad width Hat' E Hpad Hw Hl3. rewrite E in Hr.
      destruct l3 as [| c3 l3]; [done |].
      destruct (show_conv c3 width pad args) as [[o args'] |] eqn:Es; [| done].
      destruct (render n l3 args') as [o2 |] eqn:Eo; [| done]. injection Hr as <-.
      rewrite wp_bind. eapply wp_print_directive; [done | done | done | done | done |].
      intros Hargs'. rewrite wp_ret. exists (length l3). split; [cbn in *; lia |].
      exists n, (l1' ++ [c3]), l3, o2. split_and!; [by apply fmt_at_next | done | done | done |].
      by rewrite <- app_assoc, <- uart_app.
  - destruct (render n l2 args) as [o |] eqn:Eo; [| done]. injection Hr as <-.
    pose proof (wp_put_text c) as Hput. setoid_rewrite wp_bind in Hput. rewrite wp_bind.
    eapply wp_mono; [by apply (Hput (fun _ tr' => tr' = tr ++ uart (crlf [c]))) |].
    intros [] tr1 H1. rewrite wp_bind. eapply wp_mono; [exact H1 |]. intros [] tr2 ->.
    rewrite wp_ret. exists (length l2). split; [cbn; lia |].
    exists n, (l1 ++ [c]), l2, o. split_and!; [by apply fmt_at_next | done | done | done |].
    by rewrite <- app_assoc, <- uart_app.
Qed.

Lemma wp_ee_printf l args out (Q : Z -> mmio_trace -> Prop) tr :
  text l -> Z.of_nat (length l) < Zpos budget -> Forall arg_ok args ->
  render (length l) l args = Some out -> Q 0 (tr ++ uart out) ->
  wp (ee_printf (l ++ [0]) args) Q tr.
Proof.
  intros Hl Hlen Hargs Hr HQ. unfold ee_printf. rewrite wp_bind.
  apply (wp_iter_n (printf_inv (l ++ [0]) (tr ++ uart out)) _ (length l)).
  - by exists (length l), [], l, out.
  - done.
  - intros k v tr' Hi. eapply wp_mono; [by apply wp_printf_body |].
    intros [v' | []] tr2 H2; [done |]. by rewrite H2, wp_ret.
Qed.

(** C16: [ee_printf] implements its format language.  For every format string
    that does not end inside a directive and arguments of the kinds it asks
    for, it returns 0 and the UART receives exactly the specified text:
    literal characters with line ends as CR LF, %d %i %u %x %X %c %s %% with
    padding, width and an ignored 'l'; other letters are printed behind the
    percent sign. *)
Theorem ee_printf_renders l args out tr :
  text l -> Z.of_nat (length l) < Zpos budget -> Forall arg_ok args ->
  render (length l) l args = Some out ->
  ee_printf (l ++ [0]) args tr = Ok 0 (tr ++ uart out).
Proof.
  intros Hl Hlen Hargs Hr.
  assert (wp (ee_printf (l ++ [0]) args) (fun r tr' => r = 0 /\ tr' = tr ++ uart out) tr) as Hw
    by (by apply (wp_ee_printf l args out)).
  by apply wp_ok in Hw as (r & tr' & -> & -> & ->).
Qed.

Lemma ee_printf_renders_witness :
  ee_printf (bytes "[%d]crc %s: 0x%04lx, 100%%" ++ [0])
    [VInt (-7); VStr (Some (cstr "list")); VInt 0x3c1] [] =
  Ok 0 ([] ++ uart (bytes "[-7]crc list: 0x03c1, 100%")).
Proof.
  apply (ee_printf_renders (bytes "[%d]crc %s: 0x%04lx, 100%%")
    [VInt (-7); VStr (Some (cstr "list")); VInt 0x3c1]).
  - by repeat constructor.
  - vm_compute. reflexivity.
  - repeat constructor. exists (bytes "list"). split_and!; [done | by repeat constructor | done].
  - vm_compute. reflexivity.
Defined.
