(* ===== verification/MatrixDebug.v ===== *)
(** * The debug output of core_matrix.c

    With [CORE_DEBUG] the matrix benchmark prints its operands and results
    with [printmat] and [printmatC].  Both print a header and one line per
    row; the values of the row are separated by commas. *)

From Stdlib Require Import String ZArith Lia.
From stdpp Require Import base list numbers.
From S2P Require Import Prelude PortIO Printf Util Port Matrix.

Local Open Scope Z_scope.
Local Open Scope cm_scope.

(** ** The code *)

(** The body the two functions share; [X] is the matrix pointed to. *)
Definition print_matrix (X : list Z) (N : Z) (name : list Z) : M mmio_trace unit :=
  ee_printf (cstr ("Matrix %s [%dx%d]:" ++ nl)) [VStr (Some name); VInt N; VInt N] ;;
  for_n (Z.to_nat N) 0 (fun i _ =>
    for_n (Z.to_nat N) 0 (fun j _ =>
      (if negb (j =? 0) then ee_printf (cstr ",") [] ;; ret tt else ret tt) ;;
      let! x := oget OutOfBounds (arr_get X (idx N i j)) in
      ee_printf (cstr "%d") [VInt x] ;; ret tt) tt ;;
    ee_printf (cstr nl) [] ;; ret tt) tt.

Definition printmat (A : list Z) (N : Z) (name : list Z) : M mmio_trace unit :=
  print_matrix A N name.
Definition printmatC (C : list Z) (N : Z) (name : list Z) : M mmio_trace unit :=
  print_matrix C N name.

(** ** What they print *)

Definition ch_comma : Z := 44.

(** The texts of [ts], separated by commas. *)
Definition commas (ts : list (list Z)) : list Z :=
  match ts with [] => [] | t :: ts => t ++ concat (map (cons ch_comma) ts) end.

Definition decimal (x : Z) : list Z := show_signed x 0 ch_space.
(** Row [i] of a matrix kept row by row. *)
Definition row {A} (N i : nat) (X : list A) : list A := take N (drop (i * N) X).
Definition row_line (r : list Z) : list Z := commas (map decimal r) ++ [ch_cr; ch_nl].
Definition header_line (N : Z) (name : list Z) : list Z :=
  bytes "Matrix " ++ crlf name ++ bytes " [" ++ decimal N ++ bytes "x" ++ decimal N ++
  bytes "]:" ++ [ch_cr; ch_nl].

Lemma commas_snoc ts t :
  commas (ts ++ [t]) = commas ts ++ (if (length ts =? 0)%nat then [] else [ch_comma]) ++ t.
Proof.
  destruct ts as [| t0 ts]; cbn; [by rewrite app_nil_r |].
  rewrite map_app, concat_app. cbn. by rewrite app_nil_r, <- !app_assoc.
Qed.

Lemma take_S_row {A} (N i j : nat) (X : list A) x :
  (j < N)%nat -> X !! (i * N + j)%nat = Some x -> take (S j) (row N i X) = take j (row N i X) ++ [x].
Proof.
  intros Hj Hx. apply take_S_r. unfold row.
  rewrite lookup_take, lookup_drop, decide_True by lia. done.
Qed.

Section print.
Context (X : list Z) (N : nat) (name : list Z).
Context (HN : Z.of_nat N < 2 ^ 16) (Hlen : length X = (N * N)%nat).
Context (Hx : Forall (in_s 32) X) (Hname : text name) (Hsz : Z.of_nat (length name) < Zpos budget).

Lemma wp_literal str (Q : unit -> mmio_trace -> Prop) tr :
  printable str = true -> Z.of_nat (length (bytes str)) < Zpos budget ->
  render (length (bytes str)) (bytes str) [] = Some (crlf (bytes str)) ->
  Q tt (tr ++ uart (crlf (bytes str))) ->
  wp (ee_printf (cstr str) [] ;; ret tt) Q tr.
Proof.
  intros Hp Hl Hr HQ. rewrite wp_bind.
  apply (wp_ee_printf (bytes str) [] (crlf (bytes str)));
    [by apply printable_text | done | constructor | done | by rewrite wp_ret].
Qed.

Lemma wp_decimal x (Q : unit -> mmio_trace -> Prop) tr :
  in_s 32 x -> Q tt (tr ++ uart (decimal x)) -> wp (ee_printf (cstr "%d") [VInt x] ;; ret tt) Q tr.
Proof.
  intros Hs HQ. rewrite wp_bind. apply (wp_ee_printf (bytes "%d") [VInt x] (decimal x));
    [by repeat constructor | done | by repeat constructor | | by rewrite wp_ret].
  assert (s32 x = x) as E by (by apply swrap_id).
  change (Some (show_signed (s32 x) 0 ch_space ++ []) = Some (decimal x)). by rewrite E, app_nil_r.
Qed.

Lemma wp_cell i j (Q : unit -> mmio_trace -> Prop) tr :
  (i < N)%nat -> (j < N)%nat ->
  (forall x, X !! (i * N + j)%nat = Some x ->
     Q tt (tr ++ uart ((if (j =? 0)%nat then [] else [ch_comma]) ++ decimal x))) ->
  wp ((if negb (Z.of_nat j =? 0) then ee_printf (cstr ",") [] ;; ret tt else ret tt) ;;
      let! x := oget OutOfBounds (arr_get X (idx (Z.of_nat N) (Z.of_nat i) (Z.of_nat j))) in
      ee_printf (cstr "%d") [VInt x] ;; ret tt) Q tr.
Proof.
  intros Hi Hj HQ.
  assert (exists x, X !! (i * N + j)%nat = Some x) as [x Ex] by (apply lookup_lt_is_Some; nia).
  assert (arr_get X (idx (Z.of_nat N) (Z.of_nat i) (Z.of_nat j)) = Some x) as Eg.
  { rewrite idx_eq by (change (2 ^ 16) with 65536 in *; nia).
    replace (Z.of_nat i * Z.of_nat N + Z.of_nat j) with (Z.of_nat (i * N + j)) by lia.
    by rewrite arr_get_nat. }
  specialize (HQ x Ex). rewrite uart_app, app_assoc in HQ.
  assert (in_s 32 x) as Hs by (eapply Forall_lookup_1; eauto).
  rewrite wp_bind. destruct j as [| j].
  - change (negb (Z.of_nat 0 =? 0)) with false. cbv iota. rewrite wp_ret, wp_bind, Eg, wp_oget. exists x. split; [done |].
    apply wp_decimal; [done |]. by rewrite app_nil_r in HQ.
  - rewrite (proj2 (Z.eqb_neq _ _)) by lia. cbn [negb].
    apply (wp_literal ","); [done | done | done |]. rewrite wp_bind, Eg, wp_oget. exists x.
    split; [done |]. by apply wp_decimal.
Qed.

Definition rows_text (k : nat) : list Z := concat (map (fun i => row_line (row N i X)) (seq 0 k)).

Lemma length_row i : (i < N)%nat -> length (row N i X) = N.
Proof. intros Hi. unfold row. rewrite length_take, length_drop, Hlen. nia. Qed.

Lemma wp_row i (Q : unit -> mmio_trace -> Prop) tr :
  (i < N)%nat -> Q tt (tr ++ uart (row_line (row N i X))) ->
  wp (for_n N 0 (fun j _ =>
      (if negb (j =? 0) then ee_printf (cstr ",") [] ;; ret tt else ret tt) ;;
      let! x := oget OutOfBounds (arr_get X (idx (Z.of_nat N) (Z.of_nat i) j)) in
      ee_printf (cstr "%d") [VInt x] ;; ret tt) tt ;;
    ee_printf (cstr nl) [] ;; ret tt) Q tr.
Proof.
  intros Hi HQ. rewrite wp_bind.
  apply (wp_for_n (fun j _ tr' =>
    tr' = tr ++ uart (commas (map decimal (take (Z.to_nat j) (row N i X)))))).
  - cbn. by rewrite app_nil_r.
  - intros j [] tr' Hj ->. rewrite <- (Z2Nat.id j) by lia.
    apply wp_cell; [done | lia |]. intros x Ex. rewrite <- app_assoc, <- uart_app.
    rewrite Nat2Z.id. replace (Z.to_nat (Z.of_nat (Z.to_nat j) + 1)) with (S (Z.to_nat j)) by lia.
    rewrite (take_S_row N i _ X x), map_app by (lia || done). cbn [map]. rewrite commas_snoc.
    rewrite length_map, length_take, length_row by done.
    by replace (Z.to_nat j `min` N)%nat with (Z.to_nat j) by lia.
  - intros [] tr' ->. apply (wp_literal nl); [done | done | done |].
    rewrite Z.add_0_l, Nat2Z.id, take_ge by (rewrite length_row; lia).
    by rewrite <- app_assoc, <- uart_app.
Qed.

Lemma render_header :
  render (length (bytes ("Matrix %s [%dx%d]:" ++ nl))) (bytes ("Matrix %s [%dx%d]:" ++ nl))
    [VStr (Some (name ++ [0])); VInt (Z.of_nat N); VInt (Z.of_nat N)] =
  Some (header_line (Z.of_nat N) name).
Proof.
  assert (s32 (Z.of_nat N) = Z.of_nat N) as E.
  { apply swrap_id; [done |]. unfold in_s. change (2 ^ 16) with 65536 in *. cbn. lia. }
  change (Some (bytes "Matrix " ++ crlf (removelast (name ++ [0])) ++ bytes " [" ++
    show_signed (s32 (Z.of_nat N)) 0 ch_space ++ bytes "x" ++
    show_signed (s32 (Z.of_nat N)) 0 ch_space ++ bytes "]:" ++ [ch_cr; ch_nl]) =
    Some (header_line (Z.of_nat N) name)).
  by rewrite E, removelast_last.
Qed.

Lemma wp_print_matrix (Q : unit -> mmio_trace -> Prop) tr :
  Q tt (tr ++ uart (header_line (Z.of_nat N) name ++ rows_text N)) ->
  wp (print_matrix X (Z.of_nat N) (name ++ [0])) Q tr.
Proof.
  intros HQ. unfold print_matrix. rewrite wp_bind.
  eapply (wp_ee_printf _ _ _ _ _ (printable_text ("Matrix %s [%dx%d]:" ++ nl) eq_refl) eq_refl).
  - constructor; [by exists name | by repeat constructor].
  - exact render_header.
  - rewrite Nat2Z.id.
    apply (wp_for_n (fun i _ tr' =>
      tr' = (tr ++ uart (header_line (Z.of_nat N) name)) ++ uart (rows_text (Z.to_nat i)))).
    + by rewrite app_nil_r.
    + intros i [] tr' Hi ->. rewrite <- (Z2Nat.id i) by lia. apply wp_row; [lia |].
      rewrite <- app_assoc, <- uart_app, Nat2Z.id.
      replace (Z.to_nat (Z.of_nat (Z.to_nat i) + 1)) with (S (Z.to_nat i)) by lia.
      unfold rows_text. rewrite seq_S, map_app, concat_app. cbn [map concat].
      by rewrite app_nil_r.
    + intros [] tr' ->. rewrite Z.add_0_l, Nat2Z.id, <- app_assoc, <- uart_app. exact HQ.
Qed.

(** The debug output of a matrix of [MATDAT] or of [MATRES]: a header with
    the name and the dimension, then line [i] holds row [i] in decimal, values
    separated by commas; nothing else is printed. *)
Theorem printmat_prints tr :
  printmat X (Z.of_nat N) (name ++ [0]) tr =
    Ok tt (tr ++ uart (header_line (Z.of_nat N) name ++ rows_text N)) /\
  printmatC X (Z.of_nat N) (name ++ [0]) tr =
    Ok tt (tr ++ uart (header_line (Z.of_nat N) name ++ rows_text N)).
Proof.
  assert (wp (print_matrix X (Z.of_nat N) (name ++ [0])) (fun _ tr' =>
    tr' = tr ++ uart (header_line (Z.of_nat N) name ++ rows_text N)) tr) as Hw
    by (by apply wp_print_matrix).
  apply wp_ok in Hw as ([] & tr' & E & ->). done.
Qed.
End print.

Example printmat_demo :
  printmat [1; -2; 3; 40] 2 (cstr "matrix A") [] =
  Ok tt (uart (crlf (bytes ("Matrix matrix A [2x2]:" ++ nl ++ "1,-2" ++ nl ++ "3,40" ++ nl)))).
Proof. vm_compute. reflexivity. Qed.
