(* ===== verification/HostPrintf.v ===== *)
(** * The hosted printf of the simulation harnesses

    sim_main.cpp and cbp_rtl_interface.cc run on the host and print with the
    C library's printf.  [cprintf] is the part of it they use: the conversions
    d, u, x, s, f and %, zero padding, width, precision and the length
    modifiers l and ll.  [None] is a format that does not fit its arguments,
    which the C standard leaves undefined.  Doubles are IEEE binary64 values in
    the Standard Library's exact representation; a conversion with [p] decimals
    rounds the exact value to nearest, ties to even, as the C library does. *)

From Stdlib Require Import String ZArith Lia.
From Stdlib Require Import SpecFloat.
From stdpp Require Import base list numbers.
From S2P Require Import Prelude PortIO Printf.

Local Open Scope Z_scope.

(** ** Doubles *)

Definition double : Type := spec_float.
Definition dbl_of_Z (z : Z) : double := binary_normalize 53 1024 z 0 false.
Definition dbl_div (x y : double) : double := SFdiv 53 1024 x y.
Definition dbl_mul (x y : double) : double := SFmul 53 1024 x y.

(** [n / d] rounded to the nearest integer, ties to even, for [n >= 0]. *)
Definition div_half_even (n d : Z) : Z :=
  let q := n / d in let r := n mod d in
  if (2 * r <? d) || ((2 * r =? d) && Z.even q) then q else q + 1.

Definition decimal (v : Z) : list Z :=
  if v =? 0 then [ch_zero]
  else map digit_char (rev (digits_rev (Z.to_nat (Z.log2 v) + 1) 10 v)).

Definition show_fixed (prec : Z) (scaled : Z) : list Z :=
  decimal (scaled / 10 ^ prec) ++
  (if prec =? 0 then [] else bytes "." ++ field prec ch_zero (decimal (scaled mod 10 ^ prec))).

Definition show_double (prec : Z) (x : double) : list Z :=
  let sign (s : bool) := if s then [ch_neg] else [] in
  match x with
  | S754_zero s => sign s ++ show_fixed prec 0
  | S754_infinity s => sign s ++ bytes "inf"
  | S754_nan => bytes "nan"
  | S754_finite s m e =>
      sign s ++ show_fixed prec
        (if 0 <=? e then Zpos m * 2 ^ e * 10 ^ prec
         else div_half_even (Zpos m * 10 ^ prec) (2 ^ (- e)))
  end.

(** ** Formats *)

Inductive harg := HInt (v : Z) | HStr (s : list Z) | HDbl (x : double).

Inductive hkind := KInt | KStr | KDbl.
Definition kind (a : harg) : hkind :=
  match a with HInt _ => KInt | HStr _ => KStr | HDbl _ => KDbl end.

(** A directive between the percent sign and the conversion character. *)
Record hspec := HSpec { h_pad : Z; h_width : Z; h_prec : option Z; h_long : bool }.

Definition scan_prec (l : list Z) : option Z * list Z :=
  match l with
  | c :: l' => if c =? 46 then let '(p, l) := scan_width 0 l' in (Some p, l) else (None, l)
  | [] => (None, [])
  end.

(** [l] leaves an int as it is on the 32-bit conversions used here; [ll] is
    64-bit. *)
Definition scan_long (l : list Z) : bool * list Z :=
  match l with
  | c1 :: c2 :: l' => if (c1 =? 108) && (c2 =? 108) then (true, l') else (false, l)
  | _ => (false, l)
  end.

Definition scan_hspec (l : list Z) : hspec * list Z :=
  let '(pad, l) := match l with
                   | c :: l' => if c =? ch_zero then (ch_zero, l') else (ch_space, l)
                   | [] => (ch_space, l)
                   end in
  let '(width, l) := scan_width 0 l in
  let '(prec, l) := scan_prec l in
  let '(long, l) := scan_long l in
  (HSpec pad width prec long, l).

Definition hconv (c : Z) (s : hspec) (a : harg) : option (list Z) :=
  match a with
  | HInt v =>
      if c =? 100 then
        let v := if h_long s then s64 v else s32 v in Some (show_signed v (h_width s) (h_pad s))
      else if c =? 117 then
        let v := if h_long s then u64 v else u32 v in Some (show_unsigned 10 v (h_width s) (h_pad s))
      else if c =? 120 then
        let v := if h_long s then u64 v else u32 v in Some (show_unsigned 16 v (h_width s) (h_pad s))
      else None
  | HStr t => if c =? 115 then Some (field (h_width s) ch_space t) else None
  | HDbl x =>
      if c =? 102
      then Some (field (h_width s) (h_pad s) (show_double (default 6 (h_prec s)) x)) else None
  end.

Fixpoint hformat (n : nat) (l : list Z) (args : list harg) : option (list Z) :=
  match n, l with
  | _, [] => Some []
  | O, _ => None
  | S n', c :: l =>
      if negb (c =? ch_percent) then cons c <$> hformat n' l args
      else match l with
           | [] => None
           | c :: l' =>
               if c =? ch_percent then cons ch_percent <$> hformat n' l' args
               else
                 let '(s, l) := scan_hspec l in
                 match l, args with
                 | c :: l, a :: args =>
                     match hconv c s a, hformat n' l args with
                     | Some t, Some t' => Some (t ++ t')
                     | _, _ => None
                     end
                 | _, _ => None
                 end
           end
  end.

Definition cprintf (fmt : string) (args : list harg) : option (list Z) :=
  hformat (String.length fmt) (bytes fmt) args.

(** ** Formats that fit *)

Definition conv_fits (c : Z) (k : hkind) : bool :=
  match k with
  | KInt => (c =? 100) || (c =? 117) || (c =? 120)
  | KStr => c =? 115
  | KDbl => c =? 102
  end.

Fixpoint hfits (n : nat) (l : list Z) (ks : list hkind) : bool :=
  match n, l with
  | _, [] => true
  | O, _ => false
  | S n', c :: l =>
      if negb (c =? ch_percent) then hfits n' l ks
      else match l with
           | [] => false
           | c :: l' =>
               if c =? ch_percent then hfits n' l' ks
               else match (scan_hspec l).2, ks with
                    | c :: l, k :: ks => conv_fits c k && hfits n' l ks
                    | _, _ => false
                    end
           end
  end.

Lemma conv_fits_hconv c s a : conv_fits c (kind a) = true -> is_Some (hconv c s a).
Proof.
  destruct a as [v | t | x]; cbn; [| by intros -> | by intros ->].
  destruct (c =? 100), (c =? 117), (c =? 120); cbn; try done; eauto.
Qed.

Lemma hfits_hformat n l args : hfits n l (kind <$> args) = true -> is_Some (hformat n l args).
Proof.
  revert l args. induction n as [| n IH]; intros [| c l] args H; cbn [hfits hformat] in *;
    try done; try (by eexists).
  destruct (c =? ch_percent); cbn [negb] in *.
  - destruct l as [| c2 l]; [done |]. destruct (c2 =? ch_percent).
    + destruct (IH _ _ H) as [o ->]. by eexists.
    + destruct (scan_hspec (c2 :: l)) as [s [| c3 l3]]; cbn [snd] in *; [done |].
      destruct args as [| a args]; [done |]. cbn in H. apply andb_prop in H as [Hc H].
      destruct (conv_fits_hconv c3 s a Hc) as [t ->], (IH _ _ H) as [t' ->]. by eexists.
  - destruct (IH _ _ H) as [o ->]. by eexists.
Qed.

(** The format fits arguments of these kinds. *)
Definition fits (fmt : string) (ks : list hkind) : bool :=
  hfits (String.length fmt) (bytes fmt) ks.

Lemma fits_cprintf fmt args : fits fmt (kind <$> args) = true -> is_Some (cprintf fmt args).
Proof. apply hfits_hformat. Qed.

Example cprintf_1 : cprintf "n=%llu h=%08x f=%.4f%% s=%s" 
  [HInt (2 ^ 40); HInt 0xbeef; HDbl (dbl_div (dbl_of_Z 2) (dbl_of_Z 3)); HStr (bytes "ok")] =
  Some (bytes "n=1099511627776 h=0000beef f=0.6667% s=ok").
Proof. vm_compute. reflexivity. Qed.
Example cprintf_2 : cprintf "net=%lld %016llx" [HInt (-5); HInt (-1)] =
  Some (bytes "net=-5 ffffffffffffffff").
Proof. vm_compute. reflexivity. Qed.
