(* ===== verification/Main.v ===== *)
(** * The benchmark driver: core_main.c

    [main] takes the seeds, splits the static memory block among the three
    algorithms, initialises their data, runs [iterate] between two readings of
    the clock, compares the CRCs with the known ones and reports. *)

From Stdlib Require Import String ZArith Lia.
From stdpp Require Import base list gmap numbers.
From S2P Require Import Prelude Crc StateMachine StateBench PortMem Matrix ListHeap MergeSort.
From S2P Require Import ListBench ListItems ListRestore ListInit PortIO Util Port.

Local Open Scope Z_scope.
Local Open Scope cm_scope.

(** ** The code *)

Definition list_known_crc : list Z := [0xd4b0; 0x3340; 0x6a79; 0xe714; 0xe3c1].
Definition matrix_known_crc : list Z := [0xbe52; 0x1199; 0x5608; 0x1fd7; 0x0747].
Definition state_known_crc : list Z := [0x5e47; 0x39bf; 0xe5a4; 0x8e3a; 0x8d84].

Definition ID_LIST : Z := Z.shiftl 1 0.
Definition ID_MATRIX : Z := Z.shiftl 1 1.
Definition ID_STATE : Z := Z.shiftl 1 2.
Definition ALL_ALGORITHMS_MASK : Z := Z.lor (Z.lor ID_LIST ID_MATRIX) ID_STATE.
Definition NUM_ALGORITHMS : nat := 3.
Definition TOTAL_DATA_SIZE : Z := 2 * 1000.
Definition default_num_contexts : Z := 1.
Definition sizeof_list_head : Z := 8.

(** *** [iterate] *)

Definition res_upd (f : core_results -> core_results) : M world unit := others (upd_res f).

(** The body of the loop, with counter [i]. *)
Definition iterate_body (i : Z) : M world unit :=
  let! c := core_bench_list 1 in
  res_upd (fun r => set_crc r (crcu16 c (crc r))) ;;
  let! c := core_bench_list (-1) in
  res_upd (fun r => set_crc r (crcu16 c (crc r))) ;;
  if i =? 0 then res_upd (fun r => set_crclist r (crc r)) else ret tt.

Definition iterate : M world unit :=
  let! res := others get_res in
  let iterations := iterations res in
  res_upd (fun r => set_crcstate (set_crcmatrix (set_crclist (set_crc r 0) 0) 0) 0) ;;
  let! _ :=
    while (fun i => ret (i <? iterations))
      (fun i => iterate_body i ;; ret (u32 (i + 1))) 0 in
  ret tt.

(** *** [main] *)

(** The whole machine: the port and the memory of the benchmark. *)
Record machine := Mach { m_port : port; m_world : world }.

Definition on_port {A} (m : M port A) : M machine A :=
  zoom m_port (fun p s => Mach p (m_world s)) m.
Definition on_world {A} (m : M world A) : M machine A :=
  zoom m_world (fun w s => Mach (m_port s) w) m.
Definition res0 : M machine core_results := on_world (others get_res).
Definition upd0 (f : core_results -> core_results) : M machine unit := on_world (res_upd f).
Definition printf (fmt : list Z) (args : list va_arg) : M machine unit :=
  on_port (on_trace (ee_printf fmt args)) ;; ret tt.
(** A format string that is one line. *)
Definition line (s : string) : list Z := cstr (s ++ nl).

(** Updates of the results record. *)
Definition with_seeds (a b c : Z) (r : core_results) : core_results :=
  Results a b c (memblock r) (size r) (iterations r) (execs r) (rlist r) (mat r)
    (crc r) (crclist r) (crcmatrix r) (crcstate r) (err r) (portable_id r).
Definition with_iterations (n : Z) (r : core_results) : core_results :=
  Results (seed1 r) (seed2 r) (seed3 r) (memblock r) (size r) n (execs r) (rlist r) (mat r)
    (crc r) (crclist r) (crcmatrix r) (crcstate r) (err r) (portable_id r).
Definition with_execs (n : Z) (r : core_results) : core_results :=
  Results (seed1 r) (seed2 r) (seed3 r) (memblock r) (size r) (iterations r) n (rlist r) (mat r)
    (crc r) (crclist r) (crcmatrix r) (crcstate r) (err r) (portable_id r).
Definition with_memory (blk : list Z) (n : Z) (r : core_results) : core_results :=
  Results (seed1 r) (seed2 r) (seed3 r) blk n (iterations r) (execs r) (rlist r) (mat r)
    (crc r) (crclist r) (crcmatrix r) (crcstate r) (err r) (portable_id r).
Definition with_list (l : option Z) (r : core_results) : core_results :=
  Results (seed1 r) (seed2 r) (seed3 r) (memblock r) (size r) (iterations r) (execs r) l (mat r)
    (crc r) (crclist r) (crcmatrix r) (crcstate r) (err r) (portable_id r).
Definition with_mat (m : mat_params) (r : core_results) : core_results :=
  Results (seed1 r) (seed2 r) (seed3 r) (memblock r) (size r) (iterations r) (execs r) (rlist r) m
    (crc r) (crclist r) (crcmatrix r) (crcstate r) (err r) (portable_id r).
Definition with_err (n : Z) (r : core_results) : core_results :=
  Results (seed1 r) (seed2 r) (seed3 r) (memblock r) (size r) (iterations r) (execs r) (rlist r)
    (mat r) (crc r) (crclist r) (crcmatrix r) (crcstate r) n (portable_id r).
Definition with_portable_id (n : Z) (r : core_results) : core_results :=
  Results (seed1 r) (seed2 r) (seed3 r) (memblock r) (size r) (iterations r) (execs r) (rlist r)
    (mat r) (crc r) (crclist r) (crcmatrix r) (crcstate r) (err r) n.

(** The default values "based on one seed only". *)
Definition default_seeds (r : core_results) : core_results :=
  let r := if (seed1 r =? 0) && (seed2 r =? 0) && (seed3 r =? 0)
           then with_seeds 0 0 0x66 r else r in
  if (seed1 r =? 1) && (seed2 r =? 0) && (seed3 r =? 0)
  then with_seeds 0x3415 0x3415 0x66 r else r.

(** [(1 << i) & execs] *)
Definition selected (i execs : Z) : bool := truth (Z.land (Z.shiftl 1 i) execs).

Definition num_algorithms (execs : Z) : Z :=
  fold_left (fun n i => if selected (Z.of_nat i) execs then u16 (n + 1) else n)
    (seq 0 NUM_ALGORITHMS) 0.

(** [memblock[i + 1] = memblock[0] + size * j] for the selected algorithms;
    entries of the others stay as they are. *)
Definition assign_blocks (execs size : Z) (blk : list Z) : M machine (list Z) :=
  let! (blk, _) :=
    for_n NUM_ALGORITHMS 0 (fun i '(blk, j) =>
      if selected i execs then
        let! base := oget OutOfBounds (arr_get blk 0) in
        let! blk := oget OutOfBounds (arr_set blk (i + 1) (u32 (base + u32 (size * j)))) in
        ret (blk, u16 (j + 1))
      else ret (blk, j)) (blk, 0) in
  ret blk.

(** The static block is zero at first; each algorithm sees its part of it as
    the objects it keeps there. *)
Definition view_list (size : Z) : M machine unit :=
  let n := Z.to_nat (list_size size) in
  on_world (modify (fun w => (blank_heads n, Env (blank_datas n) (e_res w.2) (e_mats w.2) (e_text w.2)))).
Definition view_matrix (size : Z) : M machine unit :=
  let! N := choose_N size in
  let z := replicate (Z.to_nat (N * N)) 0 in
  on_world (modify (fun w => (w.1, Env (e_datas w.2) (e_res w.2) (MMem z z z) (e_text w.2)))).
Definition view_state (size : Z) : M machine unit :=
  on_world (modify (fun w => (w.1, Env (e_datas w.2) (e_res w.2) (e_mats w.2)
    (replicate (Z.to_nat size) 0)))).

(** [memblock[k]] *)
Definition block (k : Z) : M machine Z :=
  let! r := res0 in oget OutOfBounds (arr_get (memblock r) k).

Definition call_inits : M machine unit :=
  let! r := res0 in
  (if truth (Z.land (execs r) ID_LIST) then
     view_list (size r) ;;
     block 1 ;;
     let! l := on_world (core_list_init (size r) (seed1 r)) in
     upd0 (with_list l)
   else ret tt) ;;
  (if truth (Z.land (execs r) ID_MATRIX) then
     view_matrix (size r) ;;
     let! b := block 2 in
     let! (_, m) := on_world (others (env_mats
       (core_init_matrix (size r) b (Z.lor (seed1 r) (s32 (Z.shiftl (seed2 r) 16)))))) in
     upd0 (with_mat m)
   else ret tt) ;;
  (if truth (Z.land (execs r) ID_STATE) then
     view_state (size r) ;;
     block 3 ;;
     on_world (others (env_text (core_init_state (size r) (seed1 r))))
   else ret tt).

Section main.
Context (rdcycle rdinstret : nat -> Z).   (* the counters *)
Context (g : seeds) (z : sizes).          (* the volatile seeds, the type sizes *)
Context (static_memblk : Z).              (* its address *)
Context (COMPILER_VERSION : list Z).      (* __VERSION__ *)

(** From [portable_init] to the end of the inits; [false] when the structure
    check fails. *)
Definition setup : M machine bool :=
  let! id := on_port (portable_init false) in
  upd0 (match id with Some v => with_portable_id v | None => fun r => r end) ;;
  if 128 <? sizeof_list_head then
    printf (line "list_head structure too big for comparable data!") [] ;; ret false
  else
    upd0 (with_seeds (get_seed g 1) (get_seed g 2) (get_seed g 3)) ;;
    upd0 (with_iterations (u32 (get_seed_32 g 4))) ;;
    upd0 (with_execs (u32 (get_seed_32 g 5))) ;;
    upd0 (fun r => if execs r =? 0 then with_execs ALL_ALGORITHMS_MASK r else r) ;;
    upd0 default_seeds ;;
    upd0 (fun r => with_memory (<[0%nat := static_memblk]> (memblock r)) TOTAL_DATA_SIZE r) ;;
    upd0 (with_err 0) ;;
    let! r := res0 in
    let n := num_algorithms (execs r) in
    if n =? 0 then fail DivByZero
    else
      let size := size r / n in
      let! blk := assign_blocks (execs r) size (memblock r) in
      upd0 (with_memory blk size) ;;
      call_inits ;;
      ret true.

(** Run [iterate] between [start_time] and [stop_time]. *)
Definition timed_run : M machine unit :=
  on_port (start_time rdcycle rdinstret) ;;
  on_world iterate ;;
  on_port (stop_time rdcycle rdinstret).

(** "automatically determine number of iterations if not set" *)
Definition determine_iterations : M machine unit :=
  let! r := res0 in
  if iterations r =? 0 then
    upd0 (with_iterations 1) ;;
    let! secs_passed :=
      while (fun secs_passed => ret (secs_passed <? 1))
        (fun _ =>
           upd0 (fun r => with_iterations (u32 (iterations r * 10)) r) ;;
           timed_run ;;
           let! t := on_port get_time in
           ret (time_in_secs t)) 0 in
    let divisor := if secs_passed =? 0 then 1 else secs_passed in
    upd0 (fun r => with_iterations (u32 (iterations r * u32 (1 + 10 / divisor))) r)
  else ret tt.

Definition seed_crc (r : core_results) : Z :=
  let seedcrc := crc16 (seed1 r) 0 in
  let seedcrc := crc16 (seed2 r) seedcrc in
  let seedcrc := crc16 (seed3 r) seedcrc in
  crc16 (s16 (size r)) seedcrc.

(** The [switch (seedcrc)]: [known_id] and the message. *)
Definition known_run (seedcrc : Z) : option (Z * string) :=
  if seedcrc =? 0x8a02 then Some (0, "6k performance run parameters for coremark."%string)
  else if seedcrc =? 0x7b05 then Some (1, "6k validation run parameters for coremark."%string)
  else if seedcrc =? 0x4eaf then Some (2, "Profile generation run parameters for coremark."%string)
  else if seedcrc =? 0xe9f5 then Some (3, "2K performance run parameters for coremark."%string)
  else if seedcrc =? 0x18f2 then Some (4, "2K validation run parameters for coremark."%string)
  else None.

(** One comparison: [if ((execs & id) && (crc != known[known_id])) { ...
    err++; }] *)
Definition check_crc (id value : Z) (known : list Z) (known_id : Z) (msg : string)
  : M machine unit :=
  let! r := res0 in
  let! k := oget OutOfBounds (arr_get known known_id) in
  if truth (Z.land (execs r) id) && negb (value =? k) then
    printf (line msg) [VInt 0; VInt value; VInt k] ;;
    upd0 (fun r => with_err (s16 (err r + 1)) r)
  else ret tt.

(** The verdict on the CRCs: [total_errors]. *)
Definition validate (seedcrc : Z) : M machine Z :=
  match known_run seedcrc with
  | None => ret (-1)
  | Some (known_id, msg) =>
      printf (line msg) [] ;;
      upd0 (with_err 0) ;;
      let! r := res0 in
      check_crc ID_LIST (crclist r) list_known_crc known_id
        "[%u]ERROR! list crc 0x%04x - should be 0x%04x" ;;
      check_crc ID_MATRIX (crcmatrix r) matrix_known_crc known_id
        "[%u]ERROR! matrix crc 0x%04x - should be 0x%04x" ;;
      check_crc ID_STATE (crcstate r) state_known_crc known_id
        "[%u]ERROR! state crc 0x%04x - should be 0x%04x" ;;
      let! r := res0 in
      ret (s16 (0 + err r))
  end.

(** The report up to the duration check: the new [total_errors]. *)
Definition report_time (total_time total_errors : Z) : M machine Z :=
  let! r := res0 in
  printf (line "CoreMark Size    : %lu") [VInt (size r)] ;;
  printf (line "Total ticks      : %lu") [VInt total_time] ;;
  let secs := time_in_secs total_time in
  printf (line "Total time (secs): %d") [VInt secs] ;;
  (if 0 <? secs then
     printf (line "Iterations/Sec   : %d")
       [VInt (u32 (default_num_contexts * iterations r) / secs)]
   else ret tt) ;;
  if secs <? 10 then
    printf (line "ERROR! Must execute for at least 10 secs for a valid result!") [] ;;
    ret (s16 (total_errors + 1))
  else ret total_errors.

Definition COMPILER_FLAGS : list Z :=
  cstr "rv32i_zicsr baremetal (UART printf, cycle CSR timing)".
Definition MEM_LOCATION : list Z := cstr "private DMEM per thread (hw remap)".

Definition report_crcs (seedcrc : Z) : M machine unit :=
  let! r := res0 in
  printf (line "Iterations       : %lu") [VInt (u32 (default_num_contexts * iterations r))] ;;
  printf (line "Compiler version : %s") [VStr (Some COMPILER_VERSION)] ;;
  printf (line "Compiler flags   : %s") [VStr (Some COMPILER_FLAGS)] ;;
  printf (line "Memory location  : %s") [VStr (Some MEM_LOCATION)] ;;
  printf (line "seedcrc          : 0x%04x") [VInt seedcrc] ;;
  (if truth (Z.land (execs r) ID_LIST)
   then printf (line "[%d]crclist       : 0x%04x") [VInt 0; VInt (crclist r)] else ret tt) ;;
  (if truth (Z.land (execs r) ID_MATRIX)
   then printf (line "[%d]crcmatrix     : 0x%04x") [VInt 0; VInt (crcmatrix r)] else ret tt) ;;
  (if truth (Z.land (execs r) ID_STATE)
   then printf (line "[%d]crcstate      : 0x%04x") [VInt 0; VInt (crcstate r)] else ret tt) ;;
  printf (line "[%d]crcfinal      : 0x%04x") [VInt 0; VInt (crc r)].

(** The closing message. *)
Definition verdict_text (total_errors : Z) : list Z :=
  if total_errors =? 0 then
    line "Correct operation validated. See README.md for run and reporting rules."
  else if 0 <? total_errors then line "Errors detected"
  else line "Cannot validate operation for these seed values, please compare with results on a known platform.".

(** What follows the timed run. *)
Definition conclude : M machine Z :=
  let! total_time := on_port get_time in
  let! r := res0 in
  let seedcrc := seed_crc r in
  let! total_errors := validate seedcrc in
  let! bad_types := on_port (on_trace (check_data_types z)) in
  let total_errors := s16 (total_errors + bad_types) in
  let! total_errors := report_time total_time total_errors in
  report_crcs seedcrc ;;
  printf (verdict_text total_errors) [] ;;
  on_port portable_fini ;;
  ret 0.

Definition main : M machine Z :=
  let! ok := setup in
  if negb ok then ret 0
  else
    determine_iterations ;;
    timed_run ;;
    conclude.
End main.
