(* ===== verification/Driver.v ===== *)
(** * Properties of the driver: core_main.c

    [iterate] repeats the benchmark on unchanged data; the set-up produces the
    data the benchmark needs, inside the static block; and [main] runs to its
    end. *)

From Stdlib Require Import String ZArith Lia.
From stdpp Require Import base list gmap numbers.
From S2P Require Import Prelude Crc StateMachine StateBench PortMem Matrix ListHeap MergeSort.
From S2P Require Import ListBench ListItems ListRestore ListInit PortIO Util Port Printf Main.

Local Open Scope Z_scope.
Local Open Scope cm_scope.

(** ** [iterate] *)

(** Only the four CRCs of the results record changed. *)
Definition out_frame (r r' : core_results) : Prop :=
  r' = Results (seed1 r) (seed2 r) (seed3 r) (memblock r) (size r) (iterations r) (execs r)
    (rlist r) (mat r) (crc r') (crclist r') (crcmatrix r') (crcstate r') (err r) (portable_id r).

(** The benchmark data are as before, matrix C apart. *)
Definition same_data (e e' : env) : Prop :=
  e_datas e' = e_datas e /\ e_text e' = e_text e /\ mA (e_mats e') = mA (e_mats e) /\
  mB (e_mats e') = mB (e_mats e) /\ length (mC (e_mats e')) = length (mC (e_mats e)) /\
  out_frame (e_res e) (e_res e').

#[export] Instance same_data_preorder : PreOrder same_data.
Proof.
  split.
  - intros e. split_and!; try done. by destruct (e_res e).
  - intros e1 e2 e3 (?&?&?&?&?&F1) (?&?&?&?&?&F2). split_and!; try congruence.
    unfold out_frame in *. rewrite F2, F1. done.
Qed.

Lemma env_frame_same_data e e' : env_frame e e' -> e_datas e' = e_datas e -> same_data e e'.
Proof.
  intros (Ht & HA & HB & HC & Hr & _) Hd. split_and!; try done.
  unfold res_frame, out_frame in *. rewrite Hr. done.
Qed.

Lemma same_data_ok l h e e' :
  same_data e e' -> in_u 16 (crc (e_res e')) ->
  list_ok l (rlist (e_res e)) h e /\ env_ok e ->
  list_ok l (rlist (e_res e')) h e' /\ env_ok e'.
Proof.
  intros (Hd & Ht & HA & HB & HC & Hr) Hcrc [[H1 H2 H3 H4 H5 H6] (E1 & E2 & E3 & E4 & E5 & E6 & E7 & E8)].
  unfold out_frame in Hr. split.
  - rewrite (f_equal rlist Hr). constructor; try done; [by rewrite Hd |].
    unfold idx_below. by rewrite Hd.
  - unfold env_ok, mat_wf in *. rewrite Ht, HA, HB, HC.
    destruct (e_res e), (e_res e'). cbn in *.
    injection Hr as -> -> -> -> -> -> -> -> -> -> ->. split_and!; auto; apply E6.
Qed.

(** The recorded CRCs: once set, the matrix and state CRCs stay. *)
Definition recorded (r r' : core_results) : Prop :=
  crclist r' = crclist r /\ (crcmatrix r <> 0 -> crcmatrix r' = crcmatrix r) /\
  (crcstate r <> 0 -> crcstate r' = crcstate r).

#[export] Instance recorded_preorder : PreOrder recorded.
Proof.
  split; [done |]. intros r1 r2 r3 (L1 & M1 & S1) (L2 & M2 & S2). split_and!; [congruence | |].
  - intros H. rewrite <- M1 by done. apply M2. by rewrite M1.
  - intros H. rewrite <- S1 by done. apply S2. by rewrite S1.
Qed.

(** One half of an iteration: a run of the list benchmark folded into the
    CRC. *)
Definition half (finder_idx : Z) : M world unit :=
  let! c := core_bench_list finder_idx in
  res_upd (fun r => set_crc r (crcu16 c (crc r))).

Lemma wp_half finder_idx l h e (Q : unit -> world -> Prop) :
  list_ok l (rlist (e_res e)) h e /\ env_ok e ->
  (forall e', same_data e e' -> recorded (e_res e) (e_res e') ->
     list_ok l (rlist (e_res e')) h e' /\ env_ok e' -> Q tt (h, e')) ->
  wp (half finder_idx) Q (h, e).
Proof.
  intros [Hl He] HQ. unfold half. rewrite wp_bind. apply (wp_core_bench_list _ l); [done | done |].
  intros c e1 Hc Hf Hd. unfold res_upd, upd_res. rewrite wp_others, wp_modify.
  pose proof (env_frame_same_data e e1 Hf Hd) as Hsd.
  pose proof Hf as (_ & _ & _ & _ & Hrf & Hcrc & Hm & Hs).
  set (e2 := Env _ _ _ _).
  assert (same_data e e2) as Hsd2.
  { etransitivity; [exact Hsd |]. split_and!; try done. }
  apply HQ; [done | |].
  - split_and!; [| done | done]. unfold res_frame in Hrf. unfold e2. cbn. by rewrite Hrf.
  - apply (same_data_ok l h e); [done | | done]. unfold e2. cbn. apply crcu16_range, Hcrc, He.
Qed.

Lemma wp_iterate_body i l h e (Q : unit -> world -> Prop) :
  list_ok l (rlist (e_res e)) h e /\ env_ok e ->
  (forall e', same_data e e' -> (i <> 0 -> recorded (e_res e) (e_res e')) ->
     list_ok l (rlist (e_res e')) h e' /\ env_ok e' -> Q tt (h, e')) ->
  wp (iterate_body i) Q (h, e).
Proof.
  intros Hok HQ. unfold iterate_body.
  assert (forall f (k : M world unit) R w,
    wp (half f) (fun _ => wp k R) w -> wp (let! c := core_bench_list f in
      res_upd (fun r => set_crc r (crcu16 c (crc r))) ;; k) R w) as Hhalf.
  { intros f k R w H. unfold half in H. rewrite wp_bind in H. rewrite wp_bind.
    eapply wp_mono; [exact H |]. intros c w' H'. by rewrite wp_bind. }
  apply Hhalf, (wp_half 1 l); [done |]. intros e1 Hsd1 Hr1 Hok1.
  apply Hhalf, (wp_half (-1) l); [done |]. intros e2 Hsd2 Hr2 Hok2.
  assert (same_data e e2) as Hsd by (by etransitivity).
  destruct (Z.eqb_spec i 0) as [-> | Hi].
  - unfold res_upd, upd_res. rewrite wp_others, wp_modify. apply HQ; [| done |].
    + etransitivity; [exact Hsd |]. by split_and!.
    + apply (same_data_ok l h e2); [by split_and! | apply Hok2 | done].
  - rewrite wp_ret. apply HQ; [done | | done]. intros _. by etransitivity.
Qed.

(** The state [iterate] starts its loop in. *)
Definition reset_crcs (e : env) : env :=
  Env (e_datas e) (set_crcstate (set_crcmatrix (set_crclist (set_crc (e_res e) 0) 0) 0) 0)
    (e_mats e) (e_text e).

Lemma wp_iterate l h e (Q : unit -> world -> Prop) :
  list_ok l (rlist (e_res e)) h e /\ env_ok e -> in_u 32 (iterations (e_res e)) ->
  (forall e', same_data e e' -> list_ok l (rlist (e_res e')) h e' /\ env_ok e' ->
     (0 < iterations (e_res e) -> exists e1, iterate_body 0 (h, reset_crcs e) = Ok tt (h, e1) /\
        recorded (e_res e1) (e_res e')) -> Q tt (h, e')) ->
  wp iterate Q (h, e).
Proof.
  intros Hok Hn HQ. set (n := iterations (e_res e)) in *.
  assert (same_data e (reset_crcs e)) as Hsd0 by (by split_and!).
  assert (list_ok l (rlist (e_res (reset_crcs e))) h (reset_crcs e) /\ env_ok (reset_crcs e)) as Hok0
    by (apply (same_data_ok l h e); [done | cint_unfold; cbn; lia | done]).
  assert (exists e1, iterate_body 0 (h, reset_crcs e) = Ok tt (h, e1) /\ same_data e e1 /\
    (list_ok l (rlist (e_res e1)) h e1 /\ env_ok e1)) as (e1 & E1 & Hsd1 & Hok1).
  { assert (wp (iterate_body 0) (fun _ w => w.1 = h /\ same_data e w.2 /\
      (list_ok l (rlist (e_res w.2)) h w.2 /\ env_ok w.2)) (h, reset_crcs e)) as Hw.
    { apply (wp_iterate_body 0 l); [done |]. intros e' Hsd _ Hok'. by split_and!; [done |
        etransitivity; [exact Hsd0 | exact Hsd] | apply Hok' | apply Hok']. }
    apply wp_ok in Hw as ([] & [h1 e1] & E & Hh & Hsd & Hok1). cbn in Hh. subst h1. by exists e1. }
  unfold iterate. rewrite wp_bind, wp_others. unfold get_res. rewrite wp_gets, wp_bind.
  unfold res_upd, upd_res. rewrite wp_others, wp_modify. fold (reset_crcs e). fold n.
  rewrite wp_bind.
  apply (wp_while (fun i w => 0 <= i <= n /\ w.1 = h /\
    ((i = 0 /\ w.2 = reset_crcs e) \/ (0 < i /\ same_data e w.2 /\ recorded (e_res e1) (e_res w.2) /\
       (list_ok l (rlist (e_res w.2)) h w.2 /\ env_ok w.2)))) (fun i _ => n - i)).
  - split_and!; [done | unfold in_u in Hn; lia | done | by left].
  - cint_unfold. budget_lia.
  - intros i [h' e'] (Hi & Hh & Hcase). cbn [fst snd] in *. subst h'. split; [lia |]. rewrite wp_ret.
    destruct (Z.ltb_spec i n).
    + rewrite wp_bind. assert (u32 (i + 1) = i + 1) as Ei by cint_lia.
      destruct Hcase as [[-> ->] | (Hpos & Hsd & Hrec & Hok')].
      * unfold wp. rewrite E1. cbn [ret]. rewrite Ei. split; [| lia].
        split; [lia |]. split; [done |]. right. by split; [lia |].
      * apply (wp_iterate_body i l); [done |]. intros e2 Hsd2 Hrec2 Hok2. rewrite wp_ret, Ei.
        split; [| lia]. split; [lia |]. split; [done |]. right. split; [lia |].
        split; [by etransitivity |]. split; [| done].
        etransitivity; [exact Hrec | apply Hrec2; lia].
    + rewrite wp_ret. destruct Hcase as [[-> ->] | (Hpos & Hsd & Hrec & Hok')].
      * apply HQ; [done | done | lia].
      * apply HQ; [done | done |]. intros _. by exists e1.
Qed.

(** C12: iterations are repeatable.  On well-formed data ([list_ok] and [env_ok],
    as for [core_bench_list]) [iterate] returns for
    every iteration count (up to 2^32 - 1) and leaves the list, its items,
    the state-machine input and matrices A and B exactly as they were; the
    list CRC it records is the one after the first iteration, and so are the
    matrix and state CRCs unless they were zero then. *)
Theorem iterate_repeatable l h e :
  list_ok l (rlist (e_res e)) h e -> env_ok e -> in_u 32 (iterations (e_res e)) ->
  exists e', iterate (h, e) = Ok tt (h, e') /\ same_data e e' /\
    list_ok l (rlist (e_res e')) h e' /\ env_ok e' /\
    (0 < iterations (e_res e) -> exists e1, iterate_body 0 (h, reset_crcs e) = Ok tt (h, e1) /\
       recorded (e_res e1) (e_res e')).
Proof.
  intros Hl He Hn.
  assert (wp iterate (fun _ w => w.1 = h /\ same_data e w.2 /\
    (list_ok l (rlist (e_res w.2)) h w.2 /\ env_ok w.2) /\
    (0 < iterations (e_res e) -> exists e1, iterate_body 0 (h, reset_crcs e) = Ok tt (h, e1) /\
       recorded (e_res e1) (e_res w.2))) (h, e)) as Hw.
  { apply (wp_iterate l); [done | done |]. intros e' Hsd Hok Hrec. done. }
  apply wp_ok in Hw as ([] & [h' e'] & E & Hh & Hsd & [Hl' He'] & Hrec). cbn in Hh. subst h'.
  by exists e'.
Qed.

Lemma iterate_repeatable_witness :
  exists e', iterate small_world = Ok tt (small_world.1, e') /\ same_data small_world.2 e' /\
    list_ok [(0, 10); (1, 11); (2, 12)] (rlist (e_res e')) small_world.1 e' /\ env_ok e' /\
    (0 < iterations (e_res small_world.2) -> exists e1,
       iterate_body 0 (small_world.1, reset_crcs small_world.2) = Ok tt (small_world.1, e1) /\
       recorded (e_res e1) (e_res e')).
Proof.
  destruct small_world_ok as [Hl He].
  apply (iterate_repeatable [(0, 10); (1, 11); (2, 12)] small_world.1 small_world.2 Hl He).
  cbn. cint_unfold. lia.
Defined.

(** ** Printing *)

(** The format fits the arguments, whatever their values. *)
Definition conv_args (c : Z) (args : list va_arg) : option (list va_arg) :=
  if (c =? 100) || (c =? 105) || (c =? 117) || (c =? 120) || (c =? 88) || (c =? 99) then
    match args with VInt _ :: args => Some args | _ => None end
  else if c =? 115 then match args with VStr _ :: args => Some args | _ => None end
  else Some args.

Fixpoint fmt_fits (n : nat) (l : list Z) (args : list va_arg) : bool :=
  match n, l with
  | _, [] => true
  | O, _ => false
  | S n', c :: l =>
      if negb (c =? ch_percent) then fmt_fits n' l args
      else match l with
           | [] => false
           | c :: l' =>
               if c =? ch_percent then fmt_fits n' l' args
               else match (scan_flags l).2 with
                    | [] => false
                    | c :: l => match conv_args c args with
                                | Some args => fmt_fits n' l args
                                | None => false
                                end
                    end
           end
  end.

Lemma conv_args_show c w pad args args' :
  conv_args c args = Some args' -> exists out, show_conv c w pad args = Some (out, args').
Proof.
  unfold conv_args, show_conv. intros H.
  destruct (c =? 100), (c =? 105), (c =? 117), (c =? 120), (c =? 88), (c =? 99), (c =? 115);
    cbn [orb] in *; try (destruct args as [| [v | [s |]] args]; simplify_eq; eauto); simplify_eq; eauto.
Qed.

Lemma fmt_fits_render n l args : fmt_fits n l args = true -> exists out, render n l args = Some out.
Proof.
  revert l args. induction n as [| n IH]; intros [| c l] args H; cbn [fmt_fits render] in *;
    try done; try (by eexists).
  destruct (c =? ch_percent); cbn [negb] in *.
  - destruct l as [| c2 l]; [done |]. destruct (c2 =? ch_percent).
    + destruct (IH _ _ H) as [o ->]. by eexists.
    + destruct (scan_flags (c2 :: l)) as [[pad w] [| c3 l3]]; cbn [snd] in *; [done |].
      destruct (conv_args c3 args) as [args' |] eqn:Ec; [| done].
      destruct (conv_args_show c3 w pad args args' Ec) as [o ->].
      destruct (IH _ _ H) as [o2 ->]. by eexists.
  - destruct (IH _ _ H) as [o ->]. by eexists.
Qed.

Definition emit_m (l : mmio_trace) (s : machine) : machine := Mach (emit l (m_port s)) (m_world s).

Lemma wp_printf_line str args (Q : unit -> machine -> Prop) s :
  let l := bytes (str ++ nl) in
  printable (str ++ nl) = true -> Z.of_nat (length l) < Zpos budget -> Forall arg_ok args ->
  fmt_fits (length l) l args = true ->
  (forall out, Q tt (emit_m (uart out) s)) -> wp (printf (line str) args) Q s.
Proof.
  intros l Hp Hl Ha Hf HQ. destruct (fmt_fits_render _ _ _ Hf) as [out Ho].
  unfold printf, line, on_port. rewrite wp_bind, wp_zoom. apply wp_on_trace.
  apply (wp_ee_printf l args out); [by apply printable_text | done | done | done |].
  exists (uart out). split; [done |]. rewrite wp_ret. apply HQ.
Qed.

(** Side conditions of a [printf] with a literal format. *)
Ltac solve_line :=
  apply wp_printf_line;
  [ vm_compute; reflexivity | vm_compute; reflexivity
  | repeat constructor; eauto | vm_compute; reflexivity | ].

(** ** Validation *)

Definition upd_m (f : core_results -> core_results) (s : machine) : machine :=
  let w := m_world s in
  Mach (m_port s) (w.1, Env (e_datas w.2) (f (e_res w.2)) (e_mats w.2) (e_text w.2)).

Definition m_res (s : machine) : core_results := e_res (m_world s).2.

Lemma wp_res0 (Q : core_results -> machine -> Prop) s : wp res0 Q s <-> Q (m_res s) s.
Proof. by destruct s as [p [h e]]. Qed.

Lemma upd_m_upd_m f g s : upd_m f (upd_m g s) = upd_m (fun r => f (g r)) s.
Proof. done. Qed.

Lemma wp_upd0 f (Q : unit -> machine -> Prop) s : wp (upd0 f) Q s <-> Q tt (upd_m f s).
Proof. by destruct s as [p [h e]]. Qed.

(** Does the CRC [value] of the algorithm [id] count as an error? *)
Definition mismatch (execs id value : Z) (known : list Z) (known_id : Z) : Z :=
  if truth (Z.land execs id) && negb (value =? default 0 (arr_get known known_id)) then 1 else 0.

Lemma wp_check_crc id value known known_id msg (Q : unit -> machine -> Prop) s :
  (exists k, arr_get known known_id = Some k) ->
  printable (msg ++ nl) = true -> Z.of_nat (length (bytes (msg ++ nl))) < Zpos budget ->
  (forall a b c, fmt_fits (length (bytes (msg ++ nl))) (bytes (msg ++ nl)) [VInt a; VInt b; VInt c] = true) ->
  in_s 16 (err (m_res s)) ->
  (forall l, Q tt (upd_m (with_err (s16 (err (m_res s) +
     mismatch (execs (m_res s)) id value known known_id))) (emit_m l s))) ->
  wp (check_crc id value known known_id msg) Q s.
Proof.
  intros [k Hk] Hp Hl Hf He HQ. unfold check_crc, mismatch in *.
  rewrite wp_bind, wp_res0, wp_bind, wp_oget. exists k. split; [done |]. rewrite Hk in HQ. cbn in HQ.
  destruct (truth (Z.land (execs (m_res s)) id) && negb (value =? k)).
  - rewrite wp_bind. apply wp_printf_line; [done | done | by repeat constructor | apply Hf |].
    intros out. rewrite wp_upd0. apply HQ.
  - rewrite wp_ret. specialize (HQ []). rewrite Z.add_0_r in HQ.
    replace (s16 (err (m_res s))) with (err (m_res s)) in HQ by (symmetry; by apply swrap_id).
    destruct s as [[tr a b c d o n] [h [ds [] mm t]]]. unfold emit_m, emit in HQ. cbn in HQ.
    by rewrite app_nil_r in HQ.
Qed.

Lemma known_run_id c id msg : known_run c = Some (id, msg) ->
  0 <= id < 5 /\ printable (msg ++ nl) = true /\
  Z.of_nat (length (bytes (msg ++ nl))) < Zpos budget /\
  fmt_fits (length (bytes (msg ++ nl))) (bytes (msg ++ nl)) [] = true.
Proof.
  unfold known_run. intros H. repeat case_match; simplify_eq; by split_and!.
Qed.

Lemma wp_validate c id msg (Q : Z -> machine -> Prop) s :
  known_run c = Some (id, msg) ->
  (forall l, let r := m_res s in
     let n := mismatch (execs r) ID_LIST (crclist r) list_known_crc id +
              mismatch (execs r) ID_MATRIX (crcmatrix r) matrix_known_crc id +
              mismatch (execs r) ID_STATE (crcstate r) state_known_crc id in
     Q n (upd_m (with_err n) (emit_m l s))) ->
  wp (validate c) Q s.
Proof.
  intros Hk HQ. destruct (known_run_id c id msg Hk) as (Hid & Hp & Hl & Hf).
  unfold validate. rewrite Hk.
  assert (forall ls : list Z, length ls = 5%nat -> exists k, arr_get ls id = Some k) as Hget
    by (intros ls Hls; apply arr_get_is_Some; lia).
  assert (forall e i v kn, 0 <= mismatch e i v kn id <= 1) as Hm
    by (intros; unfold mismatch; destruct (_ && _); lia).
  rewrite wp_bind. apply wp_printf_line; [done | done | constructor | done |]. intros o1.
  rewrite wp_bind, wp_upd0, wp_bind, wp_res0.
  destruct s as [[tr a b c0 d o n] [h [ds r mm t]]]. unfold m_res, upd_m, emit_m, emit in *.
  cbn [m_world m_port snd fst e_res e_datas e_mats e_text with_err crclist crcmatrix crcstate
       trace t0 t1 instret0 instret1 heap_off reads] in *.
  pose proof (Hm (execs r) ID_LIST (crclist r) list_known_crc) as M1.
  pose proof (Hm (execs r) ID_MATRIX (crcmatrix r) matrix_known_crc) as M2.
  pose proof (Hm (execs r) ID_STATE (crcstate r) state_known_crc) as M3.
  rewrite wp_bind. apply wp_check_crc; [by apply Hget | done | done | done | cbn; cint_unfold; lia |].
  intros l1. rewrite wp_bind.
  apply wp_check_crc; [by apply Hget | done | done | done | apply swrap_range; lia |].
  intros l2. rewrite wp_bind.
  apply wp_check_crc; [by apply Hget | done | done | done | apply swrap_range; lia |].
  intros l3. rewrite wp_bind, wp_res0, wp_ret.
  unfold m_res, upd_m, emit_m, emit. cbn [m_world m_port snd fst e_res e_datas e_mats e_text
    with_err err execs trace t0 t1 instret0 instret1 heap_off reads].
  set (m1 := mismatch _ ID_LIST _ _ _) in *. set (m2 := mismatch _ ID_MATRIX _ _ _) in *.
  set (m3 := mismatch _ ID_STATE _ _ _) in *.
  assert (s16 (s16 (s16 (0 + m1) + m2) + m3) = m1 + m2 + m3) as -> by cint_lia.
  assert (s16 (0 + (m1 + m2 + m3)) = m1 + m2 + m3) as -> by cint_lia.
  specialize (HQ (uart o1 ++ l1 ++ l2 ++ l3)). by rewrite <- !app_assoc.
Qed.

(** For known seed parameters the validation counts exactly the selected
    algorithms whose CRC differs from the table, stores the count in the
    results record and otherwise only prints. *)
Theorem validate_counts c id msg s :
  known_run c = Some (id, msg) ->
  let r := m_res s in
  let n := mismatch (execs r) ID_LIST (crclist r) list_known_crc id +
           mismatch (execs r) ID_MATRIX (crcmatrix r) matrix_known_crc id +
           mismatch (execs r) ID_STATE (crcstate r) state_known_crc id in
  exists l, validate c s = Ok n (upd_m (with_err n) (emit_m l s)).
Proof.
  intros Hk r n.
  assert (wp (validate c) (fun k s' => k = n /\ exists l, s' = upd_m (with_err n) (emit_m l s)) s) as Hw
    by (apply (wp_validate c id msg); [done | eauto]).
  apply wp_ok in Hw as (k & s' & E & -> & l & ->). eauto.
Qed.

(** The machine at reset. *)
Definition boot_results : core_results :=
  Results 0 0 0 [0; 0; 0; 0] 0 0 0 None (MatParams 0 0 0 0) 0 0 0 0 0 0.
Definition boot : machine :=
  Mach (Port [] 0 0 0 0 0 0) (∅, Env ∅ boot_results (MMem [] [] []) []).

Lemma validate_counts_witness :
  let s := upd_m (with_execs 7) boot in
  exists l, validate 0x18f2 s = Ok 3 (upd_m (with_err 3) (emit_m l s)).
Proof. apply (validate_counts 0x18f2 4 "2K validation run parameters for coremark."). reflexivity. Defined.

(** ** The report *)

Lemma wp_report_time total_time total_errors (Q : Z -> machine -> Prop) s :
  (forall l, Q (if time_in_secs total_time <? 10 then s16 (total_errors + 1) else total_errors)
     (emit_m l s)) ->
  wp (report_time total_time total_errors) Q s.
Proof.
  intros HQ. unfold report_time. rewrite wp_bind, wp_res0.
  rewrite wp_bind. solve_line. intros o1. rewrite wp_bind. solve_line. intros o2.
  rewrite wp_bind. solve_line. intros o3. rewrite wp_bind.
  assert (forall a b, emit_m b (emit_m a s) = emit_m (a ++ b) s) as Hee
    by (intros; unfold emit_m; cbn; by rewrite emit_emit).
  rewrite !Hee.
  assert (forall l, wp (if time_in_secs total_time <? 10
    then printf (line "ERROR! Must execute for at least 10 secs for a valid result!") [] ;;
         ret (s16 (total_errors + 1))
    else ret total_errors) Q (emit_m l s)) as Hend.
  { intros l. destruct (time_in_secs total_time <? 10); [| by rewrite wp_ret].
    rewrite wp_bind. solve_line. intros o. rewrite Hee, wp_ret. apply HQ. }
  destruct (0 <? time_in_secs total_time); [| rewrite wp_ret; apply Hend].
  solve_line. intros o4. rewrite Hee. apply Hend.
Qed.

Lemma emit_m_emit_m a b s : emit_m b (emit_m a s) = emit_m (a ++ b) s.
Proof. unfold emit_m. cbn. by rewrite emit_emit. Qed.

Lemma emit_m_nil s : emit_m [] s = s.
Proof. destruct s as [[] ?]. unfold emit_m, emit. cbn. by rewrite app_nil_r. Qed.

Lemma wp_optional b (m : M machine unit) (Q : unit -> machine -> Prop) s :
  (forall R : unit -> machine -> Prop, (forall out, R tt (emit_m (uart out) s)) -> wp m R s) ->
  (forall out, Q tt (emit_m (uart out) s)) ->
  wp (if b : bool then m else ret tt) Q s.
Proof.
  intros Hm HQ. destruct b; [by apply Hm |]. rewrite wp_ret. specialize (HQ []).
  by rewrite emit_m_nil in HQ.
Qed.

Lemma literal_arg_ok str :
  printable str = true -> Z.of_nat (length (bytes str)) < Zpos budget ->
  arg_ok (VStr (Some (cstr str))).
Proof. intros Hp Hl. exists (bytes str). split_and!; [done | by apply printable_text | done]. Qed.

Lemma wp_report_crcs version seedcrc (Q : unit -> machine -> Prop) s :
  arg_ok (VStr (Some version)) -> (forall l, Q tt (emit_m l s)) ->
  wp (report_crcs version seedcrc) Q s.
Proof.
  intros Hv HQ.
  assert (arg_ok (VStr (Some COMPILER_FLAGS)) /\ arg_ok (VStr (Some MEM_LOCATION))) as [Hf Hm]
    by (split; apply literal_arg_ok; vm_compute; reflexivity).
  unfold report_crcs. rewrite wp_bind, wp_res0.
  do 5 (rewrite wp_bind; solve_line; intros ?).
  do 3 (rewrite wp_bind; apply wp_optional; [intros; by solve_line | intros ?]).
  solve_line. intros ?. rewrite !emit_m_emit_m. apply HQ.
Qed.

Lemma wp_verdict n (Q : unit -> machine -> Prop) s :
  (forall l, verdict_text n = l ++ [0] -> Q tt (emit_m (uart (crlf l)) s)) ->
  wp (printf (verdict_text n) []) Q s.
Proof.
  assert (forall str (R : unit -> machine -> Prop), printable (str ++ nl) = true ->
    Z.of_nat (length (bytes (str ++ nl))) < Zpos budget ->
    render (length (bytes (str ++ nl))) (bytes (str ++ nl)) [] = Some (crlf (bytes (str ++ nl))) ->
    (forall l, line str = l ++ [0] -> R tt (emit_m (uart (crlf l)) s)) ->
    wp (printf (line str) []) R s) as Hline.
  { intros str R Hp Hl Hr HR. unfold printf, line, on_port. rewrite wp_bind, wp_zoom.
    apply wp_on_trace.
    apply (wp_ee_printf _ _ _ _ _ (printable_text _ Hp) Hl (Forall_nil_2 _) Hr).
    eexists. split; [done |]. rewrite wp_ret. by apply HR. }
  intros HQ. unfold verdict_text in *.
  destruct (n =? 0); [| destruct (0 <? n)]; apply Hline; try (vm_compute; reflexivity); exact HQ.
Qed.

Lemma wp_portable_fini (Q : unit -> port -> Prop) p :
  (forall l, Q tt (emit (l ++ [(TOHOST_ADDR, 1)]) p)) -> wp portable_fini Q p.
Proof.
  intros HQ. unfold portable_fini. rewrite wp_bind, wp_gets, wp_bind, wp_gets.
  set (c := u32 (t1 p - t0 p)). set (r := u32 (instret1 p - instret0 p)).
  assert (0 <= r < 2 ^ 32) as Hr by (by apply uwrap_range).
  assert (0 <= ipc c r < 2 ^ 32) as Hi.
  { unfold ipc. destruct (negb (c =? 0)); [by apply uwrap_range | lia]. }
  change (2 ^ 32) with 4294967296 in *.
  assert (0 <= ipc c r / 10000 < 4294967296 /\ 0 <= ipc c r mod 10000 < 4294967296) as [H1 H2]
    by (Z.to_euclidean_division_equations; lia).
  rewrite wp_bind. apply wp_puts; [done | done |].
  rewrite wp_bind. apply wp_put_unsigned; [done | done |]. intros dr _ _.
  rewrite wp_bind. apply wp_puts; [done | done |].
  rewrite wp_bind. apply wp_put_unsigned; [done | done |]. intros di _ _.
  rewrite wp_bind. apply wp_putc.
  rewrite wp_bind. apply wp_put_unsigned; [done | done |]. intros df _ _.
  rewrite wp_bind. apply wp_putc.
  rewrite wp_bind. apply wp_puts; [done | done |].
  apply wp_on_trace. unfold mmio_write32. rewrite wp_modify. eexists. split; [done |].
  rewrite !emit_emit, !app_assoc. apply HQ.
Qed.

(** The number of errors [validate] reports for the table entry [id]. *)
Definition crc_errors (r : core_results) (id : Z) : Z :=
  mismatch (execs r) ID_LIST (crclist r) list_known_crc id +
  mismatch (execs r) ID_MATRIX (crcmatrix r) matrix_known_crc id +
  mismatch (execs r) ID_STATE (crcstate r) state_known_crc id.

(** The errors of the CRC comparison: -1 when the seeds are not in the
    table. *)
Definition validation_errors (r : core_results) : Z :=
  match known_run (seed_crc r) with Some (id, _) => crc_errors r id | None => -1 end.

(** The number the closing message is about. *)
Definition total_errors (s : machine) : Z :=
  let n := validation_errors (m_res s) in
  if time_in_secs (u32 (t1 (m_port s) - t0 (m_port s))) <? 10 then n + 1 else n.

Lemma validation_errors_range r : -1 <= validation_errors r <= 3.
Proof.
  unfold validation_errors, crc_errors, mismatch. destruct (known_run _) as [[id msg] |]; [| lia].
  repeat case_match; lia.
Qed.

Lemma wp_validate_any (Q : Z -> machine -> Prop) s :
  (forall l k, (forall id msg, known_run (seed_crc (m_res s)) = Some (id, msg) ->
       k = crc_errors (m_res s) id) ->
     Q (validation_errors (m_res s)) (upd_m (with_err k) (emit_m l s))) ->
  wp (validate (seed_crc (m_res s))) Q s.
Proof.
  unfold validation_errors. intros HQ. destruct (known_run _) as [[id msg] |] eqn:Hk.
  - apply (wp_validate _ id msg); [done |]. intros l r n. apply HQ. by intros ? ? [= <- <-].
  - unfold validate. rewrite Hk, wp_ret. specialize (HQ [] (err (m_res s))).
    rewrite emit_m_nil in HQ. destruct s as [p [h [ds [] mm t]]]. by apply HQ.
Qed.

Lemma wp_conclude version (Q : Z -> machine -> Prop) s :
  arg_ok (VStr (Some version)) ->
  (forall l1 l l2 k, verdict_text (total_errors s) = l ++ [0] ->
     (forall id msg, known_run (seed_crc (m_res s)) = Some (id, msg) ->
       k = crc_errors (m_res s) id) ->
     Q 0 (upd_m (with_err k) (emit_m ((l1 ++ uart (crlf l) ++ l2) ++ [(TOHOST_ADDR, 1)]) s))) ->
  wp (conclude port_sizes version) Q s.
Proof.
  intros Hv HQ. unfold conclude. rewrite wp_bind. unfold on_port at 1. rewrite wp_zoom.
  unfold get_time. rewrite wp_gets.
  replace (Mach (m_port s) (m_world s)) with s by (by destruct s).
  rewrite wp_bind, wp_res0, wp_bind. apply wp_validate_any. intros l1 k Hk.
  pose proof (validation_errors_range (m_res s)) as Hn. unfold total_errors in HQ.
  set (n := validation_errors (m_res s)) in *. set (t := u32 _) in *.
  rewrite wp_bind. set (s1 := upd_m _ _).
  assert (forall R : Z -> machine -> Prop, R 0 s1 ->
    wp (on_port (on_trace (check_data_types port_sizes))) R s1) as Htypes.
  { intros R HR. unfold on_port, on_trace. rewrite !wp_zoom. unfold check_data_types, check_size.
    cbn. unfold wp, bind, ret. cbn. destruct s as [[] ?]. exact HR. }
  apply Htypes. assert (s16 (n + 0) = n /\ s16 (n + 1) = n + 1) as [-> En] by (split; cint_lia).
  rewrite wp_bind. apply wp_report_time. intros l2. rewrite En.
  rewrite wp_bind. apply wp_report_crcs; [done |]. intros l3.
  rewrite wp_bind. apply wp_verdict. intros l Hl. rewrite wp_bind. unfold on_port at 1.
  rewrite wp_zoom. apply wp_portable_fini. intros l5. rewrite wp_ret.
  specialize (HQ (l1 ++ l2 ++ l3) l l5 k Hl Hk).
  unfold s1, upd_m, emit_m, emit in *. cbn in *. by rewrite <- !app_assoc in *.
Qed.

(** The closing message.  Whatever happened before, the end of [main]
    returns, prints one closing message and writes tohost; the message is
    chosen by the number of selected algorithms whose CRC differs from the
    table (-1 for seeds that are not in it) plus one when the run took less
    than 10 seconds. *)
Theorem conclude_verdict version s :
  arg_ok (VStr (Some version)) ->
  exists l1 l l2 k, verdict_text (total_errors s) = l ++ [0] /\
    conclude port_sizes version s =
      Ok 0 (upd_m (with_err k) (emit_m ((l1 ++ uart (crlf l) ++ l2) ++ [(TOHOST_ADDR, 1)]) s)).
Proof.
  intros Hv.
  assert (wp (conclude port_sizes version) (fun r s' => r = 0 /\ exists l1 l l2 k,
    verdict_text (total_errors s) = l ++ [0] /\
    s' = upd_m (with_err k) (emit_m ((l1 ++ uart (crlf l) ++ l2) ++ [(TOHOST_ADDR, 1)]) s)) s) as Hw.
  { apply wp_conclude; [done |]. intros l1 l l2 k Hl _. split; [done |]. by exists l1, l, l2, k. }
  destruct (proj1 (wp_ok _ _ _) Hw) as (r & s' & E & Hr & l1 & l & l2 & k & Hl & Hs).
  exists l1, l, l2, k. split; [exact Hl |]. rewrite E, Hr, Hs. reflexivity.
Qed.

Lemma conclude_verdict_witness :
  exists l1 l l2 k, verdict_text (total_errors boot) = l ++ [0] /\
    conclude port_sizes (cstr "gcc") boot =
      Ok 0 (upd_m (with_err k) (emit_m ((l1 ++ uart (crlf l) ++ l2) ++ [(TOHOST_ADDR, 1)]) boot)).
Proof.
  apply (conclude_verdict (cstr "gcc") boot). apply literal_arg_ok; vm_compute; reflexivity.
Defined.

(** The verdict cannot be trusted on short runs.  For seed parameters that
    are not in the table the error count starts at -1, "cannot validate"; when
    the run also took less than 10 seconds the duration error is added to it,
    the sum is 0, and "Correct operation validated" is printed. *)
Theorem unknown_seeds_reported_valid version s :
  arg_ok (VStr (Some version)) -> known_run (seed_crc (m_res s)) = None ->
  time_in_secs (u32 (t1 (m_port s) - t0 (m_port s))) < 10 ->
  exists l1 l2 k, conclude port_sizes version s =
    Ok 0 (upd_m (with_err k) (emit_m ((l1 ++ uart (crlf (bytes
      ("Correct operation validated. See README.md for run and reporting rules." ++ nl))) ++ l2)
      ++ [(TOHOST_ADDR, 1)]) s)).
Proof.
  intros Hv Hk Ht.
  assert (total_errors s = 0) as E0
    by (unfold total_errors, validation_errors; by rewrite Hk, (proj2 (Z.ltb_lt _ _) Ht)).
  assert (wp (conclude port_sizes version) (fun r s' => r = 0 /\ exists l1 l2 k,
    s' = upd_m (with_err k) (emit_m ((l1 ++ uart (crlf (bytes
      ("Correct operation validated. See README.md for run and reporting rules." ++ nl))) ++ l2)
      ++ [(TOHOST_ADDR, 1)]) s)) s) as Hw.
  { apply wp_conclude; [done |]. intros l1 l l2 k Hl _. split; [done |]. exists l1, l2, k.
    rewrite E0 in Hl. apply app_inj_tail in Hl as [Hl _]. by rewrite <- Hl. }
  destruct (proj1 (wp_ok _ _ _) Hw) as (r & s' & E & Hr & l1 & l2 & k & Hs).
  exists l1, l2, k. rewrite E, Hr, Hs. reflexivity.
Qed.

Lemma unknown_seeds_reported_valid_witness :
  exists l1 l2 k, conclude port_sizes (cstr "gcc") boot =
    Ok 0 (upd_m (with_err k) (emit_m ((l1 ++ uart (crlf (bytes
      ("Correct operation validated. See README.md for run and reporting rules." ++ nl))) ++ l2)
      ++ [(TOHOST_ADDR, 1)]) boot)).
Proof.
  apply (unknown_seeds_reported_valid (cstr "gcc") boot).
  - apply literal_arg_ok; vm_compute; reflexivity.
  - vm_compute. reflexivity.
  - vm_compute. reflexivity.
Defined.

(** ** Set-up *)

Lemma wp_portable_init (b : bool) (Q : option Z -> port -> Prop) p :
  (forall l, Q (if b then None else Some 1)
     (emit l (Port (trace p) (t0 p) (t1 p) (instret0 p) (instret1 p) 0 (reads p)))) ->
  wp (portable_init b) Q p.
Proof.
  intros HQ. unfold portable_init. rewrite wp_bind, wp_modify.
  rewrite wp_bind. apply wp_puts; [done | done |]. rewrite wp_bind. apply wp_puts; [done | done |].
  rewrite wp_bind. apply wp_puts; [done | done |].
  rewrite wp_bind. apply wp_put_unsigned; [done | done |]. intros ds _ _.
  rewrite wp_bind. apply wp_puts; [done | done |]. rewrite wp_ret, !emit_emit. apply HQ.
Qed.

(** The seeds the benchmark runs with. *)
Definition run_seeds (g : seeds) : Z * Z * Z :=
  let r := default_seeds (with_seeds (get_seed g 1) (get_seed g 2) (get_seed g 3) boot_results) in
  (seed1 r, seed2 r, seed3 r).

(** What the seeds must satisfy for the data to be restored by each
    iteration: distinct list indices, equal seed bytes, and no character of
    the state-machine input that the seed turns into a comma. *)
Definition seeds_ok (g : seeds) : Prop :=
  let '(a, b, _) := run_seeds g in
  NoDup (init_indices (list_size 666) a) /\ u8 a = u8 b /\
  Forall (fun c => Z.lxor c (u8 a) <> ch_comma) (0 :: alphabet).

(** The matrices of a 666-byte block at [b]. *)
Definition matrices (b : Z) : mat_params :=
  let A := align_mem b in
  let B := u32 (A + 2 * (9 * 9)) in
  MatParams 9 A B (align_mem (u32 (B + 2 * (9 * 9)))).

(** The machine is ready to run: all three algorithms, 666 bytes each. *)
Record ready (g : seeds) (base : Z) (l : list (Z * Z)) (s : machine) : Prop := {
  rd_seeds : (seed1 (m_res s), seed2 (m_res s), seed3 (m_res s)) = run_seeds g;
  rd_size : size (m_res s) = 666;
  rd_execs : execs (m_res s) = 7;
  rd_iterations : iterations (m_res s) = u32 (get_seed_32 g 4);
  rd_blocks : memblock (m_res s) = [base; u32 (base + 0); u32 (base + 666); u32 (base + 1332)];
  rd_mat : mat (m_res s) = matrices (u32 (base + 666));
  rd_list : list_ok l (rlist (m_res s)) (m_world s).1 (m_world s).2;
  rd_env : env_ok (m_world s).2
}.

Lemma wp_call_inits base a b c n id (Q : unit -> machine -> Prop) s :
  let r := m_res s in
  seed1 r = a -> seed2 r = b -> seed3 r = c -> size r = 666 -> execs r = 7 ->
  iterations r = n -> portable_id r = id ->
  memblock r = [base; u32 (base + 0); u32 (base + 666); u32 (base + 1332)] -> in_u 16 (crc r) ->
  NoDup (init_indices (list_size 666) a) -> u8 a = u8 b ->
  Forall (fun c => Z.lxor c (u8 a) <> ch_comma) (0 :: alphabet) ->
  (forall l h e, list_ok l (rlist (e_res e)) h e -> env_ok e ->
     e_res e = with_mat (matrices (u32 (base + 666))) (with_list (rlist (e_res e)) r) ->
     Q tt (Mach (m_port s) (h, e))) ->
  wp call_inits Q s.
Proof.
  destruct s as [p [h [ds r mm t]]]. unfold m_res. cbn [m_world snd e_res].
  intros Ha Hb Hc Hsz Hex Hn Hid Hblk Hcrc Hnd Hu Hal HQ.
  unfold call_inits. rewrite wp_bind, wp_res0. unfold m_res. cbn [m_world snd e_res].
  rewrite Hsz, Hex, Ha, Hb. change (truth (Z.land 7 ID_LIST)) with true.
  change (truth (Z.land 7 ID_MATRIX)) with true. change (truth (Z.land 7 ID_STATE)) with true.
  cbv iota. rewrite wp_bind, wp_bind. unfold view_list, on_world at 1. rewrite wp_zoom, wp_modify.
  cbn [m_world fst snd e_res e_mats e_text].
  rewrite wp_bind. unfold block at 1. rewrite wp_bind, wp_res0. unfold m_res. cbn [m_world snd e_res].
  rewrite Hblk, wp_oget. eexists. split; [reflexivity |].
  rewrite wp_bind. unfold on_world at 1. rewrite wp_zoom. cbn [m_world m_port].
  apply wp_core_list_init; [lia | | done |].
  { cbn [e_datas]. apply (blank_arrays 31). }
  intros pl h1 e1 l Hlok _ Er Em Et _ _. cbn [e_res e_mats e_text] in *. rewrite wp_upd0.
  unfold upd_m. cbn [m_world m_port fst snd]. rewrite Er, Em, Et.
  (* the matrix block *)
  rewrite wp_bind, wp_bind. unfold view_matrix at 1. rewrite wp_bind.
  apply wp_choose_N; [lia |]. intros N HN.
  assert (N = 9) as -> by (apply (dim_for_unique 666); [done | by unfold dim_for]).
  unfold on_world at 1. rewrite wp_zoom, wp_modify. cbn [m_world m_port fst snd e_res e_mats e_text e_datas].
  rewrite wp_bind. unfold block at 1. rewrite wp_bind, wp_res0. unfold m_res. cbn [m_world snd e_res].
  change (memblock (with_list pl r)) with (memblock r). rewrite Hblk, wp_oget.
  eexists. split; [reflexivity |].
  rewrite wp_bind. unfold on_world at 1. rewrite wp_zoom. cbn [m_world m_port].
  rewrite wp_others. unfold env_mats. rewrite wp_zoom. cbn [e_mats].
  apply (wp_core_init_matrix _ _ _ 9); [lia | done | by split_and! |]. cbn [mA mB mC].
  intros A' B' HA HB. set (seed0 := if _ =? 0 then 1 else _). intros Hv. rewrite wp_upd0. unfold upd_m.
  cbn [m_world m_port fst snd e_res e_mats e_text e_datas].
  (* the state-machine block *)
  rewrite wp_bind. unfold view_state at 1, on_world at 1. rewrite wp_zoom, wp_modify.
  cbn [m_world m_port fst snd e_res e_mats e_text e_datas].
  rewrite wp_bind. unfold block at 1. rewrite wp_bind, wp_res0. unfold m_res. cbn [m_world snd e_res].
  match goal with |- context [memblock ?x] => change (memblock x) with (memblock r) end.
  rewrite Hblk, wp_oget. eexists. split; [reflexivity |].
  unfold on_world at 1. rewrite wp_zoom. cbn [m_world m_port].
  rewrite wp_others. unfold env_text. rewrite wp_zoom.
  cbn [m_world m_port fst snd e_res e_mats e_text e_datas].
  apply (wp_init_state_ready (replicate (Z.to_nat 666) 0) a a);
    [rewrite length_replicate; lia | rewrite length_replicate; budget_lia | done |].
  rewrite length_replicate. intros txt Hlen Hterm Hrest. apply (HQ l); [| | done].
  - destruct Hlok as [L1 L2 L3 L4 L5 L6]. constructor; done.
  - unfold env_ok, mat_wf. cbn [e_res e_text e_mats mA mB mC size seed1 seed2 mat mat_N crc
      with_mat with_list]. rewrite Hsz, Hlen, Ha, Hb, HA, HB. split_and!; try done; try lia.
    apply (arr_Forall _ _ (9 * 9) (init_A seed0)); [by rewrite HA | apply Hv |].
    intros k. pose proof (init_A_range seed0 k). cint_unfold. lia.
Qed.

Lemma default_seeds_eq r a b c :
  (let r0 := default_seeds (with_seeds (seed1 r) (seed2 r) (seed3 r) boot_results) in
   (seed1 r0, seed2 r0, seed3 r0)) = (a, b, c) ->
  default_seeds r = with_seeds a b c r.
Proof.
  unfold default_seeds. cbn [seed1 seed2 seed3 with_seeds].
  destruct ((seed1 r =? 0) && (seed2 r =? 0) && (seed3 r =? 0));
    cbn [seed1 seed2 seed3 with_seeds]; [by intros [= <- <- <-] |].
  destruct ((seed1 r =? 1) && (seed2 r =? 0) && (seed3 r =? 0));
    cbn [seed1 seed2 seed3 with_seeds]; intros [= <- <- <-]; by destruct r.
Qed.

(** The fields of the results record that are read before they are written
    have their types. *)
Definition results_ok (r : core_results) : Prop := in_u 16 (crc r) /\ length (memblock r) = 4%nat.

Lemma wp_setup g base (Q : bool -> machine -> Prop) s :
  seed5_volatile g = 0 -> seeds_ok g -> results_ok (m_res s) ->
  (forall l s', ready g base l s' -> Q true s') ->
  wp (setup g base) Q s.
Proof.
  intros H5 Hs [Hcrc Hblk] HQ. unfold seeds_ok in Hs.
  destruct (run_seeds g) as [[a b] c] eqn:Eseeds. destruct Hs as (Hnd & Hu & Hal).
  unfold setup. rewrite wp_bind. unfold on_port at 1. rewrite wp_zoom.
  destruct s as [p [h [ds r mm t]]]. unfold m_res in Hcrc, Hblk.
  cbn [m_world snd e_res] in Hcrc, Hblk.
  apply wp_portable_init. intros l0. cbn [m_world].
  match goal with |- context [emit l0 ?q] => generalize (emit l0 q) end. clear p l0. intros p.
  rewrite wp_bind, wp_upd0. change (128 <? sizeof_list_head) with false. cbv iota.
  do 7 (rewrite wp_bind, wp_upd0, upd_m_upd_m). rewrite wp_bind, wp_res0.
  match goal with |- context [upd_m ?f _] => set (F := f) end.
  destruct (memblock r) as [| x0 [| x1 [| x2 [| x3 [|]]]]] eqn:Emem; try discriminate Hblk.
  assert (F r = with_err 0 (with_memory [base; x1; x2; x3] TOTAL_DATA_SIZE (with_seeds a b c
    (with_execs ALL_ALGORITHMS_MASK (with_execs 0 (with_iterations (u32 (get_seed_32 g 4))
      (with_seeds (get_seed g 1) (get_seed g 2) (get_seed g 3) (with_portable_id 1 r)))))))) as ER.
  { unfold F. rewrite (default_seeds_eq _ a b c).
    - change (get_seed_32 g 5) with (seed5_volatile g). rewrite H5.
      cbn [memblock with_seeds with_execs with_iterations with_portable_id].
      cbn. change (u32 0 =? 0) with true. cbn. rewrite Emem. reflexivity.
    - change (get_seed_32 g 5) with (seed5_volatile g). rewrite H5. exact Eseeds. }
  change (m_res (upd_m F _)) with (F r). change (upd_m F _) with (Mach p (h, Env ds (F r) mm t)).
  revert ER. generalize (F r). clear F. intros r1 ER.
  assert (execs r1 = ALL_ALGORITHMS_MASK) as -> by (rewrite ER; reflexivity).
  assert (size r1 = TOTAL_DATA_SIZE) as -> by (rewrite ER; reflexivity).
  assert (memblock r1 = [base; x1; x2; x3]) as -> by (rewrite ER; reflexivity).
  change (num_algorithms ALL_ALGORITHMS_MASK) with 3. change (3 =? 0) with false. cbv iota.
  change (TOTAL_DATA_SIZE / 3) with 666. rewrite wp_bind.
  assert (forall (R : list Z -> machine -> Prop) s,
    R [base; u32 (base + 0); u32 (base + 666); u32 (base + 1332)] s ->
    wp (assign_blocks ALL_ALGORITHMS_MASK 666 [base; x1; x2; x3]) R s) as Hassign
    by (intros R s HR; exact HR).
  apply Hassign. rewrite wp_bind, wp_upd0, wp_bind.
  assert (crc r1 = crc r) as Ecrc by (rewrite ER; reflexivity).
  assert (seed1 r1 = a /\ seed2 r1 = b /\ seed3 r1 = c) as (Ea & Eb & Ec)
    by (rewrite ER; repeat split; reflexivity).
  assert (iterations r1 = u32 (get_seed_32 g 4)) as Ei by (rewrite ER; reflexivity).
  assert (execs r1 = 7) as Ee by (rewrite ER; reflexivity). clear ER.
  apply (wp_call_inits base a b c (u32 (get_seed_32 g 4)) (portable_id r1));
    unfold upd_m, m_res; cbn [m_world snd e_res]; try done; [by cbn; rewrite Ecrc |].
  intros l h' e' Hl He Hres. rewrite wp_ret. apply (HQ l).
  constructor; unfold m_res; cbn [m_world m_port fst snd]; [| | | | | | done | done].
  - rewrite (f_equal seed1 Hres), (f_equal seed2 Hres), (f_equal seed3 Hres), Eseeds.
    cbn. by rewrite Ea, Eb, Ec.
  - by rewrite (f_equal size Hres).
  - by rewrite (f_equal execs Hres).
  - by rewrite (f_equal iterations Hres).
  - by rewrite (f_equal memblock Hres).
  - by rewrite (f_equal mat Hres).
Qed.

(** The regions lie in [lo, hi), in order, without overlap. *)
Fixpoint regions_between (lo hi : Z) (rs : list (Z * Z)) : Prop :=
  match rs with
  | [] => lo <= hi
  | (p, n) :: rs => lo <= p /\ 0 <= n /\ regions_between (p + n) hi rs
  end.

(** C19: the set-up partitions the static block.  The list cells and items,
    the matrices A, B and C (alignment included) and the state-machine input
    lie in this order inside the 2000 bytes of the static block, none
    overlapping another. *)
Theorem setup_partitions g base s :
  seed5_volatile g = 0 -> seeds_ok g -> results_ok (m_res s) ->
  0 <= base -> base + TOTAL_DATA_SIZE < 2 ^ 31 ->
  exists s1, setup g base s = Ok true s1 /\ size (m_res s1) = 666 /\
    exists b1 b3, memblock (m_res s1) !! 1%nat = Some b1 /\ memblock (m_res s1) !! 3%nat = Some b3 /\
    let N := mat_N (mat (m_res s1)) in
    regions_between base (base + TOTAL_DATA_SIZE)
      [(b1, (8 + 4) * list_size 666); (mat_A (mat (m_res s1)), 2 * (N * N));
       (mat_B (mat (m_res s1)), 2 * (N * N)); (mat_C (mat (m_res s1)), 4 * (N * N)); (b3, 666)].
Proof.
  intros H5 Hs Hr Hb Hmax.
  assert (wp (setup g base) (fun b s1 => b = true /\ exists l, ready g base l s1) s) as Hw
    by (apply wp_setup; eauto).
  destruct (proj1 (wp_ok _ _ _) Hw) as (b & s1 & E & Ht & l & Hrd).
  rewrite Ht in E. exists s1. split; [exact E |]. split; [apply Hrd |].
  rewrite (rd_blocks _ _ _ _ Hrd), (rd_mat _ _ _ _ Hrd). do 2 eexists.
  split; [reflexivity |]. split; [reflexivity |].
  change (2 ^ 31) with 2147483648 in *. unfold TOTAL_DATA_SIZE in *.
  assert (u32 (base + 0) = base /\ u32 (base + 666) = base + 666 /\ u32 (base + 1332) = base + 1332)
    as (-> & -> & ->) by (split_and!; cint_lia).
  pose proof (matrix_layout_ok 666 (base + 666) 9 ltac:(lia) ltac:(lia) ltac:(unfold dim_for; lia)) as H.
  cbv zeta in H. unfold matrices. cbv zeta. destruct H as (_ & H).
  cbn [mat_N mat_A mat_B mat_C] in *. change (list_size 666) with 31. cbn [regions_between]. lia.
Qed.

Lemma setup_partitions_witness :
  exists s1, setup (Seeds 0 0 0x66 1 0) 0x1000 boot = Ok true s1 /\ size (m_res s1) = 666 /\
    exists b1 b3, memblock (m_res s1) !! 1%nat = Some b1 /\ memblock (m_res s1) !! 3%nat = Some b3 /\
    let N := mat_N (mat (m_res s1)) in
    regions_between 0x1000 (0x1000 + TOTAL_DATA_SIZE)
      [(b1, (8 + 4) * list_size 666); (mat_A (mat (m_res s1)), 2 * (N * N));
       (mat_B (mat (m_res s1)), 2 * (N * N)); (mat_C (mat (m_res s1)), 4 * (N * N)); (b3, 666)].
Proof.
  apply (setup_partitions (Seeds 0 0 0x66 1 0) 0x1000 boot).
  - reflexivity.
  - split; [| split]; [apply (bool_decide_unpack _); vm_compute; exact I | reflexivity |].
    repeat constructor; vm_compute; discriminate.
  - split; [cbn; cint_unfold; lia | reflexivity].
  - lia.
  - reflexivity.
Defined.

(** *** No algorithm selected *)

Lemma bind_ok {S A B} (m : M S A) (f : A -> M S B) s a s' : m s = Ok a s' -> bind m f s = f a s'.
Proof. intros E. unfold bind. by rewrite E. Qed.

Lemma selected_none x i : Z.land 7 x = 0 -> 0 <= i < 3 -> selected i x = false.
Proof.
  intros H Hi. unfold selected.
  assert (i = 0 \/ i = 1 \/ i = 2) as [-> | [-> | ->]] by lia; cbn [Z.shiftl];
    [change (Z.shiftl 1 0) with (Z.land 1 7) | change (Z.shiftl 1 1) with (Z.land 2 7)
    | change (Z.shiftl 1 2) with (Z.land 4 7)]; by rewrite <- Z.land_assoc, H.
Qed.

Lemma num_algorithms_none x : Z.land 7 x = 0 -> num_algorithms x = 0.
Proof. intros H. unfold num_algorithms. cbn. by rewrite !selected_none by (done || lia). Qed.

Lemma execs_default_seeds r : execs (default_seeds r) = execs r.
Proof. unfold default_seeds. by destruct (_ && _); destruct (_ && _). Qed.

(** A selection without one of the three algorithm bits divides by zero.
    When seed 5 is not zero but selects none of the three algorithms, the
    set-up reaches the division of the block size by the number of
    algorithms with a zero divisor. *)
Theorem setup_no_algorithm_faults g base s :
  u32 (seed5_volatile g) <> 0 -> Z.land 7 (u32 (seed5_volatile g)) = 0 ->
  setup g base s = Err DivByZero.
Proof.
  intros Hne Hland. unfold setup.
  assert (exists v p, portable_init false (m_port s) = Ok v p) as (v & p & E).
  { assert (wp (portable_init false) (fun _ _ => True) (m_port s)) as Hw
      by (by apply wp_portable_init).
    apply wp_ok in Hw as (v & p & E & _). eauto. }
  rewrite (bind_ok _ _ s v (Mach p (m_world s))) by (unfold on_port, zoom; by rewrite E).
  change (128 <? sizeof_list_head) with false. cbv iota.
  do 8 (rewrite (bind_ok (upd0 _) _ _ tt (upd_m _ _)) by reflexivity; rewrite ?upd_m_upd_m).
  match goal with |- bind res0 _ ?t = _ => rewrite (bind_ok res0 _ t (m_res t) t) by (by destruct t as [? []]) end.
  cbv zeta.
  match goal with |- context [num_algorithms ?x] =>
    assert (x = u32 (seed5_volatile g)) as -> end.
  { unfold m_res, upd_m. cbn [m_world snd e_res]. cbn [execs with_err with_memory].
    rewrite execs_default_seeds. cbn [execs with_execs].
    change (get_seed_32 g 5) with (seed5_volatile g). by rewrite (proj2 (Z.eqb_neq _ _)). }
  by rewrite num_algorithms_none.
Qed.

Lemma setup_no_algorithm_faults_witness : setup (Seeds 0 0 0x66 1 8) 0x1000 boot = Err DivByZero.
Proof.
  apply (setup_no_algorithm_faults (Seeds 0 0 0x66 1 8) 0x1000 boot); vm_compute;
    [discriminate | reflexivity].
Defined.

(** ** The timed run and [main] *)

Lemma wp_start_time c i (Q : unit -> port -> Prop) p :
  (forall p', t0 p' = u32 (c (reads p)) -> reads p' = (2 + reads p)%nat -> Q tt p') ->
  wp (start_time c i) Q p.
Proof.
  intros HQ. cbv [wp bind ret gets modify start_time read_cycle32 read_instret32]. by apply HQ.
Qed.

Lemma wp_stop_time c i (Q : unit -> port -> Prop) p :
  (forall p', t0 p' = t0 p -> t1 p' = u32 (c (reads p)) -> reads p' = (2 + reads p)%nat -> Q tt p') ->
  wp (stop_time c i) Q p.
Proof.
  intros HQ. cbv [wp bind ret gets modify stop_time read_cycle32 read_instret32]. by apply HQ.
Qed.

Lemma u32_sub_u32 a b : u32 (u32 a - u32 b) = u32 (a - b).
Proof. rewrite !u32_mod. by rewrite <- Zminus_mod. Qed.

(** The ticks between the start and the stop of a run whose first reading of
    the counters has the number [r]: the first and the third reading. *)
Definition ticks (rdcycle : nat -> Z) (r : nat) : Z := u32 (rdcycle (2 + r)%nat - rdcycle r).

Lemma wp_timed_run c i l (Q : unit -> machine -> Prop) p h e :
  list_ok l (rlist (e_res e)) h e -> env_ok e -> in_u 32 (iterations (e_res e)) ->
  (forall p' e', u32 (t1 p' - t0 p') = ticks c (reads p) -> reads p' = (4 + reads p)%nat ->
     same_data e e' -> list_ok l (rlist (e_res e')) h e' /\ env_ok e' ->
     (0 < iterations (e_res e) -> exists e1, iterate_body 0 (h, reset_crcs e) = Ok tt (h, e1) /\
        recorded (e_res e1) (e_res e')) -> Q tt (Mach p' (h, e'))) ->
  wp (timed_run c i) Q (Mach p (h, e)).
Proof.
  intros Hl He Hn HQ.
  unfold timed_run. rewrite wp_bind. unfold on_port at 1. rewrite wp_zoom.
  apply wp_start_time. intros p1 E0 Er. rewrite wp_bind. unfold on_world. rewrite wp_zoom.
  cbn [m_world m_port]. apply (wp_iterate l); [done | done |]. intros e' Hsd Hok Hrec.
  unfold on_port. rewrite wp_zoom. cbn [m_world m_port]. apply wp_stop_time. intros p2 E0' E1 Er2.
  apply HQ; [| by rewrite Er2, Er | done..]. rewrite E1, E0', E0, Er. apply u32_sub_u32.
Qed.

Lemma wp_step {S A B} (m : M S A) (f : A -> M S B) (Q : B -> S -> Prop) a s s' :
  m s = Ok a s' -> wp (f a) Q s' -> wp (bind m f) Q s.
Proof. intros E H. rewrite wp_bind. unfold wp at 1. by rewrite E. Qed.

(** With the iteration count set, it is kept. *)
Lemma wp_determine_iterations c i (Q : unit -> machine -> Prop) s :
  iterations (m_res s) <> 0 -> Q tt s -> wp (determine_iterations c i) Q s.
Proof.
  intros Hn HQ. unfold determine_iterations.
  rewrite wp_bind, wp_res0, (proj2 (Z.eqb_neq _ _) Hn), wp_ret. exact HQ.
Qed.

(** The report [tr] of a run that began with the port [p] and ended in [s]: the
    time that passed, and the closing message. *)
Definition reported (rdcycle : nat -> Z) (p : port) (s : machine) (tr : mmio_trace) : Prop :=
  u32 (t1 (m_port s) - t0 (m_port s)) = ticks rdcycle (reads p) /\
  exists l1 l l2, tr = l1 ++ uart (crlf l) ++ l2 /\ verdict_text (total_errors s) = l ++ [0].

Section run.
Context (rdcycle rdinstret : nat -> Z) (g : seeds) (base : Z) (version : list Z).
Context (Hversion : arg_ok (VStr (Some version))) (Hseed5 : seed5_volatile g = 0)
        (Hseeds : seeds_ok g) (Hcount : u32 (get_seed_32 g 4) <> 0).

Lemma setup_ready s :
  results_ok (m_res s) -> exists l p h e,
    setup g base s = Ok true (Mach p (h, e)) /\ ready g base l (Mach p (h, e)).
Proof.
  intros Hcrc.
  assert (wp (setup g base) (fun b s1 => b = true /\ exists l, ready g base l s1) s) as Hw
    by (apply wp_setup; eauto).
  destruct (proj1 (wp_ok _ _ _) Hw) as (b & [p [h e]] & E & Hb & l & Hr). exists l, p, h, e.
  rewrite Hb in E. split; [exact E | exact Hr].
Qed.

(** [main], from the machine the set-up leaves: what is known when it
    reaches the endless loop of [portable_fini]. *)
Lemma wp_main (Q : Z -> machine -> Prop) s :
  results_ok (m_res s) ->
  (forall l p1 h e e1 e' tr k p, setup g base s = Ok true (Mach p1 (h, e)) ->
     ready g base l (Mach p1 (h, e)) ->
     iterate_body 0 (h, reset_crcs e) = Ok tt (h, e1) ->
     recorded (e_res e1) (e_res e') -> same_data e e' -> list_ok l (rlist (e_res e')) h e' ->
     (forall id msg, known_run (seed_crc (e_res e')) = Some (id, msg) -> k = crc_errors (e_res e') id) ->
     reported rdcycle p1 (Mach p (h, e')) tr ->
     Q 0 (upd_m (with_err k) (emit_m (tr ++ [(TOHOST_ADDR, 1)]) (Mach p (h, e'))))) ->
  wp (main rdcycle rdinstret g port_sizes base version) Q s.
Proof.
  intros Hcrc HQ. destruct (setup_ready s Hcrc) as (l & p1 & h & e & E1 & Hr).
  pose proof (rd_iterations _ _ _ _ Hr) as Hit. unfold m_res in Hit. cbn [m_world snd] in Hit.
  assert (in_u 32 (iterations (e_res e))) as Hn by (rewrite Hit; by apply uwrap_range).
  unfold main. eapply wp_step; [exact E1 |]. cbn [negb]. rewrite wp_bind.
  apply wp_determine_iterations; [unfold m_res; cbn [m_world snd]; congruence |].
  rewrite wp_bind. apply (wp_timed_run _ _ l);
    [exact (rd_list _ _ _ _ Hr) | exact (rd_env _ _ _ _ Hr) | exact Hn |].
  intros p' e' Htk _ Hsd [Hl He] Hrec.
  destruct Hrec as (e1 & Eb & Hrec); [unfold in_u in Hn; lia |].
  apply (wp_conclude version); [exact Hversion |]. intros l1 l0 l2 k Hv Hk.
  refine (HQ l p1 h e e1 e' (l1 ++ uart (crlf l0) ++ l2) k p' E1 Hr Eb Hrec Hsd Hl Hk _).
  split; [exact Htk |]. exists l1, l0, l2. split; [reflexivity | exact Hv].
Qed.
End run.
