(* ===== verification/Validation.v ===== *)
(** * Whole runs

    [main] ends, for all seeds that allow the data to be restored; the
    configuration of this port reproduces the known CRCs for every iteration
    count and every clock; and the other small entry of the table of known
    CRCs is reproduced by execution. *)

From Stdlib Require Import String ZArith Lia.
From stdpp Require Import base list gmap numbers.
From S2P Require Import Prelude Crc StateMachine StateBench PortMem Matrix ListHeap MergeSort.
From S2P Require Import ListBench ListItems ListRestore ListInit PortIO Util Port Printf Main Driver.

Local Open Scope Z_scope.
Local Open Scope cm_scope.

(** The list cells, the items, the state-machine input and matrices A and B
    of two machines are the same. *)
Definition same_benchmark (s s' : machine) : Prop :=
  (m_world s').1 = (m_world s).1 /\ e_datas (m_world s').2 = e_datas (m_world s).2 /\
  e_text (m_world s').2 = e_text (m_world s).2 /\
  mA (e_mats (m_world s').2) = mA (e_mats (m_world s).2) /\
  mB (e_mats (m_world s').2) = mB (e_mats (m_world s).2) /\
  rlist (m_res s') = rlist (m_res s).

(** C7: [main] runs to completion.  For all counter readings, all seeds that
    satisfy [seeds_ok] with a non-zero iteration count, wherever the static
    block lies and whatever the machine held before, the set-up succeeds, and
    [main] meets no fault and ends, its last MMIO write being tohost = 1, with
    the list, the state-machine input and matrices A and B as the set-up made
    them. *)
Theorem main_completes rdcycle rdinstret g base version s :
  arg_ok (VStr (Some version)) -> seed5_volatile g = 0 -> seeds_ok g ->
  u32 (get_seed_32 g 4) <> 0 -> results_ok (m_res s) ->
  exists s1 s', setup g base s = Ok true s1 /\
    main rdcycle rdinstret g port_sizes base version s = Ok 0 s' /\
    list.last (trace (m_port s')) = Some (TOHOST_ADDR, 1) /\ same_benchmark s1 s'.
Proof.
  intros Hv H5 Hs Hn Hc.
  assert (wp (main rdcycle rdinstret g port_sizes base version) (fun r s' => r = 0 /\ exists s1,
    setup g base s = Ok true s1 /\
    list.last (trace (m_port s')) = Some (TOHOST_ADDR, 1) /\ same_benchmark s1 s') s) as Hw.
  { apply wp_main; [exact Hv | exact H5 | exact Hs | exact Hn | exact Hc |].
    intros l p1 h e e1 e' tr k p E _ _ _ (Hd & Ht & HA & HB & _ & Hr) _ _ _.
    split; [reflexivity |]. eexists. split; [exact E |]. split.
    - cbn. by rewrite app_assoc, last_snoc.
    - unfold out_frame in Hr. unfold same_benchmark, m_res, upd_m, emit_m. cbn.
      rewrite (f_equal rlist Hr). repeat split; assumption. }
  destruct (proj1 (wp_ok _ _ _) Hw) as (r & s' & E & Hr & s1 & E1 & H). exists s1, s'.
  rewrite Hr in E. split; [exact E1 |]. split; [exact E | exact H].
Qed.

Lemma port_seeds_ok n : seeds_ok (Seeds 0x3415 0x3415 0x66 n 0).
Proof.
  split; [| split].
  - apply (bool_decide_unpack _). vm_compute. exact I.
  - reflexivity.
  - repeat constructor; vm_compute; discriminate.
Qed.

Lemma main_completes_witness :
  exists s1 s', setup port_seeds 0x1000 boot = Ok true s1 /\
    main (fun n => 1000 * Z.of_nat n) (fun n => 873 * Z.of_nat n) port_seeds port_sizes
      0x1000 (cstr "gcc") boot = Ok 0 s' /\
    list.last (trace (m_port s')) = Some (TOHOST_ADDR, 1) /\ same_benchmark s1 s'.
Proof.
  apply (main_completes (fun n => 1000 * Z.of_nat n) (fun n => 873 * Z.of_nat n) port_seeds 0x1000
    (cstr "gcc") boot).
  - apply literal_arg_ok; vm_compute; reflexivity.
  - reflexivity.
  - apply port_seeds_ok.
  - vm_compute. discriminate.
  - split; [cbn; cint_unfold; lia | reflexivity].
Defined.

(** The seed CRC and the CRCs recorded by the first iteration from a machine
    that was set up. *)
Definition first_crcs (o : outcome machine bool) : option (Z * Z * Z * Z) :=
  match o with
  | Ok true (Mach _ (h, e)) =>
      match iterate_body 0 (h, reset_crcs e) with
      | Ok _ w => Some (seed_crc (e_res w.2), crclist (e_res w.2), crcmatrix (e_res w.2),
                        crcstate (e_res w.2))
      | Err _ => None
      end
  | _ => None
  end.

Lemma first_crcs_eq p h e e1 :
  iterate_body 0 (h, reset_crcs e) = Ok tt (h, e1) ->
  first_crcs (Ok true (Mach p (h, e))) =
    Some (seed_crc (e_res e1), crclist (e_res e1), crcmatrix (e_res e1), crcstate (e_res e1)).
Proof. intros E. cbn [first_crcs]. rewrite E. cbn [snd]. reflexivity. Qed.

(** The seeds of the two 2K runs of CoreMark. *)
Definition performance_seeds (n : Z) : seeds := Seeds 0 0 0x66 n 0.
Definition validation_seeds (n : Z) : seeds := Seeds 0x3415 0x3415 0x66 n 0.

Lemma performance_seeds_ok n : seeds_ok (performance_seeds n).
Proof.
  split; [| split].
  - apply (bool_decide_unpack _). vm_compute. exact I.
  - reflexivity.
  - repeat constructor; vm_compute; discriminate.
Qed.

Lemma validation_first_iteration n base :
  first_crcs (setup (validation_seeds n) base boot) = Some (0x18f2, 0xe3c1, 0x0747, 0x8d84).
Proof. vm_compute. reflexivity. Qed.

Lemma performance_first_iteration n base :
  first_crcs (setup (performance_seeds n) base boot) = Some (0xe9f5, 0xe714, 0x1fd7, 0x8e3a).
Proof. vm_compute. reflexivity. Qed.

Lemma with_err_frame k r id :
  seed_crc (with_err k r) = seed_crc r /\ crc_errors (with_err k r) id = crc_errors r id.
Proof. split; unfold seed_crc, crc_errors; cbn [seed1 seed2 seed3 size execs crclist crcmatrix crcstate
  with_err]; reflexivity. Qed.

Lemma same_data_seed_crc e e' : same_data e e' -> seed_crc (e_res e') = seed_crc (e_res e).
Proof.
  intros (_ & _ & _ & _ & _ & F). unfold out_frame in F. rewrite F.
  unfold seed_crc. cbn [seed1 seed2 seed3 size]. reflexivity.
Qed.

Lemma same_data_execs e e' : same_data e e' -> execs (e_res e') = execs (e_res e).
Proof. intros (_ & _ & _ & _ & _ & F). unfold out_frame in F. rewrite F. reflexivity. Qed.

Lemma iterate_body_same_data g base l p h e e1 :
  ready g base l (Mach p (h, e)) -> iterate_body 0 (h, reset_crcs e) = Ok tt (h, e1) ->
  same_data e e1.
Proof.
  intros Hr E.
  assert (list_ok l (rlist (e_res (reset_crcs e))) h (reset_crcs e) /\ env_ok (reset_crcs e)) as Hok.
  { apply (same_data_ok l h e); [by repeat split | cint_unfold; cbn; lia |].
    split; [exact (rd_list _ _ _ _ Hr) | exact (rd_env _ _ _ _ Hr)]. }
  assert (wp (iterate_body 0) (fun _ w => same_data (reset_crcs e) w.2) (h, reset_crcs e)) as Hw.
  { apply (wp_iterate_body 0 l); [exact Hok |]. intros e' Hsd _ _. exact Hsd. }
  unfold wp in Hw. rewrite E in Hw. etransitivity; [| exact Hw]. by repeat split.
Qed.

Lemma total_errors_frame k tr s : total_errors (upd_m (with_err k) (emit_m tr s)) = total_errors s.
Proof.
  unfold total_errors, validation_errors. change (m_res (upd_m _ _)) with (with_err k (m_res s)).
  change (t1 (m_port (upd_m _ _))) with (t1 (m_port s)).
  change (t0 (m_port (upd_m _ _))) with (t0 (m_port s)).
  rewrite (proj1 (with_err_frame k (m_res s) 0)).
  by destruct (known_run _) as [[id msg] |]; [rewrite (proj2 (with_err_frame k (m_res s) id)) |].
Qed.

(** The set-up does not read the counters. *)
Lemma setup_reads g base s b s' :
  setup g base s = Ok b s' -> reads (m_port s') = reads (m_port s).
Proof.
  intros E. refine (keeps_ok (fun s1 => reads (m_port s1) = reads (m_port s)) (setup g base) s b s' _ eq_refl E).
  assert (forall A (m : M world A), keeps (fun s1 => reads (m_port s1) = reads (m_port s)) (on_world m))
    as Hw by (intros A m; by apply keeps_zoom_frame).
  assert (keeps (fun s1 => reads (m_port s1) = reads (m_port s)) (on_port (portable_init false))) as Hp.
  { apply (keeps_zoom _ (fun p => reads p = reads (m_port s))); [done | done |].
    unfold portable_init. apply keeps_bind; [by apply keeps_modify | intros _]. cbv zeta.
    do 5 (apply keeps_bind; [by apply keeps_zoom_frame | intros _]). apply keeps_ret. }
  unfold setup, assign_blocks, call_inits, view_list, view_matrix, view_state, block, choose_N, res0, upd0.
  change (128 <? sizeof_list_head) with false. cbv iota. keeps_solve; auto.
Qed.

(** The CRCs of the first iteration, when none of the recorded ones is zero,
    are the CRCs of the whole run. *)
Lemma main_crcs rdcycle rdinstret g base version sc cl cm cs id msg :
  arg_ok (VStr (Some version)) -> seed5_volatile g = 0 -> seeds_ok g ->
  u32 (get_seed_32 g 4) <> 0 -> first_crcs (setup g base boot) = Some (sc, cl, cm, cs) ->
  cm <> 0 -> cs <> 0 -> known_run sc = Some (id, msg) ->
  exists s', main rdcycle rdinstret g port_sizes base version boot = Ok 0 s' /\
    seed_crc (m_res s') = sc /\ crclist (m_res s') = cl /\ crcmatrix (m_res s') = cm /\
    crcstate (m_res s') = cs /\ execs (m_res s') = 7 /\ err (m_res s') = crc_errors (m_res s') id /\
    u32 (t1 (m_port s') - t0 (m_port s')) = u32 (rdcycle 2%nat - rdcycle 0%nat) /\
    exists l1 l l2, trace (m_port s') = (l1 ++ uart (crlf l) ++ l2) ++ [(TOHOST_ADDR, 1)] /\
      verdict_text (total_errors s') = l ++ [0].
Proof.
  intros Hv H5 Hs Hn Hf Hcm Hcs Hk.
  assert (wp (main rdcycle rdinstret g port_sizes base version) (fun r s' => r = 0 /\
    (seed_crc (m_res s') = sc /\ crclist (m_res s') = cl /\ crcmatrix (m_res s') = cm /\
     crcstate (m_res s') = cs /\ execs (m_res s') = 7 /\ err (m_res s') = crc_errors (m_res s') id /\
     u32 (t1 (m_port s') - t0 (m_port s')) = u32 (rdcycle 2%nat - rdcycle 0%nat) /\
     exists l1 l l2, trace (m_port s') = (l1 ++ uart (crlf l) ++ l2) ++ [(TOHOST_ADDR, 1)] /\
       verdict_text (total_errors s') = l ++ [0])) boot) as Hw.
  { apply wp_main; [exact Hv | exact H5 | exact Hs | exact Hn | split; [cbn; cint_unfold; lia | reflexivity] |].
    intros l p1 h e e1 e' tr k p E Hr Eb (Hl & Hm & Ht) Hsd _ Herr (Htk & l1 & l0 & l2 & Etr & Ev).
    split; [reflexivity |].
    pose proof (iterate_body_same_data _ _ _ _ _ _ _ Hr Eb) as Hsd1.
    pose proof (rd_execs _ _ _ _ Hr) as Hex.
    rewrite E, (first_crcs_eq _ _ _ _ Eb) in Hf. injection Hf as F1 F2 F3 F4.
    pose proof (same_data_seed_crc _ _ Hsd) as Hc. pose proof (same_data_seed_crc _ _ Hsd1) as Hc1.
    pose proof (same_data_execs _ _ Hsd) as Hx. pose proof (with_err_frame k (e_res e') id) as [W1 W2].
    change (m_res (upd_m _ _)) with (with_err k (e_res e')). change (m_res _) with (e_res e) in Hex.
    rewrite W1, W2. cbn [crclist crcmatrix crcstate execs err with_err].
    split; [congruence |]. split; [congruence |]. split; [rewrite Hm; congruence |].
    split; [rewrite Ht; congruence |]. split; [congruence |].
    split; [apply (Herr id msg); congruence |]. split.
    - refine (eq_trans Htk _). unfold ticks. by rewrite (setup_reads _ _ _ _ _ E : reads p1 = 0%nat).
    - exists (trace p ++ l1), l0, l2. split; [rewrite Etr; cbn; by rewrite <- !app_assoc |].
      by rewrite total_errors_frame. }
  destruct (proj1 (wp_ok _ _ _) Hw) as (r & s' & E & Hr & H). exists s'.
  rewrite Hr in E. split; [exact E | exact H].
Qed.

(** The seeds of a 2K run. *)
Definition run_2k (validation : bool) (n : Z) : seeds :=
  if validation then validation_seeds n else performance_seeds n.

(** What a 2K run records and reports. *)
Lemma run_2k_crcs (validation : bool) rdcycle rdinstret n base version :
  arg_ok (VStr (Some version)) -> u32 n <> 0 ->
  exists s' id, main rdcycle rdinstret (run_2k validation n) port_sizes base version boot = Ok 0 s' /\
    known_run (seed_crc (m_res s')) = Some id /\
    (list_known_crc !! Z.to_nat id.1 = Some (crclist (m_res s')) /\
     matrix_known_crc !! Z.to_nat id.1 = Some (crcmatrix (m_res s')) /\
     state_known_crc !! Z.to_nat id.1 = Some (crcstate (m_res s'))) /\
    err (m_res s') = 0 /\ validation_errors (m_res s') = 0 /\
    u32 (t1 (m_port s') - t0 (m_port s')) = u32 (rdcycle 2%nat - rdcycle 0%nat) /\
    exists l1 l l2, trace (m_port s') = (l1 ++ uart (crlf l) ++ l2) ++ [(TOHOST_ADDR, 1)] /\
      verdict_text (total_errors s') = l ++ [0].
Proof.
  intros Hv Hn. destruct validation; unfold run_2k.
  - destruct (main_crcs rdcycle rdinstret (validation_seeds n) base version _ _ _ _ 4 _ Hv
      (eq_refl : seed5_volatile (Seeds _ _ _ _ 0) = 0) (port_seeds_ok n) Hn
      (validation_first_iteration n base) ltac:(discriminate) ltac:(discriminate) eq_refl)
      as (s' & E & Hc & Hl & Hm & Ht & Hx & He & Hr).
    unfold crc_errors in He. rewrite Hl, Hm, Ht, Hx in He.
    exists s'. eexists. split; [exact E |]. unfold validation_errors, crc_errors.
    rewrite He, Hc, Hl, Hm, Ht, Hx. split; [reflexivity |]. split; [repeat split |].
    split; [reflexivity |]. split; [reflexivity | exact Hr].
  - destruct (main_crcs rdcycle rdinstret (performance_seeds n) base version _ _ _ _ 3 _ Hv
      (eq_refl : seed5_volatile (Seeds _ _ _ _ 0) = 0) (performance_seeds_ok n) Hn
      (performance_first_iteration n base) ltac:(discriminate) ltac:(discriminate) eq_refl)
      as (s' & E & Hc & Hl & Hm & Ht & Hx & He & Hr).
    unfold crc_errors in He. rewrite Hl, Hm, Ht, Hx in He.
    exists s'. eexists. split; [exact E |]. unfold validation_errors, crc_errors.
    rewrite He, Hc, Hl, Hm, Ht, Hx. split; [reflexivity |]. split; [repeat split |].
    split; [reflexivity |]. split; [reflexivity | exact Hr].
Qed.

(** A 2K run of at least ten seconds has no error to report. *)
Lemma total_errors_2k (validation : bool) rdcycle rdinstret n base version s' :
  arg_ok (VStr (Some version)) -> u32 n <> 0 ->
  main rdcycle rdinstret (run_2k validation n) port_sizes base version boot = Ok 0 s' ->
  10 <= time_in_secs (u32 (rdcycle 2%nat - rdcycle 0%nat)) -> total_errors s' = 0.
Proof.
  intros Hv Hn Em Ht. destruct (run_2k_crcs validation rdcycle rdinstret n base version Hv Hn)
    as (s1 & id & E & _ & _ & _ & He & Hticks & _).
  assert (s1 = s') as ->. { rewrite E in Em. by injection Em. }
  unfold total_errors. rewrite He, Hticks, (proj2 (Z.ltb_ge _ _) Ht). reflexivity.
Qed.

(** The errors a 2K run reports are about its duration only. *)
Lemma run_2k_reports (validation : bool) rdcycle rdinstret n base version :
  arg_ok (VStr (Some version)) -> u32 n <> 0 ->
  exists s' l1 l l2, main rdcycle rdinstret (run_2k validation n) port_sizes base version boot = Ok 0 s' /\
    trace (m_port s') = (l1 ++ uart (crlf l) ++ l2) ++ [(TOHOST_ADDR, 1)] /\
    verdict_text (if time_in_secs (u32 (rdcycle 2%nat - rdcycle 0%nat)) <? 10 then 1 else 0) = l ++ [0].
Proof.
  intros Hv Hn. destruct (run_2k_crcs validation rdcycle rdinstret n base version Hv Hn)
    as (s' & id & E & _ & _ & _ & He & Ht & l1 & l & l2 & Etr & Ev).
  exists s', l1, l, l2. split; [exact E |]. split; [exact Etr |].
  rewrite <- Ev. unfold total_errors. by rewrite He, Ht.
Qed.

(** C1: the 2K runs of CoreMark validate.  With the performance seeds or the
    validation seeds, for every iteration count other than zero, every
    behaviour of the cycle and instruction counters and every address of the
    static block, [main] ends having recorded exactly the CRCs of the table of
    known results, and with no error counted. *)
Theorem main_known_runs (validation : bool) rdcycle rdinstret n base version :
  arg_ok (VStr (Some version)) -> u32 n <> 0 ->
  exists s',
    main rdcycle rdinstret (if validation then validation_seeds n else performance_seeds n)
      port_sizes base version boot = Ok 0 s' /\
    err (m_res s') = 0 /\
    exists id, known_run (seed_crc (m_res s')) = Some id /\
      list_known_crc !! Z.to_nat id.1 = Some (crclist (m_res s')) /\
      matrix_known_crc !! Z.to_nat id.1 = Some (crcmatrix (m_res s')) /\
      state_known_crc !! Z.to_nat id.1 = Some (crcstate (m_res s')).
Proof.
  intros Hv Hn. destruct (run_2k_crcs validation rdcycle rdinstret n base version Hv Hn)
    as (s' & id & E & Hk & Hcrc & He & _).
  exists s'. split; [exact E |]. split; [exact He |]. exists id. split; [exact Hk | exact Hcrc].
Qed.

Lemma main_known_runs_witness :
  exists s',
    main (fun n => 1000 * Z.of_nat n) (fun n => 873 * Z.of_nat n) (validation_seeds 400)
      port_sizes 0x1000 (cstr "gcc") boot = Ok 0 s' /\
    err (m_res s') = 0 /\
    exists id, known_run (seed_crc (m_res s')) = Some id /\
      list_known_crc !! Z.to_nat id.1 = Some (crclist (m_res s')) /\
      matrix_known_crc !! Z.to_nat id.1 = Some (crcmatrix (m_res s')) /\
      state_known_crc !! Z.to_nat id.1 = Some (crcstate (m_res s')).
Proof.
  apply (main_known_runs true (fun n => 1000 * Z.of_nat n) (fun n => 873 * Z.of_nat n) 400 0x1000
    (cstr "gcc")).
  - apply literal_arg_ok; vm_compute; reflexivity.
  - vm_compute. discriminate.
Defined.
