(* ===== verification/Calibrate.v ===== *)
(** * The automatic choice of the iteration count: core_main.c

    With an iteration count of zero, [main] first runs 10, 100, 1000, ...
    iterations until a run takes a second, and then sets the count for the
    actual run. *)

From Stdlib Require Import String ZArith Lia.
From stdpp Require Import base list gmap numbers.
From S2P Require Import Prelude Crc StateMachine StateBench PortMem Matrix ListHeap MergeSort.
From S2P Require Import ListBench ListItems ListRestore ListInit PortIO Util Port Printf Main Driver.
From S2P Require Import Validation.

Local Open Scope Z_scope.
Local Open Scope cm_scope.

(** The benchmark data, with another iteration count. *)
Definition with_count (n : Z) (e : env) : env :=
  Env (e_datas e) (with_iterations n (e_res e)) (e_mats e) (e_text e).

Lemma with_count_ok n l h e :
  list_ok l (rlist (e_res e)) h e -> env_ok e ->
  list_ok l (rlist (e_res (with_count n e))) h (with_count n e) /\ env_ok (with_count n e).
Proof. intros [H1 H2 H3 H4 H5 H6] He. split; [by constructor | exact He]. Qed.

Lemma same_data_count n e e' : same_data e e' -> same_data (with_count n e) (with_count n e').
Proof.
  intros (H1 & H2 & H3 & H4 & H5 & F). split_and!; try done. unfold out_frame in *.
  cbn [with_count e_res]. destruct (e_res e), (e_res e'). cbn in *.
  by injection F as -> -> -> -> -> _ -> -> -> -> ->.
Qed.

Section calibrate.
Context (rdcycle rdinstret : nat -> Z).

(** The seconds that the [k]-th trial run takes, when the first reading of the
    counters has the number [r]. *)
Definition trial (r k : nat) : Z := time_in_secs (ticks rdcycle (r + 4 * k)).

(** The trials end with number [K]. *)
Definition trials_end (r K : nat) : Prop :=
  (forall k, (k < K)%nat -> trial r k = 0) /\ 1 <= trial r K.

(** The iteration count they give. *)
Definition calibrated (r K : nat) : Z :=
  u32 (u32 (10 ^ Z.of_nat (S K)) * u32 (1 + 10 / trial r K)).

Lemma u32_mul_10 k : u32 (u32 (10 ^ Z.of_nat k) * 10) = u32 (10 ^ Z.of_nat (S k)).
Proof.
  rewrite !u32_mod, Nat2Z.inj_succ, Z.pow_succ_r by lia.
  by rewrite Zmult_mod_idemp_l, (Z.mul_comm 10).
Qed.

Lemma same_data_iterations e e' : same_data e e' -> iterations (e_res e') = iterations (e_res e).
Proof. intros (_ & _ & _ & _ & _ & F). exact (f_equal iterations F). Qed.

(** The machine in the middle of the trials, [k] of them done; [m] is left. *)
Definition trying (r K : nat) l h e (m : nat) (secs : Z) (s : machine) : Prop :=
  exists k p1 e1, s = Mach p1 (h, e1) /\ reads p1 = (r + 4 * k)%nat /\
    same_data (with_count (u32 (10 ^ Z.of_nat k)) e) e1 /\
    (list_ok l (rlist (e_res e1)) h e1 /\ env_ok e1) /\
    ((k <= K)%nat /\ m = S (K - k) /\ secs = 0 \/ k = S K /\ m = 0%nat /\ secs = trial r K).

Lemma wp_trial r K l h e m (Q : Z -> machine -> Prop) s :
  trials_end r K -> trying r K l h e (S m) 0 s ->
  (forall secs m' s', (m' <= m)%nat -> trying r K l h e m' secs s' -> Q secs s') ->
  wp (upd0 (fun r => with_iterations (u32 (iterations r * 10)) r) ;;
      timed_run rdcycle rdinstret ;;
      let! t := on_port get_time in ret (time_in_secs t)) Q s.
Proof.
  intros [Hz HK] (k & p1 & e1 & -> & Hrd & Hsd & [Hl1 He1] & [(Hk & Em & _) | (_ & ? & _)]) HQ; [| done].
  injection Em as ->. rewrite wp_bind, wp_upd0, wp_bind.
  set (n := u32 (iterations (e_res e1) * 10)).
  assert (n = u32 (10 ^ Z.of_nat (S k))) as En
    by (unfold n; rewrite (same_data_iterations _ _ Hsd); apply u32_mul_10).
  change (upd_m _ _) with (Mach p1 (h, with_count n e1)).
  destruct (with_count_ok n l h e1 Hl1 He1) as [Hl2 He2].
  apply (wp_timed_run _ _ l); [exact Hl2 | exact He2 | by apply uwrap_range |].
  intros p2 e2 Ht Hrd2 Hsd2 Hok2 _. rewrite wp_bind. unfold on_port, get_time. rewrite wp_zoom, wp_gets.
  rewrite wp_ret. cbn [m_port m_world]. rewrite Ht, Hrd. fold (trial r k).
  assert (same_data (with_count (u32 (10 ^ Z.of_nat (S k))) e) e2) as Hsd3.
  { etransitivity; [| exact Hsd2]. rewrite En.
    exact (same_data_count (u32 (10 ^ Z.of_nat (S k))) _ _ Hsd). }
  destruct (decide (k = K)) as [-> | Hne].
  - apply (HQ _ 0%nat); [lia |]. exists (S K), p2, e2. split; [done |]. split; [lia |].
    split; [exact Hsd3 |]. split; [exact Hok2 | by right].
  - apply (HQ _ (K - k)%nat); [lia |]. exists (S k), p2, e2. split; [done |]. split; [lia |].
    split; [exact Hsd3 |]. split; [exact Hok2 |]. left. split; [lia |]. split; [lia |]. apply Hz. lia.
Qed.

Lemma wp_determine_calibrated r K l (Q : unit -> machine -> Prop) p h e :
  list_ok l (rlist (e_res e)) h e -> env_ok e -> iterations (e_res e) = 0 -> reads p = r ->
  trials_end r K -> Z.of_nat K < 2 ^ 39 ->
  (forall p' e', reads p' = (r + 4 * S K)%nat -> same_data (with_count (calibrated r K) e) e' ->
     list_ok l (rlist (e_res e')) h e' /\ env_ok e' -> Q tt (Mach p' (h, e'))) ->
  wp (determine_iterations rdcycle rdinstret) Q (Mach p (h, e)).
Proof.
  intros Hl He H0 Hr HT HKb HQ. unfold determine_iterations.
  rewrite wp_bind, wp_res0. unfold m_res. cbn [m_world snd]. rewrite H0. change (0 =? 0) with true.
  cbv iota. rewrite wp_bind, wp_upd0, wp_bind.
  apply (wp_while_n (trying r K l h e) _ _ (S K)).
  - exists 0%nat, p, (with_count 1 e). split; [done |]. split; [lia |]. split; [reflexivity |].
    split; [by apply with_count_ok |]. left. split; [lia |]. split; [f_equal; lia | done].
  - budget_lia.
  - intros m secs s Htry. pose proof Htry as (k & p1 & e1 & Es & Hrd & Hsd & [Hl1 He1] & Hcase).
    rewrite wp_ret. destruct Hcase as [(Hk & -> & ->) | (-> & -> & ->)].
    + change (0 <? 1) with true. cbv iota. apply (wp_trial r K l h e (K - k)); [done | done |].
      intros secs m' s' Hm Hs. exists m'. split; [lia | done].
    + destruct HT as [_ HK]. rewrite (proj2 (Z.ltb_ge _ _) HK), Es.
      rewrite (proj2 (Z.eqb_neq (trial r K) 0)) by lia. rewrite wp_upd0.
      change (upd_m _ _) with (Mach p1 (h, with_count
        (u32 (iterations (e_res e1) * u32 (1 + 10 / trial r K))) e1)).
      rewrite (same_data_iterations _ _ Hsd). change (iterations _) with (u32 (10 ^ Z.of_nat (S K))).
      fold (calibrated r K). apply HQ; [done | | by apply with_count_ok].
      exact (same_data_count (calibrated r K) _ _ Hsd).
Qed.
End calibrate.

(** C30: the automatic iteration count.  With an iteration count of zero, when
    the readings of the counters make the trial runs end with number [K],
    [main] meets no fault and ends with tohost = 1; the count of the actual run
    is 10^(K+1) times 1 + 10/t, modulo 2^32, where t is the duration of the last
    trial in seconds, rounded up; and the benchmark data are as the set-up made
    them, after all trials and the run. *)
Theorem main_calibrates rdcycle rdinstret g base version s K :
  arg_ok (VStr (Some version)) -> seed5_volatile g = 0 -> seeds_ok g -> results_ok (m_res s) ->
  u32 (get_seed_32 g 4) = 0 -> trials_end rdcycle (reads (m_port s)) K -> Z.of_nat K < 2 ^ 39 ->
  exists s1 s', setup g base s = Ok true s1 /\
    main rdcycle rdinstret g port_sizes base version s = Ok 0 s' /\
    iterations (m_res s') = calibrated rdcycle (reads (m_port s)) K /\
    list.last (trace (m_port s')) = Some (TOHOST_ADDR, 1) /\ same_benchmark s1 s'.
Proof.
  intros Hv H5 Hs Hc H0 HT HK. destruct (setup_ready g base H5 Hs s Hc) as (l & p1 & h & e & E1 & Hr).
  assert (wp (main rdcycle rdinstret g port_sizes base version) (fun r s' => r = 0 /\
    iterations (m_res s') = calibrated rdcycle (reads (m_port s)) K /\
    list.last (trace (m_port s')) = Some (TOHOST_ADDR, 1) /\ same_benchmark (Mach p1 (h, e)) s') s) as Hw.
  { unfold main. eapply wp_step; [exact E1 |]. cbn [negb]. rewrite wp_bind.
    apply (wp_determine_calibrated rdcycle rdinstret (reads (m_port s)) K l);
      [exact (rd_list _ _ _ _ Hr) | exact (rd_env _ _ _ _ Hr) |
       rewrite <- H0; exact (rd_iterations _ _ _ _ Hr) |
       exact (setup_reads _ _ _ _ _ E1) | exact HT | exact HK |].
    intros p2 e2 _ Hsd2 [Hl2 He2]. rewrite wp_bind.
    assert (iterations (e_res e2) = calibrated rdcycle (reads (m_port s)) K) as Hn
      by exact (same_data_iterations _ _ Hsd2).
    apply (wp_timed_run _ _ l); [exact Hl2 | exact He2 | rewrite Hn; by apply uwrap_range |].
    intros p3 e3 _ _ Hsd3 _ _.
    apply (wp_conclude version); [exact Hv |]. intros l1 l0 l2 k _ _. split; [reflexivity |].
    pose proof (same_data_iterations _ _ Hsd3) as Hn3.
    destruct (transitivity Hsd2 Hsd3) as (Hd & Ht & HA & HB & _ & F).
    split; [| split].
    - exact (eq_trans Hn3 Hn).
    - cbn. by rewrite app_assoc, last_snoc.
    - unfold same_benchmark, m_res, upd_m, emit_m. cbn.
      split; [reflexivity |]. split; [exact Hd |]. split; [exact Ht |]. split; [exact HA |].
      split; [exact HB | exact (f_equal rlist F)]. }
  destruct (proj1 (wp_ok _ _ _) Hw) as (r & s' & E & Hr0 & H). exists (Mach p1 (h, e)), s'.
  rewrite Hr0 in E. split; [exact E1 |]. split; [exact E | exact H].
Qed.

(** A first trial of up to one second, however short, ends the calibration with
    110 iterations: [time_in_secs] rounds up, so the driver takes it that a
    second has passed. *)
Lemma short_trial rdcycle r :
  0 < ticks rdcycle r <= CORE_CLOCK_HZ -> trials_end rdcycle r 0 /\ calibrated rdcycle r 0 = 110.
Proof.
  intros Ht. assert (trial rdcycle r 0 = 1) as E.
  { unfold trial, time_in_secs. rewrite Nat.mul_0_r, Nat.add_0_r, (proj2 (Z.eqb_neq _ _)) by lia.
    unfold CORE_CLOCK_HZ in *. rewrite u32_mod, Z.mod_small by lia.
    symmetry. apply (Z.div_unique_pos _ _ _ (ticks rdcycle r - 1)); lia. }
  unfold trials_end, calibrated. rewrite E. split; [split; lia | reflexivity].
Qed.

Lemma main_calibrates_witness :
  exists s1 s', setup (Seeds 0 0 0x66 0 0) 0x1000 boot = Ok true s1 /\
    main (fun n => 1000 * Z.of_nat n) (fun n => 873 * Z.of_nat n) (Seeds 0 0 0x66 0 0) port_sizes
      0x1000 (cstr "gcc") boot = Ok 0 s' /\
    iterations (m_res s') = 110 /\
    list.last (trace (m_port s')) = Some (TOHOST_ADDR, 1) /\ same_benchmark s1 s'.
Proof.
  destruct (short_trial (fun n => 1000 * Z.of_nat n) 0) as [HT E]; [vm_compute; split; done |].
  rewrite <- E.
  apply (main_calibrates (fun n => 1000 * Z.of_nat n) (fun n => 873 * Z.of_nat n) (Seeds 0 0 0x66 0 0)
    0x1000 (cstr "gcc") boot 0).
  - apply literal_arg_ok; vm_compute; reflexivity.
  - reflexivity.
  - apply (performance_seeds_ok 0).
  - split; [cbn; cint_unfold; lia | reflexivity].
  - reflexivity.
  - exact HT.
  - vm_compute. reflexivity.
Defined.
