(* ===== verification/Console.v ===== *)
(** * What the program writes to the port

    Whatever the seeds, the counters and the sizes are, [main] writes bytes to
    the UART and nothing else, until its last action, the write of tohost. *)

From Stdlib Require Import String ZArith Lia.
From stdpp Require Import base list gmap numbers.
From S2P Require Import Prelude Matrix ListHeap ListBench PortIO Util Port Main Driver.

Local Open Scope Z_scope.
Local Open Scope cm_scope.

(** Only bytes, only to the UART. *)
Definition uart_only (tr : mmio_trace) : Prop :=
  Forall (fun e => e.1 = UART_TX_ADDR /\ in_u 8 e.2) tr.

Lemma uart_only_uart tr : uart_only tr -> exists l, tr = uart l /\ Forall (in_u 8) l.
Proof.
  induction 1 as [| [a c] tr [Ha Hc] _ (l & -> & Hl)]; [by exists [] |].
  cbn [fst snd] in *. subst a. exists (c :: l). split; [done | by constructor].
Qed.

(** ** The port *)

Lemma keeps_uart_putc c : keeps uart_only (uart_putc c).
Proof.
  apply keeps_modify. intros tr Htr. apply Forall_app. split; [done |]. constructor; [| constructor].
  split; [done |]. cbn [snd]. unfold u8, u32.
  rewrite (uwrap_id 32); [by apply uwrap_range | done |].
  pose proof (uwrap_range 8 c ltac:(lia)). unfold in_u in *. lia.
Qed.
#[export] Hint Resolve keeps_uart_putc : keeps.

Lemma keeps_char_at {S} (I : S -> Prop) s p : keeps I (char_at s p).
Proof. apply keeps_oget. Qed.
#[export] Hint Resolve keeps_char_at : keeps.

Lemma keeps_uart_puts s : keeps uart_only (uart_puts s).
Proof. unfold uart_puts. keeps_solve. Qed.
Lemma keeps_uart_put_unsigned v b w p : keeps uart_only (uart_put_unsigned v b w p).
Proof. unfold uart_put_unsigned, put_digits. keeps_solve. Qed.
#[export] Hint Resolve keeps_uart_puts keeps_uart_put_unsigned : keeps.

Lemma keeps_uart_put_signed v w p : keeps uart_only (uart_put_signed v w p).
Proof. unfold uart_put_signed. keeps_solve. Qed.
#[export] Hint Resolve keeps_uart_put_signed : keeps.

Lemma keeps_ee_printf fmt args : keeps uart_only (ee_printf fmt args).
Proof.
  unfold ee_printf, printf_body, print_directive, parse_width, take_int, take_str. keeps_solve.
Qed.
#[export] Hint Resolve keeps_ee_printf : keeps.

Lemma keeps_check_data_types z : keeps uart_only (check_data_types z).
Proof. unfold check_data_types, check_size. keeps_solve. Qed.
#[export] Hint Resolve keeps_check_data_types : keeps.

Abbreviation port_quiet := (fun p : port => uart_only (trace p)).

Lemma keeps_on_trace {A} (m : M mmio_trace A) : keeps uart_only m -> keeps port_quiet (on_trace m).
Proof. intros Hm. by apply (keeps_zoom port_quiet uart_only). Qed.
#[export] Hint Resolve keeps_on_trace : keeps.

Lemma keeps_portable_init b : keeps port_quiet (portable_init b).
Proof. unfold portable_init. keeps_solve. by apply keeps_modify. Qed.
Lemma keeps_start_time c i : keeps port_quiet (start_time c i).
Proof. unfold start_time, read_cycle32, read_instret32. keeps_solve; by apply keeps_modify. Qed.
Lemma keeps_stop_time c i : keeps port_quiet (stop_time c i).
Proof. unfold stop_time, read_cycle32, read_instret32. keeps_solve; by apply keeps_modify. Qed.
Lemma keeps_get_time : keeps port_quiet get_time.
Proof. apply keeps_gets. Qed.
#[export] Hint Resolve keeps_portable_init keeps_start_time keeps_stop_time keeps_get_time : keeps.

(** ** The driver *)

Abbreviation quiet := (fun s : machine => uart_only (trace (m_port s))).

Lemma keeps_on_port {A} (m : M port A) : keeps port_quiet m -> keeps quiet (on_port m).
Proof. intros Hm. by apply (keeps_zoom quiet port_quiet). Qed.
Lemma keeps_on_world {A} (m : M world A) : keeps quiet (on_world m).
Proof. by apply keeps_zoom_frame. Qed.
#[export] Hint Resolve keeps_on_port keeps_on_world : keeps.

Lemma keeps_res0 : keeps quiet res0.
Proof. apply keeps_on_world. Qed.
Lemma keeps_upd0 f : keeps quiet (upd0 f).
Proof. apply keeps_on_world. Qed.
Lemma keeps_printf fmt args : keeps quiet (printf fmt args).
Proof. unfold printf. keeps_solve. Qed.
#[export] Hint Resolve keeps_res0 keeps_upd0 keeps_printf : keeps.

Lemma keeps_setup g base : keeps quiet (setup g base).
Proof.
  unfold setup, assign_blocks, call_inits, view_list, view_matrix, view_state, block, choose_N.
  keeps_solve.
Qed.
Lemma keeps_timed_run c i : keeps quiet (timed_run c i).
Proof. unfold timed_run. keeps_solve. Qed.
#[export] Hint Resolve keeps_setup keeps_timed_run : keeps.
Lemma keeps_determine_iterations c i : keeps quiet (determine_iterations c i).
Proof. unfold determine_iterations. keeps_solve. Qed.
Lemma keeps_validate c : keeps quiet (validate c).
Proof. unfold validate, check_crc. keeps_solve. Qed.
Lemma keeps_report_time t n : keeps quiet (report_time t n).
Proof. unfold report_time. keeps_solve. Qed.
Lemma keeps_report_crcs v c : keeps quiet (report_crcs v c).
Proof. unfold report_crcs. keeps_solve. Qed.
#[export] Hint Resolve keeps_determine_iterations keeps_validate keeps_report_time keeps_report_crcs
  : keeps.

(** ** The end *)

(** [m] goes from stores that satisfy [I] to stores that satisfy [R]. *)
Definition leaves {S A} (I R : S -> Prop) (m : M S A) : Prop :=
  forall s a s', I s -> m s = Ok a s' -> R s'.

Lemma leaves_after {S A B} (I R : S -> Prop) (m : M S A) (f : A -> M S B) :
  keeps I m -> (forall a, leaves I R (f a)) -> leaves I R (bind m f).
Proof.
  intros Hm Hf s b s' Hs. unfold bind. specialize (Hm s Hs).
  destruct (m s) as [a s1 | e]; [by apply Hf | done].
Qed.

Lemma leaves_ret {S A B} (I R : S -> Prop) (m : M S A) (b : B) :
  leaves I R m -> leaves I R (m ;; ret b).
Proof.
  intros Hm s b' s' Hs. unfold bind. specialize (Hm s).
  destruct (m s) as [a s1 | e]; intros [= _ <-]. by apply (Hm a).
Qed.

Lemma leaves_zoom {S T A} (I R : S -> Prop) (J K : T -> Prop) get set (m : M T A) :
  (forall s, I s -> J (get s)) -> (forall t s, I s -> K t -> R (set t s)) ->
  leaves J K m -> leaves I R (zoom get set m).
Proof.
  intros Hget Hset Hm s a s' Hs. unfold zoom. specialize (Hm (get s)).
  destruct (m (get s)) as [b t | e]; intros [= _ <-]. apply Hset; [done |]. apply (Hm b); auto.
Qed.

(** Bytes to the UART, then tohost. *)
Definition signalled_end (tr : mmio_trace) : Prop :=
  exists l, tr = uart l ++ [(TOHOST_ADDR, 1)] /\ Forall (in_u 8) l.

Lemma leaves_portable_fini :
  leaves port_quiet (fun p => signalled_end (trace p)) portable_fini.
Proof.
  unfold portable_fini.
  do 10 (apply leaves_after; [auto 4 with nocore keeps | intros ?]).
  apply (leaves_zoom _ _ uart_only signalled_end); [done | done |].
  intros tr [] tr' (l & -> & Hl)%uart_only_uart [= <-]. by exists l.
Qed.

Lemma leaves_conclude z version :
  leaves quiet (fun s => signalled_end (trace (m_port s))) (conclude z version).
Proof.
  unfold conclude. do 7 (apply leaves_after; [auto 6 with nocore keeps | intros ?]).
  apply leaves_ret.
  apply (leaves_zoom _ _ port_quiet (fun p => signalled_end (trace p)));
    [done | done | apply leaves_portable_fini].
Qed.

(** The structure check of [setup] is decided at compile time. *)
Definition only_returns {S A} (b : A) (m : M S A) : Prop := forall s a s', m s = Ok a s' -> a = b.

Lemma only_returns_bind {S A B} (b : B) (m : M S A) f :
  (forall a, only_returns b (f a)) -> only_returns b (bind m f).
Proof. intros Hf s a s'. unfold bind. destruct (m s); [apply Hf | done]. Qed.

Lemma setup_true g base : only_returns true (setup g base).
Proof.
  unfold setup. change (128 <? sizeof_list_head) with false. cbv iota.
  do 9 (apply only_returns_bind; intros ?).
  apply only_returns_bind; intros r. cbv zeta. destruct (_ =? 0); [by intros ? |].
  do 3 (apply only_returns_bind; intros ?). by intros ? ? ? [= <- _].
Qed.

Lemma leaves_main rdcycle rdinstret g z base version :
  leaves quiet (fun s => signalled_end (trace (m_port s)))
    (main rdcycle rdinstret g z base version).
Proof.
  intros s r s' Hs. unfold main, bind at 1. pose proof (setup_true g base s) as Ht.
  pose proof (keeps_setup g base s Hs) as H1.
  destruct (setup g base s) as [b s1 | e]; [| done]. rewrite (Ht b s1 eq_refl). cbn [negb].
  revert H1. apply (leaves_after quiet (fun s => signalled_end (trace (m_port s))));
    [auto with nocore keeps | intros _].
  apply leaves_after; [auto with nocore keeps | intros _]. apply leaves_conclude.
Qed.

(** [main] talks to the port and signals once.  For all seeds, counter
    readings, type sizes and version strings, from every machine whose MMIO
    trace holds UART bytes only: when [main] ends, its trace is a sequence of
    bytes written to the UART followed by a single write of 1 to tohost.  So
    the simulation is never stopped early and never sees another value. *)
Theorem main_signals_once rdcycle rdinstret g z base version s r s' :
  uart_only (trace (m_port s)) ->
  main rdcycle rdinstret g z base version s = Ok r s' ->
  exists l, trace (m_port s') = uart l ++ [(TOHOST_ADDR, 1)] /\ Forall (in_u 8) l.
Proof.
  intros Hs E. apply (leaves_main rdcycle rdinstret g z base version s r s' Hs E).
Qed.

(** One iteration of the performance run. *)
Abbreviation sample_run :=
  (main (fun n => 1000 * Z.of_nat n) (fun n => 873 * Z.of_nat n) (Seeds 0 0 0x66 1 0)
     port_sizes 0x1000 (cstr "gcc") boot).

Definition writes_of {A} (o : outcome machine A) : option Z :=
  match o with Ok _ s => Some (Z.of_nat (length (trace (m_port s)))) | Err _ => None end.

Lemma sample_writes : writes_of sample_run = Some 798.
Proof. vm_compute. reflexivity. Qed.

Lemma sample_ends : exists r s', sample_run = Ok r s' /\ length (trace (m_port s')) = 798%nat.
Proof.
  pose proof sample_writes as H. destruct sample_run as [r s' | e]; [| discriminate H].
  exists r, s'. split; [reflexivity |]. injection H as H. lia.
Qed.

Lemma main_signals_once_witness :
  exists r s', sample_run = Ok r s' /\
    exists l, trace (m_port s') = uart l ++ [(TOHOST_ADDR, 1)] /\ Forall (in_u 8) l.
Proof.
  destruct sample_ends as (r & s' & E & _). exists r, s'. split; [exact E |].
  apply (main_signals_once (fun n => 1000 * Z.of_nat n) (fun n => 873 * Z.of_nat n)
    (Seeds 0 0 0x66 1 0) port_sizes 0x1000 (cstr "gcc") boot r s'); [constructor | exact E].
Defined.
