(* ===== verification/Report.v ===== *)
(** * The report of a run

    Everything that [main] prints, as text: the lines of [portable_init], of
    the validation, of the measurements, of the CRCs, the verdict and the lines
    of [portable_fini].  The specification does not mention format strings. *)

From Stdlib Require Import String ZArith Lia.
From stdpp Require Import base list gmap numbers.
From S2P Require Import Prelude Matrix ListHeap ListBench PortIO Util Port Printf Main Driver Console.

Local Open Scope Z_scope.
Local Open Scope cm_scope.

(** ** The text *)

(** Numbers: decimal, signed decimal, hexadecimal in four digits. *)
Definition dec (v : Z) : list Z := show_unsigned 10 (u32 v) 0 ch_space.
Definition sdec (v : Z) : list Z := show_signed (s32 v) 0 ch_space.
Definition hex4 (v : Z) : list Z := show_unsigned 16 (u32 v) 4 ch_zero.

(** One line: the UART sends a carriage return before the line feed. *)
Definition row (label : string) (value : list Z) : list Z := bytes label ++ value ++ [ch_cr; ch_nl].

Definition boot_text : list Z :=
  row "[coremark] UART online, benchmark starting" [] ++
  row "[coremark] Timing uses CSR cycle/mcycle" [] ++
  row "[coremark] Core clock for seconds conversion = " (dec CORE_CLOCK_HZ ++ bytes " Hz").

(** The line of a CRC that differs from the table. *)
Definition crc_error (what : string) (execs id value : Z) (known : list Z) (known_id : Z) : list Z :=
  let k := default 0 (arr_get known known_id) in
  if truth (Z.land execs id) && negb (value =? k)
  then bytes ("[0]ERROR! " ++ what ++ " crc 0x") ++ hex4 value ++ row " - should be 0x" (hex4 k)
  else [].

Definition validation_text (r : core_results) : list Z :=
  match known_run (seed_crc r) with
  | None => []
  | Some (id, msg) =>
      row msg [] ++
      crc_error "list" (execs r) ID_LIST (crclist r) list_known_crc id ++
      crc_error "matrix" (execs r) ID_MATRIX (crcmatrix r) matrix_known_crc id ++
      crc_error "state" (execs r) ID_STATE (crcstate r) state_known_crc id
  end.

Definition time_text (r : core_results) (ticks : Z) : list Z :=
  let secs := time_in_secs ticks in
  row "CoreMark Size    : " (dec (size r)) ++
  row "Total ticks      : " (dec ticks) ++
  row "Total time (secs): " (sdec secs) ++
  (if 0 <? secs then row "Iterations/Sec   : " (sdec (u32 (iterations r) / secs)) else []) ++
  (if secs <? 10 then row "ERROR! Must execute for at least 10 secs for a valid result!" [] else []).

Definition crc_row (label : string) (execs id value : Z) : list Z :=
  if truth (Z.land execs id) then row label (hex4 value) else [].

Definition crcs_text (version : list Z) (r : core_results) : list Z :=
  row "Iterations       : " (dec (u32 (iterations r))) ++
  row "Compiler version : " (crlf (removelast version)) ++
  row "Compiler flags   : rv32i_zicsr baremetal (UART printf, cycle CSR timing)" [] ++
  row "Memory location  : private DMEM per thread (hw remap)" [] ++
  row "seedcrc          : 0x" (hex4 (seed_crc r)) ++
  crc_row "[0]crclist       : 0x" (execs r) ID_LIST (crclist r) ++
  crc_row "[0]crcmatrix     : 0x" (execs r) ID_MATRIX (crcmatrix r) ++
  crc_row "[0]crcstate      : 0x" (execs r) ID_STATE (crcstate r) ++
  row "[0]crcfinal      : 0x" (hex4 (crc r)).

Definition verdict_row (n : Z) : list Z :=
  if n =? 0 then row "Correct operation validated. See README.md for run and reporting rules." []
  else if 0 <? n then row "Errors detected" []
  else row "Cannot validate operation for these seed values, please compare with results on a known platform." [].

(** The line of the IPC ends with a line feed only. *)
Definition fini_text (cycles retired : Z) : list Z :=
  row "[coremark] Retired instructions = " (dec retired) ++
  bytes "[coremark] Measured IPC = " ++ dec (ipc cycles retired / 10000) ++ bytes "." ++
  show_unsigned 10 (ipc cycles retired mod 10000) 4 ch_zero ++ [ch_nl] ++
  row "[coremark] Benchmark finished, signaling tohost=1" [].

Definition report_text (version : list Z) (s : machine) : list Z :=
  let r := m_res s in
  let ticks := u32 (t1 (m_port s) - t0 (m_port s)) in
  validation_text r ++ time_text r ticks ++ crcs_text version r ++ verdict_row (total_errors s) ++
  fini_text ticks (u32 (instret1 (m_port s) - instret0 (m_port s))).

(** ** The lines *)

Lemma wp_line str args out (Q : unit -> machine -> Prop) s :
  let l := bytes (str ++ nl) in
  printable (str ++ nl) = true -> Z.of_nat (length l) < Zpos budget -> Forall arg_ok args ->
  render (length l) l args = Some out ->
  Q tt (emit_m (uart out) s) -> wp (printf (line str) args) Q s.
Proof.
  intros l Hp Hl Ha Hr HQ. unfold printf, line, on_port. rewrite wp_bind, wp_zoom. apply wp_on_trace.
  apply (wp_ee_printf l args out); [by apply printable_text | done | done | done |].
  exists (uart out). split; [done |]. rewrite wp_ret. apply HQ.
Qed.

(** A literal format, and the text it gives. *)
Ltac say out :=
  apply (wp_line _ _ out); [vm_compute; reflexivity | vm_compute; reflexivity | repeat first [apply Forall_nil_2 | apply Forall_cons_2; [first [exact I | eassumption] |]] |
                            reflexivity |].

Lemma emit_uart a b s : emit_m (uart b) (emit_m (uart a) s) = emit_m (uart (a ++ b)) s.
Proof. by rewrite emit_m_emit_m, uart_app. Qed.

(** A line that is printed under a condition. *)
Lemma wp_line_if (c : bool) (m : M machine unit) out (Q : unit -> machine -> Prop) s :
  (forall R : unit -> machine -> Prop, R tt (emit_m (uart out) s) -> wp m R s) ->
  Q tt (emit_m (uart (if c then out else [])) s) -> wp (if c then m else ret tt) Q s.
Proof.
  intros Hm HQ. destruct c; [by apply Hm |]. rewrite wp_ret. by rewrite emit_m_nil in HQ.
Qed.

Lemma wp_report_time_text t n (Q : Z -> machine -> Prop) s :
  Q (if time_in_secs t <? 10 then s16 (n + 1) else n) (emit_m (uart (time_text (m_res s) t)) s) ->
  wp (report_time t n) Q s.
Proof.
  intros HQ. unfold report_time. rewrite wp_bind, wp_res0. change default_num_contexts with 1. rewrite Z.mul_1_l.
  rewrite wp_bind. say (row "CoreMark Size    : " (dec (size (m_res s)))).
  rewrite wp_bind. say (row "Total ticks      : " (dec t)).
  rewrite wp_bind. say (row "Total time (secs): " (sdec (time_in_secs t))).
  rewrite wp_bind. eapply wp_line_if.
  { intros R HR. say (row "Iterations/Sec   : " (sdec (u32 (iterations (m_res s)) / time_in_secs t))). exact HR. }
  assert (forall out, Q (if time_in_secs t <? 10 then s16 (n + 1) else n) (emit_m (uart (out ++
      if time_in_secs t <? 10 then row "ERROR! Must execute for at least 10 secs for a valid result!" [] else [])) s) ->
    wp (if time_in_secs t <? 10
        then printf (line "ERROR! Must execute for at least 10 secs for a valid result!") [] ;; ret (s16 (n + 1))
        else ret n) Q (emit_m (uart out) s)) as Hend.
  { intros out. destruct (time_in_secs t <? 10); intros HR.
    - rewrite wp_bind. say (row "ERROR! Must execute for at least 10 secs for a valid result!" []).
      by rewrite wp_ret, emit_uart.
    - by rewrite wp_ret, app_nil_r in *. }
  rewrite !emit_uart. apply Hend. unfold time_text in HQ. by rewrite <- !app_assoc.
Qed.

Lemma wp_report_crcs_text version (Q : unit -> machine -> Prop) s :
  arg_ok (VStr (Some version)) ->
  Q tt (emit_m (uart (crcs_text version (m_res s))) s) -> wp (report_crcs version (seed_crc (m_res s))) Q s.
Proof.
  intros Hv HQ.
  assert (arg_ok (VStr (Some COMPILER_FLAGS)) /\ arg_ok (VStr (Some MEM_LOCATION))) as [Hf Hm]
    by (split; apply literal_arg_ok; vm_compute; reflexivity).
  unfold report_crcs. rewrite wp_bind, wp_res0. change default_num_contexts with 1. rewrite Z.mul_1_l. set (r := m_res s) in *.
  rewrite wp_bind. say (row "Iterations       : " (dec (u32 (iterations r)))).
  rewrite wp_bind. say (row "Compiler version : " (crlf (removelast version))).
  rewrite wp_bind. say (row "Compiler flags   : rv32i_zicsr baremetal (UART printf, cycle CSR timing)" []).
  rewrite wp_bind. say (row "Memory location  : private DMEM per thread (hw remap)" []).
  rewrite wp_bind. say (row "seedcrc          : 0x" (hex4 (seed_crc r))).
  rewrite wp_bind. eapply wp_line_if.
  { intros R HR. say (row "[0]crclist       : 0x" (hex4 (crclist r))). exact HR. }
  rewrite wp_bind. eapply wp_line_if.
  { intros R HR. say (row "[0]crcmatrix     : 0x" (hex4 (crcmatrix r))). exact HR. }
  rewrite wp_bind. eapply wp_line_if.
  { intros R HR. say (row "[0]crcstate      : 0x" (hex4 (crcstate r))). exact HR. }
  say (row "[0]crcfinal      : 0x" (hex4 (crc r))).
  rewrite !emit_uart, <- ?app_assoc. exact HQ.
Qed.

Lemma wp_verdict_text n (Q : unit -> machine -> Prop) s :
  Q tt (emit_m (uart (verdict_row n)) s) -> wp (printf (verdict_text n) []) Q s.
Proof.
  unfold verdict_row, verdict_text. intros HQ.
  destruct (n =? 0); [| destruct (0 <? n)].
  - say (row "Correct operation validated. See README.md for run and reporting rules." []). exact HQ.
  - say (row "Errors detected" []). exact HQ.
  - say (row "Cannot validate operation for these seed values, please compare with results on a known platform." []).
    exact HQ.
Qed.

(** The results and the trace in the middle of the validation. *)
Abbreviation midway n l s := (upd_m (with_err n) (emit_m (uart l) s)).

Lemma wp_check_crc_text what alg value known known_id msg n l (Q : unit -> machine -> Prop) s :
  (exists k, arr_get known known_id = Some k) ->
  printable (msg ++ nl) = true -> Z.of_nat (length (bytes (msg ++ nl))) < Zpos budget ->
  (forall k, render (length (bytes (msg ++ nl))) (bytes (msg ++ nl)) [VInt 0; VInt value; VInt k] =
     Some (bytes ("[0]ERROR! " ++ what ++ " crc 0x") ++ hex4 value ++ row " - should be 0x" (hex4 k))) ->
  0 <= n < 3 ->
  (let n' := n + mismatch (execs (m_res s)) alg value known known_id in
   Q tt (midway n' (l ++ crc_error what (execs (m_res s)) alg value known known_id) s)) ->
  wp (check_crc alg value known known_id msg) Q (midway n l s).
Proof.
  intros [k Hk] Hp Hl Hr Hn HQ. unfold check_crc, crc_error, mismatch in *.
  rewrite wp_bind, wp_res0, wp_bind, wp_oget. exists k. split; [done |]. rewrite Hk in HQ. cbn in HQ.
  change (execs (m_res (midway n l s))) with (execs (m_res s)).
  destruct (truth (Z.land (execs (m_res s)) alg) && negb (value =? k)).
  - rewrite wp_bind. eapply wp_line; [done | done | by repeat constructor | apply Hr |]. rewrite wp_upd0.
    replace (n + 1) with (s16 (n + 1)) in HQ by cint_lia. rewrite <- emit_uart in HQ. exact HQ.
  - rewrite wp_ret. by rewrite Z.add_0_r, app_nil_r in HQ.
Qed.

Lemma known_run_render c id msg : known_run c = Some (id, msg) ->
  render (length (bytes (msg ++ nl))) (bytes (msg ++ nl)) [] = Some (row msg []).
Proof. unfold known_run. intros H. repeat case_match; simplify_eq; reflexivity. Qed.

(** The validation leaves the number of differences in [err]. *)
Lemma wp_validate_text (Q : Z -> machine -> Prop) s :
  (forall k, Q (validation_errors (m_res s))
     (upd_m (with_err k) (emit_m (uart (validation_text (m_res s))) s))) ->
  wp (validate (seed_crc (m_res s))) Q s.
Proof.
  intros HQ. unfold validate, validation_errors, validation_text in *.
  destruct (known_run (seed_crc (m_res s))) as [[id msg] |] eqn:Hk.
  2:{ rewrite wp_ret. specialize (HQ (err (m_res s))). cbn [uart map] in HQ. rewrite emit_m_nil in HQ.
      by destruct s as [p [h [ds [] mm t]]]. }
  destruct (known_run_id _ id msg Hk) as (Hid & Hp & Hl & Hf).
  assert (forall ls : list Z, length ls = 5%nat -> exists k, arr_get ls id = Some k) as Hget
    by (intros ls Hls; apply arr_get_is_Some; lia).
  rewrite wp_bind. eapply wp_line; [done | done | constructor | by eapply known_run_render |].
  rewrite wp_bind, wp_upd0, wp_bind, wp_res0.
  change (m_res (midway 0 (row msg []) s)) with (with_err 0 (m_res s)).
  cbn [crclist crcmatrix crcstate with_err]. set (r := m_res s) in *. unfold crc_errors in HQ.
  assert (forall e i v kn, 0 <= mismatch e i v kn id <= 1) as Hm
    by (intros; unfold mismatch; destruct (_ && _); lia).
  rewrite wp_bind. apply (wp_check_crc_text "list"); [by apply Hget | done | done | intros k; reflexivity | lia |].
  cbv zeta. fold r. set (n1 := mismatch _ ID_LIST _ _ _) in *.
  assert (0 <= n1 <= 1) as M1 by apply Hm. set (l1 := crc_error "list" _ _ _ _ _) in *.
  rewrite wp_bind. apply (wp_check_crc_text "matrix"); [by apply Hget | done | done | intros k; reflexivity | lia |].
  cbv zeta. fold r. set (n2 := mismatch _ ID_MATRIX _ _ _) in *.
  assert (0 <= n2 <= 1) as M2 by apply Hm. set (l2 := crc_error "matrix" _ _ _ _ _) in *.
  rewrite wp_bind. apply (wp_check_crc_text "state"); [by apply Hget | done | done | intros k; reflexivity | lia |].
  cbv zeta. fold r. set (n3 := mismatch _ ID_STATE _ _ _) in *.
  assert (0 <= n3 <= 1) as M3 by apply Hm. set (l3 := crc_error "state" _ _ _ _ _) in *.
  rewrite wp_bind, wp_res0, wp_ret.
  change (err (m_res (midway ?n ?l s))) with n.
  replace (s16 (0 + (0 + n1 + n2 + n3))) with (n1 + n2 + n3) by cint_lia.
  rewrite <- !app_assoc. apply HQ.
Qed.

(** ** The port's lines *)

Lemma wp_dec v width pad (Q : unit -> port -> Prop) p :
  0 <= v < 2 ^ 32 -> width < Zpos budget -> in_u 8 pad ->
  Q tt (emit (uart (show_unsigned 10 v width pad)) p) ->
  wp (on_trace (uart_put_unsigned v 10 width pad)) Q p.
Proof.
  intros Hv Hw Hp HQ. apply wp_on_trace, wp_show_unsigned; [lia | done | done | done |]. by eexists.
Qed.

Lemma emit_uart_port a b p : emit (uart b) (emit (uart a) p) = emit (uart (a ++ b)) p.
Proof. by rewrite emit_emit, uart_app. Qed.

Lemma wp_fini_text (Q : unit -> port -> Prop) p :
  Q tt (emit (uart (fini_text (u32 (t1 p - t0 p)) (u32 (instret1 p - instret0 p))) ++ [(TOHOST_ADDR, 1)]) p) ->
  wp portable_fini Q p.
Proof.
  intros HQ. unfold portable_fini. rewrite wp_bind, wp_gets, wp_bind, wp_gets.
  set (c := u32 (t1 p - t0 p)) in *. set (r := u32 (instret1 p - instret0 p)) in *.
  assert (0 <= r < 2 ^ 32) as Hr by (by apply uwrap_range).
  assert (0 <= ipc c r < 2 ^ 32) as Hi.
  { unfold ipc. destruct (negb (c =? 0)); [by apply uwrap_range | lia]. }
  unfold fini_text, dec, row in HQ. set (q := ipc c r) in *.
  assert (0 <= q / 10000 < 2 ^ 32 /\ 0 <= q mod 10000 < 2 ^ 32) as [H1 H2]
    by (change (2 ^ 32) with 4294967296 in *; Z.to_euclidean_division_equations; lia).
  assert (u32 r = r /\ u32 (q / 10000) = q / 10000) as [Er Eq] by (split; by apply uwrap_id).
  rewrite Er, Eq in HQ.
  rewrite wp_bind. apply wp_puts; [done | done |].
  rewrite wp_bind. apply wp_dec; [done | done | done |].
  rewrite wp_bind. apply wp_puts; [done | done |].
  rewrite wp_bind. apply wp_dec; [done | done | done |].
  rewrite wp_bind. apply wp_putc.
  rewrite wp_bind. apply wp_dec; [done | done | done |].
  rewrite wp_bind. apply wp_putc.
  rewrite wp_bind. apply wp_puts; [done | done |].
  apply wp_on_trace. unfold mmio_write32. rewrite wp_modify. eexists. split; [done |].
  rewrite !emit_uart_port, emit_emit, <- ?app_assoc. 
  rewrite <- (app_assoc (bytes _)), <- (app_assoc (show_unsigned _ _ _ _)) in HQ. exact HQ.
Qed.

Lemma wp_init_text (b : bool) (Q : option Z -> port -> Prop) p :
  Q (if b then None else Some 1)
    (emit (uart boot_text) (Port (trace p) (t0 p) (t1 p) (instret0 p) (instret1 p) 0 (reads p))) ->
  wp (portable_init b) Q p.
Proof.
  intros HQ. unfold portable_init. rewrite wp_bind, wp_modify.
  rewrite wp_bind. apply wp_puts; [done | done |]. rewrite wp_bind. apply wp_puts; [done | done |].
  rewrite wp_bind. apply wp_puts; [done | done |].
  rewrite wp_bind. apply wp_dec; [done | done | done |].
  rewrite wp_bind. apply wp_puts; [done | done |]. rewrite wp_ret, !emit_uart_port. exact HQ.
Qed.

(** ** The end of [main] *)

(** The report does not depend on the errors that are recorded nor on what was
    printed before. *)
Lemma report_text_same version k l s : report_text version (upd_m (with_err k) (emit_m l s)) = report_text version s.
Proof. reflexivity. Qed.

Lemma wp_conclude_text version (Q : Z -> machine -> Prop) s :
  arg_ok (VStr (Some version)) ->
  (forall k, Q 0 (upd_m (with_err k) (emit_m (uart (report_text version s) ++ [(TOHOST_ADDR, 1)]) s))) ->
  wp (conclude port_sizes version) Q s.
Proof.
  intros Hv HQ. unfold conclude. rewrite wp_bind. unfold on_port at 1. rewrite wp_zoom.
  unfold get_time. rewrite wp_gets.
  replace (Mach (m_port s) (m_world s)) with s by (by destruct s).
  rewrite wp_bind, wp_res0, wp_bind. apply wp_validate_text. intros k. specialize (HQ k).
  pose proof (validation_errors_range (m_res s)) as Hn. unfold report_text, total_errors in HQ.
  set (n := validation_errors (m_res s)) in *. set (t := u32 (t1 _ - t0 _)) in *.
  rewrite wp_bind. set (s1 := upd_m _ _).
  assert (forall R : Z -> machine -> Prop, R 0 s1 ->
    wp (on_port (on_trace (check_data_types port_sizes))) R s1) as Htypes.
  { intros R HR. unfold on_port, on_trace. rewrite !wp_zoom. unfold check_data_types, check_size.
    cbn. unfold wp, bind, ret. cbn. destruct s as [[] ?]. exact HR. }
  apply Htypes. assert (s16 (n + 0) = n /\ s16 (n + 1) = n + 1) as [-> En] by (split; cint_lia).
  rewrite wp_bind. apply wp_report_time_text. rewrite En.
  rewrite wp_bind. 
  change (m_res s1) with (with_err k (m_res s)).
  change (time_text (with_err k (m_res s)) t) with (time_text (m_res s) t).
  set (s2 := emit_m _ s1). change (seed_crc (m_res s)) with (seed_crc (m_res s2)).
  apply wp_report_crcs_text; [done |].
  change (crcs_text version (m_res s2)) with (crcs_text version (m_res s)).
  rewrite wp_bind. apply wp_verdict_text. rewrite wp_bind. unfold on_port at 1. rewrite wp_zoom.
  apply wp_fini_text. rewrite wp_ret. 
  enough (forall x y, x = y -> Q 0 x -> Q 0 y) as Heq; [| by intros x y ->].
  refine (Heq _ _ _ HQ). unfold s2, s1. destruct s as [[tr a b c d o m] w].
  unfold upd_m, emit_m, emit. cbn [m_port m_world trace t0 t1 instret0 instret1 heap_off reads fst snd].
  f_equal. f_equal. by rewrite !uart_app, <- !app_assoc.
Qed.

(** ** Nothing else is printed *)

Section silent.
Context (T : mmio_trace).
Abbreviation port_silent := (fun p : port => trace p = T).
Abbreviation silent := (fun s : machine => trace (m_port s) = T).

Lemma silent_on_port {A} (m : M port A) : keeps port_silent m -> keeps silent (on_port m).
Proof. intros Hm. by apply (keeps_zoom silent port_silent). Qed.
Lemma silent_on_world {A} (m : M world A) : keeps silent (on_world m).
Proof. by apply keeps_zoom_frame. Qed.
Lemma silent_start_time c i : keeps port_silent (start_time c i).
Proof. unfold start_time, read_cycle32, read_instret32. keeps_solve; by apply keeps_modify. Qed.
Lemma silent_stop_time c i : keeps port_silent (stop_time c i).
Proof. unfold stop_time, read_cycle32, read_instret32. keeps_solve; by apply keeps_modify. Qed.
Lemma silent_get_time : keeps port_silent get_time.
Proof. apply keeps_gets. Qed.
#[local] Hint Resolve silent_on_port silent_on_world silent_start_time silent_stop_time silent_get_time : keeps.
Lemma silent_res0 : keeps silent res0.
Proof. apply silent_on_world. Qed.
Lemma silent_upd0 f : keeps silent (upd0 f).
Proof. apply silent_on_world. Qed.
#[local] Hint Resolve silent_res0 silent_upd0 : keeps.

Lemma silent_timed_run c i : keeps silent (timed_run c i).
Proof. unfold timed_run. keeps_solve. Qed.
#[local] Hint Resolve silent_timed_run : keeps.
Lemma silent_determine_iterations c i : keeps silent (determine_iterations c i).
Proof. unfold determine_iterations. keeps_solve. Qed.
End silent.

Lemma setup_text g base s b s1 :
  setup g base s = Ok b s1 -> trace (m_port s1) = trace (m_port s) ++ uart boot_text.
Proof.
  unfold setup. intros E. apply bind_ok_inv in E as (id & s0 & E0 & E).
  assert (trace (m_port s0) = trace (m_port s) ++ uart boot_text) as H0.
  { assert (wp (on_port (portable_init false))
      (fun _ s' => trace (m_port s') = trace (m_port s) ++ uart boot_text) s) as Hw
      by (unfold on_port; rewrite wp_zoom; by apply wp_init_text).
    unfold wp in Hw. by rewrite E0 in Hw. }
  revert E H0. generalize (trace (m_port s) ++ uart boot_text) as T. intros T E H0.
  change (128 <? sizeof_list_head) with false in E. cbv iota in E.
  refine (keeps_ok (fun s => trace (m_port s) = T) _ s0 b s1 _ H0 E).
  pose proof (@silent_on_world T) as Hw. pose proof (silent_res0 T) as Hr. pose proof (silent_upd0 T) as Hu.
  unfold assign_blocks, call_inits, view_list, view_matrix, view_state, block, choose_N.
  repeat (keeps_step || apply Hw || apply Hr || apply Hu).
Qed.

Lemma main_report rdcycle rdinstret g base version s r s' :
  arg_ok (VStr (Some version)) ->
  main rdcycle rdinstret g port_sizes base version s = Ok r s' ->
  r = 0 /\ trace (m_port s') =
    trace (m_port s) ++ uart (boot_text ++ report_text version s') ++ [(TOHOST_ADDR, 1)].
Proof.
  intros Hv. unfold main. intros (ok & s1 & E1 & E)%bind_ok_inv.
  rewrite (setup_true g base s ok s1 E1) in E. cbn [negb] in E. apply setup_text in E1 as H1.
  apply bind_ok_inv in E as ([] & s2 & E2 & (u & s3 & E3 & E)%bind_ok_inv).
  pose proof (keeps_ok _ _ _ _ _ (silent_determine_iterations _ rdcycle rdinstret) H1 E2) as H2.
  pose proof (keeps_ok _ _ _ _ _ (silent_timed_run _ rdcycle rdinstret) H2 E3) as H3.
  assert (wp (conclude port_sizes version) (fun r s' => r = 0 /\ exists k,
    s' = upd_m (with_err k) (emit_m (uart (report_text version s3) ++ [(TOHOST_ADDR, 1)]) s3)) s3) as Hw
    by (apply wp_conclude_text; [done |]; eauto).
  unfold wp in Hw. rewrite E in Hw. destruct Hw as [-> [k ->]]. split; [done |].
  rewrite report_text_same. unfold upd_m, emit_m, emit. cbn [m_port trace].
  by rewrite H3, uart_app, <- !app_assoc.
Qed.

(** C17: what [main] prints.  For all seeds, iteration counts (chosen by [main]
    included), counter readings, block addresses and version strings: when
    [main] ends, it has printed exactly the lines of the start, the message of
    the known run and one line for each CRC that differs from the table, the
    size, ticks, seconds, rate and iterations, the warning for a run of less
    than ten seconds, versions and CRCs, the verdict, the retired instructions
    and the IPC, with the numbers that the final results record and the port's
    counters hold, and then has signalled the end. *)
Theorem main_prints_report rdcycle rdinstret g base version s r s' :
  arg_ok (VStr (Some version)) ->
  main rdcycle rdinstret g port_sizes base version s = Ok r s' ->
  r = 0 /\ trace (m_port s') =
    trace (m_port s) ++ uart (boot_text ++ report_text version s') ++ [(TOHOST_ADDR, 1)].
Proof. apply main_report. Qed.

Lemma main_prints_report_witness :
  exists r s', sample_run = Ok r s' /\ r = 0 /\
    trace (m_port s') = uart (boot_text ++ report_text (cstr "gcc") s') ++ [(TOHOST_ADDR, 1)].
Proof.
  destruct sample_ends as (r & s' & E & _). exists r, s'. split; [exact E |].
  apply (main_prints_report (fun n => 1000 * Z.of_nat n) (fun n => 873 * Z.of_nat n)
    (Seeds 0 0 0x66 1 0) 0x1000 (cstr "gcc") boot r s'); [| exact E].
  apply literal_arg_ok; vm_compute; reflexivity.
Defined.
