(* ===== verification/Hello.v ===== *)
(** * The UART smoke program: hello.c

    The smallest program that exercises the two registers of the port. *)

From Stdlib Require Import String ZArith Lia.
From stdpp Require Import base list numbers.
From S2P Require Import Prelude PortIO Util.

Local Open Scope Z_scope.
Local Open Scope cm_scope.

Definition putc_uart (c : Z) : M mmio_trace unit := mmio_write32 UART_TX_ADDR (u32 (u8 c)).

Definition puts_uart (s : list Z) : M mmio_trace unit :=
  let! _ :=
    while (fun p => let! c := char_at s p in ret (truth c))
      (fun p => let! c := char_at s p in putc_uart c ;; ret (p + 1)) 0 in
  ret tt.

(** [main], up to its endless loop. *)
Definition hello_main : M mmio_trace unit :=
  puts_uart (cstr ("12345" ++ nl)) ;;
  mmio_write32 TOHOST_ADDR 1.

(** The program writes its text unchanged (no carriage return is inserted) and
    signals success. *)
Lemma hello_main_prints tr :
  hello_main tr = Ok tt (tr ++ uart (bytes ("12345" ++ nl)) ++ [(TOHOST_ADDR, 1)]).
Proof.
  transitivity (Ok tt (((((((tr ++ [(UART_TX_ADDR, 49)]) ++ [(UART_TX_ADDR, 50)]) ++
    [(UART_TX_ADDR, 51)]) ++ [(UART_TX_ADDR, 52)]) ++ [(UART_TX_ADDR, 53)]) ++
    [(UART_TX_ADDR, 10)]) ++ [(TOHOST_ADDR, 1)])); [vm_compute; reflexivity |].
  by rewrite <- !app_assoc.
Qed.
