(* ===== verification/Ring.v ===== *)
(** * Circular buffers of the RTL

    Several modules keep a FIFO in an array with a head, a tail and a count.
    [holds] relates the registers to the list they represent; the lemmas say
    what one clock edge does to it. *)

From Stdlib Require Import ZArith Lia.
From stdpp Require Import base list numbers.
From S2P Require Import Prelude.

Local Open Scope Z_scope.

Section ring.
(** The depth, and the widths of pointers and count. *)
Context (DEPTH PTR_W COUNT_W : Z).

(** A pointer moves to the next slot; the last is followed by the first. *)
Definition incrementPtr (p : Z) : Z := if p =? DEPTH - 1 then 0 else uwrap PTR_W (p + 1).

(** The [case ({enqueue, dequeue})] on the count. *)
Definition next_count (enqueue dequeue : bool) (count : Z) : Z :=
  match enqueue, dequeue with
  | true, false => uwrap COUNT_W (count + 1)
  | false, true => uwrap COUNT_W (count - 1)
  | _, _ => count
  end.

Definition next_ptr (b : bool) (p : Z) : Z := if b then incrementPtr p else p.

(** [arr[tail] <= d] on an enqueue. *)
Definition next_array {A} (enqueue : bool) (tail : Z) (d : A) (arr : list A) : list A :=
  if enqueue then <[Z.to_nat tail := d]> arr else arr.

(** The array holds [l], oldest first, from [head] on. *)
Definition holds {A} (arr : list A) (head tail count : Z) (l : list A) : Prop :=
  Z.of_nat (length arr) = DEPTH /\ 0 <= head < DEPTH /\ count = Z.of_nat (length l) /\
  count <= DEPTH /\ tail = (head + count) mod DEPTH /\
  forall i, (i < length l)%nat -> arr_get arr ((head + Z.of_nat i) mod DEPTH) = l !! i.

(** The list after one edge. *)
Definition fifo_next {A} (enqueue dequeue : bool) (d : A) (l : list A) : list A :=
  (if dequeue then tail l else l) ++ (if enqueue then [d] else []).

Context (Hdepth : 0 < DEPTH) (Hptr : 0 <= PTR_W) (Hcnt : 0 <= COUNT_W).
Context (Hpw : DEPTH <= 2 ^ PTR_W) (Hcw : DEPTH < 2 ^ COUNT_W).

Lemma incrementPtr_mod p : 0 <= p < DEPTH -> incrementPtr p = (p + 1) mod DEPTH.
Proof.
  intros Hp. unfold incrementPtr. destruct (Z.eqb_spec p (DEPTH - 1)) as [-> | Hne].
  - by rewrite Z.sub_add, Z.mod_same by lia.
  - rewrite Z.mod_small by lia. apply uwrap_id; [done |]. unfold in_u. lia.
Qed.

Lemma holds_empty {A} (arr : list A) : Z.of_nat (length arr) = DEPTH -> holds arr 0 0 0 [].
Proof.
  intros H. split; [done |]. split; [lia |]. split; [done |]. split; [lia |].
  split; [by rewrite Z.mod_0_l by lia |]. intros i Hi. cbn in Hi. lia.
Qed.

Lemma holds_tail {A} (arr : list A) h t c l : holds arr h t c l -> 0 <= t < DEPTH.
Proof. intros (_ & _ & _ & _ & -> & _). apply Z.mod_pos_bound. lia. Qed.

Lemma holds_head {A} (arr : list A) h t c x l : holds arr h t c (x :: l) -> arr_get arr h = Some x.
Proof.
  intros (_ & Hh & _ & _ & _ & H). specialize (H 0%nat ltac:(cbn; lia)).
  by rewrite Z.add_0_r, Z.mod_small in H.
Qed.

(** Slots of different ages are different. *)
Lemma slot_ne h i c : 0 <= i < c -> c < DEPTH -> (h + i) mod DEPTH <> (h + c) mod DEPTH.
Proof.
  intros Hi Hc E. assert ((c - i) mod DEPTH = 0) as E0.
  { replace (c - i) with ((h + c) - (h + i)) by lia. rewrite Zminus_mod, E, Z.sub_diag. apply Z.mod_0_l. lia. }
  rewrite Z.mod_small in E0 by lia. lia.
Qed.

Lemma holds_dequeue {A} (arr : list A) h t c x l :
  holds arr h t c (x :: l) -> holds arr (incrementPtr h) t (c - 1) l.
Proof.
  intros (Hlen & Hh & Hc & Hle & Ht & Hget). cbn [length] in Hc.
  rewrite incrementPtr_mod by done. split; [done |].
  split; [apply Z.mod_pos_bound; lia |]. split; [lia |]. split; [lia |]. split.
  - rewrite Zplus_mod_idemp_l. rewrite Ht. f_equal. lia.
  - intros i Hi. rewrite Zplus_mod_idemp_l. specialize (Hget (S i) ltac:(cbn; lia)).
    change ((x :: l) !! S i) with (l !! i) in Hget. rewrite <- Hget. do 2 f_equal. lia.
Qed.

Lemma holds_enqueue {A} (arr : list A) h t c l d :
  holds arr h t c l -> c < DEPTH ->
  holds (<[Z.to_nat t := d]> arr) h (incrementPtr t) (c + 1) (l ++ [d]).
Proof.
  intros Hh Hc. pose proof (holds_tail _ _ _ _ _ Hh) as Htr.
  destruct Hh as (Hlen & Hh & Hcl & Hle & Ht & Hget).
  split; [by rewrite length_insert |]. split; [done |].
  split; [rewrite length_app; cbn; lia |]. split; [lia |]. split.
  - rewrite incrementPtr_mod by done. rewrite Ht, Zplus_mod_idemp_l. f_equal. lia.
  - intros i Hi. rewrite length_app in Hi. cbn in Hi.
    rewrite arr_get_insert by (try apply Z.mod_pos_bound; lia).
    destruct (decide (i = length l)) as [-> | Hne].
    + rewrite <- Hcl, <- Ht, Z.eqb_refl, lookup_app_r, Nat.sub_diag by lia. done.
    + rewrite (proj2 (Z.eqb_neq _ _)), lookup_app_l by (try (rewrite Ht; apply slot_ne); lia).
      apply Hget. lia.
Qed.

(** One clock edge. *)
Lemma holds_next {A} (arr : list A) h t c l (enqueue dequeue : bool) d :
  holds arr h t c l -> (dequeue = true -> l <> []) ->
  (enqueue = true -> c < DEPTH \/ dequeue = true) ->
  holds (next_array enqueue t d arr) (next_ptr dequeue h) (next_ptr enqueue t)
    (next_count enqueue dequeue c) (fifo_next enqueue dequeue d l).
Proof.
  intros H Hd He. pose proof H as (_ & Hh & Hc & Hle & _ & _).
  unfold next_array, next_ptr, next_count, fifo_next.
  assert (dequeue = true -> exists x l', l = x :: l') as Hl.
  { intros E. destruct l as [| x l']; [by destruct (Hd E) | eauto]. }
  destruct dequeue; [destruct (Hl eq_refl) as (x & l' & ->); cbn [tail length] in * |];
    (destruct enqueue; [| rewrite app_nil_r; try done]).
  - replace c with (c - 1 + 1) by lia. apply holds_enqueue; [by apply (holds_dequeue _ _ _ _ x) | lia].
  - rewrite uwrap_id by (unfold in_u; lia). by apply (holds_dequeue _ _ _ _ x).
  - destruct (He eq_refl) as [Hlt |]; [| done].
    rewrite uwrap_id by (unfold in_u; lia). by apply holds_enqueue.
Qed.
End ring.
