(* ===== verification/TageQueue.v ===== *)
(** * The update queue of the TAGE predictor: TageUpdateQueue.sv

    A FIFO between the retirement of branches and the training of the
    predictor's tables.  The queue does not look into the records it holds. *)

From Stdlib Require Import ZArith Lia.
From stdpp Require Import base list numbers.
From S2P Require Import Prelude Ring.

Local Open Scope Z_scope.

Section queue.
(** [tage_update_t], and the parameter of the module. *)
Context {A : Type} (DEPTH : Z).

(** [$clog2] *)
Definition PTR_WIDTH : Z := Z.log2_up DEPTH.
Definition COUNT_WIDTH : Z := Z.log2_up (DEPTH + 1).

(** ** The module *)

(** The registers. *)
Record tuq := TUQ { entries : list A; head : Z; tail : Z; count : Z }.

(** The inputs of a cycle. *)
Record tuq_in := TUQIn { enqValid_i : bool; enqData_i : A; deqReady_i : bool }.

(** The outputs; [deqData_o] is meaningful when [deqValid_o]. *)
Definition deqValid_o (q : tuq) : bool := negb (count q =? 0).
Definition deqData_o (q : tuq) : option A := arr_get (entries q) (head q).
Definition dequeue (q : tuq) (i : tuq_in) : bool := deqValid_o q && deqReady_i i.
Definition enqReady_o (q : tuq) (i : tuq_in) : bool := (count q <? DEPTH) || dequeue q i.
Definition enqueue (q : tuq) (i : tuq_in) : bool := enqValid_i i && enqReady_o q i.
Definition full_o (q : tuq) : bool := count q =? DEPTH.

(** The clocked process: [rst] is active low and does not touch the array. *)
Definition tuq_reset (q : tuq) : tuq := TUQ (entries q) 0 0 0.
Definition tuq_step (q : tuq) (i : tuq_in) : tuq :=
  TUQ (next_array (enqueue q i) (tail q) (enqData_i i) (entries q))
      (next_ptr DEPTH PTR_WIDTH (dequeue q i) (head q))
      (next_ptr DEPTH PTR_WIDTH (enqueue q i) (tail q))
      (next_count COUNT_WIDTH (enqueue q i) (dequeue q i) (count q)).
Definition tuq_edge (rst : bool) (q : tuq) (i : tuq_in) : tuq :=
  if rst then tuq_step q i else tuq_reset q.

(** ** What it promises *)

(** The records taken from the producer and handed to the consumer, cycle by
    cycle, and the final state. *)
Fixpoint tuq_run (q : tuq) (ins : list tuq_in) : list A * list A * tuq :=
  match ins with
  | [] => ([], [], q)
  | i :: ins =>
      let '(taken, given, q') := tuq_run (tuq_step q i) ins in
      ((if enqueue q i then [enqData_i i] else []) ++ taken,
       (if dequeue q i then option_list (deqData_o q) else []) ++ given, q')
  end.

Definition queued (q : tuq) (l : list A) : Prop :=
  holds DEPTH (entries q) (head q) (tail q) (count q) l.

Context (Hdepth : 0 < DEPTH).

Lemma widths : DEPTH <= 2 ^ PTR_WIDTH /\ DEPTH < 2 ^ COUNT_WIDTH /\ 0 <= PTR_WIDTH /\ 0 <= COUNT_WIDTH.
Proof.
  unfold PTR_WIDTH, COUNT_WIDTH. pose proof (Z.log2_up_nonneg DEPTH).
  pose proof (Z.log2_up_nonneg (DEPTH + 1)).
  pose proof (Z.log2_log2_up_spec DEPTH Hdepth). pose proof (Z.log2_log2_up_spec (DEPTH + 1) ltac:(lia)).
  lia.
Qed.

Lemma queued_reset q : Z.of_nat (length (entries q)) = DEPTH -> queued (tuq_reset q) [].
Proof. intros H. by apply holds_empty. Qed.

Lemma queued_valid q l : queued q l -> deqValid_o q = negb (bool_decide (l = [])).
Proof.
  intros (_ & _ & Hc & _). unfold deqValid_o. rewrite Hc.
  destruct l; [done |]. by rewrite (proj2 (Z.eqb_neq _ _)) by (cbn; lia).
Qed.

Lemma queued_data q x l : queued q (x :: l) -> deqData_o q = Some x.
Proof. intros H. by eapply holds_head. Qed.

Lemma queued_step q i l :
  queued q l -> queued (tuq_step q i) (fifo_next (enqueue q i) (dequeue q i) (enqData_i i) l).
Proof.
  intros H. destruct widths as (? & ? & ? & ?). pose proof (queued_valid q l H) as Hv.
  apply holds_next; [done | done | done | done | done | done | |].
  - unfold dequeue. rewrite Hv. intros E ->. done.
  - unfold enqueue, enqReady_o. intros E. destruct (enqValid_i i); [| done]. cbn in E.
    apply orb_true_iff in E as [E%Z.ltb_lt |]; auto.
Qed.

(** What leaves in a cycle is the oldest record. *)
Lemma queued_given q i l :
  queued q l ->
  l = (if dequeue q i then option_list (deqData_o q) else []) ++
      (if dequeue q i then List.tl l else l).
Proof.
  intros H. unfold dequeue. rewrite (queued_valid q l H). destruct l as [| x l]; [done |].
  rewrite bool_decide_false by done. cbn [negb andb]. destruct (deqReady_i i); [| done].
  by rewrite (queued_data q x l H).
Qed.

Lemma tuq_run_fifo ins q l :
  queued q l ->
  let '(taken, given, q') := tuq_run q ins in exists l', queued q' l' /\ l ++ taken = given ++ l'.
Proof.
  revert q l. induction ins as [| i ins IH]; intros q l H; cbn [tuq_run].
  - exists l. by rewrite app_nil_r.
  - specialize (IH _ _ (queued_step q i l H)). destruct (tuq_run (tuq_step q i) ins) as [[tk gv] q'].
    destruct IH as (l' & Hq & E). exists l'. split; [done |].
    rewrite <- app_assoc, <- E. unfold fifo_next. rewrite !app_assoc. f_equal. f_equal.
    rewrite (queued_given q i l H) at 1. by destruct (dequeue q i).
Qed.

(** The update queue is a FIFO.  From reset, for every depth and every
    sequence of cycles, the records accepted are the records handed out
    followed by those still queued: none is lost, duplicated or reordered.
    The count is their number and never exceeds the depth; a record is refused
    only when the queue is full and nothing leaves in the same cycle. *)
Theorem update_queue_is_fifo q0 ins i :
  Z.of_nat (length (entries q0)) = DEPTH ->
  let '(taken, given, q) := tuq_run (tuq_reset q0) ins in
  exists l, taken = given ++ l /\ count q = Z.of_nat (length l) /\ count q <= DEPTH /\
    deqValid_o q = negb (bool_decide (l = [])) /\ full_o q = bool_decide (Z.of_nat (length l) = DEPTH) /\
    (enqReady_o q i = false <-> full_o q = true /\ deqReady_i i = false).
Proof.
  intros H0. pose proof (tuq_run_fifo ins _ _ (queued_reset q0 H0)) as H.
  destruct (tuq_run (tuq_reset q0) ins) as [[tk gv] q]. destruct H as (l & Hq & E).
  exists l. pose proof (queued_valid q l Hq) as Hv. destruct Hq as (_ & _ & Hc & Hle & _).
  split_and!; [done | done | done | done | |].
  - unfold full_o. rewrite Hc. 
    by destruct (Z.eqb_spec (Z.of_nat (length l)) DEPTH),
      (bool_decide_reflect (Z.of_nat (length l) = DEPTH)).
  - unfold enqReady_o, dequeue, full_o. rewrite Hv, orb_false_iff, andb_false_iff, Z.ltb_ge, Z.eqb_eq.
    case_bool_decide as El; cbn [negb]; [subst l; cbn in Hc; lia |].
    split; [intros [? [[=] | ?]] | intros [-> ?]]; split; (lia || auto).
Qed.

(** A consumer that is always ready: nothing is ever refused, and a record
    waits one cycle. *)
Lemma always_ready q v d : enqReady_o q (TUQIn v d true) = true.
Proof.
  unfold enqReady_o, dequeue, deqValid_o. cbn [deqReady_i]. rewrite andb_true_r.
  destruct (Z.ltb_spec (count q) DEPTH); [done |]. by rewrite (proj2 (Z.eqb_neq _ _)) by lia.
Qed.

Lemma queued_flow q v d l :
  queued q l -> (length l <= 1)%nat ->
  queued (tuq_step q (TUQIn v d true)) (if v then [d] else []).
Proof.
  intros H Hl. pose proof (queued_step q (TUQIn v d true) l H) as Hs.
  replace (fifo_next _ _ _ _) with (if v then [d] else []) in Hs; [done |].
  unfold fifo_next, enqueue. rewrite always_ready, andb_true_r. cbn [enqValid_i enqData_i].
  unfold dequeue. rewrite (queued_valid q l H).
  destruct l as [| x [| y l]]; [done | done | cbn in Hl; lia].
Qed.
End queue.

Arguments tuq A : clear implicits.
Arguments tuq_in A : clear implicits.

(** The queue of depth 4 of TagePredictor.sv, with inputs that fill it and
    drain it. *)
Definition demo_cycles : list (tuq_in Z) :=
  [TUQIn true 1 false; TUQIn true 2 false; TUQIn true 3 true; TUQIn true 4 false; TUQIn true 5 false;
   TUQIn true 6 false; TUQIn true 7 true; TUQIn false 0 true].

Example demo_run :
  tuq_run 4 (tuq_reset (TUQ [9; 9; 9; 9] 3 2 1)) demo_cycles =
  ([1; 2; 3; 4; 5; 7], [1; 2; 3], TUQ [5; 7; 3; 4] 3 2 3).
Proof. reflexivity. Qed.

Lemma update_queue_is_fifo_witness :
  let '(taken, given, q) := tuq_run 4 (tuq_reset (TUQ [9; 9; 9; 9] 3 2 1)) demo_cycles in
  exists l, taken = given ++ l /\ count q = Z.of_nat (length l) /\ count q <= 4 /\
    deqValid_o q = negb (bool_decide (l = [])) /\ full_o 4 q = bool_decide (Z.of_nat (length l) = 4) /\
    (enqReady_o 4 q (TUQIn true 8 false) = false <-> full_o 4 q = true /\ false = false).
Proof.
  apply (update_queue_is_fifo 4 ltac:(lia) (TUQ [9; 9; 9; 9] 3 2 1) demo_cycles (TUQIn true 8 false)).
  reflexivity.
Defined.
