(* ===== verification/Cbp.v ===== *)
(** * The CBP adapter: cbp_rtl_interface.cc

    The adapter drives the Verilator model of the branch predictor from the
    callbacks of the championship simulator, keeps the prediction of every
    branch in flight in a map, and scores the predictions when the branches
    commit.  The predictor model and the instruction classes are code that is
    not in the repository: they are parameters here. *)

From Stdlib Require Import String ZArith Lia.
From stdpp Require Import base list gmap numbers.
From S2P Require Import Prelude PortIO Util HostPrintf.

Local Open Scope Z_scope.
Local Open Scope cm_scope.

(** ** The ports of the predictor *)

Record pins := Pins {
  clk : bool; rst : bool; queryPc_i : Z;
  saveMetaValid_i : bool; saveMetaSlot_i : Z;
  historyUpdateValid_i : bool; historyConditional_i : bool; historyTaken_i : bool;
  historyBackward_i : bool;
  commitValid_i : bool; commitConditional_i : bool; commitMetaSlot_i : Z; commitPc_i : Z;
  commitTarget_i : Z; commitTaken_i : bool
}.

Record outs := Outs {
  prediction_o : bool; rawTagePrediction_o : bool; preScPrediction_o : bool;
  providerValid_o : bool; loopUsed_o : bool; scLowConfidence_o : bool; commitReady_o : bool
}.

(** Assignments to the input pins. *)
Definition set_clk (b : bool) (p : pins) : pins :=
  Pins b (rst p) (queryPc_i p) (saveMetaValid_i p) (saveMetaSlot_i p) (historyUpdateValid_i p)
    (historyConditional_i p) (historyTaken_i p) (historyBackward_i p) (commitValid_i p)
    (commitConditional_i p) (commitMetaSlot_i p) (commitPc_i p) (commitTarget_i p) (commitTaken_i p).
Definition set_rst (b : bool) (p : pins) : pins :=
  Pins (clk p) b (queryPc_i p) (saveMetaValid_i p) (saveMetaSlot_i p) (historyUpdateValid_i p)
    (historyConditional_i p) (historyTaken_i p) (historyBackward_i p) (commitValid_i p)
    (commitConditional_i p) (commitMetaSlot_i p) (commitPc_i p) (commitTarget_i p) (commitTaken_i p).
Definition set_query (pc : Z) (p : pins) : pins :=
  Pins (clk p) (rst p) pc (saveMetaValid_i p) (saveMetaSlot_i p) (historyUpdateValid_i p)
    (historyConditional_i p) (historyTaken_i p) (historyBackward_i p) (commitValid_i p)
    (commitConditional_i p) (commitMetaSlot_i p) (commitPc_i p) (commitTarget_i p) (commitTaken_i p).
Definition set_save (slot : Z) (p : pins) : pins :=
  Pins (clk p) (rst p) (queryPc_i p) true slot (historyUpdateValid_i p)
    (historyConditional_i p) (historyTaken_i p) (historyBackward_i p) (commitValid_i p)
    (commitConditional_i p) (commitMetaSlot_i p) (commitPc_i p) (commitTarget_i p) (commitTaken_i p).
Definition set_history (cond taken backward : bool) (p : pins) : pins :=
  Pins (clk p) (rst p) (queryPc_i p) (saveMetaValid_i p) (saveMetaSlot_i p) true
    cond taken backward (commitValid_i p)
    (commitConditional_i p) (commitMetaSlot_i p) (commitPc_i p) (commitTarget_i p) (commitTaken_i p).
Definition set_commit (cond : bool) (slot pc target : Z) (taken : bool) (p : pins) : pins :=
  Pins (clk p) (rst p) (queryPc_i p) (saveMetaValid_i p) (saveMetaSlot_i p) (historyUpdateValid_i p)
    (historyConditional_i p) (historyTaken_i p) (historyBackward_i p) true cond slot pc target taken.

(** What [clear_commands] does to the pins. *)
Definition cleared (p : pins) : pins :=
  Pins (clk p) (rst p) (queryPc_i p) false (saveMetaSlot_i p) false false false false false
    false (commitMetaSlot_i p) (commitPc_i p) (commitTarget_i p) false.

(** ** Data *)

Record PredictionContext := PCtx {
  rtl_pc : Z; meta_slot : Z; final_prediction : bool; raw_tage_prediction : bool;
  pre_sc_prediction : bool; provider_valid : bool; loop_used : bool; sc_low_confidence : bool;
  actual_known : bool; actual_taken : bool; next_pc : Z
}.

(** The event counters, 64 bits each. *)
Record counters := Counters {
  conditional_predictions : Z; final_mispredictions : Z; raw_tage_mispredictions : Z;
  pre_sc_mispredictions : Z; sc_overrides : Z; sc_corrections : Z; sc_harms : Z;
  loop_overrides : Z; loop_corrections : Z; loop_harms : Z
}.

(** The static constants of the file. *)
Definition kMetaSlotMask : Z := 4095.

Definition unique_id {S} (seq_no piece : Z) : M S Z :=
  if piece <? 16 then ret (Z.lor (u64 (Z.shiftl seq_no 4)) piece) else fail AssertFailed.

Definition fold_pc (pc : Z) : Z :=
  let low := u32 pc in
  let high := u32 (Z.shiftr pc 32) in
  Z.lor (Z.land (Z.lxor low high) (u32 (Z.lnot 3))) (Z.land low 3).

Definition synthetic_target (rtl_pc : Z) (backward : bool) : Z :=
  if backward then u32 (rtl_pc - 4) else u32 (rtl_pc + 4).

Section adapter.
(** [cbp.h]: the instruction classes. *)
Context {InstClass : Type} (is_br is_cond_br : InstClass -> bool).
(** [VCbpRtlPredictor]: its state, [eval] and the output pins. *)
Context {V : Type} (v_new : V) (v_eval : pins -> V -> V) (v_out : V -> outs).

(** The fields of [ExecuteInfo] that are used. *)
Record ExecuteInfo := Exec {
  insn_class : InstClass; taken : option bool; taken_target : option Z; x_next_pc : Z
}.

(** The globals of the file, and what was printed. *)
Record adapter := Adapter {
  context : option Z;              (* the time of the context *)
  dut : option (pins * V);
  predictions : gmap Z PredictionContext;
  known_taken_targets : gmap Z Z;
  internal_ticks : Z;
  cnt : counters;
  stdout : list Z
}.

Definition zero_counters : counters := Counters 0 0 0 0 0 0 0 0 0 0.
(** Before the first callback. *)
Definition adapter0 : adapter := Adapter None None ∅ ∅ 0 zero_counters [].

Definition set_dut (d : pins * V) (a : adapter) : adapter :=
  Adapter (context a) (Some d) (predictions a) (known_taken_targets a) (internal_ticks a) (cnt a)
    (stdout a).
Definition get_dut : M adapter (pins * V) :=
  let! a := gets (fun a => a) in oget NullDeref (dut a).
(** Assign to input pins of [*dut]. *)
Definition drive (f : pins -> pins) : M adapter unit :=
  let! (p, v) := get_dut in modify (set_dut (f p, v)).
(** Read the output pins of [*dut]. *)
Definition read : M adapter outs := let! (_, v) := get_dut in ret (v_out v).
Definition eval : M adapter unit :=
  let! (p, v) := get_dut in modify (set_dut (p, v_eval p v)).
Definition timeInc : M adapter unit :=
  let! a := gets (fun a => a) in
  let! t := oget NullDeref (context a) in
  modify (fun a => Adapter (Some (u64 (t + 1))) (dut a) (predictions a) (known_taken_targets a)
    (internal_ticks a) (cnt a) (stdout a)).
Definition set_predictions (f : gmap Z PredictionContext -> gmap Z PredictionContext)
  : M adapter unit :=
  modify (fun a => Adapter (context a) (dut a) (f (predictions a)) (known_taken_targets a)
    (internal_ticks a) (cnt a) (stdout a)).
Definition set_target (pc target : Z) : M adapter unit :=
  modify (fun a => Adapter (context a) (dut a) (predictions a)
    (<[pc := target]> (known_taken_targets a)) (internal_ticks a) (cnt a) (stdout a)).
Definition count (f : counters -> counters) : M adapter unit :=
  modify (fun a => Adapter (context a) (dut a) (predictions a) (known_taken_targets a)
    (internal_ticks a) (f (cnt a)) (stdout a)).

Definition clear_commands : M adapter unit := drive cleared.

Definition tick : M adapter unit :=
  drive (set_clk false) ;; eval ;; timeInc ;;
  drive (set_clk true) ;; eval ;; timeInc ;;
  drive (set_clk false) ;; eval ;; timeInc ;;
  modify (fun a => Adapter (context a) (dut a) (predictions a) (known_taken_targets a)
    (u64 (internal_ticks a + 1)) (cnt a) (stdout a)).

(** [for (n times) tick();] *)
Fixpoint ticks (n : nat) : M adapter unit :=
  match n with O => ret tt | S n' => tick ;; ticks n' end.

Definition branch_is_backward (pc : Z) (taken : bool) (next_pc : Z) : M adapter bool :=
  if taken then set_target pc next_pc ;; ret (next_pc <? pc)
  else
    let! a := gets (fun a => a) in
    ret (match known_taken_targets a !! pc with Some t => t <? pc | None => false end).

Definition wait_for_commit_port : M adapter unit :=
  clear_commands ;;
  while (fun _ => let! o := read in ret (negb (commitReady_o o))) (fun _ => tick) tt.

Definition beginCondDirPredictor : M adapter unit :=
  modify (fun a => Adapter (Some 0) (dut a) (predictions a) (known_taken_targets a)
    (internal_ticks a) (cnt a) (stdout a)) ;;
  modify (set_dut (Pins false false 0 false 0 false false false false false false 0 0 0 false, v_new)) ;;
  drive (fun p => Pins false false 0 (saveMetaValid_i p) 0 (historyUpdateValid_i p)
    (historyConditional_i p) (historyTaken_i p) (historyBackward_i p) (commitValid_i p)
    (commitConditional_i p) 0 0 4 (commitTaken_i p)) ;;
  clear_commands ;;
  ticks 4 ;;
  drive (set_rst true) ;;
  tick.

Definition notify_instr_fetch : M adapter unit := ret tt.

Definition get_cond_dir_prediction (seq_no piece pc : Z) : M adapter bool :=
  let! id := unique_id seq_no piece in
  let slot := u16 (Z.land seq_no kMetaSlotMask) in
  clear_commands ;;
  drive (set_query (fold_pc pc)) ;;
  tick ;;
  let! o := read in
  let saved := PCtx (fold_pc pc) slot (prediction_o o) (rawTagePrediction_o o)
                 (preScPrediction_o o) (providerValid_o o) (loopUsed_o o) (scLowConfidence_o o)
                 false false 0 in
  set_predictions (insert id saved) ;;
  drive (set_save slot) ;;
  tick ;;
  clear_commands ;;
  count (fun c => Counters (u64 (conditional_predictions c + 1)) (final_mispredictions c)
    (raw_tage_mispredictions c) (pre_sc_mispredictions c) (sc_overrides c) (sc_corrections c)
    (sc_harms c) (loop_overrides c) (loop_corrections c) (loop_harms c)) ;;
  ret (final_prediction saved).

(** [found->second.actual_known = true; ...] after [assert(found != end)]. *)
Definition learn (id : Z) (dir : bool) (npc : Z) : M adapter unit :=
  let! a := gets (fun a => a) in
  let! s := oget AssertFailed (predictions a !! id) in
  set_predictions (insert id (PCtx (rtl_pc s) (meta_slot s) (final_prediction s)
    (raw_tage_prediction s) (pre_sc_prediction s) (provider_valid s) (loop_used s)
    (sc_low_confidence s) true dir npc)).

Definition spec_update (seq_no piece pc : Z) (inst_class : InstClass) (resolve_dir : bool)
    (npc : Z) : M adapter unit :=
  (if is_br inst_class then ret tt else fail AssertFailed) ;;
  (if is_cond_br inst_class then
     let! id := unique_id seq_no piece in
     learn id resolve_dir npc
   else
     clear_commands ;;
     drive (set_query (fold_pc pc)) ;;
     tick) ;;
  clear_commands ;;
  let! backward :=
    (if is_cond_br inst_class then branch_is_backward pc resolve_dir npc else ret false) in
  drive (set_history (is_cond_br inst_class) resolve_dir backward) ;;
  tick ;;
  clear_commands.

Definition notify_instr_decode : M adapter unit := ret tt.
Definition notify_agen_complete : M adapter unit := ret tt.

Definition notify_instr_execute_resolve (seq_no piece pc : Z) (exec_info : ExecuteInfo)
  : M adapter unit :=
  if negb (is_cond_br (insn_class exec_info)) then ret tt
  else
    let! id := unique_id seq_no piece in
    let! a := gets (fun a => a) in
    let! _ := oget AssertFailed (predictions a !! id) in
    let! dir := oget BadOptional (taken exec_info) in
    learn id dir (x_next_pc exec_info) ;;
    match taken_target exec_info with Some t => set_target pc t | None => ret tt end.

(** The counting of a committed conditional branch. *)
Definition bump (b : bool) (n : Z) : Z := if b then u64 (n + 1) else n.
Definition score (s : PredictionContext) (actual : bool) (c : counters) : counters :=
  let final := final_prediction s in
  let raw := raw_tage_prediction s in
  let pre := pre_sc_prediction s in
  let sc := xorb final pre in
  let loop := xorb pre raw in
  Counters (conditional_predictions c)
    (bump (xorb final actual) (final_mispredictions c))
    (bump (xorb raw actual) (raw_tage_mispredictions c))
    (bump (xorb pre actual) (pre_sc_mispredictions c))
    (bump sc (sc_overrides c))
    (bump (sc && eqb final actual) (sc_corrections c))
    (bump (sc && negb (eqb final actual)) (sc_harms c))
    (bump loop (loop_overrides c))
    (bump (loop && eqb pre actual) (loop_corrections c))
    (bump (loop && negb (eqb pre actual)) (loop_harms c)).

Definition notify_instr_commit (seq_no piece pc : Z) (exec_info : ExecuteInfo) : M adapter unit :=
  if negb (is_br (insn_class exec_info)) then ret tt
  else
    let conditional := is_cond_br (insn_class exec_info) in
    let! actual_taken := (if conditional then oget BadOptional (taken exec_info) else ret true) in
    let actual_target := default (x_next_pc exec_info) (taken_target exec_info) in
    let backward := conditional && (actual_target <? pc) in
    (if conditional && bool_decide (is_Some (taken_target exec_info))
     then set_target pc actual_target else ret tt) ;;
    let! slot :=
      (if conditional then
         let! id := unique_id seq_no piece in
         let! a := gets (fun a => a) in
         let! saved := oget AssertFailed (predictions a !! id) in
         (if actual_known saved then ret tt else fail AssertFailed) ;;
         count (score saved actual_taken) ;;
         ret (meta_slot saved)
       else ret 0) in
    wait_for_commit_port ;;
    drive (set_commit conditional slot (fold_pc pc) (synthetic_target (fold_pc pc) backward)
             actual_taken) ;;
    tick ;;
    clear_commands ;;
    tick ;;
    if conditional then
      let! id := unique_id seq_no piece in set_predictions (delete id)
    else ret tt.

Definition print (fmt : string) (args : list harg) : M adapter unit :=
  let! t := oget OutOfBounds (cprintf fmt args) in
  modify (fun a => Adapter (context a) (dut a) (predictions a) (known_taken_targets a)
    (internal_ticks a) (cnt a) (stdout a ++ t)).

Definition endCondDirPredictor : M adapter unit :=
  clear_commands ;;
  ticks 8 ;;
  let! a := gets (fun a => a) in
  let c := cnt a in
  print ("RTL_CBP full_conditional=%llu final_misp=%llu " ++
         "raw_tage_misp=%llu pre_sc_misp=%llu internal_ticks=%llu" ++ nl)
    [HInt (conditional_predictions c); HInt (final_mispredictions c);
     HInt (raw_tage_mispredictions c); HInt (pre_sc_mispredictions c); HInt (internal_ticks a)] ;;
  print ("RTL_CBP_SC overrides=%llu corrections=%llu harms=%llu net=%lld" ++ nl)
    [HInt (sc_overrides c); HInt (sc_corrections c); HInt (sc_harms c);
     HInt (s64 (sc_corrections c) - s64 (sc_harms c))] ;;
  print ("RTL_CBP_LOOP overrides=%llu corrections=%llu harms=%llu net=%lld" ++ nl)
    [HInt (loop_overrides c); HInt (loop_corrections c); HInt (loop_harms c);
     HInt (s64 (loop_corrections c) - s64 (loop_harms c))] ;;
  get_dut ;;
  modify (fun a => Adapter None None (predictions a) (known_taken_targets a) (internal_ticks a)
    (cnt a) (stdout a)).
End adapter.

Arguments Exec {InstClass} _ _ _ _.
Arguments Adapter {V} _ _ _ _ _ _ _.
