(* ===== verification/CbpBoard.v ===== *)
(** * What the CBP adapter promises

    The abstract view of cbp_rtl_interface.cc is a scoreboard: the predictions
    in flight, and the log of committed conditional branches with what was
    predicted and what happened.  Every sequence of callbacks that respects the
    simulator's protocol is carried out by the adapter without a failed
    assertion, and its counters are the tallies of the log. *)

From Stdlib Require Import String ZArith Lia.
From stdpp Require Import base list gmap numbers.
From S2P Require Import Prelude PortIO Util HostPrintf Cbp.

Local Open Scope Z_scope.
Local Open Scope cm_scope.

(** ** The scoreboard *)

Record preds := Preds { p_final : bool; p_raw : bool; p_pre : bool }.

(** In flight: the predictions made, and whether the outcome was reported. *)
Record board := Board {
  inflight : gmap Z (preds * bool);
  made : Z;
  log : list (preds * bool)
}.

Definition board0 : board := Board ∅ 0 [].

(** How many entries of a log satisfy [P]. *)
Fixpoint tally (P : preds -> bool -> bool) (l : list (preds * bool)) : Z :=
  match l with [] => 0 | (p, t) :: l => (if P p t then 1 else 0) + tally P l end.

Definition missed (f : preds -> bool) (p : preds) (t : bool) : bool := xorb (f p) t.
(** The predictor [f] overrode [g], with the right or the wrong result. *)
Definition overrode (f g : preds -> bool) (p : preds) (t : bool) : bool := xorb (f p) (g p).
Definition corrected (f g : preds -> bool) (p : preds) (t : bool) : bool :=
  xorb (f p) (g p) && eqb (f p) t.
Definition harmed (f g : preds -> bool) (p : preds) (t : bool) : bool :=
  xorb (f p) (g p) && negb (eqb (f p) t).

Definition counters_of (b : board) : counters :=
  Counters (u64 (made b)) (u64 (tally (missed p_final) (log b))) (u64 (tally (missed p_raw) (log b)))
    (u64 (tally (missed p_pre) (log b)))
    (u64 (tally (overrode p_final p_pre) (log b))) (u64 (tally (corrected p_final p_pre) (log b)))
    (u64 (tally (harmed p_final p_pre) (log b)))
    (u64 (tally (overrode p_pre p_raw) (log b))) (u64 (tally (corrected p_pre p_raw) (log b)))
    (u64 (tally (harmed p_pre p_raw) (log b))).

Lemma tally_app P l1 l2 : tally P (l1 ++ l2) = tally P l1 + tally P l2.
Proof. induction l1 as [| [p t] l1 IH]; cbn; [done |]. rewrite IH. lia. Qed.

Lemma tally_range P l : 0 <= tally P l <= Z.of_nat (length l).
Proof. induction l as [| [p t] l IH]; cbn; [lia |]. destruct (P p t); lia. Qed.

(** An override changes the number of misses by its corrections and harms. *)
Lemma tally_net f g l :
  tally (missed g) l - tally (missed f) l = tally (corrected f g) l - tally (harmed f g) l /\
  tally (overrode f g) l = tally (corrected f g) l + tally (harmed f g) l.
Proof.
  induction l as [| [p t] l [IH1 IH2]]; [done |]. cbn [tally].
  unfold missed, overrode, corrected, harmed in *. destruct (f p), (g p), t; cbn in *; lia.
Qed.

Lemma bump_tally b n : bump b (u64 n) = u64 (n + (if b then 1 else 0)).
Proof. destruct b; cbn [bump]; [cint_lia | by rewrite Z.add_0_r]. Qed.

(** ** The protocol of the callbacks *)

Section protocol.
Context {InstClass : Type} (is_br is_cond_br : InstClass -> bool).

Inductive call :=
| Predict (seq_no piece pc : Z)
| SpecUpdate (seq_no piece pc : Z) (c : InstClass) (dir : bool) (npc : Z)
| Resolve (seq_no piece pc : Z) (x : @ExecuteInfo InstClass)
| Commit (seq_no piece pc : Z) (x : @ExecuteInfo InstClass)
| Notify.     (* fetch, decode, address generation *)

Definition key (seq_no piece : Z) : Z := Z.lor (u64 (Z.shiftl seq_no 4)) piece.

(** The protocol, as a checker: the branches in flight, and whether their
    outcome is known.  [None] is a violation. *)
Definition phase_step (ph : gmap Z bool) (c : call) : option (gmap Z bool) :=
  match c with
  | Predict s p _ => if p <? 16 then Some (<[key s p := false]> ph) else None
  | SpecUpdate s p _ cl _ _ =>
      if negb (is_br cl) then None
      else if is_cond_br cl then
        if (p <? 16) && bool_decide (is_Some (ph !! key s p))
        then Some (<[key s p := true]> ph) else None
      else Some ph
  | Resolve s p _ x =>
      if is_cond_br (insn_class x) then
        if (p <? 16) && bool_decide (is_Some (ph !! key s p)) && bool_decide (is_Some (taken x))
        then Some (<[key s p := true]> ph) else None
      else Some ph
  | Commit s p _ x =>
      if is_br (insn_class x) && is_cond_br (insn_class x) then
        if (p <? 16) && bool_decide (ph !! key s p = Some true) && bool_decide (is_Some (taken x))
        then Some (delete (key s p) ph) else None
      else Some ph
  | Notify => Some ph
  end.

Fixpoint phase_run (ph : gmap Z bool) (cs : list call) : option (gmap Z bool) :=
  match cs with
  | [] => Some ph
  | c :: cs => match phase_step ph c with Some ph' => phase_run ph' cs | None => None end
  end.

(** The predictions that a predictor may show for a branch at an address. *)
Context (shown : Z -> preds -> Prop).

(** The scoreboard; the predictions are what the predictor shows. *)
Inductive bstep : board -> call -> board -> Prop :=
| b_predict b s p pc pr :
    shown pc pr ->
    bstep b (Predict s p pc) (Board (<[key s p := (pr, false)]> (inflight b)) (made b + 1) (log b))
| b_spec b s p pc cl dir npc pr k :
    is_cond_br cl = true -> inflight b !! key s p = Some (pr, k) ->
    bstep b (SpecUpdate s p pc cl dir npc)
      (Board (<[key s p := (pr, true)]> (inflight b)) (made b) (log b))
| b_spec_other b s p pc cl dir npc :
    is_cond_br cl = false -> bstep b (SpecUpdate s p pc cl dir npc) b
| b_resolve b s p pc x pr k :
    is_cond_br (insn_class x) = true -> inflight b !! key s p = Some (pr, k) ->
    bstep b (Resolve s p pc x) (Board (<[key s p := (pr, true)]> (inflight b)) (made b) (log b))
| b_resolve_other b s p pc x :
    is_cond_br (insn_class x) = false -> bstep b (Resolve s p pc x) b
| b_commit b s p pc x pr t :
    is_br (insn_class x) = true -> is_cond_br (insn_class x) = true ->
    inflight b !! key s p = Some (pr, true) -> taken x = Some t ->
    bstep b (Commit s p pc x) (Board (delete (key s p) (inflight b)) (made b) (log b ++ [(pr, t)]))
| b_commit_other b s p pc x :
    is_br (insn_class x) && is_cond_br (insn_class x) = false -> bstep b (Commit s p pc x) b
| b_notify b : bstep b Notify b.

Inductive bsteps : board -> list call -> board -> Prop :=
| bs_nil b : bsteps b [] b
| bs_cons b c b1 cs b2 : bstep b c b1 -> bsteps b1 cs b2 -> bsteps b (c :: cs) b2.

(** Predictions are made once per [Predict], and every one is in flight or
    was logged or was overwritten by one with the same key. *)
Definition predicts (c : call) : Z := match c with Predict _ _ _ => 1 | _ => 0 end.

Lemma bsteps_made b cs b' :
  bsteps b cs b' -> made b' = made b + foldr (fun c n => predicts c + n) 0 cs.
Proof. induction 1 as [| b c b1 cs b2 Hs _ IH]; cbn; [lia |]. destruct Hs; cbn in *; lia. Qed.

Lemma bsteps_log b cs b' :
  bsteps b cs b' -> Z.of_nat (length (log b')) <= Z.of_nat (length (log b)) + Z.of_nat (length cs).
Proof.
  induction 1 as [| b c b1 cs b2 Hs _ IH]; cbn [length]; [lia |].
  destruct Hs; cbn [log] in *; rewrite ?length_app in *; cbn [length] in *; lia.
Qed.
End protocol.

Arguments call InstClass : clear implicits.

(** ** The adapter carries out the protocol *)

Section adapter.
Context {InstClass : Type} (is_br is_cond_br : InstClass -> bool).
Context {V : Type} (v_new : V) (v_eval : pins -> V -> V) (v_out : V -> outs).

Definition run_call (c : call InstClass) : M (@adapter V) unit :=
  match c with
  | Predict s p pc => get_cond_dir_prediction v_eval v_out s p pc ;; ret tt
  | SpecUpdate s p pc cl dir npc => spec_update is_br is_cond_br v_eval s p pc cl dir npc
  | Resolve s p pc x => notify_instr_execute_resolve is_cond_br s p pc x
  | Commit s p pc x => notify_instr_commit is_br is_cond_br v_eval v_out s p pc x
  | Notify => notify_instr_fetch ;; notify_instr_decode ;; notify_agen_complete
  end.

Fixpoint run_calls (cs : list (call InstClass)) : M (@adapter V) unit :=
  match cs with [] => ret tt | c :: cs => run_call c ;; run_calls cs end.

(** One clock cycle of the predictor. *)
Definition vtick (p : pins) (v : V) : V :=
  let p0 := set_clk false p in let p1 := set_clk true p in v_eval p0 (v_eval p1 (v_eval p0 v)).

(** The predictions on the pins after a clock cycle with the query for [pc], in
    some state of the predictor. *)
Definition pin_preds (o : outs) : preds := Preds (prediction_o o) (rawTagePrediction_o o) (preScPrediction_o o).
Definition pins_show (pc : Z) (pr : preds) : Prop :=
  exists p v, pr = pin_preds (v_out (vtick (set_query (fold_pc pc) (cleared p)) v)).

(** The commit port is ready within [K] idle cycles: the update queue of the
    predictor drains. *)
Context (K : nat) (HK : Z.of_nat K < Zpos budget).
Context (drains : forall p v, exists n, (n <= K)%nat /\
  commitReady_o (v_out (Nat.iter n (vtick (cleared p)) v)) = true).

Abbreviation live p v t m k n c o := (@Adapter V (Some t) (Some (p, v)) m k n c o).

Lemma wp_drive f (Q : unit -> @adapter V -> Prop) p v t m k n c o :
  Q tt (live (f p) v t m k n c o) -> wp (drive f) Q (live p v t m k n c o).
Proof. intros H. exact H. Qed.

Lemma wp_read (Q : outs -> @adapter V -> Prop) p v t m k n c o :
  Q (v_out v) (live p v t m k n c o) -> wp (read v_out) Q (live p v t m k n c o).
Proof. intros H. exact H. Qed.

Lemma wp_tick_at (Q : unit -> @adapter V -> Prop) p v t m k n c o :
  (forall t', Q tt (live (set_clk false p) (vtick p v) t' m k (u64 (n + 1)) c o)) ->
  wp (tick v_eval) Q (live p v t m k n c o).
Proof. intros H. cbv [wp tick bind drive get_dut gets oget ret dut modify set_dut context predictions
  known_taken_targets internal_ticks cnt stdout timeInc eval]. apply H. Qed.

Lemma wp_tick (Q : unit -> @adapter V -> Prop) p v t m k n c o :
  (forall v' t' n', Q tt (live (set_clk false p) v' t' m k n' c o)) ->
  wp (tick v_eval) Q (live p v t m k n c o).
Proof. intros H. apply wp_tick_at. intros t'. apply H. Qed.

Lemma cleared_set_clk b p : cleared p = p -> cleared (set_clk b p) = set_clk b p.
Proof. intros E. rewrite <- E. done. Qed.

Lemma cleared_cleared p : cleared (cleared p) = cleared p.
Proof. done. Qed.

Lemma wp_ticks i (Q : unit -> @adapter V -> Prop) p v t m k n c o :
  cleared p = p ->
  (forall p' v' t' n', cleared p' = p' -> rst p' = rst p -> Q tt (live p' v' t' m k n' c o)) ->
  wp (ticks v_eval i) Q (live p v t m k n c o).
Proof.
  revert p v t n. induction i as [| i IH]; intros p v t n Hp H; cbn [ticks].
  - by apply H.
  - rewrite wp_bind. apply wp_tick. intros v' t' n'. apply IH; [by apply cleared_set_clk |].
    intros p2 v2 t2 n2 Hp2 Hr. by apply H.
Qed.

(** Waiting for the commit port ends. *)
Lemma wp_wait (Q : unit -> @adapter V -> Prop) p v t m k n c o :
  (forall p' v' t' n', cleared p' = p' -> Q tt (live p' v' t' m k n' c o)) ->
  wp (wait_for_commit_port v_eval v_out) Q (live p v t m k n c o).
Proof.
  intros H. unfold wait_for_commit_port. rewrite wp_bind. apply wp_drive.
  destruct (drains p v) as (j & Hj & Hready).
  apply (wp_while_n (fun i _ a => exists p' v' t' n', a = live p' v' t' m k n' c o /\
    cleared p' = p' /\ vtick p' = vtick (cleared p) /\
    commitReady_o (v_out (Nat.iter i (vtick (cleared p)) v')) = true) _ _ j).
  - by exists (cleared p), v, t, n.
  - lia.
  - intros i [] a (p' & v' & t' & n' & -> & Hp' & Ht & Hi). rewrite wp_bind.
    apply wp_read. rewrite wp_ret. destruct (commitReady_o (v_out v')) eqn:Er; cbn [negb].
    + apply H, Hp'.
    + destruct i as [| i]; [change (commitReady_o (v_out v') = true) in Hi; congruence |].
      apply (wp_tick_at (fun _ a => exists i', (i' < S i)%nat /\ _)). intros t2.
      exists i. split; [lia |]. do 4 eexists. split; [done |].
      split; [by apply cleared_set_clk |]. split; [by rewrite <- Ht |].
      rewrite Ht. by rewrite Nat.iter_succ_r in Hi.
Qed.

(** ** Representation *)

Definition view (s : PredictionContext) : preds * bool :=
  (Preds (final_prediction s) (raw_tage_prediction s) (pre_sc_prediction s), actual_known s).

(** Between two callbacks: the command pins are low, the map holds the
    predictions in flight and the counters are the tallies of the log. *)
Definition represents (out : list Z) (a : @adapter V) (b : board) : Prop :=
  exists p v t m k n, a = live p v t m k n (counters_of b) out /\ cleared p = p /\
    view <$> m = inflight b.

Lemma view_lookup m (b : board) i pr kn :
  view <$> m = inflight b -> inflight b !! i = Some (pr, kn) ->
  exists s, m !! i = Some s /\ view s = (pr, kn).
Proof.
  intros <- H. rewrite lookup_fmap in H. destruct (m !! i) as [s |]; [| done].
  exists s. split; [done |]. by apply (inj Some) in H.
Qed.

Lemma wp_unique_id {S} s p (Q : Z -> S -> Prop) st :
  p < 16 -> Q (key s p) st -> wp (unique_id s p) Q st.
Proof. intros Hp H. unfold unique_id. by rewrite (proj2 (Z.ltb_lt _ _) Hp). Qed.

Lemma wp_learn i pr kn dir npc (Q : unit -> @adapter V -> Prop) p v t m k n b o :
  view <$> m = inflight b -> inflight b !! i = Some (pr, kn) ->
  (forall m', view <$> m' = <[i := (pr, true)]> (inflight b) ->
     Q tt (live p v t m' k n (counters_of b) o)) ->
  wp (learn i dir npc) Q (live p v t m k n (counters_of b) o).
Proof.
  intros Hm Hi HQ. destruct (view_lookup m b i pr kn Hm Hi) as (s & Es & Ev).
  cbv [wp learn bind gets oget ret predictions]. rewrite Es.
  cbv [set_predictions modify context dut predictions known_taken_targets internal_ticks cnt stdout].
  apply HQ. rewrite fmap_insert, Hm. f_equal. unfold view in *. by injection Ev as <- _.
Qed.

Lemma score_board s b t pr kn :
  view s = (pr, kn) ->
  score s t (counters_of b) = counters_of (Board (inflight b) (made b) (log b ++ [(pr, t)])).
Proof.
  unfold view. intros [= <- _]. unfold score, counters_of. cbn [conditional_predictions
    final_mispredictions raw_tage_mispredictions pre_sc_mispredictions sc_overrides sc_corrections
    sc_harms loop_overrides loop_corrections loop_harms log made].
  rewrite !bump_tally, !tally_app. cbn [tally]. rewrite !Z.add_0_r. done.
Qed.

(** ** One callback *)

Definition phases (b : board) : gmap Z bool := snd <$> inflight b.

(** The adapter, at a board [b], carries out [c]. *)
Definition carries_out (out : list Z) (b : board) (c : call InstClass) (ph : gmap Z bool)
    (a' : @adapter V) : Prop :=
  exists b', bstep is_br is_cond_br pins_show b c b' /\ represents out a' b' /\ phases b' = ph.

Lemma phase_known b i : is_Some (phases b !! i) -> exists pr kn, inflight b !! i = Some (pr, kn).
Proof.
  unfold phases. rewrite lookup_fmap. destruct (inflight b !! i) as [[pr kn] |]; [eauto |].
  by intros [? [=]].
Qed.

Lemma phases_insert b i pr kn mk lg :
  phases (Board (<[i := (pr, kn)]> (inflight b)) mk lg) = <[i := kn]> (phases b).
Proof. unfold phases. cbn [inflight]. by rewrite fmap_insert. Qed.

Lemma call_predict out b s p pc ph a :
  represents out a b -> phase_step is_br is_cond_br (phases b) (Predict s p pc) = Some ph ->
  wp (run_call (Predict s p pc)) (fun _ => carries_out out b (Predict s p pc) ph) a.
Proof.
  intros (q & v & t & m & k & n & -> & Hq & Hm) Hph. cbn [phase_step] in Hph.
  destruct (Z.ltb_spec p 16) as [Hp |]; [| done]. injection Hph as <-.
  unfold run_call, get_cond_dir_prediction. rewrite wp_bind, wp_bind.
  apply wp_unique_id; [done |].
  rewrite wp_bind. apply wp_drive. rewrite wp_bind. apply wp_drive.
  rewrite wp_bind. apply wp_tick_at. intros t1. rewrite wp_bind. apply wp_read.
  set (v1 := vtick _ v). rewrite wp_bind. unfold set_predictions. rewrite wp_modify.
  rewrite wp_bind. apply wp_drive. rewrite wp_bind. apply wp_tick. intros v2 t2 n2.
  rewrite wp_bind. apply wp_drive. rewrite wp_bind. unfold count. rewrite wp_modify, !wp_ret.
  exists (Board (<[key s p := (pin_preds (v_out v1), false)]> (inflight b)) (made b + 1) (log b)).
  split; [constructor; by exists q, v |]. split; [| by rewrite phases_insert].
  cbn [context dut predictions known_taken_targets internal_ticks cnt stdout].
  do 6 eexists. split; [| split].
  - unfold counters_of. cbn [made log conditional_predictions]. f_equal.
    replace (u64 (u64 (made b) + 1)) with (u64 (made b + 1)) by cint_lia. done.
  - apply cleared_cleared.
  - rewrite fmap_insert, Hm. done.
Qed.

Lemma wp_backward pc dir npc (Q : bool -> @adapter V -> Prop) p v t m k n c o :
  (forall r k', Q r (live p v t m k' n c o)) ->
  wp (branch_is_backward pc dir npc) Q (live p v t m k n c o).
Proof. intros H. unfold branch_is_backward. destruct dir; apply H. Qed.

(** The common end of [spec_update]. *)
Lemma wp_history (cond : bool) dir pc npc (Q : unit -> @adapter V -> Prop) p v t m k n c o :
  (forall p' v' t' k' n', cleared p' = p' -> Q tt (live p' v' t' m k' n' c o)) ->
  wp (clear_commands ;;
      let! backward := (if cond then branch_is_backward pc dir npc else ret false) in
      drive (set_history cond dir backward) ;; tick v_eval ;; clear_commands) Q
    (live p v t m k n c o).
Proof.
  intros H. rewrite wp_bind. apply wp_drive. rewrite wp_bind.
  assert (forall r k', wp (drive (set_history cond dir r) ;; tick v_eval ;;
    clear_commands) Q (live (cleared p) v t m k' n c o)) as Hend.
  { intros r k'. rewrite wp_bind. apply wp_drive. rewrite wp_bind. apply wp_tick. intros v1 t1 n1.
    apply wp_drive, H, cleared_cleared. }
  destruct cond; [apply wp_backward; intros; apply Hend |].
  rewrite wp_ret. apply Hend.
Qed.

Lemma call_spec out b s p pc cl dir npc ph a :
  represents out a b ->
  phase_step is_br is_cond_br (phases b) (SpecUpdate s p pc cl dir npc) = Some ph ->
  wp (run_call (SpecUpdate s p pc cl dir npc))
    (fun _ => carries_out out b (SpecUpdate s p pc cl dir npc) ph) a.
Proof.
  intros (q & v & t & m & k & n & -> & Hq & Hm) Hph. cbn [phase_step] in Hph.
  destruct (is_br cl) eqn:Eb; [| done]. cbn [negb] in Hph.
  unfold run_call, spec_update. rewrite Eb, wp_bind, wp_ret, wp_bind.
  destruct (is_cond_br cl) eqn:Ec.
  - destruct (Z.ltb_spec p 16) as [Hp |]; [| done]. cbn [andb] in Hph.
    case_bool_decide as Hs; [| done]. injection Hph as <-.
    destruct (phase_known b _ Hs) as (pr & kn & Hi).
    rewrite wp_bind. apply wp_unique_id; [done |].
    apply (wp_learn _ pr kn); [done | done |]. intros m' Hm'.
    apply (wp_history true). intros p2 v2 t2 k2 n2 Hp2.
    eexists. split; [by eapply b_spec |]. split; [| by rewrite phases_insert].
    do 6 eexists. split; [reflexivity |]. done.
  - injection Hph as <-. rewrite wp_bind. apply wp_drive. rewrite wp_bind. apply wp_drive.
    apply wp_tick. intros v1 t1 n1. apply (wp_history false dir pc npc). intros p2 v2 t2 k2 n2 Hp2.
    exists b. split; [by constructor |]. split; [| done].
    do 6 eexists. split; [reflexivity |]. done.
Qed.

Lemma call_resolve out b s p pc x ph a :
  represents out a b ->
  phase_step is_br is_cond_br (phases b) (Resolve s p pc x) = Some ph ->
  wp (run_call (Resolve s p pc x)) (fun _ => carries_out out b (Resolve s p pc x) ph) a.
Proof.
  intros (q & v & t & m & k & n & -> & Hq & Hm) Hph. cbn [phase_step] in Hph.
  unfold run_call, notify_instr_execute_resolve.
  destruct (is_cond_br (insn_class x)) eqn:Ec; cbn [negb].
  - destruct (Z.ltb_spec p 16) as [Hp |]; [| done]. cbn [andb] in Hph.
    case_bool_decide as Hs; [| done]. cbn [andb] in Hph.
    case_bool_decide as Hd; [| done]. injection Hph as <-. destruct Hd as [d Ed].
    destruct (phase_known b _ Hs) as (pr & kn & Hi).
    destruct (view_lookup m b _ pr kn Hm Hi) as (c & Es & _).
    rewrite wp_bind. apply wp_unique_id; [done |]. rewrite wp_bind, wp_gets, wp_bind, wp_oget.
    exists c. split; [exact Es |]. rewrite wp_bind, wp_oget. exists d. split; [done |].
    rewrite wp_bind. apply (wp_learn _ pr kn); [done | done |]. intros m' Hm'.
    assert (forall k', carries_out out b (Resolve s p pc x) (<[key s p := true]> (phases b))
      (live q v t m' k' n (counters_of b) out)) as Hend.
    { intros k'. eexists. split; [by eapply b_resolve |]. split; [| by rewrite phases_insert].
      do 6 eexists. split; [reflexivity |]. done. }
    destruct (taken_target x); apply Hend.
  - injection Hph as <-. rewrite wp_ret. exists b. split; [by constructor |].
    split; [by do 6 eexists | done].
Qed.

(** The hand-over of a committed branch to the predictor. *)
Lemma wp_train (cond : bool) slot pc target taken (Q : unit -> @adapter V -> Prop) p v t m k n c o
    (rest : M (@adapter V) unit) :
  (forall p' v' t' n', cleared p' = p' -> wp rest Q (live p' v' t' m k n' c o)) ->
  wp (wait_for_commit_port v_eval v_out ;; drive (set_commit cond slot pc target taken) ;;
      tick v_eval ;; clear_commands ;; tick v_eval ;; rest) Q (live p v t m k n c o).
Proof.
  intros H. rewrite wp_bind. apply wp_wait. intros p1 v1 t1 n1 _. rewrite wp_bind. apply wp_drive.
  rewrite wp_bind. apply wp_tick. intros v2 t2 n2. rewrite wp_bind. apply wp_drive.
  rewrite wp_bind. apply wp_tick. intros v3 t3 n3. apply H. by apply cleared_set_clk.
Qed.

Lemma call_commit out b s p pc x ph a :
  represents out a b ->
  phase_step is_br is_cond_br (phases b) (Commit s p pc x) = Some ph ->
  wp (run_call (Commit s p pc x)) (fun _ => carries_out out b (Commit s p pc x) ph) a.
Proof.
  intros (q & v & t & m & k & n & -> & Hq & Hm) Hph. cbn [phase_step] in Hph.
  unfold run_call, notify_instr_commit.
  destruct (is_br (insn_class x)) eqn:Eb; cbn [negb andb] in *.
  2: { injection Hph as <-. rewrite wp_ret. exists b. split; [constructor; by rewrite Eb |].
       split; [by do 6 eexists | done]. }
  destruct (is_cond_br (insn_class x)) eqn:Ec; cbn [andb] in *.
  - destruct (Z.ltb_spec p 16) as [Hp |]; [| done]. cbn [andb] in Hph.
    case_bool_decide as Hs; [| done]. cbn [andb] in Hph.
    case_bool_decide as Hd; [| done]. injection Hph as <-. destruct Hd as [d Ed].
    unfold phases in Hs. rewrite lookup_fmap in Hs.
    destruct (inflight b !! key s p) as [[pr kn] |] eqn:Hi; [| done].
    injection Hs as Hk. cbn in Hk. subst kn.
    destruct (view_lookup m b _ pr true Hm Hi) as (c & Es & Ev).
    rewrite wp_bind, wp_oget. exists d. split; [done |]. rewrite wp_bind.
    assert (forall (R : unit -> @adapter V -> Prop),
      (forall k', R tt (live q v t m k' n (counters_of b) out)) ->
      wp (if bool_decide (is_Some (taken_target x))
          then set_target pc (default (x_next_pc x) (taken_target x)) else ret tt) R
        (live q v t m k n (counters_of b) out)) as Htarget
      by (intros R HR; destruct (bool_decide _); apply HR).
    apply Htarget. intros k'. rewrite wp_bind, wp_bind. apply wp_unique_id; [done |].
    rewrite wp_bind, wp_gets, wp_bind, wp_oget. exists c. split; [exact Es |].
    assert (actual_known c = true) as -> by (unfold view in Ev; by injection Ev).
    rewrite wp_bind, wp_ret, wp_bind. unfold count. rewrite wp_modify, wp_ret.
    cbn [context dut predictions known_taken_targets internal_ticks cnt stdout].
    rewrite (score_board c b d pr true Ev).
    apply wp_train. intros p2 v2 t2 n2 Hp2. rewrite wp_bind. apply wp_unique_id; [done |].
    unfold set_predictions. rewrite wp_modify.
    exists (Board (delete (key s p) (inflight b)) (made b) (log b ++ [(pr, d)])).
    split; [by eapply b_commit |]. split.
    + do 6 eexists. split; [reflexivity |]. split; [done |].
      cbn [predictions inflight]. by rewrite fmap_delete, Hm.
    + unfold phases. cbn [inflight]. by rewrite fmap_delete.
  - injection Hph as <-. rewrite wp_bind, wp_ret, wp_bind, wp_ret, wp_bind, wp_ret.
    apply wp_train. intros p2 v2 t2 n2 Hp2. rewrite wp_ret. exists b.
    split; [constructor; by rewrite Eb, Ec |]. split; [by do 6 eexists | done].
Qed.

Lemma call_carried_out out b c ph a :
  represents out a b -> phase_step is_br is_cond_br (phases b) c = Some ph ->
  wp (run_call c) (fun _ => carries_out out b c ph) a.
Proof.
  intros Ha Hph. destruct c as [s p pc | s p pc cl dir npc | s p pc x | s p pc x |].
  - by apply call_predict.
  - by apply call_spec.
  - by apply call_resolve.
  - by apply call_commit.
  - cbn [phase_step] in Hph. injection Hph as <-. exists b. split; [constructor | done].
Qed.

Lemma calls_carried_out out b cs ph a :
  represents out a b -> phase_run is_br is_cond_br (phases b) cs = Some ph ->
  wp (run_calls cs) (fun _ a' => exists b', bsteps is_br is_cond_br pins_show b cs b' /\
    represents out a' b' /\ phases b' = ph) a.
Proof.
  revert b a. induction cs as [| c cs IH]; intros b a Ha Hph; cbn [run_calls phase_run] in *.
  - injection Hph as <-. rewrite wp_ret. exists b. split; [constructor | done].
  - destruct (phase_step _ _ _ c) as [ph1 |] eqn:E; [| done].
    rewrite wp_bind. eapply wp_mono; [by apply (call_carried_out out b c ph1) |].
    intros [] a1 (b1 & Hs & Ha1 & Hp1). rewrite <- Hp1 in Hph.
    eapply wp_mono; [by apply (IH b1) |]. intros [] a2 (b2 & Hs2 & Ha2).
    exists b2. split; [by econstructor | done].
Qed.

(** ** Sessions *)

Lemma wp_begin (Q : unit -> @adapter V -> Prop) :
  (forall a, represents [] a board0 -> Q tt a) ->
  wp (beginCondDirPredictor v_new v_eval) Q adapter0.
Proof.
  intros H. unfold beginCondDirPredictor, adapter0. rewrite wp_bind, wp_modify, wp_bind, wp_modify.
  unfold set_dut. cbn [context dut predictions known_taken_targets internal_ticks cnt stdout].
  rewrite wp_bind. apply wp_drive. rewrite wp_bind. apply wp_drive.
  rewrite wp_bind. apply wp_ticks; [done |]. intros p1 v1 t1 n1 Hp1 _.
  rewrite wp_bind. apply wp_drive. apply wp_tick. intros v2 t2 n2. apply H.
  do 6 eexists. split; [reflexivity |]. split; [| by rewrite fmap_empty].
  apply cleared_set_clk. rewrite <- Hp1. done.
Qed.

Definition session (cs : list (call InstClass)) : M (@adapter V) unit :=
  beginCondDirPredictor v_new v_eval ;; run_calls cs ;; endCondDirPredictor v_eval.

(** The report on a board. *)
Definition report (b : board) (internal_ticks : Z) : option (list Z) :=
  let l := log b in
  let line1 := cprintf ("RTL_CBP full_conditional=%llu final_misp=%llu " ++
      "raw_tage_misp=%llu pre_sc_misp=%llu internal_ticks=%llu" ++ nl)
    [HInt (made b); HInt (tally (missed p_final) l); HInt (tally (missed p_raw) l);
     HInt (tally (missed p_pre) l); HInt internal_ticks] in
  let line2 := cprintf ("RTL_CBP_SC overrides=%llu corrections=%llu harms=%llu net=%lld" ++ nl)
    [HInt (tally (overrode p_final p_pre) l); HInt (tally (corrected p_final p_pre) l);
     HInt (tally (harmed p_final p_pre) l);
     HInt (tally (missed p_pre) l - tally (missed p_final) l)] in
  let line3 := cprintf ("RTL_CBP_LOOP overrides=%llu corrections=%llu harms=%llu net=%lld" ++ nl)
    [HInt (tally (overrode p_pre p_raw) l); HInt (tally (corrected p_pre p_raw) l);
     HInt (tally (harmed p_pre p_raw) l);
     HInt (tally (missed p_raw) l - tally (missed p_pre) l)] in
  match line1, line2, line3 with
  | Some t1, Some t2, Some t3 => Some (t1 ++ t2 ++ t3)
  | _, _, _ => None
  end.

Lemma wp_print fmt args (Q : unit -> @adapter V -> Prop) p v t m k n c o :
  fits fmt (kind <$> args) = true ->
  (forall txt, cprintf fmt args = Some txt -> Q tt (live p v t m k n c (o ++ txt))) ->
  wp (print fmt args) Q (live p v t m k n c o).
Proof.
  intros Hf H. destruct (fits_cprintf fmt args Hf) as [txt E]. unfold print.
  rewrite wp_bind, wp_oget. exists txt. split; [done |]. by apply H.
Qed.

Lemma counters_of_small b :
  0 <= made b < 2 ^ 64 -> Z.of_nat (length (log b)) < 2 ^ 63 ->
  counters_of b = Counters (made b) (tally (missed p_final) (log b)) (tally (missed p_raw) (log b))
    (tally (missed p_pre) (log b))
    (tally (overrode p_final p_pre) (log b)) (tally (corrected p_final p_pre) (log b))
    (tally (harmed p_final p_pre) (log b))
    (tally (overrode p_pre p_raw) (log b)) (tally (corrected p_pre p_raw) (log b))
    (tally (harmed p_pre p_raw) (log b)).
Proof.
  intros Hm Hl. assert (forall P, u64 (tally P (log b)) = tally P (log b)) as Ht.
  { intros P. pose proof (tally_range P (log b)). change (2 ^ 63) with 9223372036854775808 in Hl.
    cint_lia. }
  unfold counters_of. rewrite !Ht. f_equal. cint_lia.
Qed.

(** The difference the report prints. *)
Lemma s64_net f g l :
  Z.of_nat (length l) < 2 ^ 63 ->
  s64 (tally (corrected f g) l) - s64 (tally (harmed f g) l) =
  tally (missed g) l - tally (missed f) l.
Proof.
  intros Hl. pose proof (tally_range (corrected f g) l). pose proof (tally_range (harmed f g) l).
  destruct (tally_net f g l) as [-> _]. change (2 ^ 63) with 9223372036854775808 in Hl. cint_lia.
Qed.

Lemma wp_end b (Q : unit -> @adapter V -> Prop) a :
  represents [] a b -> 0 <= made b < 2 ^ 64 -> Z.of_nat (length (log b)) < 2 ^ 63 ->
  (forall a' txt n, dut a' = None -> context a' = None -> view <$> predictions a' = inflight b ->
     report b n = Some txt -> stdout a' = txt -> Q tt a') ->
  wp (endCondDirPredictor v_eval) Q a.
Proof.
  intros (p & v & t & m & k & n & -> & Hp & Hm) Hmade Hlog HQ.
  unfold endCondDirPredictor. rewrite wp_bind. apply wp_drive. rewrite wp_bind.
  apply wp_ticks; [apply cleared_cleared |]. intros p1 v1 t1 n1 _ _. rewrite wp_bind, wp_gets.
  cbn [cnt internal_ticks]. rewrite (counters_of_small b Hmade Hlog).
  cbn [conditional_predictions final_mispredictions raw_tage_mispredictions pre_sc_mispredictions
    sc_overrides sc_corrections sc_harms loop_overrides loop_corrections loop_harms].
  rewrite !s64_net by done.
  rewrite wp_bind. apply wp_print; [reflexivity |]. intros l1 E1.
  rewrite wp_bind. apply wp_print; [reflexivity |]. intros l2 E2.
  rewrite wp_bind. apply wp_print; [reflexivity |]. intros l3 E3.
  rewrite wp_bind. unfold get_dut. rewrite wp_bind, wp_gets, wp_oget. eexists. split; [reflexivity |].
  rewrite wp_modify. apply (HQ _ (l1 ++ l2 ++ l3) n1); [done | done | exact Hm | |].
  - unfold report. cbv zeta. rewrite E1, E2, E3. done.
  - cbn [stdout]. by rewrite <- !app_assoc.
Qed.

(** C10: the adapter implements the scoreboard.  For every predictor whose
    commit port drains and every sequence of callbacks that the protocol
    allows (a branch is predicted before its outcome is reported, its outcome
    before it commits, pieces are below 16), the adapter carries out all
    callbacks: no assertion fails, no wait is endless.  The predictions it
    keeps are those in flight on a scoreboard that made the same steps, each
    with the three predictions that the predictor had on its pins after a clock
    cycle with the query for that branch; its counters are the tallies of the
    scoreboard's log, and between callbacks all command pins are low. *)
Theorem adapter_refines_board cs ph :
  phase_run is_br is_cond_br ∅ cs = Some ph ->
  exists a b, (beginCondDirPredictor v_new v_eval ;; run_calls cs) adapter0 = Ok tt a /\
    bsteps is_br is_cond_br pins_show board0 cs b /\ represents [] a b /\ phases b = ph.
Proof.
  intros Hph.
  assert (wp (beginCondDirPredictor v_new v_eval ;; run_calls cs) (fun _ a => exists b,
    bsteps is_br is_cond_br pins_show board0 cs b /\ represents [] a b /\ phases b = ph) adapter0) as Hw.
  { rewrite wp_bind. apply wp_begin. intros a Ha. apply calls_carried_out; [done |].
    unfold phases. cbn [inflight board0]. by rewrite fmap_empty. }
  destruct (proj1 (wp_ok _ _ _) Hw) as ([] & a & E & b & Hb). by exists a, b.
Qed.

(** C33: the report is right.  A whole session (start, an allowed sequence of
    fewer than 2^63 callbacks, end) succeeds and prints the number of
    predictions and, from the log of committed branches, the misses of the
    three predictors, the overrides of the statistical corrector and of the
    loop predictor, their corrections and harms; the "net" of each is exactly
    the number of misses it saved. *)
Theorem session_reports cs ph :
  phase_run is_br is_cond_br ∅ cs = Some ph -> Z.of_nat (length cs) < 2 ^ 63 ->
  exists a b n txt, session cs adapter0 = Ok tt a /\ bsteps is_br is_cond_br pins_show board0 cs b /\
    report b n = Some txt /\ stdout a = txt /\ dut a = None /\
    view <$> predictions a = inflight b.
Proof.
  intros Hph Hlen.
  assert (wp (session cs) (fun _ a => exists b n txt, bsteps is_br is_cond_br pins_show board0 cs b /\
    report b n = Some txt /\ stdout a = txt /\ dut a = None /\ view <$> predictions a = inflight b)
    adapter0) as Hw.
  { unfold session. rewrite wp_bind. apply wp_begin. intros a Ha. rewrite wp_bind.
    eapply wp_mono; [apply (calls_carried_out [] board0 cs ph); [done |] |].
    { unfold phases. cbn [inflight board0]. by rewrite fmap_empty. }
    intros [] a1 (b & Hs & Hb & _).
    pose proof (bsteps_log _ _ _ _ _ _ Hs) as Hl. pose proof (bsteps_made _ _ _ _ _ _ Hs) as Hmk.
    assert (0 <= foldr (fun c n => predicts c + n) 0 cs <= Z.of_nat (length cs)) as Hf.
    { clear. induction cs as [| c cs IH]; cbn [foldr length]; [lia |]. destruct c; cbn [predicts]; lia. }
    change (2 ^ 63) with 9223372036854775808 in Hlen. cbn [board0 made log length] in *.
    apply (wp_end b); [done | | change (2 ^ 63) with 9223372036854775808; lia |].
    - change (2 ^ 64) with 18446744073709551616. lia.
    - intros a' txt n Hd Hc Hm Hr Ho. by exists b, n, txt. }
  destruct (proj1 (wp_ok _ _ _) Hw) as ([] & a & E & b & n & txt & H). by exists a, b, n, txt.
Qed.

Lemma unique_id_fails {S} s p (st : S) : 16 <= p -> unique_id s p st = Err AssertFailed.
Proof. intros Hp. unfold unique_id. by rewrite (proj2 (Z.ltb_ge _ _)). Qed.

Lemma unique_id_ok {S} s p (st : S) : p < 16 -> unique_id s p st = Ok (key s p) st.
Proof. intros Hp. unfold unique_id. by rewrite (proj2 (Z.ltb_lt _ _)). Qed.

Lemma unknown_prediction m (b : board) i :
  view <$> m = inflight b -> ~ is_Some (phases b !! i) -> m !! i = None.
Proof.
  intros Hm Hn. unfold phases in Hn. rewrite <- Hm, !lookup_fmap in Hn.
  destruct (m !! i); [exfalso; apply Hn; eauto | done].
Qed.

(** C34: the adapter stops on every violation of the protocol: a callback the
    checker refuses ends in a failed assertion or in the exception of an empty
    [std::optional], never in a silently wrong score. *)
Theorem violation_stops out a b c :
  represents out a b -> phase_step is_br is_cond_br (phases b) c = None ->
  run_call c a = Err AssertFailed \/ run_call c a = Err BadOptional.
Proof.
  intros (q & v & t & m & k & n & -> & Hq & Hm) Hph.
  destruct c as [s p pc | s p pc cl dir npc | s p pc x | s p pc x |]; cbn [phase_step] in Hph;
    [| | | | done]; unfold run_call.
  - left. destruct (Z.ltb_spec p 16); [done |].
    unfold get_cond_dir_prediction, bind. by rewrite unique_id_fails.
  - left. unfold spec_update, bind. destruct (is_br cl); cbn [negb ret fail] in *; [| done].
    destruct (is_cond_br cl); [| done]. destruct (Z.ltb_spec p 16).
    + case_bool_decide as Hs; [done |]. rewrite unique_id_ok by done.
      unfold learn, bind, gets. cbn [predictions]. by rewrite (unknown_prediction m b).
    + by rewrite unique_id_fails.
  - unfold notify_instr_execute_resolve, bind.
    destruct (is_cond_br (insn_class x)); cbn [negb] in *; [| done].
    destruct (Z.ltb_spec p 16); [| left; by rewrite unique_id_fails].
    rewrite unique_id_ok by done. unfold gets. cbn [predictions andb] in *.
    case_bool_decide as Hs; cbn [andb] in Hph; [| left; by rewrite (unknown_prediction m b)].
    case_bool_decide as Hd; [done |]. right.
    destruct (phase_known b _ Hs) as (pr & kn & Hi).
    destruct (view_lookup m b _ pr kn Hm Hi) as (c & -> & _).
    destruct (taken x); [exfalso; apply Hd; eauto | done].
  - unfold notify_instr_commit, bind. destruct (is_br (insn_class x)); cbn [negb andb] in *; [| done].
    destruct (is_cond_br (insn_class x)); cbn [andb] in *; [| done].
    destruct (taken x) as [d |]; [left | by right]. cbn [oget ret].
    assert (exists k', (if bool_decide (is_Some (taken_target x))
        then set_target pc (default (x_next_pc x) (taken_target x)) else ret tt)
      (live q v t m k n (counters_of b) out) = Ok tt (live q v t m k' n (counters_of b) out))
      as (k' & ->) by (destruct (taken_target x); eexists; reflexivity).
    destruct (Z.ltb_spec p 16); [| by rewrite unique_id_fails].
    rewrite unique_id_ok by done. unfold gets. cbn [predictions andb] in *.
    case_bool_decide as Hs; cbn [andb] in Hph.
    { done. }
    destruct (m !! key s p) as [c |] eqn:Ec; [| done].
    cbn [oget ret]. destruct (actual_known c) eqn:Ek; [| done]. exfalso. apply Hs.
    unfold phases. rewrite <- Hm, !lookup_fmap, Ec. cbn. by rewrite Ek.
Qed.
End adapter.

(** ** Witnesses

    A predictor with a one-entry update queue that always predicts taken, and
    three instruction classes: 0 is no branch, 1 a jump, 2 a conditional
    branch. *)

Definition demo_eval (p : pins) (busy : bool) : bool := if clk p then commitValid_i p else busy.
Definition demo_out (busy : bool) : outs := Outs true true false true false false (negb busy).
Definition demo_br (c : nat) : bool := negb (Nat.eqb c 0).
Definition demo_cond (c : nat) : bool := Nat.eqb c 2.

Lemma demo_drains p v : exists n, (n <= 1)%nat /\
  commitReady_o (demo_out (Nat.iter n (vtick demo_eval (cleared p)) v)) = true.
Proof. exists 1%nat. split; [lia |]. by destruct v. Qed.

Definition demo_calls : list (call nat) :=
  [Notify; Predict 7 0 0x400; SpecUpdate 7 0 0x400 2%nat true 0x3f0;
   Predict 8 0 0x404; SpecUpdate 8 0 0x404 2%nat false 0x408;
   SpecUpdate 9 0 0x408 1%nat true 0x500;
   Resolve 7 0 0x400 (Exec 2%nat (Some true) (Some 0x3f0) 0x3f0);
   Commit 7 0 0x400 (Exec 2%nat (Some true) (Some 0x3f0) 0x3f0);
   Commit 8 0 0x404 (Exec 2%nat (Some false) None 0x408);
   Commit 9 0 0x408 (Exec 1%nat None (Some 0x500) 0x500)].

Lemma adapter_refines_board_witness :
  exists a b, (beginCondDirPredictor false demo_eval ;; 
      run_calls demo_br demo_cond demo_eval demo_out demo_calls) adapter0 = Ok tt a /\
    bsteps demo_br demo_cond (pins_show demo_eval demo_out) board0 demo_calls b /\ represents [] a b /\ phases b = ∅.
Proof.
  apply (adapter_refines_board demo_br demo_cond false demo_eval demo_out 1 ltac:(reflexivity)
    demo_drains demo_calls ∅).
  vm_compute. reflexivity.
Defined.

Lemma session_reports_witness :
  exists a b n txt, session demo_br demo_cond false demo_eval demo_out demo_calls adapter0 = Ok tt a /\
    bsteps demo_br demo_cond (pins_show demo_eval demo_out) board0 demo_calls b /\
    report b n = Some txt /\ stdout a = txt /\ dut a = None /\ view <$> predictions a = inflight b.
Proof.
  apply (session_reports demo_br demo_cond false demo_eval demo_out 1 ltac:(reflexivity)
    demo_drains demo_calls ∅).
  - vm_compute. reflexivity.
  - reflexivity.
Defined.

(** What that session prints. *)
Example demo_report :
  (fun r => match r with Ok _ a => Some (stdout a) | Err _ => None end)
    (session demo_br demo_cond false demo_eval demo_out demo_calls adapter0) =
  Some (bytes ("RTL_CBP full_conditional=2 final_misp=1 raw_tage_misp=1 pre_sc_misp=1 internal_ticks=27"
    ++ nl ++ "RTL_CBP_SC overrides=2 corrections=1 harms=1 net=0"
    ++ nl ++ "RTL_CBP_LOOP overrides=2 corrections=1 harms=1 net=0" ++ nl)).
Proof. vm_compute. reflexivity. Qed.

Lemma violation_stops_witness :
  run_call demo_br demo_cond demo_eval demo_out
    (Commit 5 0 0x400 (Exec 2%nat (Some true) None 0x404))
    (Adapter (Some 0) (Some (Pins false true 0 false 0 false false false false false false 0 0 0 false,
       false)) ∅ ∅ 0 (counters_of board0) []) = Err AssertFailed \/
  run_call demo_br demo_cond demo_eval demo_out
    (Commit 5 0 0x400 (Exec 2%nat (Some true) None 0x404))
    (Adapter (Some 0) (Some (Pins false true 0 false 0 false false false false false false 0 0 0 false,
       false)) ∅ ∅ 0 (counters_of board0) []) = Err BadOptional.
Proof.
  apply (violation_stops demo_br demo_cond demo_eval demo_out [] _ board0).
  - do 6 eexists. split; [reflexivity |]. split; reflexivity.
  - reflexivity.
Defined.
