(* ===== verification/CbpPc.v ===== *)
(** * Addresses and slots of the CBP adapter

    How cbp_rtl_interface.cc maps 64-bit trace addresses to the 32-bit
    predictor, tells it the direction of a branch, and picks the slot that
    keeps the prediction's metadata. *)

From Stdlib Require Import ZArith Lia.
From stdpp Require Import base list numbers.
From S2P Require Import Prelude Cbp CbpBoard.

Local Open Scope Z_scope.

Lemma testbit_three i : 0 <= i -> Z.testbit 3 i = (i <? 2).
Proof.
  intros Hi. destruct (Z.ltb_spec i 2).
  - by assert (i = 0 \/ i = 1) as [-> | ->] by lia.
  - apply (testbit_in_u 2); [lia | unfold in_u; lia | lia].
Qed.

Lemma fold_pc_testbit pc i :
  0 <= i -> Z.testbit (fold_pc pc) i =
    if i <? 2 then Z.testbit pc i
    else (i <? 32) && xorb (Z.testbit pc i) (Z.testbit pc (i + 32)).
Proof.
  intros Hi. unfold fold_pc, u32.
  rewrite Z.lor_spec, !Z.land_spec, Z.lxor_spec, !testbit_uwrap, Z.lnot_spec, testbit_three,
    Z.shiftr_spec by lia.
  destruct (Z.ltb_spec i 2), (Z.ltb_spec i 32); try lia; cbn; rewrite ?andb_true_r, ?andb_false_r;
    rewrite ?orb_false_r; done.
Qed.

(** The address mapping.  The predictor's address has 32 bits; bits 31 to 2
    are the exclusive or of the two halves of the trace address, bits 1 and 0
    are its own; so no information of the low half is lost: addresses with the
    same high half that fold to the same value are equal. *)
Theorem fold_pc_maps pc :
  in_u 32 (fold_pc pc) /\
  (forall i, 0 <= i < 2 -> Z.testbit (fold_pc pc) i = Z.testbit pc i) /\
  (forall i, 2 <= i < 32 ->
     Z.testbit (fold_pc pc) i = xorb (Z.testbit pc i) (Z.testbit pc (i + 32))) /\
  (forall pc', Z.shiftr pc' 32 = Z.shiftr pc 32 -> fold_pc pc' = fold_pc pc -> pc' = pc).
Proof.
  split; [| split; [| split]].
  - apply in_u_testbit; [lia | |].
    + unfold fold_pc. apply Z.lor_nonneg. split; apply Z.land_nonneg; [right | left];
        apply (uwrap_range 32); lia.
    + intros i Hi. rewrite fold_pc_testbit by lia.
      by rewrite (proj2 (Z.ltb_ge i 2)), (proj2 (Z.ltb_ge i 32)) by lia.
  - intros i Hi. rewrite fold_pc_testbit by lia. by rewrite (proj2 (Z.ltb_lt i 2)) by lia.
  - intros i Hi. rewrite fold_pc_testbit by lia.
    by rewrite (proj2 (Z.ltb_ge i 2)), (proj2 (Z.ltb_lt i 32)) by lia.
  - intros pc' Hh Hf. apply Z.bits_inj'. intros i Hi.
    assert (forall j, 32 <= j -> Z.testbit pc' j = Z.testbit pc j) as Hhigh.
    { intros j Hj. apply (f_equal (fun x => Z.testbit x (j - 32))) in Hh.
      rewrite !Z.shiftr_spec, Z.sub_add in Hh by lia. done. }
    destruct (Z.ltb_spec i 32); [| by apply Hhigh].
    apply (f_equal (fun x => Z.testbit x i)) in Hf. rewrite !fold_pc_testbit in Hf by lia.
    destruct (Z.ltb_spec i 2); [done |]. rewrite (proj2 (Z.ltb_lt i 32)) in Hf by lia.
    rewrite (Hhigh (i + 32)) in Hf by lia. cbn in Hf.
    by destruct (Z.testbit pc' i), (Z.testbit pc i), (Z.testbit pc (i + 32)).
Qed.

(** C40: the synthetic target tells the predictor, which compares target and
    address, whether the branch goes backward, exactly when the folded address
    is at least 4 below the top and, for backward branches, at least 4: at the
    ends of the address space the 32-bit subtraction or addition wraps and the
    direction is inverted. *)
Theorem synthetic_target_direction rtl_pc backward :
  in_u 32 rtl_pc ->
  (synthetic_target rtl_pc backward <? rtl_pc) = backward <->
  (if backward then 4 <= rtl_pc else rtl_pc < 2 ^ 32 - 4).
Proof.
  intros Hp. unfold synthetic_target. destruct backward.
  - rewrite Z.ltb_lt. cint_lia.
  - rewrite Z.ltb_ge. cint_lia.
Qed.

Lemma synthetic_target_direction_witness :
  (synthetic_target 0x400 true <? 0x400) = true <-> 4 <= 0x400.
Proof. apply (synthetic_target_direction 0x400 true). cint_unfold. lia. Defined.

(** The mapping does reach the bad addresses: a backward branch at an address
    whose halves agree is presented as a forward one. *)
Example backward_shown_forward :
  (synthetic_target (fold_pc 0x1234000012340000) true <? fold_pc 0x1234000012340000) = false.
Proof. reflexivity. Qed.

(** Slots do not clash.  Two instructions that are both in a window of 4096
    consecutive sequence numbers keep their metadata in different slots, also
    where the 64-bit sequence number wraps; every slot fits the 12-bit port. *)
Theorem meta_slots_distinct s1 s2 :
  let slot s := u16 (Z.land s kMetaSlotMask) in
  0 <= slot s1 < 4096 /\ (u64 (s1 - s2) < 4096 -> slot s1 = slot s2 -> u64 s1 = u64 s2).
Proof.
  intros slot.
  assert (forall s, slot s = s mod 4096) as Hs.
  { intros s. unfold slot, kMetaSlotMask. change 4095 with (Z.ones 12).
    rewrite Z.land_ones by lia. change (2 ^ 12) with 4096. cint_lia. }
  rewrite !Hs. split; [apply Z.mod_pos_bound; lia |]. intros Hw Heq. cint_lia.
Qed.
