(* ===== verification/CbpTrain.v ===== *)
(** * The adapter and the update queue of the predictor

    CbpRtlPredictor.sv connects the commit pins to TagePredictor.sv, which
    puts committed conditional branches into its update queue and trains its
    tables with what leaves the queue.  Here the predictor is that queue
    beside an arbitrary rest.  The adapter then never waits for the commit
    port, and the predictor is trained with the committed conditional
    branches, each once, in order. *)

From Stdlib Require Import String ZArith Lia.
From stdpp Require Import base list gmap numbers.
From S2P Require Import Prelude PortIO Util HostPrintf Cbp CbpBoard Ring TageQueue.

Local Open Scope Z_scope.
Local Open Scope cm_scope.

(** ** The predictor *)

Section predictor.
(** [tage_meta_t]; the tables, histories and saved metadata; how they react
    to the pins and to a training record; the metadata saved in a slot; the
    output pins other than [commitReady_o]. *)
Context {Meta R : Type} (r_eval : pins -> option (bool * Z * bool * Meta) -> R -> R).
Context (r_meta : R -> Z -> Meta) (r_out : R -> outs).

(** [tage_update_t]: isConditional, pc, taken, meta. *)
Definition tage_update : Type := bool * Z * bool * Meta.

(** The levels of clock and reset at the last [eval], the queue, the rest, and
    all records the tables were trained with. *)
Record predictor := Predictor {
  last_clk : bool; last_rst : bool; updateQueue : tuq tage_update; rest : R;
  trained : list tage_update
}.

(** The connections of the queue. *)
Definition QUEUE_DEPTH : Z := 4.
Definition queuedUpdateInput (p : pins) (r : R) : tage_update :=
  (commitConditional_i p, commitPc_i p, commitTaken_i p, r_meta r (commitMetaSlot_i p)).
Definition queue_in (p : pins) (r : R) : tuq_in tage_update :=
  TUQIn (commitValid_i p && commitConditional_i p) (queuedUpdateInput p r) true.
Definition training (v : predictor) : option tage_update :=
  if deqValid_o (updateQueue v) then deqData_o (updateQueue v) else None.

(** [eval]: the clocked processes run at [posedge clk or negedge rst]. *)
Definition p_eval (p : pins) (v : predictor) : predictor :=
  let edge := (clk p && negb (last_clk v)) || (negb (rst p) && last_rst v) in
  Predictor (clk p) (rst p)
    (if edge then tuq_edge QUEUE_DEPTH (rst p) (updateQueue v) (queue_in p (rest v)) else updateQueue v)
    (r_eval p (training v) (rest v))
    (if edge && rst p then trained v ++ option_list (training v) else trained v).

(** [updateReady_o] is the queue's [enqReady_o], for the pins of any cycle. *)
Definition p_out (v : predictor) : outs :=
  let o := r_out (rest v) in
  Outs (prediction_o o) (rawTagePrediction_o o) (preScPrediction_o o) (providerValid_o o)
    (loopUsed_o o) (scLowConfidence_o o)
    (enqReady_o QUEUE_DEPTH (updateQueue v) (TUQIn false (false, 0, false, r_meta (rest v) 0) true)).

Lemma depth_pos : 0 < QUEUE_DEPTH.
Proof. reflexivity. Qed.

Lemma p_ready v : commitReady_o (p_out v) = true.
Proof. apply always_ready, depth_pos. Qed.

(** The commit port drains at once. *)
Lemma p_drains p v : exists n, (n <= 0)%nat /\
  commitReady_o (p_out (Nat.iter n (vtick p_eval (cleared p)) v)) = true.
Proof. exists 0%nat. split; [lia | apply p_ready]. Qed.

(** ** One clock cycle *)

Definition what (u : tage_update) : Z * bool := let '(_, pc, taken, _) := u in (pc, taken).

(** Between cycles: the clock is low, the reset is over, the queue holds [l]
    and the tables were trained with [L]. *)
Definition settled (v : predictor) (l : list (Z * bool)) (L : list (Z * bool)) : Prop :=
  last_clk v = false /\ last_rst v = true /\
  (exists us, queued QUEUE_DEPTH (updateQueue v) us /\ map what us = l) /\
  map what (trained v) = L.

Definition handed (p : pins) : list (Z * bool) :=
  if commitValid_i p && commitConditional_i p then [(commitPc_i p, commitTaken_i p)] else [].

Lemma training_head v us :
  queued QUEUE_DEPTH (updateQueue v) us -> (length us <= 1)%nat -> option_list (training v) = us.
Proof.
  intros H Hl. unfold training. rewrite (queued_valid QUEUE_DEPTH _ _ H).
  destruct us as [| u [| ? ?]]; [by rewrite bool_decide_true | | cbn in Hl; lia].
  rewrite bool_decide_false by done. cbn [negb].
  by rewrite (queued_data QUEUE_DEPTH _ _ _ H).
Qed.

Lemma settled_vtick p v l L :
  rst p = true -> settled v l L -> (length l <= 1)%nat ->
  settled (vtick p_eval p v) (handed p) (L ++ l).
Proof.
  intros Hr (Hc & Hlr & (us & Hq & Hus) & Ht) Hl.
  assert (length us <= 1)%nat as Hl1 by (by rewrite <- Hus, length_map in Hl).
  unfold vtick, p_eval. cbn [clk rst set_clk last_clk last_rst updateQueue trained].
  rewrite Hr, Hc. cbn [negb andb orb].
  pose proof (training_head v us Hq Hl1) as Htr.
  match goal with |- context [training (Predictor ?a ?b ?c ?d ?e)] =>
    change (training (Predictor a b c d e)) with (training v) end.
  split_and!; [done | done | | ].
  - eexists. split.
    + cbn [updateQueue tuq_edge]. unfold queue_in. by apply (queued_flow QUEUE_DEPTH depth_pos _ _ _ us).
    + unfold handed, set_clk. cbn [commitValid_i commitConditional_i].
      by destruct (commitValid_i p && commitConditional_i p).
  - cbn [trained]. by rewrite Htr, map_app, Ht, Hus.
Qed.

Lemma settled_reset p v :
  rst p = false -> Z.of_nat (length (entries (updateQueue v))) = QUEUE_DEPTH ->
  last_clk v = false -> trained v = [] ->
  let v' := vtick p_eval p v in
  Z.of_nat (length (entries (updateQueue v'))) = QUEUE_DEPTH /\ last_clk v' = false /\ trained v' = [] /\
  queued QUEUE_DEPTH (updateQueue v') [].
Proof.
  intros Hr He Hc Ht. cbv zeta. unfold vtick, p_eval.
  cbn [clk rst set_clk last_clk last_rst updateQueue trained]. rewrite Hr, Hc, Ht.
  cbn [negb andb orb]. rewrite ?andb_false_r.
  destruct (last_rst v); cbn [negb andb orb tuq_edge];
    (split_and!; [exact He | done | done | by apply queued_reset]).
Qed.

(** The first cycle after the reset. *)
Lemma settled_start p v :
  rst p = true -> commitValid_i p = false -> last_clk v = false -> trained v = [] ->
  queued QUEUE_DEPTH (updateQueue v) [] -> settled (vtick p_eval p v) [] [].
Proof.
  intros Hr Hcv Hc Ht Hq. unfold vtick, p_eval. cbn [clk rst set_clk last_clk last_rst updateQueue trained].
  rewrite Hr, Hc, Ht. cbn [negb andb orb].
  match goal with |- context [training (Predictor ?a ?b ?c ?d ?e)] =>
    change (training (Predictor a b c d e)) with (training v) end.
  split_and!; [done | done | | ].
  - exists []. split; [| done]. cbn [updateQueue tuq_edge]. unfold queue_in, set_clk.
    cbn [commitValid_i commitConditional_i]. rewrite Hcv. apply (queued_flow QUEUE_DEPTH depth_pos (updateQueue v) false _ []); [done | cbn; lia].
  - cbn [trained]. by rewrite (training_head v [] Hq (Nat.le_0_l 1)).
Qed.

(** ** The adapter on this predictor *)

Context {InstClass : Type} (is_br is_cond_br : InstClass -> bool).

(** Between callbacks: no commit is signalled, the queue is empty. *)
Definition trained_with (L : list (Z * bool)) (a : @adapter predictor) : Prop :=
  forall p v, dut a = Some (p, v) -> commitValid_i p = false /\ rst p = true /\ settled v [] L.

Lemma keeps_trained_modify L f :
  (forall a, dut (f a) = dut a) -> keeps (trained_with L) (modify f).
Proof. intros Hf. apply keeps_modify. intros a Ha p v. rewrite Hf. apply Ha. Qed.

Lemma keeps_trained_drive L f :
  (forall p, commitValid_i p = false -> commitValid_i (f p) = false) -> (forall p, rst (f p) = rst p) ->
  keeps (trained_with L) (drive f).
Proof.
  intros Hf Hr a Ha. unfold drive, get_dut, bind, gets, oget, fail, ret, modify.
  destruct (dut a) as [[p v] |] eqn:E; [| done]. intros p' v' [= <- <-].
  destruct (Ha p v E) as (? & ? & ?). rewrite Hr. auto.
Qed.

(** What [tick] does. *)
Lemma tick_at (a : @adapter predictor) r a' :
  tick p_eval a = Ok r a' ->
  exists p v, dut a = Some (p, v) /\ dut a' = Some (set_clk false p, vtick p_eval p v).
Proof.
  destruct a as [[t |] [[p v] |] m k n c o]; unfold tick, drive, eval, timeInc, get_dut, bind, gets,
    oget, fail, ret, modify, set_dut; cbn [context dut predictions known_taken_targets internal_ticks cnt
    stdout]; intros E; [| discriminate E..].
  injection E as _ <-. by exists p, v.
Qed.

Lemma keeps_trained_tick L : keeps (trained_with L) (tick p_eval).
Proof.
  intros a Ha. destruct (tick p_eval a) as [r a' | e] eqn:E; [| done].
  apply tick_at in E as (p & v & Ed & Ed'). destruct (Ha p v Ed) as (Hc & Hr & Hs).
  intros p' v' E'. rewrite Ed' in E'. injection E' as <- <-. split; [done |]. split; [done |].
  pose proof (settled_vtick p v [] L Hr Hs (Nat.le_0_l 1)) as H.
  unfold handed in H. by rewrite Hc, app_nil_r in H.
Qed.

Lemma keeps_trained_get L : keeps (trained_with L) get_dut.
Proof. unfold get_dut. keeps_solve. Qed.

#[local] Hint Resolve keeps_trained_tick keeps_trained_get : keeps.
#[local] Hint Extern 1 (keeps _ (drive _)) => apply keeps_trained_drive; done : keeps.
#[local] Hint Extern 1 (keeps _ (modify _)) => apply keeps_trained_modify; done : keeps.

Ltac trained_solve :=
  unfold wait_for_commit_port, clear_commands, read, learn, branch_is_backward, set_predictions,
    set_target, Cbp.count, unique_id; keeps_solve.

(** The callbacks other than a commit do not train. *)
Lemma keeps_other L c :
  match c with Commit _ _ _ _ => False | _ => True end ->
  keeps (trained_with L) (run_call is_br is_cond_br p_eval p_out c).
Proof.
  destruct c; intros H; [| | | done |]; unfold run_call, get_cond_dir_prediction, spec_update,
    notify_instr_execute_resolve, notify_instr_fetch, notify_instr_decode, notify_agen_complete;
    trained_solve.
Qed.

(** If [m] finishes from [P] it ends in [Q]. *)
Definition yields {S A} (P : S -> Prop) (m : M S A) (Q : S -> Prop) : Prop :=
  forall s, P s -> match m s with Ok _ s' => Q s' | Err _ => True end.

Lemma yields_bind {S A B} (P R' Q : S -> Prop) (m : M S A) (f : A -> M S B) :
  yields P m R' -> (forall a, yields R' (f a) Q) -> yields P (bind m f) Q.
Proof.
  intros Hm Hf s Hs. specialize (Hm s Hs). unfold bind. destruct (m s); [by apply Hf | done].
Qed.

Lemma yields_keeps {S A B} (P Q : S -> Prop) (m : M S A) (f : A -> M S B) :
  keeps P m -> (forall a, yields P (f a) Q) -> yields P (bind m f) Q.
Proof. intros Hm. by apply yields_bind. Qed.

Lemma yields_ok {S A} (P Q : S -> Prop) (m : M S A) s a s' :
  yields P m Q -> m s = Ok a s' -> P s -> Q s'.
Proof. intros H E Hs. specialize (H s Hs). by rewrite E in H. Qed.

Lemma yields_some {S A B} (P Q : S -> Prop) e (x : A) (f : A -> M S B) :
  yields P (f x) Q -> yields P (bind (oget e (Some x)) f) Q.
Proof. done. Qed.

(** The hand-over of a committed branch. *)
Lemma yields_train L (cond : bool) slot pc target taken (k : M (@adapter predictor) unit) :
  (forall L, keeps (trained_with L) k) ->
  yields (trained_with L)
    (drive (set_commit cond slot pc target taken) ;; tick p_eval ;; clear_commands ;; tick p_eval ;; k)
    (trained_with (L ++ if cond then [(pc, taken)] else [])).
Proof.
  intros Hk.
  apply (yields_bind _ (fun a => forall p v, dut a = Some (p, v) -> commitValid_i p = true /\
    rst p = true /\ settled v [] L /\ handed p = if cond then [(pc, taken)] else [])).
  { intros a Ha. unfold drive, get_dut, bind, gets, oget, fail, ret, modify.
    destruct (dut a) as [[p v] |] eqn:E; [| done]. intros p' v' [= <- <-].
    destruct (Ha p v E) as (? & ? & ?). done. }
  intros []. apply (yields_bind _ (fun a => forall p v, dut a = Some (p, v) -> rst p = true /\
    settled v (if cond then [(pc, taken)] else []) L)).
  { intros a Ha. destruct (tick p_eval a) as [r a' | e] eqn:E; [| done].
    apply tick_at in E as (p & v & Ed & Ed'). destruct (Ha p v Ed) as (Hc & Hr & Hs & Hh).
    intros p' v' E'. rewrite Ed' in E'. injection E' as <- <-. split; [done |].
    pose proof (settled_vtick p v [] L Hr Hs (Nat.le_0_l 1)) as H.
    by rewrite Hh, app_nil_r in H. }
  intros []. apply (yields_bind _ (fun a => forall p v, dut a = Some (p, v) -> commitValid_i p = false /\
    rst p = true /\ settled v (if cond then [(pc, taken)] else []) L)).
  { intros a Ha. unfold clear_commands, drive, get_dut, bind, gets, oget, fail, ret, modify.
    destruct (dut a) as [[p v] |] eqn:E; [| done]. intros p' v' [= <- <-].
    by destruct (Ha p v eq_refl). }
  intros []. apply (yields_bind _ (trained_with (L ++ if cond then [(pc, taken)] else []))).
  { intros a Ha. destruct (tick p_eval a) as [r a' | e] eqn:E; [| done].
    apply tick_at in E as (p & v & Ed & Ed'). destruct (Ha p v Ed) as (Hc & Hr & Hs).
    intros p' v' E'. rewrite Ed' in E'. injection E' as <- <-. split; [done |]. split; [done |].
    pose proof (settled_vtick p v _ L Hr Hs ltac:(destruct cond; cbn; lia)) as H.
    unfold handed in H. by rewrite Hc in H. }
  intros []. apply Hk.
Qed.

(** The conditional branches a sequence of callbacks commits. *)
Definition commit_of (c : call InstClass) : list (Z * bool) :=
  match c with
  | Commit _ _ pc x =>
      if is_br (insn_class x) && is_cond_br (insn_class x)
      then match taken x with Some t => [(fold_pc pc, t)] | None => [] end else []
  | _ => []
  end.

Lemma yields_call L c :
  yields (trained_with L) (run_call is_br is_cond_br p_eval p_out c) (trained_with (L ++ commit_of c)).
Proof.
  destruct c as [| | | s p pc x |]; try (cbn [commit_of]; rewrite app_nil_r; by apply keeps_other).
  unfold run_call, notify_instr_commit, commit_of.
  destruct (is_br (insn_class x)); cbn [negb andb]; [| rewrite app_nil_r; apply keeps_ret].
  destruct (is_cond_br (insn_class x)); cbn [andb].
  - destruct (taken x) as [t |]; [| by intros a _].
    apply yields_some, yields_keeps; [trained_solve |]. intros _. apply yields_keeps; [trained_solve |].
    intros slot. apply yields_keeps; [trained_solve |]. intros _.
    apply (yields_train L true). intros L'. trained_solve.
  - apply yields_keeps; [trained_solve |]. intros tk. apply yields_keeps; [trained_solve |]. intros _.
    apply yields_keeps; [trained_solve |]. intros slot. apply yields_keeps; [trained_solve |]. intros _.
    apply (yields_train L false). intros L'. trained_solve.
Qed.

Lemma yields_calls L cs :
  yields (trained_with L) (run_calls is_br is_cond_br p_eval p_out cs)
    (trained_with (L ++ concat (map commit_of cs))).
Proof.
  revert L. induction cs as [| c cs IH]; intros L; cbn [run_calls map concat].
  - rewrite app_nil_r. apply keeps_ret.
  - rewrite app_assoc. eapply yields_bind; [apply yields_call |]. intros _. apply IH.
Qed.

(** The predictor at power-up: the array may hold anything. *)
Definition fresh (v : predictor) : Prop :=
  Z.of_nat (length (entries (updateQueue v))) = QUEUE_DEPTH /\ last_clk v = false /\ trained v = [].

(** Cycles under reset. *)
Lemma wp_reset_ticks i (Q : unit -> @adapter predictor -> Prop) p v t m k n c o :
  rst p = false -> cleared p = p -> fresh v -> (i = 0%nat -> queued QUEUE_DEPTH (updateQueue v) []) ->
  (forall p' v' t' n', rst p' = false -> cleared p' = p' -> fresh v' ->
     queued QUEUE_DEPTH (updateQueue v') [] -> Q tt (Adapter (Some t') (Some (p', v')) m k n' c o)) ->
  wp (ticks p_eval i) Q (Adapter (Some t) (Some (p, v)) m k n c o).
Proof.
  revert p v t n. induction i as [| i IH]; intros p v t n Hr Hp Hf Hi HQ; cbn [ticks].
  - rewrite wp_ret. by apply HQ; [| | | apply Hi].
  - rewrite wp_bind. apply wp_tick_at. intros t'. destruct Hf as (He & Hc & Ht).
    destruct (settled_reset p v Hr He Hc Ht) as (He' & Hc' & Ht' & Hq).
    apply IH; [done | by apply cleared_set_clk | done | done | done].
Qed.

Lemma wp_begin_trains v_new :
  fresh v_new ->
  wp (beginCondDirPredictor v_new p_eval) (fun _ a => trained_with [] a) adapter0.
Proof.
  intros Hf. unfold beginCondDirPredictor, adapter0.
  rewrite wp_bind, wp_modify, wp_bind, wp_modify.
  unfold set_dut. cbn [context dut predictions known_taken_targets internal_ticks cnt stdout].
  rewrite wp_bind. apply wp_drive. rewrite wp_bind. apply wp_drive. rewrite wp_bind.
  apply wp_reset_ticks; [done | done | done | done |]. intros p v t n _ Hp (_ & Hc & Ht) Hq.
  rewrite wp_bind. apply wp_drive. apply wp_tick_at. intros t' p' v' [= <- <-].
  assert (commitValid_i p = false) as Hcv by (by rewrite <- Hp).
  split; [done |]. split; [done |]. by apply settled_start.
Qed.

(** C20: the predictor learns what was committed.  On a predictor with the
    update queue of TagePredictor.sv, whatever its tables are and whatever the
    queue held at power-up, every allowed sequence of callbacks is carried
    out (the commit port is always ready), and at its end the tables were
    trained with exactly the committed conditional branches, each once, in
    the order of the commits, with their folded address and outcome. *)
Theorem commits_train v_new cs ph :
  fresh v_new -> phase_run is_br is_cond_br ∅ cs = Some ph ->
  exists a b p v, (beginCondDirPredictor v_new p_eval ;; run_calls is_br is_cond_br p_eval p_out cs)
      adapter0 = Ok tt a /\
    bsteps is_br is_cond_br (pins_show p_eval p_out) board0 cs b /\ represents [] a b /\ phases b = ph /\
    dut a = Some (p, v) /\ map what (trained v) = concat (map commit_of cs) /\
    queued QUEUE_DEPTH (updateQueue v) [].
Proof.
  intros Hf Hph.
  assert (wp (beginCondDirPredictor v_new p_eval ;; run_calls is_br is_cond_br p_eval p_out cs)
    (fun _ a => exists b, bsteps is_br is_cond_br (pins_show p_eval p_out) board0 cs b /\ represents [] a b /\ phases b = ph)
    adapter0) as Hw.
  { rewrite wp_bind. apply wp_begin. intros a Ha.
    apply (calls_carried_out is_br is_cond_br p_eval p_out 0 eq_refl p_drains); [done |].
    unfold phases. cbn [inflight board0]. by rewrite fmap_empty. }
  destruct (proj1 (wp_ok _ _ _) Hw) as ([] & a & E & b & Hb & Hr & Hp). exists a, b.
  destruct (proj1 (wp_ok _ _ _) (wp_begin_trains v_new Hf)) as ([] & a0 & E0 & H0).
  destruct (bind_ok_inv _ _ _ _ _ E) as ([] & a1 & E1 & E2). rewrite E0 in E1. injection E1 as <-.
  pose proof (yields_ok _ _ _ _ _ _ (yields_calls [] cs) E2 H0) as H1.
  assert (exists p v, dut a = Some (p, v)) as (p & v & Ed)
    by (destruct Hr as (p & v & ? & ? & ? & ? & -> & _); eauto).
  exists p, v. destruct (H1 p v Ed) as (_ & _ & _ & _ & (us & Hq & Hus) & Ht).
  split_and!; [done | done | done | done | done | done |]. by apply map_eq_nil in Hus as ->.
Qed.
End predictor.

(** A predictor without tables that predicts not taken; its queue starts with
    arbitrary pointers. *)
Definition demo_r_out (_ : unit) : outs := Outs false false false false false false true.
Definition demo_predictor : @predictor Z unit :=
  Predictor false false (TUQ (replicate 4 (true, 0, true, 0)) 3 1 2) tt [].

Lemma commits_train_witness :
  exists a b p v, (beginCondDirPredictor demo_predictor (p_eval (fun _ _ r => r) (fun _ s => s)) ;;
      run_calls demo_br demo_cond (p_eval (fun _ _ r => r) (fun _ s => s))
        (p_out (fun _ s => s) demo_r_out) demo_calls) adapter0 = Ok tt a /\
    bsteps demo_br demo_cond (pins_show (p_eval (fun _ _ r => r) (fun _ s => s)) (p_out (fun _ s => s) demo_r_out))
      board0 demo_calls b /\ represents [] a b /\ phases b = ∅ /\
    dut a = Some (p, v) /\ map what (trained v) = [(0x400, true); (0x404, false)] /\
    queued QUEUE_DEPTH (updateQueue v) [].
Proof.
  apply (commits_train (fun _ _ r => r) (fun _ s => s) demo_r_out demo_br demo_cond demo_predictor
    demo_calls ∅).
  - done.
  - vm_compute. reflexivity.
Defined.
