(* ===== verification/MemWord.v ===== *)
(** * Words, bytes and accesses of the memory path

    The functions that dataMem.sv and StoreBuffer.sv share: which byte lanes
    of a word an access touches, where the stored bytes go and how a loaded
    value is formed.  The lemmas relate them to single bytes. *)

From Stdlib Require Import ZArith Lia.
From stdpp Require Import base list numbers.
From S2P Require Import Prelude.

Local Open Scope Z_scope.

(** ** The code *)

(** [mem_access_t]; the last constructor stands for the three encodings that
    the enumeration leaves out. *)
Inductive mem_access := MEM_BYTE | MEM_HALF | MEM_WORD | MEM_BYTE_U | MEM_HALF_U | MEM_RESERVED.

#[export] Instance mem_access_eq_dec : EqDecision mem_access.
Proof. solve_decision. Defined.

(** [w[k*8 +: 8]], read and written. *)
Definition byte_of (k w : Z) : Z := u8 (Z.shiftr w (8 * k)).
Definition set_byte (k b w : Z) : Z :=
  Z.lor (Z.ldiff w (Z.shiftl 255 (8 * k))) (Z.shiftl (u8 b) (8 * k)).

(** [{{(32-n){w[n-1]}}, w[n-1:0]}] *)
Definition sign_extend (n w : Z) : Z :=
  Z.lor (if Z.testbit w (n - 1) then Z.shiftl (Z.ones (32 - n)) n else 0) (uwrap n w).

Definition formatLoad (rawWord : Z) (accessMode : mem_access) (offset : Z) : Z :=
  let shiftedWord := Z.shiftr rawWord (offset * 8) in
  match accessMode with
  | MEM_BYTE => sign_extend 8 shiftedWord
  | MEM_HALF => sign_extend 16 shiftedWord
  | MEM_WORD => rawWord
  | MEM_BYTE_U => uwrap 8 shiftedWord
  | MEM_HALF_U => uwrap 16 shiftedWord
  | MEM_RESERVED => 0
  end.

Definition storeByteMask (accessMode : mem_access) (offset : Z) : Z :=
  match accessMode with
  | MEM_BYTE => uwrap 4 (Z.shiftl 1 offset)
  | MEM_HALF => if offset =? 3 then 0 else uwrap 4 (Z.shiftl 3 offset)
  | _ => 15
  end.

Definition alignStoreData (writeData : Z) (accessMode : mem_access) (offset : Z) : Z :=
  match accessMode with
  | MEM_BYTE => u32 (Z.shiftl (u8 writeData) (offset * 8))
  | MEM_HALF => u32 (Z.shiftl (u16 writeData) (offset * 8))
  | _ => writeData
  end.

Definition lanes : list Z := [0; 1; 2; 3].

Definition mergeStore (currentWord alignedData byteEnable : Z) : Z :=
  fold_left (fun w lane => if Z.testbit byteEnable lane then set_byte lane (byte_of lane alignedData) w
                           else w) lanes currentWord.

(** ** Bytes of words *)

Lemma testbit_byte_of k w i :
  0 <= k -> 0 <= i -> Z.testbit (byte_of k w) i = (i <? 8) && Z.testbit w (i + 8 * k).
Proof.
  intros Hk Hi. unfold byte_of, u8. rewrite testbit_uwrap by lia.
  by rewrite Z.shiftr_spec by lia.
Qed.

Lemma testbit_set_byte k b w i :
  0 <= k -> 0 <= i -> Z.testbit (set_byte k b w) i =
    if (8 * k <=? i) && (i <? 8 * k + 8) then Z.testbit b (i - 8 * k) else Z.testbit w i.
Proof.
  intros Hk Hi. unfold set_byte. rewrite Z.lor_spec, Z.ldiff_spec.
  change 255 with (Z.ones 8).
  destruct (Z.leb_spec (8 * k) i); cbn [andb].
  - rewrite !Z.shiftl_spec by lia. unfold u8. rewrite testbit_uwrap by lia.
    rewrite Z.testbit_ones_nonneg by lia.
    destruct (Z.ltb_spec i (8 * k + 8)).
    + rewrite !(proj2 (Z.ltb_lt _ _)) by lia. by rewrite andb_false_r, andb_true_l.
    + rewrite !(proj2 (Z.ltb_ge _ _)) by lia. cbn. by rewrite andb_true_r, orb_false_r.
  - rewrite !Z.shiftl_spec_low by lia. cbn. by rewrite andb_true_r, orb_false_r.
Qed.

Lemma byte_of_set_byte k j b w :
  0 <= k -> 0 <= j -> byte_of k (set_byte j b w) = if k =? j then u8 b else byte_of k w.
Proof.
  intros Hk Hj. apply Z.bits_inj'. intros i Hi. rewrite testbit_byte_of, testbit_set_byte by lia.
  destruct (Z.eqb_spec k j) as [-> | Hne].
  - unfold u8. rewrite testbit_uwrap by lia. destruct (Z.ltb_spec i 8); [| done]. cbn [andb].
    rewrite (proj2 (Z.leb_le _ _)), (proj2 (Z.ltb_lt _ _)) by lia. cbn. f_equal. lia.
  - rewrite testbit_byte_of by lia. destruct (Z.ltb_spec i 8); [| done]. cbn [andb].
    destruct (Z.leb_spec (8 * j) (i + 8 * k)), (Z.ltb_spec (i + 8 * k) (8 * j + 8)); cbn; (done || lia).
Qed.

Lemma byte_of_range k w : in_u 8 (byte_of k w).
Proof. apply uwrap_range. lia. Qed.

(** A word is its four bytes. *)
Lemma word_ext w1 w2 :
  in_u 32 w1 -> in_u 32 w2 -> (forall k, 0 <= k < 4 -> byte_of k w1 = byte_of k w2) -> w1 = w2.
Proof.
  intros H1 H2 Hb. apply Z.bits_inj'. intros i Hi.
  destruct (Z.lt_ge_cases i 32) as [Hlt |]; [| by rewrite !(testbit_in_u 32) by (try lia; done)].
  specialize (Hb (i / 8)). pose proof (Z.div_mod i 8 ltac:(lia)). pose proof (Z.mod_pos_bound i 8 ltac:(lia)).
  assert (0 <= i / 8 < 4) as Hd by lia. apply Hb in Hd as E.
  apply (f_equal (fun x => Z.testbit x (i mod 8))) in E. rewrite !testbit_byte_of in E by lia.
  rewrite (proj2 (Z.ltb_lt _ _)) in E by lia. cbn [andb] in E.
  by replace (i mod 8 + 8 * (i / 8)) with i in E by lia.
Qed.

Lemma in_u_set_byte k b w : 0 <= k < 4 -> in_u 32 w -> in_u 32 (set_byte k b w).
Proof.
  intros Hk Hw. apply in_u_testbit; [lia | |].
  - unfold set_byte. apply Z.lor_nonneg. split.
    + apply Z.ldiff_nonneg. left. unfold in_u in Hw. lia.
    + apply Z.shiftl_nonneg. apply (uwrap_range 8); lia.
  - intros i Hi. rewrite testbit_set_byte by lia.
    rewrite (proj2 (Z.ltb_ge i (8 * k + 8))), andb_false_r by lia. by apply (testbit_in_u 32); [lia | |].
Qed.

Lemma lane_cases k : 0 <= k < 4 -> k = 0 \/ k = 1 \/ k = 2 \/ k = 3.
Proof. lia. Qed.

Lemma u8_byte_of k w : u8 (byte_of k w) = byte_of k w.
Proof. apply uwrap_id; [lia | apply byte_of_range]. Qed.

Lemma byte_of_mergeStore k c a m :
  0 <= k < 4 -> byte_of k (mergeStore c a m) = if Z.testbit m k then byte_of k a else byte_of k c.
Proof.
  intros Hk. unfold mergeStore, lanes. cbn [fold_left].
  destruct (lane_cases k Hk) as [-> | [-> | [-> | ->]]];
    destruct (Z.testbit m 0), (Z.testbit m 1), (Z.testbit m 2), (Z.testbit m 3);
    rewrite ?byte_of_set_byte by lia; cbn [Z.eqb Pos.eqb]; rewrite ?u8_byte_of; reflexivity.
Qed.

Lemma in_u_mergeStore c a m : in_u 32 c -> in_u 32 (mergeStore c a m).
Proof.
  intros Hc. unfold mergeStore, lanes. cbn [fold_left].
  repeat case_match; repeat apply in_u_set_byte; (lia || done).
Qed.

(** ** Accesses *)

(** The number of bytes of an access; what the processor aligns. *)
Definition size (a : mem_access) : Z :=
  match a with MEM_BYTE | MEM_BYTE_U => 1 | MEM_HALF | MEM_HALF_U => 2 | _ => 4 end.
Definition aligned (a : mem_access) (address : Z) : bool := address mod size a =? 0.
Definition store_access (a : mem_access) : bool :=
  match a with MEM_BYTE | MEM_HALF | MEM_WORD => true | _ => false end.
Definition load_access (a : mem_access) : bool := match a with MEM_RESERVED => false | _ => true end.
(** [k] is one of the lanes of an access at [offset]. *)
Definition touches (a : mem_access) (offset k : Z) : bool := (offset <=? k) && (k <? offset + size a).

Ltac lane_split H := destruct (lane_cases _ H) as [-> | [-> | [-> | ->]]].

Lemma storeByteMask_touches a off k :
  store_access a = true -> aligned a off = true -> 0 <= off < 4 -> 0 <= k < 4 ->
  Z.testbit (storeByteMask a off) k = touches a off k.
Proof.
  intros Ha Hal Hoff Hk. lane_split Hoff; destruct a; try done; lane_split Hk; reflexivity.
Qed.

Lemma aligned_word off : aligned MEM_WORD off = true -> 0 <= off < 4 -> off = 0.
Proof. intros H%Z.eqb_eq Hoff. cbn [size] in H. by rewrite Z.mod_small in H. Qed.

(** A byte address in an aligned access: same word, one of its lanes. *)
Lemma in_access acc a b :
  aligned acc a = true ->
  (a <=? b) && (b <? a + size acc) = (a / 4 =? b / 4) && touches acc (a mod 4) (b mod 4).
Proof.
  unfold aligned, touches. rewrite Z.eqb_eq. intros Ha.
  pose proof (Z.div_mod a 4 ltac:(lia)). pose proof (Z.div_mod b 4 ltac:(lia)).
  pose proof (Z.mod_pos_bound a 4 ltac:(lia)). pose proof (Z.mod_pos_bound b 4 ltac:(lia)).
  assert (a mod 4 + size acc <= 4) as Hs
    by (destruct acc; cbn [size] in *; Z.to_euclidean_division_equations; lia).
  destruct (Z.eqb_spec (a / 4) (b / 4)); cbn [andb].
  - f_equal; [destruct (Z.leb_spec a b), (Z.leb_spec (a mod 4) (b mod 4)) |
      destruct (Z.ltb_spec b (a + size acc)), (Z.ltb_spec (b mod 4) (a mod 4 + size acc))]; (done || lia).
  - destruct (Z.leb_spec a b), (Z.ltb_spec b (a + size acc)); cbn; (done || lia).
Qed.

Lemma aligned_offset acc a : aligned acc a = true -> aligned acc (a mod 4) = true.
Proof.
  unfold aligned. rewrite !Z.eqb_eq. destruct acc; cbn [size]; Z.to_euclidean_division_equations; lia.
Qed.

Lemma size_pos acc : 1 <= size acc <= 4.
Proof. destruct acc; cbn; lia. Qed.

Lemma byte_of_shift k j w : 0 <= k -> 0 <= j -> byte_of k (Z.shiftr w (8 * j)) = byte_of (k + j) w.
Proof. intros Hk Hj. unfold byte_of. rewrite Z.shiftr_shiftr by lia. do 2 f_equal. lia. Qed.

Lemma byte_of_align a off k d :
  store_access a = true -> aligned a off = true -> 0 <= off < 4 -> 0 <= k < 4 ->
  touches a off k = true -> byte_of k (alignStoreData d a off) = byte_of (k - off) d.
Proof.
  intros Ha Hal Hoff Hk Ht. unfold touches in Ht.
  apply andb_true_iff in Ht as [H1%Z.leb_le H2%Z.ltb_lt].
  apply Z.bits_inj'. intros i Hi. rewrite !testbit_byte_of by lia.
  destruct (Z.ltb_spec i 8); [cbn [andb] | done].
  assert (forall n, n = 8 \/ n = 16 -> 8 * (k - off) + 8 <= n ->
    Z.testbit (u32 (Z.shiftl (uwrap n d) (off * 8))) (i + 8 * k) = Z.testbit d (i + 8 * (k - off))) as H32.
  { intros n Hn Hle. unfold u32. rewrite testbit_uwrap, Z.shiftl_spec, testbit_uwrap by lia.
    rewrite !(proj2 (Z.ltb_lt _ _)) by lia. cbn [andb]. f_equal. lia. }
  destruct a; try done; cbn [alignStoreData size] in *.
  - apply (H32 8); lia.
  - apply (H32 16); lia.
  - assert (off = 0) as -> by (by apply aligned_word). do 2 f_equal. lia.
Qed.

(** *** Loads *)

(** The number whose bytes are [l], least significant first. *)
Definition le_bytes (l : list Z) : Z := foldr (fun b v => b + 256 * v) 0 l.

(** A loaded value from its bytes, sign- or zero-extended to 32 bits. *)
Definition load_value (a : mem_access) (byte : Z -> Z) : Z :=
  match a with
  | MEM_BYTE => u32 (s8 (byte 0))
  | MEM_HALF => u32 (s16 (le_bytes [byte 0; byte 1]))
  | MEM_BYTE_U => byte 0
  | MEM_HALF_U => le_bytes [byte 0; byte 1]
  | MEM_WORD => le_bytes [byte 0; byte 1; byte 2; byte 3]
  | MEM_RESERVED => 0
  end.

Lemma sign_extend_add n w : 0 <= n <= 32 ->
  sign_extend n w = (if Z.testbit w (n - 1) then 2 ^ 32 - 2 ^ n else 0) + uwrap n w.
Proof.
  intros Hn. unfold sign_extend. destruct (Z.testbit w (n - 1)); [| done].
  rewrite <- Z.lxor_lor, <- Z.add_nocarry_lxor.
  - rewrite Z.shiftl_mul_pow2, Z.ones_equiv by lia. f_equal.
    replace (2 ^ 32) with (2 ^ (32 - n) * 2 ^ n) by (rewrite <- Z.pow_add_r by lia; f_equal; lia). lia.
  - apply Z.bits_inj'. intros i Hi. rewrite Z.land_spec, testbit_uwrap, Z.bits_0 by lia.
    destruct (Z.ltb_spec i n); [| apply andb_false_r]. by rewrite Z.shiftl_spec_low by lia.
  - apply Z.bits_inj'. intros i Hi. rewrite Z.land_spec, testbit_uwrap, Z.bits_0 by lia.
    destruct (Z.ltb_spec i n); [| apply andb_false_r]. by rewrite Z.shiftl_spec_low by lia.
Qed.

Lemma sign_extend_8 w : sign_extend 8 w = u32 (s8 w).
Proof.
  rewrite sign_extend_add, Z.testbit_eqb by lia. change (uwrap 8 w) with (u8 w).
  change (2 ^ (8 - 1)) with 128. change (2 ^ 32 - 2 ^ 8) with 4294967040.
  destruct (Z.eqb_spec (w / 128 mod 2) 1); cint_lia.
Qed.

Lemma sign_extend_16 w : sign_extend 16 w = u32 (s16 w).
Proof.
  rewrite sign_extend_add, Z.testbit_eqb by lia. change (uwrap 16 w) with (u16 w).
  change (2 ^ (16 - 1)) with 32768. change (2 ^ 32 - 2 ^ 16) with 4294901760.
  destruct (Z.eqb_spec (w / 32768 mod 2) 1); cint_lia.
Qed.

Lemma le_bytes_half w : le_bytes [byte_of 0 w; byte_of 1 w] = u16 w.
Proof.
  unfold byte_of. cbn [le_bytes foldr]. rewrite !Z.shiftr_div_pow2 by lia.
  change (2 ^ (8 * 0)) with 1. change (2 ^ (8 * 1)) with 256. rewrite Z.div_1_r. cint_lia.
Qed.

Lemma le_bytes_word w : le_bytes [byte_of 0 w; byte_of 1 w; byte_of 2 w; byte_of 3 w] = u32 w.
Proof.
  unfold byte_of. cbn [le_bytes foldr]. rewrite !Z.shiftr_div_pow2 by lia.
  change (2 ^ (8 * 0)) with 1. change (2 ^ (8 * 1)) with 256. change (2 ^ (8 * 2)) with 65536.
  change (2 ^ (8 * 3)) with 16777216. rewrite Z.div_1_r. cint_lia.
Qed.

(** A load forms its value from the bytes it touches. *)
Lemma formatLoad_bytes a off w :
  load_access a = true -> aligned a off = true -> 0 <= off < 4 -> in_u 32 w ->
  formatLoad w a off = load_value a (fun i => byte_of (i + off) w).
Proof.
  intros Ha Hal Hoff Hw. unfold formatLoad, load_value. rewrite Z.mul_comm.
  rewrite <- !byte_of_shift by lia.
  assert (forall x, byte_of 0 x = u8 x) as E0 by (intros x; unfold byte_of; by rewrite Z.shiftr_0_r).
  destruct a; try done.
  - rewrite sign_extend_8, E0. cint_lia.
  - rewrite sign_extend_16, le_bytes_half. cint_lia.
  - assert (off = 0) as -> by (by apply aligned_word).
    rewrite le_bytes_word. symmetry. rewrite Z.shiftr_0_r. by apply uwrap_id.
  - by rewrite le_bytes_half.
Qed.

Lemma formatLoad_range a off w : in_u 32 w -> 0 <= off -> in_u 32 (formatLoad w a off).
Proof.
  intros Hw Hoff. unfold formatLoad. cbv zeta. set (x := Z.shiftr w (off * 8)).
  destruct a; rewrite ?sign_extend_8, ?sign_extend_16; try apply (uwrap_range 32); try done; try lia.
  - pose proof (uwrap_range 8 x). unfold in_u in *. change (2 ^ 8) with 256 in *.
    change (2 ^ 32) with 4294967296. lia.
  - pose proof (uwrap_range 16 x). unfold in_u in *. change (2 ^ 16) with 65536 in *.
    change (2 ^ 32) with 4294967296. lia.
Qed.

Lemma in_u_load_value a f : (forall i, in_u 8 (f i)) -> in_u 32 (load_value a f).
Proof.
  intros Hf. pose proof (Hf 0) as H0. pose proof (Hf 1) as H1. pose proof (Hf 2) as H2.
  pose proof (Hf 3) as H3. unfold in_u in *. change (2 ^ 8) with 256 in *. change (2 ^ 32) with 4294967296.
  destruct a; cbn [load_value le_bytes foldr]; try lia; apply (uwrap_range 32); lia.
Qed.

(** What is stored is what a load of the same width returns. *)
Definition stored_value (a : mem_access) (d : Z) : Z :=
  match a with
  | MEM_BYTE => u32 (s8 d) | MEM_HALF => u32 (s16 d) | MEM_BYTE_U => u8 d | MEM_HALF_U => u16 d
  | _ => u32 d
  end.

Lemma load_value_stored a d :
  load_access a = true -> load_value a (fun i => byte_of i d) = stored_value a d.
Proof.
  intros Ha. unfold load_value, stored_value.
  assert (byte_of 0 d = u8 d) as E0 by (unfold byte_of; by rewrite Z.shiftr_0_r).
  destruct a; try done; rewrite ?le_bytes_word, ?le_bytes_half, ?E0; cint_lia.
Qed.

Lemma load_value_ext a f g :
  (forall i, 0 <= i < size a -> f i = g i) -> load_value a f = load_value a g.
Proof.
  intros H. destruct a; cbn [load_value size] in *; rewrite ?(H 0), ?(H 1), ?(H 2), ?(H 3) by lia; done.
Qed.
