(* ===== verification/DataMem.v ===== *)
(** * The data memory: dataMem.sv

    64 KiB of RAM and three memory-mapped registers behind one request port.
    Requests are accepted in order; a load answers through a response register
    that is held until it is taken.  The specification is a byte memory that
    serves the accepted requests one after the other. *)

From Stdlib Require Import ZArith Lia.
From stdpp Require Import base list numbers.
From S2P Require Import Prelude MemWord.

Local Open Scope Z_scope.

(** ** The module *)

Definition LOGIC_ADDR_W : Z := 16.
Definition DATA_WORD_COUNT : Z := 16384.
(** The memory map of TypesPkg.sv. *)
Definition UART_TX_MMIO_ADDR : Z := 0xffe0.
Definition FROMHOST_MMIO_ADDR : Z := 0xfff0.
Definition TOHOST_MMIO_ADDR : Z := 0xfff8.

(** The registers. *)
Record dmem := DMem {
  mem : list Z;
  readWordReg : Z; readAccessReg : mem_access; readByteOffsetReg : Z; responseValidReg : bool;
  toHostReg : Z; uartValid_o : bool; uartData_o : Z
}.

(** The inputs of a cycle. *)
Record dmem_in := DIn {
  requestValid_i : bool; requestWrite_i : bool; requestAddress_i : Z; requestWriteData_i : Z;
  requestAccess_i : mem_access; responseReady_i : bool; fromHost_i : Z
}.

Section cycle.
Context (s : dmem) (i : dmem_in).

Definition wordAddr : Z := Z.shiftr (uwrap LOGIC_ADDR_W (requestAddress_i i)) 2.
Definition byteOffset : Z := uwrap 2 (requestAddress_i i).
Definition uartHit : bool := requestAddress_i i =? UART_TX_MMIO_ADDR.
Definition fromHostHit : bool := Z.shiftr (requestAddress_i i) 2 =? Z.shiftr FROMHOST_MMIO_ADDR 2.
Definition toHostHit : bool := Z.shiftr (requestAddress_i i) 2 =? Z.shiftr TOHOST_MMIO_ADDR 2.

(** The handshake, out of reset. *)
Definition responseSlotAvailable : bool := negb (responseValidReg s) || responseReady_i i.
Definition requestReady_o : bool := requestWrite_i i || responseSlotAvailable.
Definition requestFire : bool := requestValid_i i && requestReady_o.
Definition responseData_o : Z := formatLoad (readWordReg s) (readAccessReg s) (readByteOffsetReg s).

Definition writeByteEnable : Z := storeByteMask (requestAccess_i i) byteOffset.
Definition shiftedWriteData : Z := alignStoreData (requestWriteData_i i) (requestAccess_i i) byteOffset.

(** [mem[wordAddr]] *)
Definition ram_word (m : list Z) (w : Z) : Z := default 0 (arr_get m w).

(** The RAM process. *)
Definition next_mem : list Z :=
  if requestFire && requestWrite_i i && negb toHostHit && negb uartHit && negb fromHostHit
  then <[Z.to_nat wordAddr := mergeStore (ram_word (mem s) wordAddr) shiftedWriteData writeByteEnable]>
         (mem s)
  else mem s.
Definition next_readWord : Z :=
  if requestFire && negb (requestWrite_i i) then
    if fromHostHit then fromHost_i i
    else if toHostHit then toHostReg s
    else if uartHit then 0
    else ram_word (mem s) wordAddr
  else readWordReg s.

(** One edge of the clock, out of reset. *)
Definition dmem_step : dmem :=
  let load := requestFire && negb (requestWrite_i i) in
  let store := requestFire && requestWrite_i i in
  DMem next_mem next_readWord
    (if load then requestAccess_i i else readAccessReg s)
    (if load then byteOffset else readByteOffsetReg s)
    (if load then true
     else if responseValidReg s && responseReady_i i then false else responseValidReg s)
    (if store && toHostHit then mergeStore (toHostReg s) shiftedWriteData writeByteEnable
     else toHostReg s)
    (store && negb toHostHit && uartHit)
    (if store && negb toHostHit && uartHit then uwrap 8 (requestWriteData_i i) else uartData_o s).
End cycle.

(** The reset keeps RAM and the word read last. *)
Definition dmem_reset (s : dmem) : dmem :=
  DMem (mem s) (readWordReg s) MEM_WORD 0 false 0 false 0.

(** What a run accepts, answers and sends to the UART, and the final state. *)
Fixpoint dmem_run (s : dmem) (ins : list dmem_in) : list dmem_in * list Z * list Z * dmem :=
  match ins with
  | [] => ([], [], [], s)
  | i :: ins =>
      let s1 := dmem_step s i in
      let '(reqs, answers, sent, s') := dmem_run s1 ins in
      ((if requestFire s i then [i] else []) ++ reqs,
       (if responseValidReg s && responseReady_i i then [responseData_o s] else []) ++ answers,
       (if uartValid_o s1 then [uartData_o s1] else []) ++ sent, s')
  end.

(** ** The specification *)

(** The bytes of RAM, by their 16-bit address, and the [tohost] register. *)
Record smem := SMem { ram : Z -> Z; tohost : Z }.

(** A word with the bytes of an access replaced. *)
Definition splice (a : mem_access) (off d w : Z) : Z :=
  le_bytes (map (fun k => if touches a off k then byte_of (k - off) d else byte_of k w) lanes).

(** One request: the answer of a load, the byte sent by a store to the UART,
    the memory afterwards. *)
Definition serve (m : smem) (i : dmem_in) : option Z * option Z * smem :=
  let a := requestAddress_i i in
  let acc := requestAccess_i i in
  if requestWrite_i i then
    if toHostHit i then (None, None, SMem (ram m) (splice acc (a mod 4) (requestWriteData_i i) (tohost m)))
    else if uartHit i then (None, Some (requestWriteData_i i mod 256), m)
    else if fromHostHit i then (None, None, m)
    else (None, None, SMem (fun b =>
      if (a mod 65536 <=? b) && (b <? a mod 65536 + size acc)
      then byte_of (b - a mod 65536) (requestWriteData_i i) else ram m b) (tohost m))
  else
    let byte := if fromHostHit i then fun k => byte_of (a mod 4 + k) (fromHost_i i)
                else if toHostHit i then fun k => byte_of (a mod 4 + k) (tohost m)
                else if uartHit i then fun _ => 0
                else fun k => ram m (a mod 65536 + k) in
    (Some (load_value acc byte), None, m).

Fixpoint serve_all (m : smem) (reqs : list dmem_in) : list Z * list Z * smem :=
  match reqs with
  | [] => ([], [], m)
  | i :: reqs =>
      let '(answer, byte, m1) := serve m i in
      let '(answers, sent, m') := serve_all m1 reqs in
      (option_list answer ++ answers, option_list byte ++ sent, m')
  end.

(** ** Typing *)

(** The registers have their widths. *)
Record dmem_wf (s : dmem) : Prop := {
  wf_length : Z.of_nat (length (mem s)) = DATA_WORD_COUNT;
  wf_mem : Forall (in_u 32) (mem s);
  wf_readWord : in_u 32 (readWordReg s);
  wf_offset : 0 <= readByteOffsetReg s < 4;
  wf_toHost : in_u 32 (toHostReg s);
  wf_uart : in_u 8 (uartData_o s)
}.

Definition in_wf (i : dmem_in) : Prop :=
  in_u 32 (requestAddress_i i) /\ in_u 32 (requestWriteData_i i) /\ in_u 32 (fromHost_i i).

Lemma wordAddr_div i : wordAddr i = requestAddress_i i mod 65536 / 4.
Proof. unfold wordAddr, LOGIC_ADDR_W. by rewrite Z.shiftr_div_pow2, uwrap_mod by lia. Qed.

Lemma wordAddr_range i : 0 <= wordAddr i < DATA_WORD_COUNT.
Proof. rewrite wordAddr_div. unfold DATA_WORD_COUNT. Z.to_euclidean_division_equations. lia. Qed.

Lemma byteOffset_mod i : byteOffset i = requestAddress_i i mod 4.
Proof. unfold byteOffset. by rewrite uwrap_mod by lia. Qed.

Lemma byteOffset_range i : 0 <= byteOffset i < 4.
Proof. rewrite byteOffset_mod. apply Z.mod_pos_bound. lia. Qed.

Lemma ram_word_range s w : dmem_wf s -> in_u 32 (ram_word (mem s) w).
Proof.
  intros H. unfold ram_word, arr_get. case_match; [| by apply in_u_0].
  destruct (mem s !! Z.to_nat w) eqn:E; [| by apply in_u_0].
  eapply Forall_lookup_1; [apply (wf_mem s H) | done].
Qed.

Lemma dmem_reset_wf_aux s :
  Z.of_nat (length (mem s)) = DATA_WORD_COUNT -> Forall (in_u 32) (mem s) -> in_u 32 (readWordReg s) ->
  dmem_wf (dmem_reset s).
Proof. intros H1 H2 H3. constructor; cbn; try done; by apply in_u_0. Qed.

Lemma dmem_step_wf_aux s i : dmem_wf s -> in_wf i -> dmem_wf (dmem_step s i).
Proof.
  intros H (Ha & Hd & Hh). unfold dmem_step. constructor; cbn.
  - unfold next_mem. case_match; [rewrite length_insert |]; apply (wf_length s H).
  - unfold next_mem. case_match; [| apply (wf_mem s H)].
    apply Forall_insert; [apply (wf_mem s H) |]. apply in_u_mergeStore. by apply ram_word_range.
  - unfold next_readWord. repeat case_match;
      (done || apply H || (by apply in_u_0) || by apply ram_word_range).
  - case_match; [apply byteOffset_range | apply H].
  - case_match; [apply in_u_mergeStore |]; apply H.
  - case_match; [by apply uwrap_range | apply H].
Qed.

(** ** Refinement *)

Definition ram_byte (m : list Z) (b : Z) : Z := byte_of (b mod 4) (ram_word m (b / 4)).

Definition same (s : dmem) (m : smem) : Prop :=
  (forall b, 0 <= b < 65536 -> ram_byte (mem s) b = ram m b) /\ toHostReg s = tohost m.

(** The answer that waits to be taken. *)
Definition pending (s : dmem) : list Z := if responseValidReg s then [responseData_o s] else [].

(** A request as the load/store unit makes it: aligned, of a known kind. *)
Definition request_ok (i : dmem_in) : Prop :=
  aligned (requestAccess_i i) (requestAddress_i i) = true /\
  (if requestWrite_i i then store_access (requestAccess_i i) else load_access (requestAccess_i i)) = true.
Definition in_ok (i : dmem_in) : Prop := in_wf i /\ (requestValid_i i = true -> request_ok i).

(** The bytes of an aligned access lie in one word. *)
Lemma access_in_word acc a k :
  aligned acc a = true -> 0 <= k < size acc ->
  (a mod 65536 + k) mod 4 = a mod 4 + k /\ (a mod 65536 + k) / 4 = a mod 65536 / 4 /\
  0 <= a mod 65536 + k < 65536.
Proof.
  unfold aligned. rewrite Z.eqb_eq. destruct acc; cbn [size]; Z.to_euclidean_division_equations; lia.
Qed.

Lemma aligned_ram acc a : aligned acc a = true -> aligned acc (a mod 65536) = true.
Proof.
  unfold aligned. rewrite !Z.eqb_eq. destruct acc; cbn [size]; Z.to_euclidean_division_equations; lia.
Qed.

(** The bytes that a store to RAM replaces. *)
Lemma in_access_ram acc a b :
  aligned acc a = true ->
  (a mod 65536 <=? b) && (b <? a mod 65536 + size acc) =
    (a mod 65536 / 4 =? b / 4) && touches acc (a mod 4) (b mod 4).
Proof.
  intros Ha. rewrite in_access by (by apply aligned_ram). do 2 f_equal.
  by rewrite Z.mod_mod_divide by (by exists 16384).
Qed.

Lemma splice_merge acc off d w :
  store_access acc = true -> aligned acc off = true -> 0 <= off < 4 -> in_u 32 w ->
  mergeStore w (alignStoreData d acc off) (storeByteMask acc off) = splice acc off d w.
Proof.
  intros Hs Hal Hoff Hw. set (m := mergeStore _ _ _).
  assert (in_u 32 m) as Hm by (by apply in_u_mergeStore).
  assert (u32 m = m) as E by (by apply uwrap_id). rewrite <- E, <- le_bytes_word.
  unfold splice, lanes. cbn [map]. f_equal.
  assert (forall k, 0 <= k < 4 ->
    byte_of k m = if touches acc off k then byte_of (k - off) d else byte_of k w) as Hk.
  { intros k Hk. unfold m. rewrite byte_of_mergeStore, storeByteMask_touches by done.
    destruct (touches acc off k) eqn:Et; [| done]. by apply byte_of_align. }
  by rewrite !Hk by lia.
Qed.

Lemma ram_word_insert m i j v :
  0 <= i < Z.of_nat (length m) -> 0 <= j < Z.of_nat (length m) ->
  ram_word (<[Z.to_nat j := v]> m) i = if i =? j then v else ram_word m i.
Proof. intros Hi Hj. unfold ram_word. rewrite arr_get_insert by lia. by destruct (i =? j). Qed.

Lemma ram_byte_store s acc a d b :
  dmem_wf s -> store_access acc = true -> aligned acc a = true -> 0 <= b < 65536 ->
  ram_byte (<[Z.to_nat (a mod 65536 / 4) := mergeStore (ram_word (mem s) (a mod 65536 / 4))
      (alignStoreData d acc (a mod 4)) (storeByteMask acc (a mod 4))]> (mem s)) b =
  if (a mod 65536 <=? b) && (b <? a mod 65536 + size acc) then byte_of (b - a mod 65536) d
  else ram_byte (mem s) b.
Proof.
  intros Hwf Hs Hal Hb. unfold ram_byte.
  pose proof (wf_length s Hwf) as Hlen. unfold DATA_WORD_COUNT in Hlen.
  assert (0 <= a mod 65536 / 4 < 16384) as Hw by (Z.to_euclidean_division_equations; lia).
  assert (0 <= b / 4 < 16384) as Hb4 by (Z.to_euclidean_division_equations; lia).
  assert (0 <= b mod 4 < 4) as Hbm by (apply Z.mod_pos_bound; lia).
  assert (0 <= a mod 4 < 4) as Ham by (apply Z.mod_pos_bound; lia).
  rewrite ram_word_insert, in_access_ram, Z.eqb_sym by (lia || done).
  destruct (Z.eqb_spec (a mod 65536 / 4) (b / 4)) as [E | Hne]; [cbn [andb] | done].
  pose proof (aligned_offset acc a Hal). rewrite byte_of_mergeStore, storeByteMask_touches, E by done.
  destruct (touches acc (a mod 4) (b mod 4)) eqn:Et; [| done].
  rewrite byte_of_align by done. f_equal. Z.to_euclidean_division_equations. lia.
Qed.

Lemma store_refines s m i :
  dmem_wf s -> in_ok i -> same s m -> requestFire s i = true -> requestWrite_i i = true ->
  exists byte m', serve m i = (None, byte, m') /\ same (dmem_step s i) m' /\
    (if uartValid_o (dmem_step s i) then [uartData_o (dmem_step s i)] else []) = option_list byte.
Proof.
  intros Hwf [Hin Hok] [Hr Ht] Hf Hw. unfold requestFire in Hf.
  apply andb_true_iff in Hf as [Hv Hrdy]. specialize (Hok Hv) as [Hal Hs]. rewrite Hw in Hs.
  pose proof (aligned_offset _ _ Hal) as Hal4. pose proof (byteOffset_range i) as Hoff.
  rewrite byteOffset_mod in Hoff.
  unfold dmem_step, serve, same, next_mem, requestFire. cbn [mem toHostReg uartValid_o uartData_o].
  rewrite Hv, Hrdy, Hw. cbn [andb].
  unfold shiftedWriteData, writeByteEnable. rewrite byteOffset_mod, wordAddr_div.
  destruct (toHostHit i); cbn [andb negb].
  - do 2 eexists. split; [reflexivity |]. split; [| done]. split; [done |]. cbn [tohost].
    rewrite Ht. apply splice_merge; try done. rewrite <- Ht. apply (wf_toHost s Hwf).
  - destruct (uartHit i); cbn [andb negb].
    + do 2 eexists. split; [reflexivity |]. split; [done |]. by rewrite uwrap_mod by lia.
    + destruct (fromHostHit i); cbn [andb negb].
      * do 2 eexists. split; [reflexivity |]. done.
      * do 2 eexists. split; [reflexivity |]. split; [| done]. split; [| done].
        intros b Hb. cbn [ram]. rewrite ram_byte_store by done. by rewrite Hr.
Qed.

Lemma load_refines s m i :
  dmem_wf s -> in_ok i -> same s m -> requestFire s i = true -> requestWrite_i i = false ->
  serve m i = (Some (responseData_o (dmem_step s i)), None, m) /\ same (dmem_step s i) m /\
  uartValid_o (dmem_step s i) = false /\ responseValidReg (dmem_step s i) = true.
Proof.
  intros Hwf [Hin Hok] [Hr Ht] Hf Hw. pose proof Hf as Hf2. unfold requestFire in Hf2.
  apply andb_true_iff in Hf2 as [Hv _]. specialize (Hok Hv) as [Hal Hl]. rewrite Hw in Hl.
  pose proof (aligned_offset _ _ Hal) as Hal4. pose proof (byteOffset_range i) as Hoff.
  assert (in_u 32 (next_readWord s i)) as Hword.
  { pose proof (dmem_step_wf_aux s i Hwf Hin) as H. apply (wf_readWord _ H). }
  unfold dmem_step, serve, same, responseData_o, next_mem.
  cbn [mem toHostReg uartValid_o uartData_o responseValidReg readWordReg readAccessReg readByteOffsetReg].
  rewrite Hf, Hw. cbn [andb negb]. split; [| done]. repeat f_equal.
  rewrite formatLoad_bytes; [| done | by rewrite byteOffset_mod | done | done].
  apply load_value_ext. intros k Hk. rewrite byteOffset_mod. unfold next_readWord.
  rewrite Hf, Hw, Z.add_comm. cbn [andb negb].
  destruct (fromHostHit i); [done |]. destruct (toHostHit i); [by rewrite Ht |].
  destruct (uartHit i); [unfold byte_of; by rewrite Z.shiftr_0_l |].
  destruct (access_in_word _ _ k Hal Hk) as (E1 & E2 & E3).
  rewrite <- Hr by done. unfold ram_byte. by rewrite E1, E2, <- wordAddr_div.
Qed.

(** An edge without an accepted request. *)
Lemma idle_refines s m i :
  same s m -> requestFire s i = false ->
  same (dmem_step s i) m /\ uartValid_o (dmem_step s i) = false.
Proof. intros [Hr Ht] Hf. unfold dmem_step, same, next_mem. cbn. by rewrite Hf. Qed.

(** The response register. *)
Lemma pending_step s i :
  pending s ++ (if requestFire s i && negb (requestWrite_i i) then [responseData_o (dmem_step s i)] else []) =
  (if responseValidReg s && responseReady_i i then [responseData_o s] else []) ++ pending (dmem_step s i).
Proof.
  unfold pending. destruct (requestFire s i && negb (requestWrite_i i)) eqn:Ef.
  - assert (responseValidReg (dmem_step s i) = true) as -> by (unfold dmem_step; cbn; by rewrite Ef).
    apply andb_true_iff in Ef as [Ef%andb_true_iff Ew]. destruct Ef as [_ Ef].
    unfold requestReady_o, responseSlotAvailable in Ef. apply negb_true_iff in Ew. rewrite Ew in Ef.
    destruct (responseValidReg s), (responseReady_i i); done.
  - assert (responseData_o (dmem_step s i) = responseData_o s) as ->.
    { unfold responseData_o, dmem_step, next_readWord. cbn. by rewrite Ef. }
    assert (responseValidReg (dmem_step s i) =
      if responseValidReg s && responseReady_i i then false else responseValidReg s) as ->
      by (unfold dmem_step; cbn; by rewrite Ef).
    destruct (responseValidReg s), (responseReady_i i); done.
Qed.

Lemma app_chain {A} (p x g p1 a' a p' : list A) :
  p ++ x = g ++ p1 -> p1 ++ a' = a ++ p' -> p ++ x ++ a' = (g ++ a) ++ p'.
Proof. intros E1 E2. by rewrite app_assoc, E1, <- app_assoc, E2, app_assoc. Qed.

Lemma dmem_run_refines ins s m :
  dmem_wf s -> Forall in_ok ins -> same s m ->
  let '(reqs, answers, sent, s') := dmem_run s ins in
  let '(answers', sent', m') := serve_all m reqs in
  dmem_wf s' /\ same s' m' /\ pending s ++ answers' = answers ++ pending s' /\ sent = sent'.
Proof.
  intros Hwf Hins. revert s m Hwf. induction Hins as [| i ins Hi Hins IH]; intros s m Hwf Hs; cbn [dmem_run].
  { cbn. by rewrite app_nil_r. }
  pose proof (dmem_step_wf_aux s i Hwf (proj1 Hi)) as Hwf1. pose proof (pending_step s i) as Hp.
  destruct (requestFire s i) eqn:Ef; [destruct (requestWrite_i i) eqn:Ew |].
  - destruct (store_refines s m i Hwf Hi Hs Ef Ew) as (byte & m1 & E & Hs1 & Eu).
    specialize (IH _ m1 Hwf1 Hs1). destruct (dmem_run (dmem_step s i) ins) as [[[reqs ans] sent] s'].
    cbn [serve_all app]. rewrite E. destruct (serve_all m1 reqs) as [[ans' sent'] m'].
    destruct IH as (H1 & H2 & H3 & ->). split_and!; [done | done | | by rewrite Eu].
    by apply (app_chain _ _ _ _ _ _ _ Hp).
  - destruct (load_refines s m i Hwf Hi Hs Ef Ew) as (E & Hs1 & Eu & Ev).
    specialize (IH _ m Hwf1 Hs1). destruct (dmem_run (dmem_step s i) ins) as [[[reqs ans] sent] s'].
    cbn [serve_all app]. rewrite E. destruct (serve_all m reqs) as [[ans' sent'] m'].
    destruct IH as (H1 & H2 & H3 & ->). split_and!; [done | done | | by rewrite Eu].
    by apply (app_chain _ _ _ _ _ _ _ Hp).
  - destruct (idle_refines s m i Hs Ef) as [Hs1 Eu].
    specialize (IH _ m Hwf1 Hs1). destruct (dmem_run (dmem_step s i) ins) as [[[reqs ans] sent] s'].
    cbn [app]. destruct (serve_all m reqs) as [[ans' sent'] m'].
    destruct IH as (H1 & H2 & H3 & ->). split_and!; [done | done | | by rewrite Eu].
    by apply (app_chain _ _ _ _ _ _ _ Hp).
Qed.

(** The memory that a state stands for. *)
Definition smem_of (s : dmem) : smem := SMem (ram_byte (mem s)) (toHostReg s).


(** C21: the data memory is a byte memory.  From reset, over every sequence of
    cycles with any stalls and back-pressure, if the requests are aligned (the
    load/store unit traps the others), the answers given, followed by the one
    that waits in the response register, are those of a byte memory that
    serves the accepted requests one after the other: a store changes exactly
    its bytes, a load returns the extended little-endian value of its bytes,
    [fromhost] and [tohost] read as registers.  The UART shows one byte for
    each accepted store to it, in order. *)
Theorem dmem_refines_bytes s ins :
  Z.of_nat (length (mem s)) = DATA_WORD_COUNT -> Forall (in_u 32) (mem s) -> in_u 32 (readWordReg s) ->
  Forall in_ok ins ->
  let '(reqs, answers, sent, s') := dmem_run (dmem_reset s) ins in
  let '(answers', sent', m') := serve_all (smem_of (dmem_reset s)) reqs in
  answers' = answers ++ pending s' /\ sent = sent' /\ same s' m'.
Proof.
  intros H1 H2 H3 Hins.
  pose proof (dmem_run_refines ins (dmem_reset s) (smem_of (dmem_reset s))
    (dmem_reset_wf_aux s H1 H2 H3) Hins ltac:(done)) as H.
  destruct (dmem_run (dmem_reset s) ins) as [[[reqs ans] sent] s'].
  destruct (serve_all (smem_of (dmem_reset s)) reqs) as [[ans' sent'] m']. by destruct H as (_ & ? & ? & ?).
Qed.

(** ** Stored values come back *)

(** The request is for RAM, not for a register. *)
Definition to_ram (i : dmem_in) : bool := negb (toHostHit i) && negb (uartHit i) && negb (fromHostHit i).
(** It leaves the [n] bytes at [a] alone. *)
Definition spares (a n : Z) (i : dmem_in) : bool :=
  negb (requestWrite_i i) || negb (to_ram i) ||
  (requestAddress_i i mod 65536 + size (requestAccess_i i) <=? a) ||
  (a + n <=? requestAddress_i i mod 65536).

Lemma serve_all_app m l1 l2 :
  serve_all m (l1 ++ l2) =
  (let '(a1, s1, m1) := serve_all m l1 in let '(a2, s2, m2) := serve_all m1 l2 in
   (a1 ++ a2, s1 ++ s2, m2)).
Proof.
  revert m. induction l1 as [| i l1 IH]; intros m; cbn [serve_all app].
  - by destruct (serve_all m l2) as [[? ?] ?].
  - destruct (serve m i) as [[an by'] m1]. rewrite IH. destruct (serve_all m1 l1) as [[a1 s1] m2].
    destruct (serve_all m2 l2) as [[a2 s2] m3]. by rewrite !app_assoc.
Qed.

Lemma serve_spares m i a n k :
  spares a n i = true -> 0 <= k < n -> ram (serve m i).2 (a + k) = ram m (a + k).
Proof.
  unfold spares, to_ram, serve. intros Hs Hk. destruct (requestWrite_i i); [| done]. cbn [negb orb] in Hs.
  destruct (toHostHit i); [done |]. destruct (uartHit i); [done |]. destruct (fromHostHit i); [done |].
  cbn in Hs |- *. apply orb_true_iff in Hs.
  destruct (Z.leb_spec (requestAddress_i i mod 65536) (a + k)); [| done]. cbn [andb].
  destruct (Z.ltb_spec (a + k) (requestAddress_i i mod 65536 + size (requestAccess_i i))); [| done].
  destruct Hs as [Hs%Z.leb_le | Hs%Z.leb_le]; lia.
Qed.

Lemma serve_all_spares m reqs a n k :
  Forall (fun i => spares a n i = true) reqs -> 0 <= k < n ->
  ram (serve_all m reqs).2 (a + k) = ram m (a + k).
Proof.
  intros Hr Hk. revert m. induction Hr as [| i reqs Hi _ IH]; intros m; cbn [serve_all]; [done |].
  pose proof (serve_spares m i a n k Hi Hk) as E. destruct (serve m i) as [[an b] m1].
  specialize (IH m1). destruct (serve_all m1 reqs) as [[a2 s2] m2]. cbn in *. by rewrite IH.
Qed.

(** The answer to a load after a store of the same bytes. *)
Lemma serve_store_load m st mid ld :
  requestWrite_i st = true -> to_ram st = true -> requestWrite_i ld = false ->
  load_access (requestAccess_i ld) = true ->
  requestAddress_i ld = requestAddress_i st -> size (requestAccess_i ld) = size (requestAccess_i st) ->
  Forall (fun i => spares (requestAddress_i st mod 65536) (size (requestAccess_i st)) i = true) mid ->
  exists an, (serve_all m (st :: mid ++ [ld])).1.1 =
    an ++ [stored_value (requestAccess_i ld) (requestWriteData_i st)].
Proof.
  intros Hw Hr Hl Hla Ea Es Hmid. unfold to_ram in Hr.
  apply andb_true_iff in Hr as [Hr Hf%negb_true_iff].
  apply andb_true_iff in Hr as [Ht%negb_true_iff Hu%negb_true_iff].
  cbn [serve_all]. unfold serve at 1. rewrite Hw, Ht, Hu, Hf. set (m1 := SMem _ _).
  rewrite serve_all_app. pose proof (fun k => serve_all_spares m1 mid _ _ k Hmid) as Hm.
  destruct (serve_all m1 mid) as [[a1 s1] m2]. cbn [serve_all]. cbn [snd] in Hm.
  assert (toHostHit ld = false /\ uartHit ld = false /\ fromHostHit ld = false) as (Ht2 & Hu2 & Hf2).
  { unfold toHostHit, uartHit, fromHostHit in *. by rewrite Ea. }
  unfold serve. rewrite Hl, Ht2, Hu2, Hf2. cbn. exists a1. do 3 f_equal.
  rewrite <- load_value_stored by done. apply load_value_ext. intros k Hk. rewrite Ea.
  rewrite Hm by lia. unfold m1. cbn [ram].
  rewrite (proj2 (Z.leb_le _ _)), (proj2 (Z.ltb_lt _ _)) by lia. cbn [andb]. f_equal. lia.
Qed.

(** What is stored comes back.  In every run from reset, if a store to RAM
    was accepted and the last accepted request is a load of the same width at
    the same address, and no store in between touches those bytes, the load's
    answer (given, or waiting in the response register) is the stored value,
    extended as the load asks; the stalls of the run do not matter. *)
Theorem dmem_store_load s ins before st mid ld :
  Z.of_nat (length (mem s)) = DATA_WORD_COUNT -> Forall (in_u 32) (mem s) -> in_u 32 (readWordReg s) ->
  Forall in_ok ins -> (dmem_run (dmem_reset s) ins).1.1.1 = before ++ st :: mid ++ [ld] ->
  requestWrite_i st = true -> to_ram st = true -> requestWrite_i ld = false ->
  load_access (requestAccess_i ld) = true ->
  requestAddress_i ld = requestAddress_i st -> size (requestAccess_i ld) = size (requestAccess_i st) ->
  Forall (fun i => spares (requestAddress_i st mod 65536) (size (requestAccess_i st)) i = true) mid ->
  list.last ((dmem_run (dmem_reset s) ins).1.1.2 ++ pending (dmem_run (dmem_reset s) ins).2) =
    Some (stored_value (requestAccess_i ld) (requestWriteData_i st)).
Proof.
  intros H1 H2 H3 Hins Er Hw Hr Hl Hla Ea Es Hmid.
  pose proof (dmem_run_refines ins (dmem_reset s) (smem_of (dmem_reset s))
    (dmem_reset_wf_aux s H1 H2 H3) Hins ltac:(done)) as H.
  destruct (dmem_run (dmem_reset s) ins) as [[[reqs ans] sent] s']. cbn in Er |- *. subst reqs.
  rewrite serve_all_app in H. destruct (serve_all _ before) as [[a1 s1] m1].
  destruct (serve_store_load m1 st mid ld) as [an E]; [done.. |].
  destruct (serve_all m1 (st :: mid ++ [ld])) as [[a2 s2] m2]. cbn in E. subst a2.
  destruct H as (_ & _ & <- & _). cbn. by rewrite app_assoc, last_snoc.
Qed.

(** ** Witnesses *)

(** RAM of zeros; a byte, a half-word and a UART store, then loads with a
    stalled consumer. *)
Definition dm0 : dmem := DMem (replicate (Z.to_nat DATA_WORD_COUNT) 0) 0 MEM_WORD 0 false 0 false 0.
Definition demo_st : dmem_in := DIn true true 0x1002 0xffff8001 MEM_HALF true 0.
Definition demo_ld : dmem_in := DIn true false 0x1002 0 MEM_HALF true 0.
Definition demo_ins : list dmem_in :=
  [demo_st; DIn true true 0xffe0 0x141 MEM_WORD true 0; DIn true true 0x1001 0xab MEM_BYTE true 0;
   DIn true false 0x1000 0 MEM_WORD false 0; DIn true false 0x1002 0 MEM_HALF false 0; demo_ld].

Example demo_dm :
  let '(reqs, answers, sent, s') := dmem_run (dmem_reset dm0) demo_ins in
  length reqs = 5%nat /\ answers = [0x8001ab00] /\ pending s' = [0xffff8001] /\ sent = [0x41].
Proof. vm_compute. done. Qed.

Lemma demo_ins_ok : Forall in_ok demo_ins.
Proof.
  repeat constructor; cbn; unfold in_wf, in_u; cbn; try lia; try reflexivity.
Qed.

Lemma dm0_words : Forall (in_u 32) (mem dm0).
Proof. apply Forall_replicate. by apply in_u_0. Qed.


Lemma dmem_refines_bytes_witness :
  let '(reqs, answers, sent, s') := dmem_run (dmem_reset dm0) demo_ins in
  let '(answers', sent', m') := serve_all (smem_of (dmem_reset dm0)) reqs in
  answers' = answers ++ pending s' /\ sent = sent' /\ same s' m'.
Proof.
  apply (dmem_refines_bytes dm0 demo_ins).
  - vm_compute. reflexivity.
  - apply dm0_words.
  - by apply in_u_0.
  - apply demo_ins_ok.
Defined.

Lemma dmem_store_load_witness :
  list.last ((dmem_run (dmem_reset dm0) demo_ins).1.1.2 ++ pending (dmem_run (dmem_reset dm0) demo_ins).2) =
    Some 0xffff8001.
Proof.
  apply (dmem_store_load dm0 demo_ins [] demo_st
    [DIn true true 0xffe0 0x141 MEM_WORD true 0; DIn true true 0x1001 0xab MEM_BYTE true 0;
     DIn true false 0x1000 0 MEM_WORD false 0] demo_ld);
    [vm_compute; reflexivity | apply dm0_words | by apply in_u_0 | apply demo_ins_ok
    | vm_compute; reflexivity | reflexivity.. | repeat constructor].
Defined.
