(* ===== verification/StoreBuf.v ===== *)
(** * The store buffer: StoreBuffer.sv

    Committed stores wait in a FIFO until the data cache takes them.  A load
    asks the buffer first: it takes its bytes from the buffer when they are
    all there, waits when only some are, and goes to the cache otherwise.  The
    theorems say that this hides the buffer. *)

From Stdlib Require Import ZArith Lia.
From stdpp Require Import base list numbers.
From S2P Require Import Prelude Ring MemWord.

Local Open Scope Z_scope.

Section buffer.
Context (DEPTH : Z).
Definition PTR_W : Z := Z.log2_up DEPTH.
Definition COUNT_W : Z := Z.log2_up (DEPTH + 1).

(** ** The module *)

Record sbuf := SBuf {
  addressArray : list Z; dataArray : list Z; accessArray : list mem_access;
  headPtr : Z; tailPtr : Z; entryCount : Z
}.

Record sbuf_in := SBIn {
  enqueueValid_i : bool; enqueueAddress_i : Z; enqueueData_i : Z; enqueueAccess_i : mem_access;
  drainReady_i : bool
}.

(** [while (difference < 0) difference = difference + DEPTH;] *)
Fixpoint wrap_up (fuel : nat) (difference : Z) : Z :=
  match fuel with
  | O => difference
  | S n => if difference <? 0 then wrap_up n (difference + DEPTH) else difference
  end.
Definition subtractPtr (pointer decrement : Z) : Z :=
  uwrap PTR_W (wrap_up (Z.to_nat decrement) (pointer - decrement)).

Definition loadByteMask (accessMode : mem_access) (byteOffset : Z) : Z :=
  match accessMode with
  | MEM_BYTE | MEM_BYTE_U => uwrap 4 (Z.shiftl 1 byteOffset)
  | MEM_HALF | MEM_HALF_U => if byteOffset =? 3 then 0 else uwrap 4 (Z.shiftl 3 byteOffset)
  | _ => if byteOffset =? 0 then 15 else 0
  end.

Definition sb_storeByteMask (accessMode : mem_access) (byteOffset : Z) : Z :=
  match accessMode with
  | MEM_BYTE => uwrap 4 (Z.shiftl 1 byteOffset)
  | MEM_HALF => if byteOffset =? 3 then 0 else uwrap 4 (Z.shiftl 3 byteOffset)
  | _ => if byteOffset =? 0 then 15 else 0
  end.

Definition formatLoadData (rawData : Z) (accessMode : mem_access) (byteOffset : Z) : Z :=
  let shiftedData := Z.shiftr rawData (byteOffset * 8) in
  match accessMode with
  | MEM_BYTE => sign_extend 8 shiftedData
  | MEM_HALF => sign_extend 16 shiftedData
  | MEM_BYTE_U => uwrap 8 shiftedData
  | MEM_HALF_U => uwrap 16 shiftedData
  | _ => rawData
  end.

(** The handshakes. *)
Definition empty_o (s : sbuf) : bool := entryCount s =? 0.
Definition full_o (s : sbuf) : bool := entryCount s =? DEPTH.
Definition drainFire (s : sbuf) (i : sbuf_in) : bool := negb (empty_o s) && drainReady_i i.
Definition enqueueReady_o (s : sbuf) (i : sbuf_in) : bool := negb (full_o s) || drainFire s i.
Definition enqueueFire (s : sbuf) (i : sbuf_in) : bool := enqueueValid_i i && enqueueReady_o s i.

(** An entry: address, data, access. *)
Definition entry : Type := Z * Z * mem_access.
Definition entry_at (s : sbuf) (p : Z) : entry :=
  (default 0 (arr_get (addressArray s) p), default 0 (arr_get (dataArray s) p),
   default MEM_RESERVED (arr_get (accessArray s) p)).
(** [drainAddress_o], [drainData_o], [drainAccess_o] *)
Definition drain_o (s : sbuf) : entry := if empty_o s then (0, 0, MEM_WORD) else entry_at s (headPtr s).

(** The body of the query loop for a matching entry: covered lanes and data. *)
Definition query_entry (queryLoadMask : Z) (e : entry) (v : Z * Z) : Z * Z :=
  let '(address, data, access) := e in
  let '(queryCoveredMask, queryRawData) := v in
  let queryStoreMask := sb_storeByteMask access (uwrap 2 address) in
  let queryExpandedStoreData := alignStoreData data access (uwrap 2 address) in
  let queryNewMask := Z.land (Z.land queryStoreMask queryLoadMask) (Z.lnot queryCoveredMask) in
  (Z.lor queryCoveredMask (Z.land queryStoreMask queryLoadMask),
   mergeStore queryRawData queryExpandedStoreData queryNewMask).

Definition query_step (s : sbuf) (queryAddress_i queryLoadMask queryOffset : Z) (v : Z * Z) : Z * Z :=
  let e := entry_at s (subtractPtr (tailPtr s) (queryOffset + 1)) in
  if (queryOffset <? entryCount s) && (Z.shiftr e.1.1 2 =? Z.shiftr queryAddress_i 2)
  then query_entry queryLoadMask e v else v.

(** The outputs of a query. *)
Record answer := Answer {
  queryReady_o : bool; queryConflict_o : bool; queryForwardValid_o : bool; queryForwardData_o : Z
}.
Definition query (s : sbuf) (queryAddress_i : Z) (queryAccess_i : mem_access) : answer :=
  let queryLoadMask := loadByteMask queryAccess_i (uwrap 2 queryAddress_i) in
  let '(queryCoveredMask, queryRawData) :=
    fold_left (fun v off => query_step s queryAddress_i queryLoadMask off v) (seqZ 0 DEPTH) (0, 0) in
  let conflict := negb (queryCoveredMask =? 0) in
  let forward := negb (queryLoadMask =? 0) &&
                 (Z.land queryCoveredMask queryLoadMask =? queryLoadMask) in
  Answer (negb conflict || forward) conflict forward
    (if forward then formatLoadData queryRawData queryAccess_i (uwrap 2 queryAddress_i) else 0).

(** The clocked process. *)
Definition sbuf_reset (s : sbuf) : sbuf := SBuf (addressArray s) (dataArray s) (accessArray s) 0 0 0.
Definition sbuf_step (s : sbuf) (i : sbuf_in) : sbuf :=
  let enq := enqueueFire s i in
  let deq := drainFire s i in
  SBuf (next_array enq (tailPtr s) (enqueueAddress_i i) (addressArray s))
       (next_array enq (tailPtr s) (enqueueData_i i) (dataArray s))
       (next_array enq (tailPtr s) (enqueueAccess_i i) (accessArray s))
       (next_ptr DEPTH PTR_W deq (headPtr s)) (next_ptr DEPTH PTR_W enq (tailPtr s))
       (next_count COUNT_W enq deq (entryCount s)).

(** The stores taken in, and those handed to the cache, of a run. *)
Definition entry_in (i : sbuf_in) : entry := (enqueueAddress_i i, enqueueData_i i, enqueueAccess_i i).
Fixpoint sbuf_run (s : sbuf) (ins : list sbuf_in) : list entry * list entry * sbuf :=
  match ins with
  | [] => ([], [], s)
  | i :: ins =>
      let '(accepted, drained, s') := sbuf_run (sbuf_step s i) ins in
      ((if enqueueFire s i then [entry_in i] else []) ++ accepted,
       (if drainFire s i then [drain_o s] else []) ++ drained, s')
  end.

(** ** What it promises *)

(** A memory of bytes, and a store to it. *)
Definition put (m : Z -> Z) (e : entry) : Z -> Z :=
  let '(a, d, acc) := e in
  fun b => if (a <=? b) && (b <? a + size acc) then byte_of (b - a) d else m b.
Definition put_all (l : list entry) (m : Z -> Z) : Z -> Z := fold_left put l m.
Definition get (m : Z -> Z) (a : Z) (acc : mem_access) : Z := load_value acc (fun k => m (a + k)).

(** A store as the load/store unit commits it. *)
Definition entry_ok (e : entry) : Prop :=
  let '(a, _, acc) := e in aligned acc a = true /\ store_access acc = true.
(** Some buffered store writes the byte at [b]. *)
Definition written (l : list entry) (b : Z) : bool :=
  existsb (fun '(a, _, acc) => (a <=? b) && (b <? a + size acc)) l.

(** *** FIFO *)

(** The three arrays hold the entries [l]. *)
Definition buffered (s : sbuf) (l : list entry) : Prop :=
  holds DEPTH (addressArray s) (headPtr s) (tailPtr s) (entryCount s) (map (fun e => e.1.1) l) /\
  holds DEPTH (dataArray s) (headPtr s) (tailPtr s) (entryCount s) (map (fun e => e.1.2) l) /\
  holds DEPTH (accessArray s) (headPtr s) (tailPtr s) (entryCount s) (map (fun e => e.2) l).

Context (Hdepth : 0 < DEPTH).

Lemma sb_widths : DEPTH <= 2 ^ PTR_W /\ DEPTH < 2 ^ COUNT_W /\ 0 <= PTR_W /\ 0 <= COUNT_W.
Proof.
  unfold PTR_W, COUNT_W. pose proof (Z.log2_up_nonneg DEPTH). pose proof (Z.log2_up_nonneg (DEPTH + 1)).
  pose proof (Z.log2_log2_up_spec DEPTH Hdepth). pose proof (Z.log2_log2_up_spec (DEPTH + 1) ltac:(lia)).
  lia.
Qed.

Definition sized (s : sbuf) : Prop :=
  Z.of_nat (length (addressArray s)) = DEPTH /\ Z.of_nat (length (dataArray s)) = DEPTH /\
  Z.of_nat (length (accessArray s)) = DEPTH.

Lemma buffered_reset s : sized s -> buffered (sbuf_reset s) [].
Proof. intros (H1 & H2 & H3). by split_and!; apply holds_empty. Qed.

Lemma buffered_count s l : buffered s l -> entryCount s = Z.of_nat (length l) /\ entryCount s <= DEPTH.
Proof. intros ((_ & _ & E & Hle & _) & _). by rewrite length_map in E. Qed.

Lemma buffered_empty s l : buffered s l -> empty_o s = bool_decide (l = []).
Proof.
  intros H. destruct (buffered_count s l H) as [E _]. unfold empty_o. rewrite E.
  destruct l; [done |]. rewrite bool_decide_false by done. apply Z.eqb_neq. cbn. lia.
Qed.

Lemma map_fifo_next {A B} (f : A -> B) enq deq d l :
  map f (fifo_next enq deq d l) = fifo_next enq deq (f d) (map f l).
Proof. unfold fifo_next. rewrite map_app. by destruct deq, l, enq. Qed.

Lemma buffered_step s i l :
  buffered s l -> buffered (sbuf_step s i) (fifo_next (enqueueFire s i) (drainFire s i) (entry_in i) l).
Proof.
  intros H. destruct sb_widths as (Hp & Hc & Hp0 & Hc0). destruct (buffered_count s l H) as [Ec Hle].
  assert (drainFire s i = true -> l <> []) as Hd.
  { unfold drainFire. rewrite (buffered_empty s l H). by intros E ->. }
  assert (enqueueFire s i = true -> entryCount s < DEPTH \/ drainFire s i = true) as He.
  { unfold enqueueFire, enqueueReady_o, full_o. intros [_ E]%andb_true_iff.
    apply orb_true_iff in E as [E%negb_true_iff%Z.eqb_neq |]; [left; lia | by right]. }
  destruct H as (H1 & H2 & H3).
  assert (forall B (f : entry -> B), drainFire s i = true -> map f l <> []) as Hm
    by (intros B f E F%map_eq_nil; by apply Hd).
  unfold buffered. rewrite !map_fifo_next. split_and!; by apply holds_next; try done; apply Hm.
Qed.

Lemma arr_get_map {A B} (f : A -> B) (l : list A) j x : l !! j = Some x -> map f l !! j = Some (f x).
Proof. intros E. rewrite list_lookup_fmap. by rewrite E. Qed.

Lemma entry_at_age s l j e :
  buffered s l -> l !! j = Some e -> entry_at s ((headPtr s + Z.of_nat j) mod DEPTH) = e.
Proof.
  intros ((_ & _ & _ & _ & _ & H1) & (_ & _ & _ & _ & _ & H2) & (_ & _ & _ & _ & _ & H3)) E.
  pose proof (lookup_lt_Some _ _ _ E) as Hj. unfold entry_at.
  rewrite H1, H2, H3 by (by rewrite length_map).
  rewrite !(arr_get_map _ l j e E). by destruct e as [[? ?] ?].
Qed.

Lemma buffered_drain s e l : buffered s (e :: l) -> drain_o s = e.
Proof.
  intros H. unfold drain_o. rewrite (buffered_empty s _ H), bool_decide_false by done.
  pose proof (entry_at_age s _ 0 e H eq_refl) as E. rewrite Z.add_0_r, Z.mod_small in E; [done |].
  destruct H as ((_ & Hh & _) & _). lia.
Qed.

Lemma sbuf_run_fifo ins s l :
  buffered s l ->
  let '(accepted, drained, s') := sbuf_run s ins in
  exists l', buffered s' l' /\ l ++ accepted = drained ++ l'.
Proof.
  revert s l. induction ins as [| i ins IH]; intros s l H; cbn [sbuf_run].
  - exists l. by rewrite app_nil_r.
  - specialize (IH _ _ (buffered_step s i l H)).
    destruct (sbuf_run (sbuf_step s i) ins) as [[acc dr] s']. destruct IH as (l' & Hb & E).
    exists l'. split; [done |]. rewrite <- app_assoc, <- E. unfold fifo_next. rewrite !app_assoc.
    f_equal. f_equal. unfold drainFire. rewrite (buffered_empty s l H).
    destruct l as [| e l]; [done |]. rewrite bool_decide_false by done. cbn [negb andb].
    destruct (drainReady_i i); [| done]. by rewrite (buffered_drain s e l H).
Qed.

(** *** The query loop *)

Lemma wrap_up_nonneg n d : 0 <= d -> wrap_up n d = d.
Proof. destruct n; [done |]. cbn. intros H. by rewrite (proj2 (Z.ltb_ge _ _)). Qed.

Lemma subtractPtr_mod p dec :
  0 <= p < DEPTH -> 1 <= dec <= DEPTH -> subtractPtr p dec = (p - dec) mod DEPTH.
Proof.
  intros Hp Hd. destruct sb_widths as (Hw & _ & Hw0 & _). unfold subtractPtr.
  assert (wrap_up (Z.to_nat dec) (p - dec) = (p - dec) mod DEPTH) as ->.
  { replace (Z.to_nat dec) with (S (Z.to_nat (dec - 1))) by lia. cbn [wrap_up].
    destruct (Z.ltb_spec (p - dec) 0).
    - rewrite wrap_up_nonneg by lia. rewrite <- (Z.mod_small (p - dec + DEPTH) DEPTH) by lia.
      replace (p - dec + DEPTH) with (p - dec + 1 * DEPTH) by lia. by rewrite Z.mod_add by lia.
    - by rewrite Z.mod_small by lia. }
  apply uwrap_id; [done |]. unfold in_u. pose proof (Z.mod_pos_bound (p - dec) DEPTH). lia.
Qed.

(** The entry at distance [j] from the youngest. *)
Lemma entry_from_tail s l j e :
  buffered s l -> reverse l !! j = Some e -> entry_at s (subtractPtr (tailPtr s) (Z.of_nat j + 1)) = e.
Proof.
  intros H E. pose proof (lookup_lt_Some _ _ _ E) as Hj. rewrite length_reverse in Hj.
  rewrite reverse_lookup in E by done.
  destruct (buffered_count s l H) as [Ec Hle].
  pose proof (proj1 H) as Ha. assert (0 <= tailPtr s < DEPTH) as Ht by (by eapply holds_tail).
  rewrite subtractPtr_mod by lia.
  replace ((tailPtr s - (Z.of_nat j + 1)) mod DEPTH) with
    ((headPtr s + Z.of_nat (length l - S j)) mod DEPTH); [by apply (entry_at_age s l) |].
  destruct Ha as (_ & _ & _ & _ & -> & _). rewrite Zminus_mod_idemp_l. f_equal. lia.
Qed.

Section scan.
Context (a : Z) (acc : mem_access).
Context (Hal : aligned acc a = true) (Hacc : load_access acc = true).

Definition scan_step (v : Z * Z) (e : entry) : Z * Z :=
  if Z.shiftr e.1.1 2 =? Z.shiftr a 2 then query_entry (loadByteMask acc (uwrap 2 a)) e v else v.

(** The loop visits the entries from the youngest to the oldest. *)
Lemma query_loop s l v :
  buffered s l ->
  fold_left (fun v off => query_step s a (loadByteMask acc (uwrap 2 a)) off v) (seqZ 0 DEPTH) v =
  fold_left scan_step (reverse l) v.
Proof.
  intros H. destruct (buffered_count s l H) as [Ec Hle].
  assert (forall n w, (n <= length l)%nat ->
    fold_left (fun v off => query_step s a (loadByteMask acc (uwrap 2 a)) off v) (seqZ 0 (Z.of_nat n)) w =
    fold_left scan_step (take n (reverse l)) w) as Hn.
  { induction n as [| n IH]; intros w Hn; [done |].
    assert (exists e, reverse l !! n = Some e) as [e E] by (apply lookup_lt_is_Some; rewrite length_reverse; lia).
    rewrite (take_S_r _ _ _ E), Nat2Z.inj_succ, <- Z.add_1_r, seqZ_app, !fold_left_app, IH by lia.
    cbn [fold_left seqZ seq map fmap list_fmap]. unfold query_step.
    replace (seqZ (0 + Z.of_nat n) 1) with [Z.of_nat n] by done. cbn [fold_left].
    rewrite (entry_from_tail s l n e H E), (proj2 (Z.ltb_lt _ _)) by lia. done. }
  replace DEPTH with (Z.of_nat (length l) + (DEPTH - Z.of_nat (length l))) by lia.
  rewrite seqZ_app, fold_left_app, Hn, take_ge by (rewrite ?length_reverse; lia).
  generalize (fold_left scan_step (reverse l) v). intros w.
  assert (forall r w, Forall (fun off => entryCount s <= off) r ->
    fold_left (fun v off => query_step s a (loadByteMask acc (uwrap 2 a)) off v) r w = w) as Hr.
  { intros r. induction r as [| off r IH]; intros w0 Hf; [done |]. cbn [fold_left].
    inversion_clear Hf as [| ? ? Hoff Hf']. rewrite IH by done. unfold query_step.
    by rewrite (proj2 (Z.ltb_ge _ _)) by lia. }
  apply Hr, Forall_lookup_2. intros j off [-> ?]%lookup_seqZ. lia.
Qed.

(** The byte that the youngest matching store has for lane [k]. *)
Fixpoint newest (r : list entry) (k : Z) : option Z :=
  match r with
  | [] => None
  | (ea, d, eacc) :: r =>
      if (ea / 4 =? a / 4) && touches eacc (ea mod 4) k then Some (byte_of (k - ea mod 4) d)
      else newest r k
  end.

Lemma newest_app r1 r2 k :
  newest (r1 ++ r2) k = match newest r1 k with Some b => Some b | None => newest r2 k end.
Proof.
  induction r1 as [| [[ea d] eacc] r1 IH]; [done |]. cbn [newest app]. by destruct (_ && _).
Qed.

Lemma loadByteMask_touches k :
  0 <= k < 4 -> Z.testbit (loadByteMask acc (uwrap 2 a)) k = touches acc (a mod 4) k.
Proof.
  intros Hk. rewrite uwrap_mod by lia. change (2 ^ 2) with 4.
  pose proof (aligned_offset _ _ Hal) as H4. pose proof (Z.mod_pos_bound a 4 ltac:(lia)) as Hoff.
  revert H4 Hoff. generalize (a mod 4). intros off H4 Hoff.
  lane_split Hoff; destruct acc; try done; lane_split Hk; reflexivity.
Qed.

Lemma sb_storeByteMask_touches eacc off k :
  store_access eacc = true -> aligned eacc off = true -> 0 <= off < 4 -> 0 <= k < 4 ->
  Z.testbit (sb_storeByteMask eacc off) k = touches eacc off k.
Proof.
  intros Hs H4 Hoff Hk. lane_split Hoff; destruct eacc; try done; lane_split Hk; reflexivity.
Qed.

(** After the entries [r], the youngest first: the covered lanes are those of
    the load that an entry writes, and they hold the youngest byte. *)
Definition scanned (r : list entry) (v : Z * Z) : Prop :=
  in_u 4 v.1 /\ in_u 32 v.2 /\
  forall k, 0 <= k < 4 ->
    Z.testbit v.1 k = touches acc (a mod 4) k && bool_decide (is_Some (newest r k)) /\
    (touches acc (a mod 4) k = true -> forall b, newest r k = Some b -> byte_of k v.2 = b).

Lemma in_u_lor w x y : 0 <= w -> in_u w x -> in_u w y -> in_u w (Z.lor x y).
Proof.
  intros Hw Hx Hy. apply in_u_testbit; [done | |].
  - apply Z.lor_nonneg. unfold in_u in *. lia.
  - intros i Hi. rewrite Z.lor_spec. by rewrite (testbit_in_u w x i), (testbit_in_u w y i).
Qed.

Lemma in_u_land_r w x y : 0 <= w -> in_u w y -> in_u w (Z.land x y).
Proof.
  intros Hw Hy. apply in_u_testbit; [done | |].
  - apply Z.land_nonneg. unfold in_u in *. lia.
  - intros i Hi. rewrite Z.land_spec. by rewrite (testbit_in_u w y i), andb_false_r.
Qed.

Lemma loadByteMask_range off : 0 <= off -> in_u 4 (loadByteMask acc off).
Proof.
  intros Hoff. unfold loadByteMask. repeat case_match; try (by apply uwrap_range); unfold in_u; cbn; lia.
Qed.

Lemma scanned_nil : scanned [] (0, 0).
Proof.
  split; [unfold in_u; cbn; lia |]. split; [unfold in_u; cbn; lia |]. intros k Hk. cbn [fst newest].
  rewrite bool_decide_false by (by intros [? [=]]). by rewrite Z.bits_0, andb_false_r.
Qed.

Lemma scanned_skip r v e :
  scanned r v -> e.1.1 / 4 <> a / 4 -> scanned (r ++ [e]) v.
Proof.
  intros (H1 & H2 & H3) Hne. split; [done |]. split; [done |]. intros k Hk. specialize (H3 k Hk).
  rewrite newest_app. destruct e as [[ea d] eacc]. cbn [newest fst] in *.
  rewrite (proj2 (Z.eqb_neq _ _) Hne). cbn [andb]. by destruct (newest r k).
Qed.

Lemma scanned_entry r v e :
  scanned r v -> entry_ok e -> e.1.1 / 4 = a / 4 ->
  scanned (r ++ [e]) (query_entry (loadByteMask acc (uwrap 2 a)) e v).
Proof.
  destruct v as [cov raw], e as [[ea d] eacc]. intros (H1 & H2 & H3) (Hea & Hst) Ew.
  cbn [fst snd] in *. unfold query_entry. rewrite (uwrap_mod 2 ea) by lia. change (2 ^ 2) with 4.
  pose proof (aligned_offset _ _ Hea) as Hea4. pose proof (Z.mod_pos_bound ea 4 ltac:(lia)) as Hoff.
  split; [| split].
  - apply in_u_lor; [lia | done |]. apply in_u_land_r; [lia |].
    apply loadByteMask_range. by apply uwrap_range.
  - by apply in_u_mergeStore.
  - intros k Hk. destruct (H3 k Hk) as [Hcov Hraw]. cbn [fst snd].
    rewrite byte_of_mergeStore by done.
    rewrite Z.lor_spec, !Z.land_spec, Z.lnot_spec, loadByteMask_touches by lia.
    rewrite sb_storeByteMask_touches, Hcov, newest_app by done. cbn [newest].
    rewrite Ew, Z.eqb_refl. cbn [andb].
    destruct (touches acc (a mod 4) k) eqn:Eld; cbn [andb negb orb];
      [| rewrite ?andb_false_r; by split].
    rewrite andb_true_r. destruct (newest r k) as [b |] eqn:En.
    + rewrite bool_decide_true by eauto. cbn [negb orb]. rewrite andb_false_r. by split; [| apply Hraw].
    + rewrite bool_decide_false by (by intros [? [=]]). cbn [negb orb]. rewrite andb_true_r.
      destruct (touches eacc (ea mod 4) k) eqn:Est.
      * rewrite bool_decide_true by eauto. split; [done |]. intros _ b [= <-].
        by apply byte_of_align.
      * rewrite bool_decide_false by (by intros [? [=]]). by split.
Qed.

Lemma scanned_all r : Forall entry_ok r -> scanned r (fold_left scan_step r (0, 0)).
Proof.
  induction r as [| e r IH] using rev_ind; intros H; [apply scanned_nil |].
  apply Forall_app in H as [Hr He]. inversion_clear He as [| ? ? He' _]. rewrite fold_left_app. cbn [fold_left].
  unfold scan_step at 1. rewrite !Z.shiftr_div_pow2 by lia. change (2 ^ 2) with 4.
  destruct (Z.eqb_spec (e.1.1 / 4) (a / 4)); [apply scanned_entry | apply scanned_skip]; auto.
Qed.

Lemma put_all_snoc l e m : put_all (l ++ [e]) m = put (put_all l m) e.
Proof. unfold put_all. by rewrite fold_left_app. Qed.

Lemma written_snoc l ea d eacc b :
  written (l ++ [(ea, d, eacc)]) b = written l b || ((ea <=? b) && (b <? ea + size eacc)).
Proof. unfold written. rewrite existsb_app. cbn. by rewrite orb_false_r. Qed.

(** The bytes after all stores. *)
Lemma put_all_newest l m b :
  Forall entry_ok l -> b / 4 = a / 4 ->
  put_all l m b = default (m b) (newest (reverse l) (b mod 4)) /\
  written l b = bool_decide (is_Some (newest (reverse l) (b mod 4))).
Proof.
  intros Hl Hb. induction l as [| e l IH] using rev_ind; [by split |].
  apply Forall_app in Hl as [Hl He]. inversion_clear He as [| ? ? He' _]. specialize (IH Hl) as [IH1 IH2].
  destruct e as [[ea d] eacc], He' as (Hea & _).
  rewrite put_all_snoc, written_snoc, IH2, reverse_snoc. cbn [put newest].
  rewrite (in_access eacc ea b Hea), Hb. pose proof (Z.eqb_spec (ea / 4) (a / 4)) as Hs.
  destruct ((ea / 4 =? a / 4) && touches eacc (ea mod 4) (b mod 4)) eqn:Et; cbn [default].
  - rewrite orb_true_r, bool_decide_true by eauto. split; [| done]. unfold id. f_equal.
    destruct Hs; [| done]. Z.to_euclidean_division_equations. lia.
  - by rewrite orb_false_r.
Qed.

Lemma load_lane k : 0 <= k < size acc -> (a + k) / 4 = a / 4 /\ (a + k) mod 4 = a mod 4 + k.
Proof.
  intros Hk. unfold aligned in Hal. apply Z.eqb_eq in Hal. destruct acc; cbn [size] in *;
    Z.to_euclidean_division_equations; lia.
Qed.

Lemma touches_lane k : touches acc (a mod 4) k = true <-> exists j, 0 <= j < size acc /\ k = a mod 4 + j.
Proof.
  unfold touches. rewrite andb_true_iff, Z.leb_le, Z.ltb_lt. split.
  - intros H. exists (k - a mod 4). lia.
  - intros (j & Hj & ->). lia.
Qed.

Lemma mask_ext x y :
  in_u 4 x -> in_u 4 y -> (forall k, 0 <= k < 4 -> Z.testbit x k = Z.testbit y k) -> x = y.
Proof.
  intros Hx Hy H. apply Z.bits_inj'. intros i Hi. destruct (Z.lt_ge_cases i 4); [by apply H |].
  by rewrite !(testbit_in_u 4) by (try lia; done).
Qed.

Lemma mask_nonzero x : in_u 4 x -> negb (x =? 0) = existsb (Z.testbit x) lanes.
Proof.
  intros H. unfold in_u in H. change (2 ^ 4) with 16 in H.
  destruct (decide (x = 0)) as [-> | Hne]; [done |]. rewrite (proj2 (Z.eqb_neq _ _)) by done.
  assert (exists p, x = Zpos p /\ (p < 16)%positive) as (p & -> & Hp)
    by (exists (Z.to_pos x); lia).
  do 4 (destruct p as [p | p |]; try reflexivity); lia.
Qed.

Section found.
Context (l : list entry) (cov raw : Z) (Hl : Forall entry_ok l) (Hs : scanned (reverse l) (cov, raw)).

Lemma covered_lane j :
  0 <= j < size acc ->
  Z.testbit cov (a mod 4 + j) = written l (a + j) /\ 0 <= a mod 4 + j < 4 /\
  (written l (a + j) = true -> forall m, byte_of (a mod 4 + j) raw = put_all l m (a + j)).
Proof.
  intros Hj. destruct (load_lane j Hj) as [Ed Em]. destruct Hs as (_ & _ & H).
  assert (0 <= a mod 4 + j < 4) as Hr by (rewrite <- Em; apply Z.mod_pos_bound; lia).
  destruct (H _ Hr) as [Hb Hv]. cbn [fst snd] in *.
  assert (touches acc (a mod 4) (a mod 4 + j) = true) as Ht by (apply touches_lane; eauto).
  rewrite Ht in Hb. cbn [andb] in Hb.
  split; [| split; [done |]].
  - rewrite Hb. destruct (put_all_newest l (fun _ => 0) (a + j) Hl Ed) as [_ ->]. by rewrite Em.
  - intros Hw m. destruct (put_all_newest l m (a + j) Hl Ed) as [-> E]. rewrite Hw, Em in E.
    symmetry in E. apply bool_decide_eq_true in E as [b E]. rewrite Em, E. by apply Hv.
Qed.

Lemma conflict_spec : negb (cov =? 0) = existsb (fun k => written l (a + k)) (seqZ 0 (size acc)).
Proof.
  rewrite mask_nonzero by apply Hs. apply Bool.eq_iff_eq_true. rewrite !existsb_exists. split.
  - intros (k & Hk & Hb). assert (0 <= k < 4) as Hr by (cbn in Hk; lia).
    destruct Hs as (_ & _ & H). destruct (H k Hr) as [E _]. cbn [fst] in E. rewrite Hb in E.
    symmetry in E. apply andb_true_iff in E as [(j & Hj & ->)%touches_lane _].
    exists j. split; [apply list_elem_of_In, elem_of_seqZ; lia |].
    by rewrite <- (proj1 (covered_lane j Hj)).
  - intros (j & Hj%list_elem_of_In%elem_of_seqZ & Hw). destruct (covered_lane j ltac:(lia)) as (E & Hr & _).
    exists (a mod 4 + j). split; [cbn; lia | by rewrite E].
Qed.

Lemma forward_spec :
  negb (loadByteMask acc (uwrap 2 a) =? 0) &&
    (Z.land cov (loadByteMask acc (uwrap 2 a)) =? loadByteMask acc (uwrap 2 a)) =
  forallb (fun k => written l (a + k)) (seqZ 0 (size acc)).
Proof.
  pose proof (size_pos acc) as Hsz. destruct (load_lane 0 ltac:(lia)) as [_ Hm0].
  pose proof (Z.mod_pos_bound (a + 0) 4 ltac:(lia)) as H0.
  assert (in_u 4 (loadByteMask acc (uwrap 2 a))) as Hlm
    by (apply loadByteMask_range; by apply uwrap_range).
  rewrite mask_nonzero, (proj2 (existsb_exists _ _)) by
    (done || (exists (a mod 4 + 0); split; [cbn; lia |]; rewrite loadByteMask_touches by lia;
     apply touches_lane; exists 0; lia)).
  cbn [andb]. apply Bool.eq_iff_eq_true. rewrite Z.eqb_eq, forallb_forall. split.
  - intros E j Hj%list_elem_of_In%elem_of_seqZ. destruct (covered_lane j ltac:(lia)) as (Ec & Hr & _).
    rewrite <- Ec. apply (f_equal (fun x => Z.testbit x (a mod 4 + j))) in E.
    rewrite Z.land_spec, loadByteMask_touches in E by done.
    assert (touches acc (a mod 4) (a mod 4 + j) = true) as Ht by (apply touches_lane; exists j; lia).
    rewrite Ht in E. by rewrite andb_true_r in E.
  - intros H. apply mask_ext; [by apply in_u_land_r | done |]. intros k Hk.
    rewrite Z.land_spec, loadByteMask_touches by done.
    destruct (touches acc (a mod 4) k) eqn:Ht; [| by rewrite andb_false_r].
    apply touches_lane in Ht as (j & Hj & ->). rewrite andb_true_r, (proj1 (covered_lane j Hj)).
    apply H, list_elem_of_In, elem_of_seqZ. lia.
Qed.

Lemma forwarded_value m :
  forallb (fun k => written l (a + k)) (seqZ 0 (size acc)) = true ->
  formatLoadData raw acc (uwrap 2 a) = get (put_all l m) a acc.
Proof.
  intros H. rewrite forallb_forall in H. rewrite uwrap_mod by lia. change (2 ^ 2) with 4.
  assert (formatLoadData raw acc (a mod 4) = formatLoad raw acc (a mod 4)) as ->
    by (destruct acc; done).
  rewrite formatLoad_bytes; [| done | by apply aligned_offset | by apply Z.mod_pos_bound | apply Hs].
  apply load_value_ext. intros j Hj. rewrite Z.add_comm.
  apply (covered_lane j Hj). apply H, list_elem_of_In, elem_of_seqZ. lia.
Qed.

Lemma unwritten_bytes m k :
  existsb (fun k => written l (a + k)) (seqZ 0 (size acc)) = false -> 0 <= k < size acc ->
  put_all l m (a + k) = m (a + k).
Proof.
  intros H Hk. destruct (load_lane k Hk) as [Ed _].
  destruct (put_all_newest l m (a + k) Hl Ed) as [-> E].
  assert (written l (a + k) = false) as Hw.
  { destruct (written l (a + k)) eqn:Ew; [| done]. rewrite <- H. symmetry. apply existsb_exists.
    exists k. split; [apply list_elem_of_In, elem_of_seqZ; lia | done]. }
  rewrite Hw in E. symmetry in E. apply bool_decide_eq_false in E.
  destruct (newest _ _); [exfalso; eauto | done].
Qed.
End found.

(** The answer to a query in terms of the buffered stores. *)
Lemma query_answer s l :
  buffered s l -> Forall entry_ok l ->
  let q := query s a acc in
  queryConflict_o q = existsb (fun k => written l (a + k)) (seqZ 0 (size acc)) /\
  queryForwardValid_o q = forallb (fun k => written l (a + k)) (seqZ 0 (size acc)) /\
  queryReady_o q = negb (queryConflict_o q) || queryForwardValid_o q /\
  (queryForwardValid_o q = true -> forall m, queryForwardData_o q = get (put_all l m) a acc) /\
  (queryConflict_o q = false -> forall m, get m a acc = get (put_all l m) a acc).
Proof.
  intros Hb Hl. unfold query. rewrite (query_loop s l _ Hb).
  assert (Forall entry_ok (reverse l)) as Hrl by (by apply Forall_reverse).
  pose proof (scanned_all (reverse l) Hrl) as Hs.
  destruct (fold_left scan_step (reverse l) (0, 0)) as [cov raw].
  cbn [queryConflict_o queryForwardValid_o queryReady_o queryForwardData_o].
  rewrite (conflict_spec l cov raw Hl Hs), (forward_spec l cov raw Hl Hs).
  split_and!; [done | done | done | |].
  - intros Hf m. rewrite Hf. by apply (forwarded_value l cov).
  - intros Hc m. apply load_value_ext. intros k Hk. symmetry. by apply unwritten_bytes.
Qed.
End scan.

(** The query is exact.  For every content of the buffer and every aligned
    load, a conflict is reported exactly when a buffered store writes one of
    the load's bytes, and forwarding exactly when each of them is written; the
    forwarded value is what the load would read from any memory after all
    buffered stores, the youngest store winning each byte; without a conflict
    the buffered stores do not change what the load reads. *)
Theorem query_exact s l a acc :
  buffered s l -> Forall entry_ok l -> aligned acc a = true -> load_access acc = true ->
  let q := query s a acc in
  queryConflict_o q = existsb (fun k => written l (a + k)) (seqZ 0 (size acc)) /\
  queryForwardValid_o q = forallb (fun k => written l (a + k)) (seqZ 0 (size acc)) /\
  queryReady_o q = negb (queryConflict_o q) || queryForwardValid_o q /\
  (queryForwardValid_o q = true -> forall m, queryForwardData_o q = get (put_all l m) a acc) /\
  (queryConflict_o q = false -> forall m, get m a acc = get (put_all l m) a acc).
Proof. intros Hb Hl Hal Hacc. by apply query_answer. Qed.

Lemma put_all_app l1 l2 m : put_all (l1 ++ l2) m = put_all l2 (put_all l1 m).
Proof. apply fold_left_app. Qed.

Lemma run_ok ins s :
  Forall (fun i => entry_ok (entry_in i)) ins -> Forall entry_ok (sbuf_run s ins).1.1.
Proof.
  intros H. revert s. induction H as [| i ins Hi _ IH]; intros s; cbn [sbuf_run]; [constructor |].
  specialize (IH (sbuf_step s i)). destruct (sbuf_run (sbuf_step s i) ins) as [[acc' dr] s'].
  cbn [fst] in *. destruct (enqueueFire s i); [by constructor | done].
Qed.

Lemma existsb_none {A} (f : A -> bool) l : (forall x, f x = false) -> existsb f l = false.
Proof. intros H. induction l as [| x l IH]; [done |]. cbn. by rewrite H. Qed.

(** C22: the store buffer is transparent.  From reset, over every sequence of
    cycles, the stores handed to the cache are a prefix of those taken in, in
    order, and whenever a load may proceed, the value it gets (forwarded, or
    read from a memory that has the drained stores only) is what it would read
    if every store taken in had already been performed in order.  With an empty
    buffer every load may proceed, and a store is refused only when the buffer
    is full and nothing drains. *)
Theorem store_buffer_transparent s0 ins a acc m :
  sized s0 -> Forall (fun i => entry_ok (entry_in i)) ins ->
  aligned acc a = true -> load_access acc = true ->
  let '(accepted, drained, s) := sbuf_run (sbuf_reset s0) ins in
  let q := query s a acc in
  (exists l, accepted = drained ++ l /\ entryCount s = Z.of_nat (length l)) /\
  (queryReady_o q = true ->
   (if queryForwardValid_o q then queryForwardData_o q else get (put_all drained m) a acc) =
   get (put_all accepted m) a acc) /\
  (empty_o s = true -> queryReady_o q = true) /\
  (forall i, enqueueReady_o s i = false <-> full_o s = true /\ drainReady_i i = false).
Proof.
  intros Hsz Hins Hal Hacc. pose proof (sbuf_run_fifo ins _ _ (buffered_reset s0 Hsz)) as H.
  assert (Forall entry_ok (sbuf_run (sbuf_reset s0) ins).1.1) as Hok by (by apply run_ok).
  destruct (sbuf_run (sbuf_reset s0) ins) as [[accepted drained] s]. destruct H as (l & Hb & E).
  cbn [app fst] in *. subst accepted. apply Forall_app in Hok as [_ Hl].
  destruct (query_answer a acc Hal Hacc s l Hb Hl) as (Hc & Hf & Hr & Hv & Hn).
  pose proof (buffered_empty s l Hb) as He. destruct (buffered_count s l Hb) as [Ec Hle].
  split_and!.
  - by exists l.
  - intros Hrdy. rewrite put_all_app. destruct (queryForwardValid_o (query s a acc)) eqn:Ef; [by apply Hv |].
    rewrite Hr, orb_false_r in Hrdy. apply negb_true_iff in Hrdy. by apply Hn.
  - intros E. rewrite He in E. apply bool_decide_eq_true in E as ->. rewrite Hr, Hc.
    by rewrite existsb_none.
  - intros i. unfold enqueueReady_o, drainFire. rewrite orb_false_iff, negb_false_iff, andb_false_iff.
    rewrite negb_false_iff, He, bool_decide_eq_true. unfold full_o. rewrite Z.eqb_eq.
    split; [intros [E [-> | ?]]; [cbn in *; lia | done] | intros [? ?]; auto].
Qed.
End buffer.

(** ** Witnesses: the buffer of depth 8 *)

Definition sb0 : sbuf := SBuf (replicate 8 0) (replicate 8 0) (replicate 8 MEM_WORD) 0 0 0.
Definition demo_sb_ins : list sbuf_in :=
  [SBIn true 0x100 0x11223344 MEM_WORD false; SBIn true 0x101 0xaa MEM_BYTE false;
   SBIn true 0x104 0x5566 MEM_HALF true; SBIn true 0x102 0xbbcc MEM_HALF false].

(** A forwarded word needs all its bytes; one of its bytes comes from the
    younger store; a partial overlap waits; another word does not conflict. *)
Example demo_queries :
  let s := (sbuf_run 8 (sbuf_reset sb0) demo_sb_ins).2 in
  query 8 s 0x102 MEM_HALF_U = Answer true true true 0xbbcc /\
  query 8 s 0x101 MEM_BYTE = Answer true true true 0xffffffaa /\
  query 8 s 0x100 MEM_WORD = Answer false true false 0 /\
  query 8 s 0x108 MEM_WORD = Answer true false false 0.
Proof. vm_compute. done. Qed.

Lemma demo_sb_ok : Forall (fun i => entry_ok (entry_in i)) demo_sb_ins.
Proof. by repeat constructor. Qed.

Lemma query_exact_witness :
  let s := SBuf (0x100 :: replicate 7 0) (0x11223344 :: replicate 7 0) (MEM_WORD :: replicate 7 MEM_WORD)
    0 1 1 in
  let l := [(0x100, 0x11223344, MEM_WORD)] in
  let q := query 8 s 0x102 MEM_HALF in
  queryConflict_o q = existsb (fun k => written l (0x102 + k)) (seqZ 0 (size MEM_HALF)) /\
  queryForwardValid_o q = forallb (fun k => written l (0x102 + k)) (seqZ 0 (size MEM_HALF)) /\
  queryReady_o q = negb (queryConflict_o q) || queryForwardValid_o q /\
  (queryForwardValid_o q = true -> forall m, queryForwardData_o q = get (put_all l m) 0x102 MEM_HALF) /\
  (queryConflict_o q = false -> forall m, get m 0x102 MEM_HALF = get (put_all l m) 0x102 MEM_HALF).
Proof.
  intros s l. apply (query_exact 8 ltac:(lia) s l 0x102 MEM_HALF).
  - split_and!; (split_and!; [reflexivity | cbn; lia | cbn; lia | reflexivity | cbn; lia | reflexivity |];
      intros [| j] Hj; [reflexivity | cbn in Hj; lia]).
  - by repeat constructor.
  - reflexivity.
  - reflexivity.
Defined.

Lemma store_buffer_transparent_witness :
  let '(accepted, drained, s) := sbuf_run 8 (sbuf_reset sb0) demo_sb_ins in
  let q := query 8 s 0x102 MEM_HALF_U in
  (exists l, accepted = drained ++ l /\ entryCount s = Z.of_nat (length l)) /\
  (queryReady_o q = true ->
   (if queryForwardValid_o q then queryForwardData_o q
    else get (put_all drained (fun _ => 0)) 0x102 MEM_HALF_U) =
   get (put_all accepted (fun _ => 0)) 0x102 MEM_HALF_U) /\
  (empty_o s = true -> queryReady_o q = true) /\
  (forall i, enqueueReady_o 8 s i = false <-> full_o 8 s = true /\ drainReady_i i = false).
Proof.
  apply (store_buffer_transparent 8 ltac:(lia) sb0 demo_sb_ins 0x102 MEM_HALF_U (fun _ => 0)).
  - done.
  - apply demo_sb_ok.
  - reflexivity.
  - reflexivity.
Defined.
