(* ===== verification/Csr.v ===== *)
(** * The control and status registers: CSRFile.sv

    The counters that the port reads, the trap registers, and the read-modify-
    write port of the CSR instructions. *)

From Stdlib Require Import String ZArith Lia.
From stdpp Require Import base list sets numbers.
From S2P Require Import Prelude PortIO Port.

Local Open Scope Z_scope.
Local Open Scope cm_scope.

(** ** The module *)

Definition CSR_CYCLE : Z := 0xC00.
Definition CSR_TIME : Z := 0xC01.
Definition CSR_INSTRET : Z := 0xC02.
Definition CSR_CYCLEH : Z := 0xC80.
Definition CSR_TIMEH : Z := 0xC81.
Definition CSR_INSTRETH : Z := 0xC82.
Definition CSR_MSTATUS : Z := 0x300.
Definition CSR_MISA : Z := 0x301.
Definition CSR_MIE : Z := 0x304.
Definition CSR_MTVEC : Z := 0x305.
Definition CSR_MSCRATCH : Z := 0x340.
Definition CSR_MEPC : Z := 0x341.
Definition CSR_MCAUSE : Z := 0x342.
Definition CSR_MTVAL : Z := 0x343.
Definition CSR_MIP : Z := 0x344.
Definition CSR_MCYCLE : Z := 0xB00.
Definition CSR_MINSTRET : Z := 0xB02.
Definition CSR_MCYCLEH : Z := 0xB80.
Definition CSR_MINSTRETH : Z := 0xB82.
Definition CSR_MHARTID : Z := 0xF14.

(** The register an address selects; the other addresses read as zero. *)
Inductive csr_reg :=
| Cycle | CycleH | Instret | InstretH | Mstatus | Misa | Mie | Mtvec | Mscratch | Mepc | Mcause
| Mtval | Mip | Mhartid | Zero.

(** The cases of the two [unique case (csrAddr_i)]. *)
Definition csr_select (a : Z) : csr_reg :=
  if (a =? CSR_CYCLE) || (a =? CSR_TIME) || (a =? CSR_MCYCLE) then Cycle
  else if (a =? CSR_CYCLEH) || (a =? CSR_TIMEH) || (a =? CSR_MCYCLEH) then CycleH
  else if (a =? CSR_INSTRET) || (a =? CSR_MINSTRET) then Instret
  else if (a =? CSR_INSTRETH) || (a =? CSR_MINSTRETH) then InstretH
  else if a =? CSR_MSTATUS then Mstatus
  else if a =? CSR_MISA then Misa
  else if a =? CSR_MIE then Mie
  else if a =? CSR_MTVEC then Mtvec
  else if a =? CSR_MSCRATCH then Mscratch
  else if a =? CSR_MEPC then Mepc
  else if a =? CSR_MCAUSE then Mcause
  else if a =? CSR_MTVAL then Mtval
  else if a =? CSR_MIP then Mip
  else if a =? CSR_MHARTID then Mhartid
  else Zero.

Inductive csr_op := CSR_NONE | CSR_RW | CSR_RS | CSR_RC.

Record csrs := Csrs {
  mstatus : Z; mie : Z; mtvec : Z; mscratch : Z; mepc : Z; mcause : Z; mtval : Z; mip : Z;
  mcycle : Z; minstret : Z
}.

Record csr_in := CsrIn {
  retireCount_i : Z; csrValid_i : bool; csrOp_i : csr_op; csrAddr_i : Z; csrWriteData_i : Z;
  trapValid_i : bool; trapPc_i : Z; trapCause_i : Z; trapValue_i : Z; mret_i : bool
}.

Section file.
Context (RESET_VALUE HART_ID MISA_VALUE : Z).

(** [csrReadData_o] *)
Definition csr_read (s : csrs) (a : Z) : Z :=
  match csr_select a with
  | Cycle => uwrap 32 (mcycle s)
  | CycleH => uwrap 32 (Z.shiftr (mcycle s) 32)
  | Instret => uwrap 32 (minstret s)
  | InstretH => uwrap 32 (Z.shiftr (minstret s) 32)
  | Mstatus => mstatus s
  | Misa => MISA_VALUE
  | Mie => mie s
  | Mtvec => mtvec s
  | Mscratch => mscratch s
  | Mepc => mepc s
  | Mcause => mcause s
  | Mtval => mtval s
  | Mip => mip s
  | Mhartid => HART_ID
  | Zero => 0
  end.

Definition nextValue (op : csr_op) (current data : Z) : Z :=
  match op with
  | CSR_RW => data
  | CSR_RS => Z.lor current data
  | CSR_RC => Z.land current (uwrap 32 (Z.lnot data))
  | CSR_NONE => current
  end.

(** [{mtvec[31:2], 2'b00}], also used for [mepc] *)
Definition word_aligned (a : Z) : Z := Z.shiftl (Z.shiftr a 2) 2.
Definition trapVector_o (s : csrs) : Z := word_aligned (mtvec s).

(** [x[n] <= b], and the two halves of a counter. *)
Definition put_bit (n : Z) (b : bool) (x : Z) : Z := if b then Z.setbit x n else Z.clearbit x n.
Definition put_low (v x : Z) : Z := Z.lor (Z.shiftl (Z.shiftr x 32) 32) (uwrap 32 v).
Definition put_high (v x : Z) : Z := Z.lor (Z.shiftl (uwrap 32 v) 32) (uwrap 32 x).

Definition csr_write (a v : Z) (s : csrs) : csrs :=
  let 'Csrs st ie tv sc ep ca tl ip cy ir := s in
  match csr_select a with
  | Mstatus => Csrs v ie tv sc ep ca tl ip cy ir
  | Mie => Csrs st v tv sc ep ca tl ip cy ir
  | Mtvec => Csrs st ie v sc ep ca tl ip cy ir
  | Mscratch => Csrs st ie tv v ep ca tl ip cy ir
  | Mepc => Csrs st ie tv sc v ca tl ip cy ir
  | Mcause => Csrs st ie tv sc ep v tl ip cy ir
  | Mtval => Csrs st ie tv sc ep ca v ip cy ir
  | Mip => Csrs st ie tv sc ep ca tl v cy ir
  | Cycle => Csrs st ie tv sc ep ca tl ip (put_low v cy) ir
  | CycleH => Csrs st ie tv sc ep ca tl ip (put_high v cy) ir
  | Instret => Csrs st ie tv sc ep ca tl ip cy (put_low v ir)
  | InstretH => Csrs st ie tv sc ep ca tl ip cy (put_high v ir)
  | Misa | Mhartid | Zero => s
  end.

Definition trap_enter (i : csr_in) (s : csrs) : csrs :=
  Csrs (put_bit 12 true (put_bit 11 true
          (put_bit 3 false (put_bit 7 (Z.testbit (mstatus s) 3) (mstatus s)))))
    (mie s) (mtvec s) (mscratch s) (word_aligned (trapPc_i i)) (uwrap 6 (trapCause_i i)) (trapValue_i i)
    (mip s) (mcycle s) (minstret s).
Definition trap_return (s : csrs) : csrs :=
  Csrs (put_bit 12 false (put_bit 11 false
          (put_bit 7 true (put_bit 3 (Z.testbit (mstatus s) 7) (mstatus s)))))
    (mie s) (mtvec s) (mscratch s) (mepc s) (mcause s) (mtval s) (mip s) (mcycle s) (minstret s).

(** One edge, out of reset: the counters first, then a trap, a return or a
    CSR write, which overrides the counter's increment. *)
Definition csr_step (s : csrs) (i : csr_in) : csrs :=
  let v := nextValue (csrOp_i i) (csr_read s (csrAddr_i i)) (csrWriteData_i i) in
  let s1 := Csrs (mstatus s) (mie s) (mtvec s) (mscratch s) (mepc s) (mcause s) (mtval s) (mip s)
    (uwrap 64 (mcycle s + 1))
    (if negb (retireCount_i i =? 0) then uwrap 64 (minstret s + retireCount_i i) else minstret s) in
  if trapValid_i i then trap_enter i s1
  else if mret_i i then trap_return s1
  else if csrValid_i i && negb (match csrOp_i i with CSR_NONE => true | _ => false end)
  then csr_write (csrAddr_i i) v s1
  else s1.
Definition csr_reset : csrs :=
  Csrs RESET_VALUE RESET_VALUE RESET_VALUE RESET_VALUE RESET_VALUE RESET_VALUE RESET_VALUE RESET_VALUE
    0 0.
Definition csr_after (s : csrs) (ins : list csr_in) : csrs := fold_left csr_step ins s.

(** ** Counters *)

(** The cycle does not write the register [r]. *)
Definition writes (r : csr_reg) (i : csr_in) : bool :=
  negb (trapValid_i i) && negb (mret_i i) && csrValid_i i &&
  match csrOp_i i with CSR_NONE => false | _ => true end &&
  match csr_select (csrAddr_i i), r with
  | Cycle, Cycle | CycleH, CycleH | Instret, Instret | InstretH, InstretH | Mstatus, Mstatus
  | Mepc, Mepc | Mscratch, Mscratch => true
  | _, _ => false
  end.
Definition counts_cycles (i : csr_in) : bool := negb (writes Cycle i) && negb (writes CycleH i).
Definition counts_instret (i : csr_in) : bool := negb (writes Instret i) && negb (writes InstretH i).

Lemma step_mcycle s i : counts_cycles i = true -> mcycle (csr_step s i) = uwrap 64 (mcycle s + 1).
Proof.
  unfold counts_cycles, writes, csr_step. intros H.
  destruct (trapValid_i i), (mret_i i), (csrValid_i i), (csrOp_i i); try done; cbn in *;
    unfold csr_write; destruct (csr_select (csrAddr_i i)); done.
Qed.

Lemma step_minstret s i :
  counts_instret i = true -> minstret (csr_step s i) =
    if negb (retireCount_i i =? 0) then uwrap 64 (minstret s + retireCount_i i) else minstret s.
Proof.
  unfold counts_instret, writes, csr_step. intros H.
  destruct (trapValid_i i), (mret_i i), (csrValid_i i), (csrOp_i i); try done; cbn in *;
    unfold csr_write; destruct (csr_select (csrAddr_i i)); done.
Qed.

Definition retired (ins : list csr_in) : Z := foldr (fun i n => retireCount_i i + n) 0 ins.

Lemma mcycle_after ins s :
  Forall (fun i => counts_cycles i = true) ins ->
  mcycle (csr_after s ins) mod 2 ^ 64 = (mcycle s + Z.of_nat (length ins)) mod 2 ^ 64.
Proof.
  intros H. revert s. induction H as [| i ins Hi _ IH]; intros s; cbn [csr_after fold_left length].
  - by rewrite Z.add_0_r.
  - change (fold_left csr_step ins (csr_step s i)) with (csr_after (csr_step s i) ins).
    rewrite IH, step_mcycle, uwrap_mod, Zplus_mod_idemp_l by (done || lia). f_equal. lia.
Qed.

Lemma minstret_after ins s :
  Forall (fun i => counts_instret i = true) ins ->
  minstret (csr_after s ins) mod 2 ^ 64 = (minstret s + retired ins) mod 2 ^ 64.
Proof.
  intros H. revert s. induction H as [| i ins Hi _ IH]; intros s; cbn [csr_after fold_left retired foldr].
  - by rewrite Z.add_0_r.
  - change (fold_left csr_step ins (csr_step s i)) with (csr_after (csr_step s i) ins).
    rewrite IH, step_minstret by done. destruct (Z.eqb_spec (retireCount_i i) 0) as [E | E]; cbn [negb].
    + rewrite E. f_equal.
    + rewrite uwrap_mod, Zplus_mod_idemp_l by lia. f_equal. unfold retired. lia.
Qed.

(** ** The port's clock *)

(** The values of the [n]-th read of a counter, [at_edge n] edges after the
    state [s]. *)
Section timing.
Context (s : csrs) (ins : list csr_in) (at_edge : nat -> nat).
Definition rdcycle_csr (n : nat) : Z := csr_read (csr_after s (take (at_edge n) ins)) CSR_CYCLE.
Definition rdinstret_csr (n : nat) : Z := csr_read (csr_after s (take (at_edge n) ins)) CSR_INSTRET.

Context (Hin : Forall (fun i => counts_cycles i = true /\ counts_instret i = true) ins).

Lemma low_word_diff x y c a b :
  x mod 2 ^ 64 = (c + a) mod 2 ^ 64 -> y mod 2 ^ 64 = (c + b) mod 2 ^ 64 ->
  u32 (u32 (uwrap 32 x) - u32 (uwrap 32 y)) = u32 (a - b).
Proof.
  intros Ex Ey. change (uwrap 32) with u32. change (2 ^ 64) with 18446744073709551616 in *.
  cint_unfold. Z.to_euclidean_division_equations. lia.
Qed.

Lemma rdcycle_diff m n :
  (at_edge m <= at_edge n <= length ins)%nat ->
  u32 (u32 (rdcycle_csr n) - u32 (rdcycle_csr m)) = u32 (Z.of_nat (at_edge n - at_edge m)).
Proof.
  intros H. rewrite Nat2Z.inj_sub by lia.
  assert (forall k, (k <= length ins)%nat -> mcycle (csr_after s (take k ins)) mod 2 ^ 64 =
    (mcycle s + Z.of_nat k) mod 2 ^ 64) as Hk.
  { intros k Hk. rewrite mcycle_after; [by rewrite length_take, Nat.min_l |].
    apply Forall_take. eapply Forall_impl; [| exact Hin]. by intros i []. }
  apply (low_word_diff _ _ (mcycle s)); apply Hk; lia.
Qed.

Lemma retired_app l1 l2 : retired (l1 ++ l2) = retired l1 + retired l2.
Proof. unfold retired. induction l1 as [| i l1 IH]; [done |]. cbn. rewrite IH. lia. Qed.

Lemma rdinstret_diff m n :
  (at_edge m <= at_edge n)%nat ->
  u32 (u32 (rdinstret_csr n) - u32 (rdinstret_csr m)) =
  u32 (retired (drop (at_edge m) (take (at_edge n) ins))).
Proof.
  intros H.
  assert (forall k, minstret (csr_after s (take k ins)) mod 2 ^ 64 =
    (minstret s + retired (take k ins)) mod 2 ^ 64) as Hk.
  { intros k. apply minstret_after. apply Forall_take. eapply Forall_impl; [| exact Hin]. by intros i []. }
  replace (retired (drop (at_edge m) (take (at_edge n) ins))) with
    (retired (take (at_edge n) ins) - retired (take (at_edge m) ins)).
  - apply (low_word_diff _ _ (minstret s)); apply Hk.
  - rewrite <- (take_drop (at_edge m) (take (at_edge n) ins)) at 1.
    rewrite retired_app, take_take, Nat.min_l by lia. lia.
Qed.

(** C37: the benchmark's clock is the processor's.  When the counters that the
    port reads are those of CSRFile.sv and no instruction writes them,
    [start_time], [stop_time], [get_time] return the number of clock edges
    between the two reads of the cycle counter, modulo 2^32, however often the
    low word wrapped in between, and the difference that [portable_fini] prints
    is the number of instructions retired between the reads of [instret]. *)
Theorem measured_on_csrs p :
  (at_edge (reads p) <= at_edge (reads p + 2) <= length ins)%nat ->
  (at_edge (reads p + 1) <= at_edge (reads p + 3))%nat ->
  exists p', (start_time rdcycle_csr rdinstret_csr ;; stop_time rdcycle_csr rdinstret_csr ;; get_time) p =
      Ok (u32 (Z.of_nat (at_edge (reads p + 2) - at_edge (reads p)))) p' /\
    u32 (instret1 p' - instret0 p') =
      u32 (retired (drop (at_edge (reads p + 1)) (take (at_edge (reads p + 3)) ins))).
Proof.
  intros Hc Hi. pose proof (rdcycle_diff _ _ Hc) as Ec. pose proof (rdinstret_diff _ _ Hi) as Ei.
  assert (wp (start_time rdcycle_csr rdinstret_csr ;; stop_time rdcycle_csr rdinstret_csr ;; get_time)
    (fun r p' => r = u32 (Z.of_nat (at_edge (reads p + 2) - at_edge (reads p))) /\
       u32 (instret1 p' - instret0 p') =
       u32 (retired (drop (at_edge (reads p + 1)) (take (at_edge (reads p + 3)) ins)))) p) as H.
  { destruct p as [tr a b c d off n]. cbn [reads] in *.
    replace (n + 3)%nat with (S (S (S n))) in * by lia. replace (n + 2)%nat with (S (S n)) in * by lia.
    replace (n + 1)%nat with (S n) in * by lia.
    cbv [wp bind ret gets modify start_time stop_time get_time read_cycle32 read_instret32
      trace t0 t1 instret0 instret1 heap_off reads]. split; [exact Ec | exact Ei]. }
  apply wp_ok in H as (r & p' & E & -> & Hr). by exists p'.
Qed.
End timing.

(** ** Traps *)

(** The cycle leaves [mstatus], [mepc], [mcause] and [mtval] alone. *)
Definition quiet (i : csr_in) : bool :=
  negb (trapValid_i i) && negb (mret_i i) &&
  negb (csrValid_i i && match csr_select (csrAddr_i i) with
                        | Mstatus | Mepc | Mcause | Mtval => true | _ => false end).

Lemma quiet_step s i :
  quiet i = true -> mstatus (csr_step s i) = mstatus s /\ mepc (csr_step s i) = mepc s /\
    mcause (csr_step s i) = mcause s /\ mtval (csr_step s i) = mtval s.
Proof.
  unfold quiet, csr_step. intros H.
  destruct (trapValid_i i), (mret_i i), (csrValid_i i), (csrOp_i i); try done; cbn in *;
    unfold csr_write; destruct (csr_select (csrAddr_i i)); done.
Qed.

Lemma quiet_after s ins :
  Forall (fun i => quiet i = true) ins ->
  mstatus (csr_after s ins) = mstatus s /\ mepc (csr_after s ins) = mepc s /\
    mcause (csr_after s ins) = mcause s /\ mtval (csr_after s ins) = mtval s.
Proof.
  intros H. revert s. induction H as [| i ins Hi _ IH]; intros s; [done |]. cbn [csr_after fold_left].
  change (fold_left csr_step ins (csr_step s i)) with (csr_after (csr_step s i) ins).
  destruct (IH (csr_step s i)) as (-> & -> & -> & ->). by apply quiet_step.
Qed.

Lemma testbit_put_bit n b x m : 0 <= n -> 0 <= m ->
  Z.testbit (put_bit n b x) m = if n =? m then b else Z.testbit x m.
Proof.
  intros Hn Hm. unfold put_bit. destruct b; [rewrite Z.setbit_eqb by done | rewrite Z.clearbit_eqb];
    destruct (n =? m); cbn; try done; by rewrite ?andb_false_r, ?andb_true_r.
Qed.

(** A trap handler returns to where it came from.  A trap records the
    word-aligned address, cause and value and turns interrupts off; after any
    cycles that neither trap nor return nor write these registers, the return
    restores the interrupt enable of before the trap, whatever it was, and
    changes no bit of [mstatus] but MIE, MPIE and MPP; [mepc] still holds the
    address, and a trap wins over a return or a CSR write of the same cycle. *)
Theorem trap_return_restores s t mid r :
  trapValid_i t = true -> Forall (fun i => quiet i = true) mid ->
  mret_i r = true -> trapValid_i r = false ->
  let s1 := csr_after (csr_step s t) mid in
  let s2 := csr_step s1 r in
  mepc s1 = word_aligned (trapPc_i t) /\ mcause s1 = uwrap 6 (trapCause_i t) /\ mtval s1 = trapValue_i t /\
  Z.testbit (mstatus s1) 3 = false /\ Z.testbit (mstatus s1) 7 = Z.testbit (mstatus s) 3 /\
  mepc s2 = word_aligned (trapPc_i t) /\ Z.testbit (mstatus s2) 3 = Z.testbit (mstatus s) 3 /\
  (forall n, 0 <= n -> n ∉ [3; 7; 11; 12] -> Z.testbit (mstatus s2) n = Z.testbit (mstatus s) n).
Proof.
  intros Ht Hmid Hr Hnt s1 s2. destruct (quiet_after (csr_step s t) mid Hmid) as (Es & Ee & Ec & Ev).
  fold s1 in Es, Ee, Ec, Ev.
  assert (csr_step s t = trap_enter t (Csrs (mstatus s) (mie s) (mtvec s) (mscratch s) (mepc s) (mcause s)
    (mtval s) (mip s) (uwrap 64 (mcycle s + 1)) (minstret (csr_step s t)))) as E1.
  { unfold csr_step. rewrite Ht. done. }
  rewrite E1 in Es, Ee, Ec, Ev. cbn [trap_enter mstatus mepc mcause mtval] in Es, Ee, Ec, Ev.
  assert (mstatus s2 = mstatus (trap_return s1) /\ mepc s2 = mepc s1) as [Es2 Ee2].
  { unfold s2, csr_step. rewrite Hnt, Hr. done. }
  cbn [trap_return mstatus] in Es2. rewrite Ee2, Es2, Es. split_and!; [done | done | done | | | done | |].
  1-3: by rewrite !testbit_put_bit by lia.
  intros n Hn Hin. rewrite !testbit_put_bit by lia.
  assert (n <> 3 /\ n <> 7 /\ n <> 11 /\ n <> 12) as (H3 & H7 & H11 & H12) by set_solver.
  by rewrite !(proj2 (Z.eqb_neq _ _)) by lia.
Qed.

(** ** CSR instructions *)

(** The registers have their widths. *)
Definition csr_wf (s : csrs) : Prop :=
  in_u 32 (mstatus s) /\ in_u 32 (mie s) /\ in_u 32 (mtvec s) /\ in_u 32 (mscratch s) /\ in_u 32 (mepc s) /\
  in_u 32 (mcause s) /\ in_u 32 (mtval s) /\ in_u 32 (mip s) /\ in_u 64 (mcycle s) /\ in_u 64 (minstret s).

(** The two words of a counter. *)
Lemma low_put_low v x : in_u 32 v -> uwrap 32 (put_low v x) = v.
Proof.
  intros Hv. rewrite <- (uwrap_id 32 v) at 2 by done. apply Z.bits_inj'. intros i Hi.
  unfold put_low. rewrite !testbit_uwrap, Z.lor_spec, testbit_uwrap by lia.
  destruct (Z.ltb_spec i 32); [cbn [andb] | done]. by rewrite Z.shiftl_spec_low.
Qed.

Lemma high_put_high v x : in_u 32 v -> uwrap 32 (Z.shiftr (put_high v x) 32) = v.
Proof.
  intros Hv. rewrite <- (uwrap_id 32 v) at 2 by done. apply Z.bits_inj'. intros i Hi.
  unfold put_high. rewrite !testbit_uwrap, Z.shiftr_spec, Z.lor_spec, Z.shiftl_spec, !testbit_uwrap by lia.
  destruct (Z.ltb_spec i 32); [cbn [andb] | done].
  rewrite (proj2 (Z.ltb_lt (i + 32 - 32) 32)), (proj2 (Z.ltb_ge (i + 32) 32)) by lia. cbn [andb].
  rewrite orb_false_r. f_equal. lia.
Qed.

Definition is_counter (r : csr_reg) : bool :=
  match r with Cycle | CycleH | Instret | InstretH => true | _ => false end.
Definition is_writable (r : csr_reg) : bool :=
  match r with Misa | Mhartid | Zero => false | _ => true end.

Lemma csr_read_write s a v :
  in_u 32 v -> csr_read (csr_write a v s) a = if is_writable (csr_select a) then v else csr_read s a.
Proof.
  intros Hv. destruct s. unfold csr_read, csr_write.
  destruct (csr_select a); cbn; auto using low_put_low, high_put_high.
Qed.

Lemma csr_read_other s a b v :
  csr_select a <> csr_select b -> is_counter (csr_select b) = false ->
  csr_read (csr_write a v s) b = csr_read s b.
Proof.
  intros Hne Hc. destruct s. unfold csr_read, csr_write.
  destruct (csr_select b); try done; destruct (csr_select a); done.
Qed.

Lemma csr_read_range s a : csr_wf s -> in_u 32 HART_ID -> in_u 32 MISA_VALUE -> in_u 32 (csr_read s a).
Proof.
  intros (? & ? & ? & ? & ? & ? & ? & ? & ? & ?) Hh Hm. unfold csr_read.
  destruct (csr_select a); try done; by apply uwrap_range.
Qed.

Lemma nextValue_range op c d : in_u 32 c -> in_u 32 d -> in_u 32 (nextValue op c d).
Proof.
  intros Hc Hd. destruct op; cbn [nextValue]; try done; apply in_u_testbit; try lia.
  - apply Z.lor_nonneg. unfold in_u in *. lia.
  - intros i Hi. rewrite Z.lor_spec. by rewrite !(testbit_in_u 32) by (done || lia).
  - apply Z.land_nonneg. unfold in_u in Hc. lia.
  - intros i Hi. rewrite Z.land_spec. by rewrite (testbit_in_u 32 c) by (done || lia).
Qed.

(** CSR instructions read, modify and write.  In a cycle without a trap or
    a return, a CSR instruction other than a pure read leaves the register it
    addresses with the new value (the operand, the old value with the operand's
    bits set, or with them cleared) if it is implemented as a register, and no
    other register except the counters changes.  The addresses C00 to C82 of
    the user-mode counters, read-only in the architecture, are written too. *)
Theorem csr_instruction s i :
  csr_wf s -> in_u 32 HART_ID -> in_u 32 MISA_VALUE -> in_u 32 (csrWriteData_i i) ->
  trapValid_i i = false -> mret_i i = false -> csrValid_i i = true -> csrOp_i i <> CSR_NONE ->
  let v := nextValue (csrOp_i i) (csr_read s (csrAddr_i i)) (csrWriteData_i i) in
  (is_writable (csr_select (csrAddr_i i)) = true -> csr_read (csr_step s i) (csrAddr_i i) = v) /\
  (forall n, 0 <= n < 32 -> Z.testbit v n =
     match csrOp_i i with
     | CSR_RW => Z.testbit (csrWriteData_i i) n
     | CSR_RS => Z.testbit (csr_read s (csrAddr_i i)) n || Z.testbit (csrWriteData_i i) n
     | CSR_RC => Z.testbit (csr_read s (csrAddr_i i)) n && negb (Z.testbit (csrWriteData_i i) n)
     | CSR_NONE => false
     end) /\
  (forall b, csr_select (csrAddr_i i) <> csr_select b -> is_counter (csr_select b) = false ->
     csr_read (csr_step s i) b = csr_read s b) /\
  is_writable (csr_select CSR_CYCLE) = true /\ is_writable (csr_select CSR_INSTRETH) = true.
Proof.
  intros Hwf Hh Hm Hd Ht Hr Hv Hop v.
  assert (in_u 32 v) as Hvr by (apply nextValue_range; [by apply csr_read_range | done]).
  assert (exists s1, csr_step s i = csr_write (csrAddr_i i) v s1 /\
    forall b, is_counter (csr_select b) = false -> csr_read s1 b = csr_read s b) as (s1 & Es & Hs1).
  { eexists. split; [unfold csr_step; rewrite Ht, Hr, Hv; by destruct (csrOp_i i) |].
    intros b Hb. unfold csr_read. by destruct (csr_select b). }
  rewrite Es. split; [| split; [| split; [| done]]].
  - intros Hw. by rewrite csr_read_write, Hw.
  - intros n Hn. unfold v, nextValue. destruct (csrOp_i i); try done; [apply Z.lor_spec |].
    rewrite Z.land_spec, testbit_uwrap, Z.lnot_spec by lia. by rewrite (proj2 (Z.ltb_lt _ _)) by lia.
  - intros b Hne Hc. rewrite csr_read_other by done. by apply Hs1.
Qed.
End file.

(** ** Witnesses *)

Definition idle_in (n : Z) : csr_in := CsrIn n false CSR_NONE 0 0 false 0 0 0 false.
Definition csr0 : csrs := csr_reset 0.

(** Sixteen cycles that retire two instructions each; the port reads the
    counters every three cycles. *)
Lemma measured_on_csrs_witness :
  exists p', (start_time (rdcycle_csr 0 0x40000100 csr0 (replicate 16 (idle_in 2)) (fun n => 3 * n)%nat)
        (rdinstret_csr 0 0x40000100 csr0 (replicate 16 (idle_in 2)) (fun n => 3 * n)%nat) ;;
      stop_time (rdcycle_csr 0 0x40000100 csr0 (replicate 16 (idle_in 2)) (fun n => 3 * n)%nat)
        (rdinstret_csr 0 0x40000100 csr0 (replicate 16 (idle_in 2)) (fun n => 3 * n)%nat) ;; get_time)
      (Port [] 0 0 0 0 0 0) = Ok 6 p' /\ u32 (instret1 p' - instret0 p') = 12.
Proof.
  apply (measured_on_csrs 0 0x40000100 csr0 (replicate 16 (idle_in 2)) (fun n => 3 * n)%nat
    ltac:(apply Forall_replicate; done) (Port [] 0 0 0 0 0 0)); cbn; lia.
Defined.

Definition demo_trap : csr_in := CsrIn 0 true CSR_RW CSR_MSTATUS 0 true 0x102 11 0x55 false.
Definition demo_mret : csr_in := CsrIn 1 false CSR_NONE 0 0 false 0 0 0 true.

Lemma trap_return_restores_witness :
  let s := Csrs 0x88 0 0x1c0 0 0 0 0 0 5 5 in
  let s1 := csr_after 0 0x40000100 (csr_step 0 0x40000100 s demo_trap) [idle_in 1; idle_in 0] in
  let s2 := csr_step 0 0x40000100 s1 demo_mret in
  mepc s1 = 0x100 /\ mcause s1 = 11 /\ mtval s1 = 0x55 /\
  Z.testbit (mstatus s1) 3 = false /\ Z.testbit (mstatus s1) 7 = true /\
  mepc s2 = 0x100 /\ Z.testbit (mstatus s2) 3 = true /\
  (forall n, 0 <= n -> n ∉ [3; 7; 11; 12] -> Z.testbit (mstatus s2) n = Z.testbit 0x88 n).
Proof.
  apply (trap_return_restores 0 0x40000100 (Csrs 0x88 0 0x1c0 0 0 0 0 0 5 5) demo_trap
    [idle_in 1; idle_in 0] demo_mret); [done | by repeat constructor | done | done].
Defined.

Lemma csr_instruction_witness :
  let s := Csrs 0x88 0 0x1c0 0 0 0 0 0 5 5 in
  let i := CsrIn 1 true CSR_RS CSR_MTVEC 0x3 false 0 0 0 false in
  csr_read 0 0x40000100 (csr_step 0 0x40000100 s i) CSR_MTVEC = 0x1c3.
Proof.
  intros s i.
  apply (csr_instruction 0 0x40000100 s i); try done; unfold in_u; cbn; try lia.
Defined.
