(* ===== verification/Isa.v ===== *)
(** * The instruction set

    RV32I with the CSR instructions, as the unprivileged and privileged
    architecture manuals define it: instructions, their encoding, and what one
    instruction does.  This is the specification that Decode is compared
    with. *)

From Stdlib Require Import ZArith Lia.
From stdpp Require Import base list numbers.
From S2P Require Import Prelude MemWord Csr.

Local Open Scope Z_scope.

(** ** Instructions *)

Inductive alu_op := Add | Sub | Sll | Slt | Sltu | Xor | Srl | Sra | Or | And.
Inductive cond := Beq | Bne | Blt | Bge | Bltu | Bgeu.

Inductive insn :=
| Lui (rd imm20 : Z)
| Auipc (rd imm20 : Z)
| Jal (rd offset : Z)
| Jalr (rd rs1 imm : Z)
| Branch (c : cond) (rs1 rs2 offset : Z)
| Load (acc : mem_access) (rd rs1 imm : Z)
| Store (acc : mem_access) (rs1 rs2 imm : Z)
| OpImm (op : alu_op) (rd rs1 imm : Z)      (* shifts: imm is the shift amount *)
| Op (op : alu_op) (rd rs1 rs2 : Z)
| Fence (rd rs1 imm : Z)
| FenceI
| Ecall
| Ebreak
| Mret
| CsrReg (op : csr_op) (rd rs1 csr : Z)
| CsrImm (op : csr_op) (rd zimm csr : Z).

Definition is_shift (op : alu_op) : bool := match op with Sll | Srl | Sra => true | _ => false end.

(** Registers are numbered 0 to 31; immediates have the range of their format. *)
Definition reg (r : Z) : Prop := 0 <= r < 32.
Definition imm12 (i : Z) : Prop := -2048 <= i < 2048.
Definition insn_ok (i : insn) : Prop :=
  match i with
  | Lui rd imm | Auipc rd imm => reg rd /\ 0 <= imm < 2 ^ 20
  | Jal rd off => reg rd /\ - 2 ^ 20 <= off < 2 ^ 20 /\ off mod 2 = 0
  | Jalr rd rs1 imm => reg rd /\ reg rs1 /\ imm12 imm
  | Branch _ rs1 rs2 off => reg rs1 /\ reg rs2 /\ -4096 <= off < 4096 /\ off mod 2 = 0
  | Load acc rd rs1 imm => load_access acc = true /\ reg rd /\ reg rs1 /\ imm12 imm
  | Store acc rs1 rs2 imm => store_access acc = true /\ reg rs1 /\ reg rs2 /\ imm12 imm
  | OpImm op rd rs1 imm =>
      op <> Sub /\ reg rd /\ reg rs1 /\ (if is_shift op then 0 <= imm < 32 else imm12 imm)
  | Op _ rd rs1 rs2 => reg rd /\ reg rs1 /\ reg rs2
  | Fence rd rs1 imm => reg rd /\ reg rs1 /\ imm12 imm
  | FenceI | Ecall | Ebreak | Mret => True
  | CsrReg op rd rs1 csr => op <> CSR_NONE /\ reg rd /\ reg rs1 /\ in_u 12 csr
  | CsrImm op rd zimm csr => op <> CSR_NONE /\ reg rd /\ reg zimm /\ in_u 12 csr
  end.

(** ** Encoding *)

(** The fields of the R format, from the lowest bits on. *)
Definition pack (opcode rd funct3 rs1 rs2 funct7 : Z) : Z :=
  opcode + rd * 2 ^ 7 + funct3 * 2 ^ 12 + rs1 * 2 ^ 15 + rs2 * 2 ^ 20 + funct7 * 2 ^ 25.

(** The other formats spread an immediate over the fields. *)
Definition pack_i (opcode rd funct3 rs1 imm : Z) : Z :=
  pack opcode rd funct3 rs1 (imm mod 32) (imm / 32 mod 128).
Definition pack_s (opcode funct3 rs1 rs2 imm : Z) : Z :=
  pack opcode (imm mod 32) funct3 rs1 rs2 (imm / 32 mod 128).
Definition pack_b (opcode funct3 rs1 rs2 imm : Z) : Z :=
  pack opcode (imm / 2048 mod 2 + 2 * (imm / 2 mod 16)) funct3 rs1 rs2
    (imm / 32 mod 64 + 64 * (imm / 4096 mod 2)).
Definition pack_u (opcode rd imm : Z) : Z :=
  pack opcode rd (imm mod 8) (imm / 8 mod 32) (imm / 256 mod 32) (imm / 8192 mod 128).
Definition pack_j (opcode rd imm : Z) : Z :=
  pack_u opcode rd (imm / 4096 mod 256 + 256 * (imm / 2048 mod 2) + 512 * (imm / 2 mod 1024) +
                    2 ^ 19 * (imm / 2 ^ 20 mod 2)).

Definition alu_funct3 (op : alu_op) : Z :=
  match op with
  | Add | Sub => 0 | Sll => 1 | Slt => 2 | Sltu => 3 | Xor => 4 | Srl | Sra => 5 | Or => 6 | And => 7
  end.
Definition alu_funct7 (op : alu_op) : Z := match op with Sub | Sra => 32 | _ => 0 end.
Definition cond_funct3 (c : cond) : Z :=
  match c with Beq => 0 | Bne => 1 | Blt => 4 | Bge => 5 | Bltu => 6 | Bgeu => 7 end.
Definition access_funct3 (a : mem_access) : Z :=
  match a with
  | MEM_BYTE => 0 | MEM_HALF => 1 | MEM_WORD => 2 | MEM_BYTE_U => 4 | MEM_HALF_U => 5 | MEM_RESERVED => 3
  end.
Definition csr_funct3 (op : csr_op) : Z :=
  match op with CSR_NONE => 0 | CSR_RW => 1 | CSR_RS => 2 | CSR_RC => 3 end.

Definition encode (i : insn) : Z :=
  match i with
  | Lui rd imm => pack_u 0x37 rd imm
  | Auipc rd imm => pack_u 0x17 rd imm
  | Jal rd off => pack_j 0x6f rd off
  | Jalr rd rs1 imm => pack_i 0x67 rd 0 rs1 imm
  | Branch c rs1 rs2 off => pack_b 0x63 (cond_funct3 c) rs1 rs2 off
  | Load acc rd rs1 imm => pack_i 0x03 rd (access_funct3 acc) rs1 imm
  | Store acc rs1 rs2 imm => pack_s 0x23 (access_funct3 acc) rs1 rs2 imm
  | OpImm op rd rs1 imm =>
      if is_shift op then pack 0x13 rd (alu_funct3 op) rs1 imm (alu_funct7 op)
      else pack_i 0x13 rd (alu_funct3 op) rs1 imm
  | Op op rd rs1 rs2 => pack 0x33 rd (alu_funct3 op) rs1 rs2 (alu_funct7 op)
  | Fence rd rs1 imm => pack_i 0x0f rd 0 rs1 imm
  | FenceI => pack 0x0f 0 1 0 0 0
  | Ecall => 0x00000073
  | Ebreak => 0x00100073
  | Mret => 0x30200073
  | CsrReg op rd rs1 csr => pack_i 0x73 rd (csr_funct3 op) rs1 csr
  | CsrImm op rd zimm csr => pack_i 0x73 rd (4 + csr_funct3 op) zimm csr
  end.

(** ** Semantics *)

(** What an instruction asks for: a register write, a load into a register. *)
Inductive writeback := NoWb | WbValue (rd v : Z) | WbLoad (rd : Z).

(** A memory access: is it a store, address, width, data. *)
Definition mem_req : Type := bool * Z * mem_access * Z.

Inductive effect :=
| Trap (cause value : Z)
| Step (wb : writeback) (next_pc : Z) (mem : option mem_req) (csr : option (csr_op * Z * Z))
    (leaves_trap : bool).

Definition EXC_INSN_ADDR_MISALIGNED : Z := 0.
Definition EXC_ILLEGAL_INSN : Z := 2.
Definition EXC_BREAKPOINT : Z := 3.
Definition EXC_LOAD_ADDR_MISALIGNED : Z := 4.
Definition EXC_STORE_ADDR_MISALIGNED : Z := 6.
Definition EXC_ECALL_MMODE : Z := 11.

(** Arithmetic on 32-bit words [a] and [b]. *)
Definition alu_sem (op : alu_op) (a b : Z) : Z :=
  match op with
  | Add => (a + b) mod 2 ^ 32
  | Sub => (a - b) mod 2 ^ 32
  | Sll => (a * 2 ^ (b mod 32)) mod 2 ^ 32
  | Slt => if s32 a <? s32 b then 1 else 0
  | Sltu => if a <? b then 1 else 0
  | Xor => Z.lxor a b
  | Srl => a / 2 ^ (b mod 32)
  | Sra => (s32 a / 2 ^ (b mod 32)) mod 2 ^ 32
  | Or => Z.lor a b
  | And => Z.land a b
  end.

Definition cond_sem (c : cond) (a b : Z) : bool :=
  match c with
  | Beq => a =? b | Bne => negb (a =? b) | Blt => s32 a <? s32 b | Bge => negb (s32 a <? s32 b)
  | Bltu => a <? b | Bgeu => negb (a <? b)
  end.

(** The result of a write to a register; register 0 is not written. *)
Definition to_reg (rd v : Z) : writeback := if rd =? 0 then NoWb else WbValue rd v.

(** A jump to [target]; it must be word-aligned. *)
Definition jump (wb : writeback) (target : Z) (leaves_trap : bool) : effect :=
  if target mod 4 =? 0 then Step wb target None None leaves_trap
  else Trap EXC_INSN_ADDR_MISALIGNED target.

(** [a] and [b] are the values of the source registers, [old] that of the CSR
    an instruction names ([mepc] for [Mret]). *)
Definition sem (i : insn) (pc a b old : Z) : effect :=
  let next := (pc + 4) mod 2 ^ 32 in
  match i with
  | Lui rd imm => Step (to_reg rd (imm * 2 ^ 12)) next None None false
  | Auipc rd imm => Step (to_reg rd ((pc + imm * 2 ^ 12) mod 2 ^ 32)) next None None false
  | Jal rd off => jump (to_reg rd next) ((pc + off) mod 2 ^ 32) false
  | Jalr rd _ imm =>
      let t := (a + imm) mod 2 ^ 32 in jump (to_reg rd next) (t - t mod 2) false
  | Branch c _ _ off =>
      if cond_sem c a b then jump NoWb ((pc + off) mod 2 ^ 32) false else Step NoWb next None None false
  | Load acc rd _ imm =>
      let addr := (a + imm) mod 2 ^ 32 in
      if aligned acc addr
      then Step (if rd =? 0 then NoWb else WbLoad rd) next (Some (false, addr, acc, 0)) None false
      else Trap EXC_LOAD_ADDR_MISALIGNED addr
  | Store acc _ _ imm =>
      let addr := (a + imm) mod 2 ^ 32 in
      if aligned acc addr then Step NoWb next (Some (true, addr, acc, b)) None false
      else Trap EXC_STORE_ADDR_MISALIGNED addr
  | OpImm op rd _ imm => Step (to_reg rd (alu_sem op a (imm mod 2 ^ 32))) next None None false
  | Op op rd _ _ => Step (to_reg rd (alu_sem op a b)) next None None false
  | Fence _ _ _ | FenceI => Step NoWb next None None false
  | Ecall => Trap EXC_ECALL_MMODE 0
  | Ebreak => Trap EXC_BREAKPOINT 0
  | Mret => jump NoWb old true
  | CsrReg op rd rs1 csr =>
      (* setting or clearing with x0 is a pure read *)
      let op := match op with CSR_RW => CSR_RW | _ => if rs1 =? 0 then CSR_NONE else op end in
      Step (to_reg rd old) next None (Some (op, csr, a)) false
  | CsrImm op rd zimm csr =>
      let op := match op with CSR_RW => CSR_RW | _ => if zimm =? 0 then CSR_NONE else op end in
      Step (to_reg rd old) next None (Some (op, csr, zimm)) false
  end.
