(* ===== verification/Decode.v ===== *)
(** * Decoding and executing one instruction

    Decoder.sv, the choice of the functional unit in RenameStage.sv, ALU.sv and
    the combinational parts of OoOExecutionUnit.sv and
    LoadStoreExecutionUnit.sv: from an instruction word and its operands to the
    effects of the instruction.  The theorems compare them with Isa. *)

From Stdlib Require Import ZArith Lia.
From stdpp Require Import base list numbers.
From S2P Require Import Prelude MemWord Csr Isa.

Local Open Scope Z_scope.

(** ** The hardware *)

Inductive wb_select := WB_ALU | WB_MEM | WB_PC4 | WB_IMM | WB_CSR.
Inductive branch_ctr :=
| BR_NONE | BR_BEQ | BR_BNE | BR_BLT | BR_BGE | BR_BLTU | BR_BGEU | BR_JAL | BR_JALR | BR_MRET.
Inductive alu_ctr :=
| ALU_ADD | ALU_SUB | ALU_AND | ALU_OR | ALU_XOR | ALU_SLL | ALU_SRL | ALU_SRA | ALU_SLT | ALU_SLTU
| ALU_PASS.

(** The outputs of the decoder. *)
Record ctl := Ctl {
  registerWriteEnable : bool; dataWriteEnable : bool; wbSelect : wb_select;
  csrOp : csr_op; csrAddr : Z; csrUseImm : bool; csrImm : Z;
  branchCtr : branch_ctr; aluCtr : alu_ctr; memCtr : mem_access;
  aluSrcASelect : bool; aluSrcBSelect : bool; useRs1 : bool; useRs2 : bool;
  rs1 : Z; rs2 : Z; rd : Z; immediate : Z;
  decodeException : bool; decodeExceptionCause : Z; exceptionValue : Z;
  serialize : bool; mret : bool
}.

(** [w[hi:lo]] and [{a, b}], [b] of [n] bits. *)
Definition bits (w hi lo : Z) : Z := uwrap (hi - lo + 1) (Z.shiftr w lo).
Definition cat (n a b : Z) : Z := Z.lor (Z.shiftl a n) b.

Section decoder.
Context (w : Z).
Definition opcode : Z := bits w 6 0.
Definition funct3 : Z := bits w 14 12.
Definition funct7 : Z := bits w 31 25.
Definition f_rs1 : Z := bits w 19 15.
Definition f_rs2 : Z := bits w 24 20.
Definition f_rd : Z := bits w 11 7.

(** The immediates. *)
Definition imm_i : Z := sign_extend 12 (bits w 31 20).
Definition imm_s : Z := sign_extend 12 (cat 5 (bits w 31 25) (bits w 11 7)).
Definition imm_b : Z :=
  sign_extend 13 (cat 1 (cat 4 (cat 6 (cat 1 (bits w 31 31) (bits w 7 7)) (bits w 30 25)) (bits w 11 8)) 0).
Definition imm_u : Z := cat 12 (bits w 31 12) 0.
Definition imm_j : Z :=
  sign_extend 21 (cat 1 (cat 10 (cat 1 (cat 8 (bits w 31 31) (bits w 19 12)) (bits w 20 20))
    (bits w 30 21)) 0).
Definition imm_shamt : Z := bits w 24 20.

(** The defaults: an illegal instruction without side effects. *)
Definition illegal : ctl :=
  Ctl false false WB_ALU CSR_NONE (bits w 31 20) false (bits w 19 15) BR_NONE ALU_ADD MEM_WORD
    false false false false f_rs1 f_rs2 f_rd 0 true EXC_ILLEGAL_INSN w false false.

(** Changes to it, as the branches of the decoder make them. *)
Definition alu_insn (wen : bool) (sel : wb_select) (op : alu_ctr) (srcA srcB u1 u2 : bool) (imm : Z)
    (exc : bool) : ctl :=
  Ctl wen false sel CSR_NONE (bits w 31 20) false (bits w 19 15) BR_NONE op MEM_WORD
    srcA srcB u1 u2 f_rs1 f_rs2 f_rd imm exc EXC_ILLEGAL_INSN w false false.
Definition mem_insn (wen store : bool) (sel : wb_select) (acc : mem_access) (u2 : bool) (imm : Z) (exc : bool)
    : ctl :=
  Ctl wen store sel CSR_NONE (bits w 31 20) false (bits w 19 15) BR_NONE ALU_ADD acc
    false true true u2 f_rs1 f_rs2 f_rd imm exc EXC_ILLEGAL_INSN w false false.
Definition jump_insn (wen : bool) (sel : wb_select) (br : branch_ctr) (srcA u1 u2 : bool) (imm : Z)
    (exc : bool) : ctl :=
  Ctl wen false sel CSR_NONE (bits w 31 20) false (bits w 19 15) br ALU_ADD MEM_WORD
    srcA true u1 u2 f_rs1 f_rs2 f_rd imm exc EXC_ILLEGAL_INSN w false false.
Definition csr_insn (op : csr_op) (imm u1 : bool) : ctl :=
  Ctl (negb (f_rd =? 0)) false WB_CSR op (bits w 31 20) imm (bits w 19 15) BR_NONE ALU_ADD MEM_WORD
    false false u1 false f_rs1 f_rs2 f_rd 0 false EXC_ILLEGAL_INSN w false false.
Definition system_insn (exc : bool) (cause value : Z) : ctl :=
  Ctl false false WB_ALU CSR_NONE (bits w 31 20) false (bits w 19 15) BR_NONE ALU_ADD MEM_WORD
    false false false false f_rs1 f_rs2 f_rd 0 exc cause value true false.

(** The opcode [case]. *)
Definition decode_op : ctl :=
  let ok op := alu_insn true WB_ALU op false false true true 0 false in
  match funct7, funct3 with
  | 0, 0 => ok ALU_ADD | 32, 0 => ok ALU_SUB | 0, 1 => ok ALU_SLL | 0, 2 => ok ALU_SLT
  | 0, 3 => ok ALU_SLTU | 0, 4 => ok ALU_XOR | 0, 5 => ok ALU_SRL | 32, 5 => ok ALU_SRA
  | 0, 6 => ok ALU_OR | 0, 7 => ok ALU_AND
  | _, _ => alu_insn false WB_ALU ALU_ADD false false true true 0 true
  end.

Definition decode_op_imm : ctl :=
  let ok op imm := alu_insn true WB_ALU op false true true false imm false in
  let bad imm := alu_insn false WB_ALU ALU_ADD false true true false imm true in
  match funct3 with
  | 0 => ok ALU_ADD imm_i
  | 2 => ok ALU_SLT imm_i
  | 3 => ok ALU_SLTU imm_i
  | 4 => ok ALU_XOR imm_i
  | 6 => ok ALU_OR imm_i
  | 7 => ok ALU_AND imm_i
  | 1 => if funct7 =? 0 then ok ALU_SLL imm_shamt else bad imm_i
  | 5 => if funct7 =? 0 then ok ALU_SRL imm_shamt
         else if funct7 =? 32 then ok ALU_SRA imm_shamt else bad imm_shamt
  | _ => bad imm_i
  end.

Definition decode_load : ctl :=
  let ok acc := mem_insn true false WB_MEM acc false imm_i false in
  match funct3 with
  | 0 => ok MEM_BYTE | 1 => ok MEM_HALF | 2 => ok MEM_WORD | 4 => ok MEM_BYTE_U | 5 => ok MEM_HALF_U
  | _ => mem_insn false false WB_MEM MEM_WORD false imm_i true
  end.

Definition decode_store : ctl :=
  let ok acc := mem_insn false true WB_ALU acc true imm_s false in
  match funct3 with
  | 0 => ok MEM_BYTE | 1 => ok MEM_HALF | 2 => ok MEM_WORD
  | _ => mem_insn false false WB_ALU MEM_WORD true imm_s true
  end.

Definition decode_branch : ctl :=
  let ok br := jump_insn false WB_ALU br true true true imm_b false in
  match funct3 with
  | 0 => ok BR_BEQ | 1 => ok BR_BNE | 4 => ok BR_BLT | 5 => ok BR_BGE | 6 => ok BR_BLTU | 7 => ok BR_BGEU
  | _ => jump_insn false WB_ALU BR_NONE true true true imm_b true
  end.

Definition decode_fence : ctl :=
  if (funct3 =? 0) || ((funct3 =? 1) && (f_rd =? 0) && (f_rs1 =? 0) && (bits w 31 20 =? 0))
  then system_insn false EXC_ILLEGAL_INSN w else illegal.

Definition decode_system : ctl :=
  match funct3 with
  | 0 =>
      if w =? 0x00000073 then system_insn true EXC_ECALL_MMODE 0
      else if w =? 0x00100073 then system_insn true EXC_BREAKPOINT 0
      else if w =? 0x30200073 then
        Ctl false false WB_ALU CSR_NONE 0x341 false (bits w 19 15) BR_MRET ALU_ADD MEM_WORD
          false false false false f_rs1 f_rs2 f_rd 0 false EXC_ILLEGAL_INSN w true true
      else system_insn true EXC_ILLEGAL_INSN w
  | 1 => csr_insn CSR_RW false true
  | 2 => csr_insn (if f_rs1 =? 0 then CSR_NONE else CSR_RS) false (negb (f_rs1 =? 0))
  | 3 => csr_insn (if f_rs1 =? 0 then CSR_NONE else CSR_RC) false (negb (f_rs1 =? 0))
  | 5 => csr_insn CSR_RW true false
  | 6 => csr_insn (if bits w 19 15 =? 0 then CSR_NONE else CSR_RS) true false
  | 7 => csr_insn (if bits w 19 15 =? 0 then CSR_NONE else CSR_RC) true false
  | _ => illegal
  end.

Definition decode : ctl :=
  match opcode with
  | 0x33 => decode_op
  | 0x13 => decode_op_imm
  | 0x03 => decode_load
  | 0x23 => decode_store
  | 0x63 => decode_branch
  | 0x6f => jump_insn true WB_PC4 BR_JAL true false false imm_j false
  | 0x67 => if funct3 =? 0 then jump_insn true WB_PC4 BR_JALR false true false imm_i false else illegal
  | 0x37 => alu_insn true WB_IMM ALU_ADD false false false false imm_u false
  | 0x17 => alu_insn true WB_ALU ALU_ADD true true false false imm_u false
  | 0x0f => decode_fence
  | 0x73 => decode_system
  | _ => illegal
  end.
End decoder.

(** *** Execution *)

Inductive fu_class := FU_INTEGER | FU_BRANCH | FU_MEMORY | FU_CSR.

Definition fuClass (c : ctl) : fu_class :=
  match wbSelect c with
  | WB_CSR => FU_CSR
  | sel => if dataWriteEnable c || match sel with WB_MEM => true | _ => false end then FU_MEMORY
           else match branchCtr c with BR_NONE => FU_INTEGER | _ => FU_BRANCH end
  end.

Definition ALU (ctr : alu_ctr) (dataA dataB : Z) : Z :=
  let shamt := uwrap 5 dataB in
  match ctr with
  | ALU_ADD => uwrap 32 (dataA + dataB)
  | ALU_SUB => uwrap 32 (dataA - dataB)
  | ALU_AND => Z.land dataA dataB
  | ALU_OR => Z.lor dataA dataB
  | ALU_XOR => Z.lxor dataA dataB
  | ALU_SLL => uwrap 32 (Z.shiftl dataA shamt)
  | ALU_SRL => Z.shiftr dataA shamt
  | ALU_SRA => uwrap 32 (Z.shiftr (s32 dataA) shamt)
  | ALU_SLT => if s32 dataA <? s32 dataB then 1 else 0
  | ALU_SLTU => if dataA <? dataB then 1 else 0
  | ALU_PASS => dataB
  end.

Section execute.
Context (c : ctl) (pc sourceA sourceB csrReadData : Z).

Definition aluResult : Z :=
  ALU (aluCtr c) (if aluSrcASelect c then pc else sourceA)
    (if aluSrcBSelect c then immediate c else sourceB).
Definition selectedResult : Z :=
  match wbSelect c with
  | WB_PC4 => uwrap 32 (pc + 4)
  | WB_IMM => immediate c
  | WB_CSR => csrReadData
  | _ => aluResult
  end.

Definition branchTaken : bool :=
  match branchCtr c with
  | BR_BEQ => sourceA =? sourceB
  | BR_BNE => negb (sourceA =? sourceB)
  | BR_BLT => s32 sourceA <? s32 sourceB
  | BR_BGE => s32 sourceB <=? s32 sourceA
  | BR_BLTU => sourceA <? sourceB
  | BR_BGEU => sourceB <=? sourceA
  | BR_JAL | BR_JALR | BR_MRET => true
  | BR_NONE => false
  end.
Definition branchTarget : Z :=
  match branchCtr c with
  | BR_JALR => Z.land (uwrap 32 (sourceA + immediate c)) (uwrap 32 (Z.lnot 1))
  | BR_MRET => csrReadData
  | _ => uwrap 32 (pc + immediate c)
  end.
Definition branchActualNext : Z := if branchTaken then branchTarget else uwrap 32 (pc + 4).

(** The destination is written when it is not x0: RenameStage.sv gives it a
    physical register other than 0. *)
Definition writesDestination : bool := registerWriteEnable c && negb (rd c =? 0).

(** OoOExecutionUnit.sv *)
Definition execute_integer : effect :=
  if decodeException c then Trap (decodeExceptionCause c) (exceptionValue c)
  else
    let branch := match fuClass c with FU_BRANCH => true | _ => false end in
    if branch && branchTaken && negb (uwrap 2 branchTarget =? 0)
    then Trap EXC_INSN_ADDR_MISALIGNED branchTarget
    else
      Step (if writesDestination then WbValue (rd c) selectedResult else NoWb)
        (if branch then branchActualNext else uwrap 32 (pc + 4)) None
        (match fuClass c with
         | FU_CSR => Some (csrOp c, csrAddr c, if csrUseImm c then csrImm c else sourceA)
         | _ => None
         end) (mret c).

(** LoadStoreExecutionUnit.sv *)
Definition lsu_address : Z := uwrap 32 (sourceA + immediate c).
Definition addressMisaligned : bool :=
  match memCtr c with
  | MEM_HALF | MEM_HALF_U => Z.testbit lsu_address 0
  | MEM_WORD => negb (uwrap 2 lsu_address =? 0)
  | _ => false
  end.
Definition execute_memory : effect :=
  let store := dataWriteEnable c in
  if decodeException c then Trap (decodeExceptionCause c) (exceptionValue c)
  else if addressMisaligned
  then Trap (if store then EXC_STORE_ADDR_MISALIGNED else EXC_LOAD_ADDR_MISALIGNED) lsu_address
  else
    Step (if negb store && writesDestination then WbLoad (rd c) else NoWb) (uwrap 32 (pc + 4))
      (Some (store, lsu_address, memCtr c, if store then sourceB else 0)) None (mret c).

Definition execute : effect :=
  match fuClass c with FU_MEMORY => execute_memory | _ => execute_integer end.
End execute.

(** ** Fields of an encoded word *)

Lemma bits_div w hi lo : 0 <= lo <= hi -> bits w hi lo = w / 2 ^ lo mod 2 ^ (hi - lo + 1).
Proof. intros H. unfold bits. by rewrite uwrap_mod, Z.shiftr_div_pow2 by lia. Qed.

Lemma cat_add n a b : 0 <= n -> in_u n b -> cat n a b = a * 2 ^ n + b.
Proof.
  intros Hn Hb. unfold cat. rewrite <- Z.shiftl_mul_pow2 by done.
  rewrite <- Z.lxor_lor, <- Z.add_nocarry_lxor; [done | |];
    apply Z.bits_inj'; intros i Hi; rewrite Z.land_spec, Z.bits_0;
    (destruct (Z.lt_ge_cases i n); [by rewrite Z.shiftl_spec_low | by rewrite (testbit_in_u n b), andb_false_r]).
Qed.

Lemma sign_extend_value n w :
  0 < n <= 32 -> sign_extend n w = u32 (swrap n w).
Proof.
  intros Hn. rewrite sign_extend_add, Z.testbit_eqb, swrap_mod, uwrap_mod by lia.
  pose proof (pow2_half n ltac:(lia)) as Hp. set (h := 2 ^ (n - 1)) in *.
  assert (0 < h) as Hh by (unfold h; apply Z.pow_pos_nonneg; lia).
  assert (2 ^ n <= 2 ^ 32) as Hle by (apply Z.pow_le_mono_r; lia).
  rewrite Hp in *. rewrite u32_mod. change (2 ^ 32) with 4294967296 in *.
  pose proof (Z.div_mod w (2 * h) ltac:(lia)) as Hw. pose proof (Z.mod_pos_bound w (2 * h) ltac:(lia)) as Hr.
  set (r := w mod (2 * h)) in *. set (q := w / (2 * h)) in *.
  assert (w / h = 2 * q + r / h) as E1.
  { rewrite Hw. replace (2 * h * q + r) with (r + (2 * q) * h) by lia. rewrite Z.div_add by lia. lia. }
  assert ((w + h) mod (2 * h) = (r + h) mod (2 * h)) as E2.
  { rewrite Hw at 1. replace (2 * h * q + r + h) with (r + h + q * (2 * h)) by lia. by rewrite Z.mod_add by lia. }
  rewrite E1, E2. destruct (Z.lt_ge_cases r h) as [Hlt | Hge].
  - rewrite (Z.div_small r h), Z.add_0_r, Z.mul_comm, Z.mod_mul by lia. cbn [Z.eqb].
    rewrite (Z.mod_small (r + h)) by lia. rewrite Z.mod_small by lia. lia.
  - assert (r / h = 1) as -> by (symmetry; apply (Z.div_unique r h 1 (r - h)); lia).
    replace ((2 * q + 1) mod 2) with 1 by (rewrite Z.add_comm, Z.mul_comm, Z.mod_add by lia; done).
    rewrite Z.eqb_refl.
    replace ((r + h) mod (2 * h)) with (r - h)
      by (apply (Z.mod_unique (r + h) (2 * h) 1 (r - h)); lia).
    apply (Z.mod_unique _ _ (-1)); lia.
Qed.

Section pack.
Context (op r f3 s1 s2 f7 : Z).
Context (Hop : 0 <= op < 128) (Hr : reg r) (Hf3 : 0 <= f3 < 8) (Hs1 : reg s1) (Hs2 : reg s2).
Context (Hf7 : 0 <= f7 < 128).
Let w := pack op r f3 s1 s2 f7.

Lemma pack_bits hi lo : 0 <= lo <= hi -> bits w hi lo =
  (op + r * 128 + f3 * 4096 + s1 * 32768 + s2 * 1048576 + f7 * 33554432) / 2 ^ lo mod 2 ^ (hi - lo + 1).
Proof. intros H. rewrite bits_div by done. done. Qed.

Ltac field_lia hi lo :=
  rewrite (pack_bits hi lo) by lia; unfold reg in *;
  let a := eval vm_compute in (2 ^ lo) in let b := eval vm_compute in (2 ^ (hi - lo + 1)) in
  change (2 ^ lo) with a; change (2 ^ (hi - lo + 1)) with b;
  Z.to_euclidean_division_equations; lia.

Lemma pack_opcode : opcode w = op.
Proof. unfold opcode. field_lia 6 0. Qed.
Lemma pack_funct3 : funct3 w = f3.
Proof. unfold funct3. field_lia 14 12. Qed.
Lemma pack_funct7 : funct7 w = f7.
Proof. unfold funct7. field_lia 31 25. Qed.
Lemma pack_rd : f_rd w = r.
Proof. unfold f_rd. field_lia 11 7. Qed.
Lemma pack_rs1 : f_rs1 w = s1.
Proof. unfold f_rs1. field_lia 19 15. Qed.
Lemma pack_rs2 : f_rs2 w = s2.
Proof. unfold f_rs2. field_lia 24 20. Qed.

Lemma pack_31_20 : bits w 31 20 = s2 + 32 * f7.
Proof. field_lia 31 20. Qed.
Lemma pack_31_25 : bits w 31 25 = f7.
Proof. field_lia 31 25. Qed.
Lemma pack_11_7 : bits w 11 7 = r.
Proof. field_lia 11 7. Qed.
Lemma pack_19_15 : bits w 19 15 = s1.
Proof. field_lia 19 15. Qed.
Lemma pack_24_20 : bits w 24 20 = s2.
Proof. field_lia 24 20. Qed.
Lemma pack_31_12 : bits w 31 12 = f3 + 8 * s1 + 256 * s2 + 8192 * f7.
Proof. field_lia 31 12. Qed.
Lemma pack_31_31 : bits w 31 31 = f7 / 64.
Proof. field_lia 31 31. Qed.
Lemma pack_7_7 : bits w 7 7 = r mod 2.
Proof. field_lia 7 7. Qed.
Lemma pack_30_25 : bits w 30 25 = f7 mod 64.
Proof. field_lia 30 25. Qed.
Lemma pack_11_8 : bits w 11 8 = r / 2.
Proof. field_lia 11 8. Qed.
Lemma pack_19_12 : bits w 19 12 = f3 + 8 * s1.
Proof. field_lia 19 12. Qed.
Lemma pack_20_20 : bits w 20 20 = s2 mod 2.
Proof. field_lia 20 20. Qed.
Lemma pack_30_21 : bits w 30 21 = s2 / 2 + 16 * (f7 mod 64).
Proof. field_lia 30 21. Qed.

Lemma in_u_small n x : 0 <= x < 2 ^ n -> in_u n x.
Proof. done. Qed.

Lemma pack_imm_i : imm_i w = u32 (swrap 12 (s2 + 32 * f7)).
Proof. unfold imm_i. by rewrite pack_31_20, sign_extend_value by lia. Qed.

Lemma pack_imm_s : imm_s w = u32 (swrap 12 (r + 32 * f7)).
Proof.
  unfold imm_s. rewrite pack_31_25, pack_11_7, cat_add, sign_extend_value by (try lia; done).
  do 2 f_equal. lia.
Qed.

Lemma pack_imm_b :
  imm_b w = u32 (swrap 13 (f7 / 64 * 4096 + r mod 2 * 2048 + f7 mod 64 * 32 + r / 2 * 2)).
Proof.
  unfold imm_b. rewrite pack_31_31, pack_7_7, pack_30_25, pack_11_8. unfold reg in *.
  rewrite !cat_add by (try lia; unfold in_u; cbn; Z.to_euclidean_division_equations; lia).
  rewrite sign_extend_value by lia. do 2 f_equal. lia.
Qed.

Lemma pack_imm_u : imm_u w = (f3 + 8 * s1 + 256 * s2 + 8192 * f7) * 4096.
Proof. unfold imm_u. rewrite pack_31_12, cat_add by (try lia; unfold in_u; cbn; lia). lia. Qed.

Lemma pack_imm_j :
  imm_j w = u32 (swrap 21 (f7 / 64 * 2 ^ 20 + (f3 + 8 * s1) * 4096 + s2 mod 2 * 2048 +
    (s2 / 2 + 16 * (f7 mod 64)) * 2)).
Proof.
  unfold imm_j. rewrite pack_31_31, pack_19_12, pack_20_20, pack_30_21. unfold reg in *.
  rewrite !cat_add by (try lia; unfold in_u; cbn; Z.to_euclidean_division_equations; lia).
  rewrite sign_extend_value by lia. do 2 f_equal. lia.
Qed.
End pack.

(** ** The immediates of the formats *)

Lemma u32_swrap_id n x i : 0 < n <= 32 -> - 2 ^ (n - 1) <= i < 2 ^ (n - 1) -> x mod 2 ^ n = i mod 2 ^ n ->
  u32 (swrap n x) = u32 i.
Proof.
  intros Hn Hi E. f_equal. rewrite swrap_mod by lia.
  pose proof (pow2_half n ltac:(lia)). rewrite <- Zplus_mod_idemp_l, E, Zplus_mod_idemp_l.
  rewrite Z.mod_small by lia. lia.
Qed.

Ltac mod_lia :=
  change (2 ^ 12) with 4096; change (2 ^ 13) with 8192; change (2 ^ 21) with 2097152;
  change (2 ^ 20) with 1048576 in *; Z.to_euclidean_division_equations; lia.

(** The ranges of spread immediates. *)
Ltac field_range := unfold reg in *; try done; Z.to_euclidean_division_equations; lia.

Lemma imm_i_ok op r f3 s1 imm :
  0 <= op < 128 -> reg r -> 0 <= f3 < 8 -> reg s1 -> imm12 imm ->
  imm_i (pack_i op r f3 s1 imm) = u32 imm.
Proof.
  intros. unfold pack_i, imm12 in *. rewrite pack_imm_i by field_range.
  apply u32_swrap_id; [lia | done | mod_lia].
Qed.

Lemma csr_field op r f3 s1 csr :
  0 <= op < 128 -> reg r -> 0 <= f3 < 8 -> reg s1 -> in_u 12 csr ->
  bits (pack_i op r f3 s1 csr) 31 20 = csr.
Proof.
  intros ? ? ? ? Hc. unfold pack_i, in_u in *. change (2 ^ 12) with 4096 in Hc.
  rewrite pack_31_20 by field_range. mod_lia.
Qed.

Lemma imm_s_ok op f3 s1 s2 imm :
  0 <= op < 128 -> 0 <= f3 < 8 -> reg s1 -> reg s2 -> imm12 imm ->
  imm_s (pack_s op f3 s1 s2 imm) = u32 imm.
Proof.
  intros. unfold pack_s, imm12 in *. rewrite pack_imm_s by field_range.
  apply u32_swrap_id; [lia | done | mod_lia].
Qed.

Lemma imm_b_ok op f3 s1 s2 imm :
  0 <= op < 128 -> 0 <= f3 < 8 -> reg s1 -> reg s2 -> -4096 <= imm < 4096 -> imm mod 2 = 0 ->
  imm_b (pack_b op f3 s1 s2 imm) = u32 imm.
Proof.
  intros. unfold pack_b in *. rewrite pack_imm_b by field_range.
  apply u32_swrap_id; [lia | done | mod_lia].
Qed.

Lemma imm_u_ok op r imm : 0 <= op < 128 -> reg r -> 0 <= imm < 2 ^ 20 -> imm_u (pack_u op r imm) = imm * 2 ^ 12.
Proof.
  intros ? ? Hi. unfold pack_u in *. change (2 ^ 20) with 1048576 in Hi.
  rewrite pack_imm_u by field_range. mod_lia.
Qed.

Lemma imm_j_ok op r off :
  0 <= op < 128 -> reg r -> - 2 ^ 20 <= off < 2 ^ 20 -> off mod 2 = 0 -> imm_j (pack_j op r off) = u32 off.
Proof.
  intros ? ? Ho He. unfold pack_j, pack_u in *. change (2 ^ 20) with 1048576 in *. change (2 ^ 19) with 524288.
  rewrite pack_imm_j by field_range. apply u32_swrap_id; [lia | cbn; lia | mod_lia].
Qed.

(** ** Each class of instructions *)

Definition ctr_of (op : alu_op) : alu_ctr :=
  match op with
  | Add => ALU_ADD | Sub => ALU_SUB | Sll => ALU_SLL | Slt => ALU_SLT | Sltu => ALU_SLTU | Xor => ALU_XOR
  | Srl => ALU_SRL | Sra => ALU_SRA | Or => ALU_OR | And => ALU_AND
  end.
Definition br_of (c : cond) : branch_ctr :=
  match c with
  | Beq => BR_BEQ | Bne => BR_BNE | Blt => BR_BLT | Bge => BR_BGE | Bltu => BR_BLTU | Bgeu => BR_BGEU
  end.

Lemma ALU_sem op a b : ALU (ctr_of op) a b = alu_sem op a b.
Proof.
  assert (0 <= uwrap 5 b) as H5 by (by apply uwrap_range).
  destruct op; cbn [ALU ctr_of alu_sem]; try done.
  - by rewrite uwrap_mod by lia.
  - by rewrite uwrap_mod by lia.
  - rewrite Z.shiftl_mul_pow2 by done. by rewrite !uwrap_mod by lia.
  - rewrite Z.shiftr_div_pow2 by done. by rewrite uwrap_mod by lia.
  - rewrite Z.shiftr_div_pow2 by done. by rewrite !uwrap_mod by lia.
Qed.

(** The decoder's choice, from the fields of the word. *)
Section choice.
Context (w : Z).

Lemma decode_op_choice op :
  opcode w = 0x33 -> funct3 w = alu_funct3 op -> funct7 w = alu_funct7 op ->
  decode w = alu_insn w true WB_ALU (ctr_of op) false false true true 0 false.
Proof. intros E0 E3 E7. unfold decode, decode_op. rewrite E0, E3, E7. by destruct op. Qed.

Lemma decode_op_imm_choice op :
  opcode w = 0x13 -> funct3 w = alu_funct3 op -> (is_shift op = true -> funct7 w = alu_funct7 op) ->
  op <> Sub ->
  decode w = alu_insn w true WB_ALU (ctr_of op) false true true false
    (if is_shift op then imm_shamt w else imm_i w) false.
Proof.
  intros E0 E3 E7 Hs. unfold decode, decode_op_imm. rewrite E0, E3.
  destruct op; try done; cbn [alu_funct3 is_shift] in *; rewrite E7 by done; done.
Qed.

Lemma decode_load_choice acc :
  opcode w = 0x03 -> funct3 w = access_funct3 acc -> load_access acc = true ->
  decode w = mem_insn w true false WB_MEM acc false (imm_i w) false.
Proof. intros E0 E3 Ha. unfold decode, decode_load. rewrite E0, E3. by destruct acc. Qed.

Lemma decode_store_choice acc :
  opcode w = 0x23 -> funct3 w = access_funct3 acc -> store_access acc = true ->
  decode w = mem_insn w false true WB_ALU acc true (imm_s w) false.
Proof. intros E0 E3 Ha. unfold decode, decode_store. rewrite E0, E3. by destruct acc. Qed.

Lemma decode_branch_choice c :
  opcode w = 0x63 -> funct3 w = cond_funct3 c ->
  decode w = jump_insn w false WB_ALU (br_of c) true true true (imm_b w) false.
Proof. intros E0 E3. unfold decode, decode_branch. rewrite E0, E3. by destruct c. Qed.

Lemma decode_csr_choice (i : bool) op :
  opcode w = 0x73 -> funct3 w = (if i then 4 else 0) + csr_funct3 op -> op <> CSR_NONE ->
  decode w = csr_insn w (match op with CSR_RW => CSR_RW | _ => if f_rs1 w =? 0 then CSR_NONE else op end)
    i (negb i && match op with CSR_RW => true | _ => negb (f_rs1 w =? 0) end).
Proof.
  intros E0 E3 Hop. unfold decode, decode_system. rewrite E0, E3. by destruct i, op.
Qed.
End choice.

(** The effects of the controls. *)
Section effects.
Context (w pc a b old : Z).
Abbreviation next := ((pc + 4) mod 2 ^ 32).

Lemma next_pc_mod : uwrap 32 (pc + 4) = next.
Proof. by apply uwrap_mod. Qed.

Lemma write_rd v :
  (if true && negb (f_rd w =? 0) then WbValue (f_rd w) v else NoWb) = to_reg (f_rd w) v.
Proof. unfold to_reg. by destruct (f_rd w =? 0). Qed.

Lemma execute_alu op sa sb u1 u2 imm :
  execute (alu_insn w true WB_ALU op sa sb u1 u2 imm false) pc a b old =
  Step (to_reg (f_rd w) (ALU op (if sa then pc else a) (if sb then imm else b))) next None None false.
Proof. rewrite <- write_rd, <- next_pc_mod. reflexivity. Qed.

Lemma execute_lui op u1 u2 imm :
  execute (alu_insn w true WB_IMM op false false u1 u2 imm false) pc a b old =
  Step (to_reg (f_rd w) imm) next None None false.
Proof. rewrite <- write_rd, <- next_pc_mod. reflexivity. Qed.

Lemma jump_eq wb target lt :
  (if negb (uwrap 2 target =? 0) then Trap EXC_INSN_ADDR_MISALIGNED target
   else Step wb target None None lt) = jump wb target lt.
Proof. unfold jump. rewrite uwrap_mod by lia. change (2 ^ 2) with 4. by destruct (target mod 4 =? 0). Qed.

Lemma execute_jal sa u1 u2 imm :
  execute (jump_insn w true WB_PC4 BR_JAL sa u1 u2 imm false) pc a b old =
  jump (to_reg (f_rd w) next) (uwrap 32 (pc + imm)) false.
Proof. rewrite <- jump_eq, <- next_pc_mod, <- write_rd. reflexivity. Qed.

Lemma clear_bit0 t : in_u 32 t -> Z.land t (uwrap 32 (Z.lnot 1)) = t - t mod 2.
Proof.
  intros Ht. change (uwrap 32 (Z.lnot 1)) with 4294967294.
  replace (t - t mod 2) with (Z.ldiff t 1).
  - apply Z.bits_inj'. intros i Hi. rewrite Z.land_spec, Z.ldiff_spec.
    destruct (Z.lt_ge_cases i 32); [| by rewrite (testbit_in_u 32 t)].
    f_equal. destruct (decide (i = 0)) as [-> | Hne]; [done |].
    change 4294967294 with (Z.ldiff (Z.ones 32) 1). rewrite Z.ldiff_spec, Z.testbit_ones_nonneg by lia.
    by rewrite (proj2 (Z.ltb_lt _ _)).
  - change 1 with (Z.ones 1). rewrite Z.ldiff_ones_r by lia.
    rewrite Z.shiftl_mul_pow2, Z.shiftr_div_pow2 by lia. change (2 ^ 1) with 2.
    pose proof (Z.div_mod t 2 ltac:(lia)). lia.
Qed.

Lemma execute_jalr sa u1 u2 imm :
  execute (jump_insn w true WB_PC4 BR_JALR sa u1 u2 imm false) pc a b old =
  jump (to_reg (f_rd w) next) (uwrap 32 (a + imm) - uwrap 32 (a + imm) mod 2) false.
Proof.
  rewrite <- clear_bit0 by (by apply uwrap_range). rewrite <- jump_eq, <- next_pc_mod, <- write_rd. reflexivity.
Qed.

Lemma execute_branch c u1 u2 imm :
  execute (jump_insn w false WB_ALU (br_of c) true u1 u2 imm false) pc a b old =
  if cond_sem c a b then jump NoWb (uwrap 32 (pc + imm)) false else Step NoWb next None None false.
Proof.
  assert (branchTaken (jump_insn w false WB_ALU (br_of c) true u1 u2 imm false) a b = cond_sem c a b) as E.
  { destruct c; cbn; try done; by rewrite Z.leb_antisym. }
  unfold execute, execute_integer, branchActualNext. rewrite E.
  replace (branchTarget (jump_insn w false WB_ALU (br_of c) true u1 u2 imm false) pc a old)
    with (uwrap 32 (pc + imm)) by (by destruct c).
  rewrite <- jump_eq, <- next_pc_mod. destruct (cond_sem c a b), c; reflexivity.
Qed.

Lemma misaligned_eq (wen st : bool) sel acc u2 imm :
  load_access acc = true ->
  addressMisaligned (mem_insn w wen st sel acc u2 imm false) a =
  negb (aligned acc (uwrap 32 (a + imm))).
Proof.
  intros Ha. unfold addressMisaligned, lsu_address, aligned. cbn [memCtr immediate mem_insn].
  generalize (uwrap 32 (a + imm)). intros x.
  assert (Z.testbit x 0 = negb (x mod 2 =? 0)) as E2
    by (rewrite Z.bit0_odd, Zmod_odd; by destruct (Z.odd x)).
  destruct acc; try done; cbn [size]; try (by rewrite Z.mod_1_r). by rewrite uwrap_mod.
Qed.

Lemma execute_load acc u2 imm :
  load_access acc = true ->
  execute (mem_insn w true false WB_MEM acc u2 imm false) pc a b old =
  let addr := uwrap 32 (a + imm) in
  if aligned acc addr
  then Step (if f_rd w =? 0 then NoWb else WbLoad (f_rd w)) next (Some (false, addr, acc, 0)) None false
  else Trap EXC_LOAD_ADDR_MISALIGNED addr.
Proof.
  intros Ha. unfold execute, execute_memory. cbn [fuClass mem_insn wbSelect dataWriteEnable decodeException orb].
  rewrite misaligned_eq, <- next_pc_mod by done.
  destruct (aligned acc (uwrap 32 (a + imm))); [| done]. cbn. by destruct (f_rd w =? 0).
Qed.

Lemma execute_store acc u2 imm :
  store_access acc = true ->
  execute (mem_insn w false true WB_ALU acc u2 imm false) pc a b old =
  let addr := uwrap 32 (a + imm) in
  if aligned acc addr then Step NoWb next (Some (true, addr, acc, b)) None false
  else Trap EXC_STORE_ADDR_MISALIGNED addr.
Proof.
  intros Ha. unfold execute, execute_memory. cbn [fuClass mem_insn wbSelect dataWriteEnable decodeException orb].
  rewrite misaligned_eq, <- next_pc_mod by (by destruct acc).
  by destruct (aligned acc (uwrap 32 (a + imm))).
Qed.

Lemma execute_csr op (i u1 : bool) :
  execute (csr_insn w op i u1) pc a b old =
  Step (to_reg (f_rd w) old) next None (Some (op, bits w 31 20, if i then bits w 19 15 else a)) false.
Proof.
  rewrite <- next_pc_mod. unfold to_reg, execute, execute_integer, writesDestination, csr_insn.
  destruct (f_rd w =? 0) eqn:E; cbn [fuClass wbSelect decodeException registerWriteEnable rd]; rewrite E;
    reflexivity.
Qed.
End effects.

(** ** Decoding implements the instruction set *)

Lemma u32_add x y : uwrap 32 (x + u32 y) = (x + y) mod 2 ^ 32.
Proof. rewrite uwrap_mod by lia. rewrite u32_mod. apply Zplus_mod_idemp_r. Qed.

Lemma funct3_ranges : (forall op, 0 <= alu_funct3 op < 8) /\ (forall op, 0 <= alu_funct7 op < 128) /\
  (forall c, 0 <= cond_funct3 c < 8) /\ (forall acc, 0 <= access_funct3 acc < 8) /\
  (forall op, 0 <= csr_funct3 op < 4).
Proof. split_and!; intros []; cbn; lia. Qed.

(** The registers an instruction reads, and the CSR. *)
Definition reads1 (i : insn) : option Z :=
  match i with
  | Jalr _ r _ | Branch _ r _ _ | Load _ _ r _ | Store _ r _ _ | OpImm _ _ r _ | Op _ _ r _
  | CsrReg _ _ r _ => Some r
  | _ => None
  end.
Definition reads2 (i : insn) : option Z :=
  match i with Branch _ _ r _ | Store _ _ r _ | Op _ _ _ r => Some r | _ => None end.
Definition reads_csr (i : insn) : option Z :=
  match i with CsrReg _ _ _ n | CsrImm _ _ _ n => Some n | Mret => Some 0x341 | _ => None end.

(** The operands that the decoder asks for are those of the instruction. *)
Definition operands_ok (c : ctl) (i : insn) : Prop :=
  (forall r, reads1 i = Some r -> rs1 c = r /\ (useRs1 c = true \/ r = 0)) /\
  (forall r, reads2 i = Some r -> rs2 c = r /\ useRs2 c = true) /\
  (forall n, reads_csr i = Some n -> csrAddr c = n).

Definition correct (i : insn) : Prop :=
  (forall pc a b old, execute (decode (encode i)) pc a b old = sem i pc a b old) /\
  operands_ok (decode (encode i)) i.

Lemma pack_fields op r f3 s1 s2 f7 :
  0 <= op < 128 -> reg r -> 0 <= f3 < 8 -> reg s1 -> reg s2 -> 0 <= f7 < 128 ->
  let w := pack op r f3 s1 s2 f7 in
  opcode w = op /\ funct3 w = f3 /\ funct7 w = f7 /\ f_rd w = r /\ f_rs1 w = s1 /\ f_rs2 w = s2.
Proof.
  intros. split_and!; [apply pack_opcode | apply pack_funct3 | apply pack_funct7 | apply pack_rd
    | apply pack_rs1 | apply pack_rs2]; done.
Qed.

(** The I format. *)
Lemma pack_i_fields op r f3 s1 imm :
  0 <= op < 128 -> reg r -> 0 <= f3 < 8 -> reg s1 ->
  let w := pack_i op r f3 s1 imm in opcode w = op /\ funct3 w = f3 /\ f_rd w = r /\ f_rs1 w = s1.
Proof.
  intros. destruct (pack_fields op r f3 s1 (imm mod 32) (imm / 32 mod 128)) as (? & ? & ? & ? & ? & ?);
    field_range.
Qed.

Lemma correct_op op r s1 s2 : insn_ok (Op op r s1 s2) -> correct (Op op r s1 s2).
Proof.
  intros (Hr & H1 & H2). destruct funct3_ranges as (R3 & R7 & _). unfold correct. cbn [encode].
  destruct (pack_fields 0x33 r (alu_funct3 op) s1 s2 (alu_funct7 op) ltac:(lia) Hr (R3 op) H1 H2 (R7 op))
    as (E0 & E3 & E7 & Er & E1 & E2).
  generalize dependent (pack 0x33 r (alu_funct3 op) s1 s2 (alu_funct7 op)). intros w E0 E3 E7 Er E1 E2.
  rewrite (decode_op_choice w op E0 E3 E7). split.
  - intros. rewrite execute_alu, Er, ALU_sem. done.
  - split_and!; cbn; intros ? [= <-]; auto.
Qed.

Lemma correct_op_imm op r s1 imm : insn_ok (OpImm op r s1 imm) -> correct (OpImm op r s1 imm).
Proof.
  intros (Hs & Hr & H1 & Hi). destruct funct3_ranges as (R3 & R7 & _). unfold correct. cbn [encode].
  set (w := if is_shift op then _ else _).
  assert (opcode w = 0x13 /\ funct3 w = alu_funct3 op /\ (is_shift op = true -> funct7 w = alu_funct7 op) /\
    f_rd w = r /\ f_rs1 w = s1 /\
    (if is_shift op then imm_shamt w else imm_i w) = u32 imm) as (E0 & E3 & E7 & Er & E1 & Ei).
  { unfold w. destruct (is_shift op) eqn:Esh.
    - destruct (pack_fields 0x13 r (alu_funct3 op) s1 imm (alu_funct7 op) ltac:(lia) Hr (R3 op) H1 Hi (R7 op))
        as (E0 & E3 & E7 & Er & E1 & E2). split_and!; try done.
      unfold imm_shamt. change (bits ?x 24 20) with (f_rs2 x). rewrite E2. symmetry. apply uwrap_id; [lia |].
      unfold in_u. lia.
    - destruct (pack_i_fields 0x13 r (alu_funct3 op) s1 imm ltac:(lia) Hr (R3 op) H1) as (E0 & E3 & Er & E1).
      split_and!; try done. by apply imm_i_ok. }
  clearbody w. rewrite (decode_op_imm_choice w op E0 E3 E7 Hs). split.
  - intros. rewrite execute_alu, Er, ALU_sem, Ei. cbn [sem]. by rewrite u32_mod.
  - split_and!; cbn; intros ? [= <-]; auto.
Qed.

Lemma correct_load acc r s1 imm : insn_ok (Load acc r s1 imm) -> correct (Load acc r s1 imm).
Proof.
  intros (Ha & Hr & H1 & Hi). destruct funct3_ranges as (_ & _ & _ & Ra & _). unfold correct. cbn [encode].
  destruct (pack_i_fields 0x03 r (access_funct3 acc) s1 imm ltac:(lia) Hr (Ra acc) H1) as (E0 & E3 & Er & E1).
  pose proof (imm_i_ok 0x03 r (access_funct3 acc) s1 imm ltac:(lia) Hr (Ra acc) H1 Hi) as Ei.
  generalize dependent (pack_i 0x03 r (access_funct3 acc) s1 imm). intros w E0 E3 Er E1 Ei.
  rewrite (decode_load_choice w acc E0 E3 Ha). split.
  - intros. rewrite execute_load, Er, Ei, u32_add by done. done.
  - split_and!; cbn; intros ? [= <-]; auto.
Qed.

Lemma pack_s_fields op f3 s1 s2 imm :
  0 <= op < 128 -> 0 <= f3 < 8 -> reg s1 -> reg s2 ->
  let w := pack_s op f3 s1 s2 imm in opcode w = op /\ funct3 w = f3 /\ f_rs1 w = s1 /\ f_rs2 w = s2.
Proof.
  intros. destruct (pack_fields op (imm mod 32) f3 s1 s2 (imm / 32 mod 128)) as (? & ? & ? & ? & ? & ?);
    field_range.
Qed.

Lemma correct_store acc s1 s2 imm : insn_ok (Store acc s1 s2 imm) -> correct (Store acc s1 s2 imm).
Proof.
  intros (Ha & H1 & H2 & Hi). destruct funct3_ranges as (_ & _ & _ & Ra & _). unfold correct. cbn [encode].
  destruct (pack_s_fields 0x23 (access_funct3 acc) s1 s2 imm ltac:(lia) (Ra acc) H1 H2) as (E0 & E3 & E1 & E2).
  pose proof (imm_s_ok 0x23 (access_funct3 acc) s1 s2 imm ltac:(lia) (Ra acc) H1 H2 Hi) as Ei.
  generalize dependent (pack_s 0x23 (access_funct3 acc) s1 s2 imm). intros w E0 E3 E1 E2 Ei.
  rewrite (decode_store_choice w acc E0 E3 Ha). split.
  - intros. rewrite execute_store, Ei, u32_add by done. done.
  - split_and!; cbn; intros ? [= <-]; auto.
Qed.

Lemma pack_b_fields op f3 s1 s2 imm :
  0 <= op < 128 -> 0 <= f3 < 8 -> reg s1 -> reg s2 ->
  let w := pack_b op f3 s1 s2 imm in opcode w = op /\ funct3 w = f3 /\ f_rs1 w = s1 /\ f_rs2 w = s2.
Proof.
  intros. destruct (pack_fields op (imm / 2048 mod 2 + 2 * (imm / 2 mod 16)) f3 s1 s2
    (imm / 32 mod 64 + 64 * (imm / 4096 mod 2))) as (? & ? & ? & ? & ? & ?); field_range.
Qed.

Lemma correct_branch c s1 s2 off : insn_ok (Branch c s1 s2 off) -> correct (Branch c s1 s2 off).
Proof.
  intros (H1 & H2 & Hi & He). destruct funct3_ranges as (_ & _ & Rc & _). unfold correct. cbn [encode].
  destruct (pack_b_fields 0x63 (cond_funct3 c) s1 s2 off ltac:(lia) (Rc c) H1 H2) as (E0 & E3 & E1 & E2).
  pose proof (imm_b_ok 0x63 (cond_funct3 c) s1 s2 off ltac:(lia) (Rc c) H1 H2 Hi He) as Ei.
  generalize dependent (pack_b 0x63 (cond_funct3 c) s1 s2 off). intros w E0 E3 E1 E2 Ei.
  rewrite (decode_branch_choice w c E0 E3). split.
  - intros. rewrite execute_branch, Ei, u32_add. done.
  - split_and!; cbn; intros ? [= <-]; auto.
Qed.

Lemma correct_jalr r s1 imm : insn_ok (Jalr r s1 imm) -> correct (Jalr r s1 imm).
Proof.
  intros (Hr & H1 & Hi). unfold correct. cbn [encode].
  destruct (pack_i_fields 0x67 r 0 s1 imm ltac:(lia) Hr ltac:(lia) H1) as (E0 & E3 & Er & E1).
  pose proof (imm_i_ok 0x67 r 0 s1 imm ltac:(lia) Hr ltac:(lia) H1 Hi) as Ei.
  generalize dependent (pack_i 0x67 r 0 s1 imm). intros w E0 E3 Er E1 Ei.
  assert (decode w = jump_insn w true WB_PC4 BR_JALR false true false (imm_i w) false) as ->
    by (unfold decode; by rewrite E0, E3). split.
  - intros. rewrite execute_jalr, Er, Ei, u32_add. done.
  - split_and!; cbn; intros ? [= <-]; auto.
Qed.

Lemma pack_u_fields op r imm :
  0 <= op < 128 -> reg r -> let w := pack_u op r imm in opcode w = op /\ f_rd w = r.
Proof.
  intros. destruct (pack_fields op r (imm mod 8) (imm / 8 mod 32) (imm / 256 mod 32) (imm / 8192 mod 128))
    as (? & ? & ? & ? & ? & ?); field_range.
Qed.

Lemma correct_upper r imm : insn_ok (Lui r imm) -> correct (Lui r imm) /\ correct (Auipc r imm).
Proof.
  intros (Hr & Hi). unfold correct. cbn [encode].
  destruct (pack_u_fields 0x37 r imm ltac:(lia) Hr) as (E0 & Er).
  pose proof (imm_u_ok 0x37 r imm ltac:(lia) Hr Hi) as Ei.
  generalize dependent (pack_u 0x37 r imm). intros w E0 Er Ei.
  destruct (pack_u_fields 0x17 r imm ltac:(lia) Hr) as (F0 & Fr).
  pose proof (imm_u_ok 0x17 r imm ltac:(lia) Hr Hi) as Fi.
  generalize dependent (pack_u 0x17 r imm). intros v F0 Fr Fi.
  assert (decode w = alu_insn w true WB_IMM ALU_ADD false false false false (imm_u w) false) as ->
    by (unfold decode; by rewrite E0).
  assert (decode v = alu_insn v true WB_ALU ALU_ADD true true false false (imm_u v) false) as ->
    by (unfold decode; by rewrite F0).
  split; (split; [| by split_and!; cbn; intros ? [=]]); intros.
  - by rewrite execute_lui, Er, Ei.
  - rewrite execute_alu, Fr, Fi. change ALU_ADD with (ctr_of Add). by rewrite ALU_sem.
Qed.

Lemma correct_jal r off : insn_ok (Jal r off) -> correct (Jal r off).
Proof.
  intros (Hr & Hi & He). unfold correct. cbn [encode].
  pose proof (imm_j_ok 0x6f r off ltac:(lia) Hr Hi He) as Ei. unfold pack_j in *.
  match goal with |- context [pack_u 0x6f r ?x] =>
    destruct (pack_u_fields 0x6f r x ltac:(lia) Hr) as (E0 & Er) end.
  generalize dependent (pack_u 0x6f r (off / 4096 mod 256 + 256 * (off / 2048 mod 2) +
    512 * (off / 2 mod 1024) + 2 ^ 19 * (off / 2 ^ 20 mod 2))). intros w Ei E0 Er.
  assert (decode w = jump_insn w true WB_PC4 BR_JAL true false false (imm_j w) false) as ->
    by (unfold decode; by rewrite E0). split.
  - intros. rewrite execute_jal, Er, Ei, u32_add. done.
  - split_and!; cbn; by intros ? [=].
Qed.

Lemma correct_csr (i : bool) op r s n :
  insn_ok (CsrReg op r s n) -> correct (if i then CsrImm op r s n else CsrReg op r s n).
Proof.
  intros (Hop & Hr & Hs & Hn). destruct funct3_ranges as (_ & _ & _ & _ & Rs). pose proof (Rs op) as Hf.
  set (f3 := (if i then 4 else 0) + csr_funct3 op).
  assert (0 <= f3 < 8) as Hf3 by (unfold f3; destruct i; lia).
  assert (encode (if i then CsrImm op r s n else CsrReg op r s n) = pack_i 0x73 r f3 s n) as E
    by (unfold f3; by destruct i).
  unfold correct. rewrite E.
  destruct (pack_i_fields 0x73 r f3 s n ltac:(lia) Hr Hf3 Hs) as (E0 & E3 & Er & E1).
  pose proof (csr_field 0x73 r f3 s n ltac:(lia) Hr Hf3 Hs Hn) as En.
  generalize dependent (pack_i 0x73 r f3 s n). intros w _ E0 E3 Er E1 En.
  rewrite (decode_csr_choice w i op E0 E3 Hop). change (bits w 19 15) with (f_rs1 w) in *. split.
  - intros. rewrite execute_csr, Er, En. change (bits w 19 15) with (f_rs1 w). rewrite E1. by destruct i.
  - destruct i; split_and!; cbn; intros ? [= <-]; auto. rewrite E1. split; [done |].
    destruct (Z.eqb_spec s 0), op; auto.
Qed.

Lemma correct_fence i :
  insn_ok i -> match i with Fence _ _ _ | FenceI | Ecall | Ebreak | Mret => True | _ => False end -> correct i.
Proof.
  intros Hok Hi. destruct i as [| | | | | | | | | r s imm | | | | | |]; try contradiction Hi;
    unfold correct; cbn [encode].
  - destruct Hok as (Hr & Hs & Himm).
    destruct (pack_i_fields 0x0f r 0 s imm ltac:(lia) Hr ltac:(lia) Hs) as (E0 & E3 & Er & E1).
    generalize dependent (pack_i 0x0f r 0 s imm). intros w E0 E3 _ _.
    assert (decode w = system_insn w false EXC_ILLEGAL_INSN w) as ->
      by (unfold decode, decode_fence; by rewrite E0, E3).
    split; [intros; cbn [sem]; rewrite <- next_pc_mod; reflexivity | by split_and!; cbn; intros ? [=]].
  - split; [intros; cbn [sem]; rewrite <- next_pc_mod; reflexivity | by split_and!; cbn; intros ? [=]].
  - split; [reflexivity | by split_and!; cbn; intros ? [=]].
  - split; [reflexivity | by split_and!; cbn; intros ? [=]].
  - split; [intros; cbn [sem]; rewrite <- jump_eq; reflexivity | split_and!; cbn; by intros ? [=]].
Qed.

Lemma insn_correct i : insn_ok i -> correct i.
Proof.
  intros Hok.
  destruct i.
  - by apply correct_upper.
  - by apply correct_upper.
  - by apply correct_jal.
  - by apply correct_jalr.
  - by apply correct_branch.
  - by apply correct_load.
  - by apply correct_store.
  - by apply correct_op_imm.
  - by apply correct_op.
  - by apply correct_fence.
  - by apply correct_fence.
  - by apply correct_fence.
  - by apply correct_fence.
  - by apply correct_fence.
  - by apply (correct_csr false).
  - by apply (correct_csr true).
Qed.

(** C15: decoder and execution units implement the instruction set.  For every
    instruction of RV32I with the CSR instructions, all operand values and
    program counters, decoding its encoding and executing the controls gives
    exactly the effect of the architecture: the register written and its value,
    the next program counter, the memory access, the CSR operation, or the
    trap with its cause and value; x0 is never written, misaligned accesses and
    jump targets trap.  The source registers and the CSR that the decoder asks
    for are those of the instruction. *)
Theorem decode_implements_isa i pc a b old :
  insn_ok i ->
  execute (decode (encode i)) pc a b old = sem i pc a b old /\ operands_ok (decode (encode i)) i.
Proof. intros Hok. destruct (insn_correct i Hok) as [H1 H2]. split; [apply H1 | apply H2]. Qed.

(** ** Other words trap *)

Lemma unpack w :
  in_u 32 w ->
  w = pack (opcode w) (f_rd w) (funct3 w) (f_rs1 w) (f_rs2 w) (funct7 w) /\
  0 <= opcode w < 128 /\ reg (f_rd w) /\ 0 <= funct3 w < 8 /\ reg (f_rs1 w) /\ reg (f_rs2 w) /\
  0 <= funct7 w < 128.
Proof.
  intros Hw. unfold in_u in Hw. change (2 ^ 32) with 4294967296 in Hw.
  unfold opcode, f_rd, funct3, f_rs1, f_rs2, funct7, pack, reg. rewrite !bits_div by lia.
  change (2 ^ 0) with 1. change (2 ^ 7) with 128. change (2 ^ 12) with 4096. change (2 ^ 15) with 32768.
  change (2 ^ 20) with 1048576. change (2 ^ 25) with 33554432.
  change (2 ^ (6 - 0 + 1)) with 128. change (2 ^ (11 - 7 + 1)) with 32. change (2 ^ (14 - 12 + 1)) with 8.
  change (2 ^ (19 - 15 + 1)) with 32. change (2 ^ (24 - 20 + 1)) with 32. change (2 ^ (31 - 25 + 1)) with 128.
  rewrite Z.div_1_r. split_and!; Z.to_euclidean_division_equations; lia.
Qed.

(** Every field content is that of an immediate. *)
Section formats.
Context (op r f3 s1 s2 f7 : Z).
Context (Hr : reg r) (Hf3 : 0 <= f3 < 8) (Hs1 : reg s1) (Hs2 : reg s2) (Hf7 : 0 <= f7 < 128).

Lemma format_i : exists imm, imm12 imm /\ pack_i op r f3 s1 imm = pack op r f3 s1 s2 f7.
Proof.
  unfold reg in *. exists ((s2 + 32 * f7 + 2048) mod 4096 - 2048). unfold pack_i, imm12.
  split; [| f_equal]; Z.to_euclidean_division_equations; lia.
Qed.

Lemma format_csr : exists csr, in_u 12 csr /\ pack_i op r f3 s1 csr = pack op r f3 s1 s2 f7.
Proof.
  unfold reg in *. exists (s2 + 32 * f7). unfold pack_i, in_u. change (2 ^ 12) with 4096.
  split; [| f_equal]; Z.to_euclidean_division_equations; lia.
Qed.

Lemma format_s : exists imm, imm12 imm /\ pack_s op f3 s1 s2 imm = pack op r f3 s1 s2 f7.
Proof.
  unfold reg in *. exists ((r + 32 * f7 + 2048) mod 4096 - 2048). unfold pack_s, imm12.
  split; [| f_equal]; Z.to_euclidean_division_equations; lia.
Qed.

Lemma format_b : exists off, -4096 <= off < 4096 /\ off mod 2 = 0 /\
  pack_b op f3 s1 s2 off = pack op r f3 s1 s2 f7.
Proof.
  unfold reg in *.
  exists ((f7 / 64 * 4096 + r mod 2 * 2048 + f7 mod 64 * 32 + r / 2 * 2 + 4096) mod 8192 - 4096).
  unfold pack_b. split; [| split; [| f_equal]]; Z.to_euclidean_division_equations; lia.
Qed.

Lemma format_u : exists imm, 0 <= imm < 2 ^ 20 /\ pack_u op r imm = pack op r f3 s1 s2 f7.
Proof.
  unfold reg in *. exists (f3 + 8 * s1 + 256 * s2 + 8192 * f7). unfold pack_u. change (2 ^ 20) with 1048576.
  split; [| f_equal]; Z.to_euclidean_division_equations; lia.
Qed.

Lemma format_j : exists off, - 2 ^ 20 <= off < 2 ^ 20 /\ off mod 2 = 0 /\
  pack_j op r off = pack op r f3 s1 s2 f7.
Proof.
  unfold reg in *.
  exists ((f7 / 64 * 1048576 + (f3 + 8 * s1) * 4096 + s2 mod 2 * 2048 + (s2 / 2 + 16 * (f7 mod 64)) * 2 +
    1048576) mod 2097152 - 1048576).
  unfold pack_j, pack_u. change (2 ^ 20) with 1048576. change (2 ^ 19) with 524288.
  split; [| split; [| f_equal]]; Z.to_euclidean_division_equations; lia.
Qed.
End formats.

(** The word is an instruction, or it traps. *)
Definition is_insn (w : Z) : Prop := exists i, insn_ok i /\ encode i = w.
Definition insn_or_trap (w : Z) (c : ctl) : Prop :=
  is_insn w \/ forall pc a b old, execute c pc a b old = Trap EXC_ILLEGAL_INSN w.

Section words.
Context (w : Z) (Hw : in_u 32 w).

Lemma trap_illegal : insn_or_trap w (illegal w).
Proof. by right. Qed.

(** The encodings with an opcode. *)
Lemma word_op op : opcode w = 0x33 -> funct3 w = alu_funct3 op -> funct7 w = alu_funct7 op -> is_insn w.
Proof.
  intros E0 E3 E7. destruct (unpack w Hw) as (E & _ & Hr & _ & H1 & H2 & _).
  exists (Op op (f_rd w) (f_rs1 w) (f_rs2 w)). split; [done |]. cbn [encode]. by rewrite <- E3, <- E7, <- E0.
Qed.

Lemma word_op_imm op :
  opcode w = 0x13 -> funct3 w = alu_funct3 op -> is_shift op = false -> op <> Sub -> is_insn w.
Proof.
  intros E0 E3 Hs Hsub. destruct (unpack w Hw) as (E & _ & Hr & H3 & H1 & H2 & H7).
  destruct (format_i 0x13 (f_rd w) (funct3 w) (f_rs1 w) (f_rs2 w) (funct7 w)) as (imm & Hi & Ei); try done.
  exists (OpImm op (f_rd w) (f_rs1 w) imm). split; [cbn; by rewrite Hs |].
  cbn [encode]. rewrite Hs, <- E3, Ei, <- E0. done.
Qed.

Lemma word_shift op :
  opcode w = 0x13 -> funct3 w = alu_funct3 op -> is_shift op = true -> funct7 w = alu_funct7 op -> is_insn w.
Proof.
  intros E0 E3 Hs E7. destruct (unpack w Hw) as (E & _ & Hr & H3 & H1 & H2 & H7).
  exists (OpImm op (f_rd w) (f_rs1 w) (f_rs2 w)). split; [cbn; rewrite Hs; by destruct op |].
  cbn [encode]. by rewrite Hs, <- E3, <- E7, <- E0.
Qed.

Lemma word_load acc : opcode w = 0x03 -> funct3 w = access_funct3 acc -> load_access acc = true -> is_insn w.
Proof.
  intros E0 E3 Ha. destruct (unpack w Hw) as (E & _ & Hr & H3 & H1 & H2 & H7).
  destruct (format_i 0x03 (f_rd w) (funct3 w) (f_rs1 w) (f_rs2 w) (funct7 w)) as (imm & Hi & Ei); try done.
  exists (Load acc (f_rd w) (f_rs1 w) imm). split; [done |]. cbn [encode]. by rewrite <- E3, Ei, <- E0.
Qed.

Lemma word_store acc : opcode w = 0x23 -> funct3 w = access_funct3 acc -> store_access acc = true -> is_insn w.
Proof.
  intros E0 E3 Ha. destruct (unpack w Hw) as (E & _ & Hr & H3 & H1 & H2 & H7).
  destruct (format_s 0x23 (f_rd w) (funct3 w) (f_rs1 w) (f_rs2 w) (funct7 w)) as (imm & Hi & Ei); try done.
  exists (Store acc (f_rs1 w) (f_rs2 w) imm). split; [done |]. cbn [encode]. by rewrite <- E3, Ei, <- E0.
Qed.

Lemma word_branch c : opcode w = 0x63 -> funct3 w = cond_funct3 c -> is_insn w.
Proof.
  intros E0 E3. destruct (unpack w Hw) as (E & _ & Hr & H3 & H1 & H2 & H7).
  destruct (format_b 0x63 (f_rd w) (funct3 w) (f_rs1 w) (f_rs2 w) (funct7 w)) as (off & Ho & He & Ei); try done.
  exists (Branch c (f_rs1 w) (f_rs2 w) off). split; [done |]. cbn [encode]. by rewrite <- E3, Ei, <- E0.
Qed.

Lemma word_jal : opcode w = 0x6f -> is_insn w.
Proof.
  intros E0. destruct (unpack w Hw) as (E & _ & Hr & H3 & H1 & H2 & H7).
  destruct (format_j 0x6f (f_rd w) (funct3 w) (f_rs1 w) (f_rs2 w) (funct7 w)) as (off & Ho & He & Ei); try done.
  exists (Jal (f_rd w) off). split; [done |]. cbn [encode]. by rewrite Ei, <- E0.
Qed.

Lemma word_i op i :
  opcode w = op -> funct3 w = 0 ->
  (forall r s imm, reg r -> reg s -> imm12 imm -> insn_ok (i r s imm) /\ encode (i r s imm) = pack_i op r 0 s imm) ->
  is_insn w.
Proof.
  intros E0 E3 Hi. destruct (unpack w Hw) as (E & _ & Hr & H3 & H1 & H2 & H7).
  destruct (format_i op (f_rd w) (funct3 w) (f_rs1 w) (f_rs2 w) (funct7 w)) as (imm & Himm & Ei); try done.
  destruct (Hi (f_rd w) (f_rs1 w) imm Hr H1 Himm) as [Hok Ee].
  exists (i (f_rd w) (f_rs1 w) imm). split; [done |]. by rewrite Ee, <- E3, Ei, <- E0.
Qed.

Lemma word_u op i :
  opcode w = op ->
  (forall r imm, reg r -> 0 <= imm < 2 ^ 20 -> insn_ok (i r imm) /\ encode (i r imm) = pack_u op r imm) ->
  is_insn w.
Proof.
  intros E0 Hi. destruct (unpack w Hw) as (E & _ & Hr & H3 & H1 & H2 & H7).
  destruct (format_u op (f_rd w) (funct3 w) (f_rs1 w) (f_rs2 w) (funct7 w)) as (imm & Himm & Ei); try done.
  destruct (Hi (f_rd w) imm Hr Himm) as [Hok Ee].
  exists (i (f_rd w) imm). split; [done |]. by rewrite Ee, Ei, <- E0.
Qed.

Lemma word_fencei :
  opcode w = 0x0f -> funct3 w = 1 -> f_rd w = 0 -> f_rs1 w = 0 -> bits w 31 20 = 0 -> is_insn w.
Proof.
  intros E0 E3 Er E1 Ei. destruct (unpack w Hw) as (E & Ho & Hr & H3 & H1 & H2 & H7).
  assert (bits w 31 20 = f_rs2 w + 32 * funct7 w) as E2.
  { rewrite E at 1. apply pack_31_20; done. }
  exists FenceI. split; [done |]. cbn [encode]. etransitivity; [| symmetry; exact E].
  rewrite E0, E3, Er, E1. unfold reg in *. f_equal; lia.
Qed.

Lemma word_csr (i : bool) op :
  opcode w = 0x73 -> funct3 w = (if i then 4 else 0) + csr_funct3 op -> op <> CSR_NONE -> is_insn w.
Proof.
  intros E0 E3 Hop. destruct (unpack w Hw) as (E & _ & Hr & H3 & H1 & H2 & H7).
  destruct (format_csr 0x73 (f_rd w) (funct3 w) (f_rs1 w) (f_rs2 w) (funct7 w)) as (n & Hn & Ei); try done.
  exists (if i then CsrImm op (f_rd w) (f_rs1 w) n else CsrReg op (f_rd w) (f_rs1 w) n).
  split; [by destruct i |]. etransitivity; [| symmetry; exact E]. rewrite E0, <- Ei, E3. by destruct i.
Qed.

(** The branches of the decoder. *)
Ltac choices := repeat (case_match; try (right; reflexivity)); left; subst.

Lemma words_op : opcode w = 0x33 -> insn_or_trap w (decode_op w).
Proof.
  intros E0. unfold decode_op. choices;
    first [apply (word_op Add); assumption | apply (word_op Sub); assumption | apply (word_op Sll); assumption
      | apply (word_op Slt); assumption | apply (word_op Sltu); assumption | apply (word_op Xor); assumption
      | apply (word_op Srl); assumption | apply (word_op Sra); assumption | apply (word_op Or); assumption
      | apply (word_op And); assumption].
Qed.

Lemma words_op_imm : opcode w = 0x13 -> insn_or_trap w (decode_op_imm w).
Proof.
  intros E0. unfold decode_op_imm.
  destruct (Z.eqb_spec (funct7 w) 0) as [E7 |]; [| destruct (Z.eqb_spec (funct7 w) 32) as [E7 |]]; choices;
    first [apply (word_op_imm Add); (assumption || done) | apply (word_op_imm Slt); (assumption || done)
      | apply (word_op_imm Sltu); (assumption || done) | apply (word_op_imm Xor); (assumption || done)
      | apply (word_op_imm Or); (assumption || done) | apply (word_op_imm And); (assumption || done)
      | apply (word_shift Sll); (assumption || done) | apply (word_shift Srl); (assumption || done)
      | apply (word_shift Sra); (assumption || done)].
Qed.

Lemma words_load : opcode w = 0x03 -> insn_or_trap w (decode_load w).
Proof.
  intros E0. unfold decode_load. choices;
    first [apply (word_load MEM_BYTE); (assumption || done) | apply (word_load MEM_HALF); (assumption || done)
      | apply (word_load MEM_WORD); (assumption || done) | apply (word_load MEM_BYTE_U); (assumption || done)
      | apply (word_load MEM_HALF_U); (assumption || done)].
Qed.

Lemma words_store : opcode w = 0x23 -> insn_or_trap w (decode_store w).
Proof.
  intros E0. unfold decode_store. choices;
    first [apply (word_store MEM_BYTE); (assumption || done) | apply (word_store MEM_HALF); (assumption || done)
      | apply (word_store MEM_WORD); (assumption || done)].
Qed.

Lemma words_branch : opcode w = 0x63 -> insn_or_trap w (decode_branch w).
Proof.
  intros E0. unfold decode_branch. choices;
    first [apply (word_branch Beq); assumption | apply (word_branch Bne); assumption
      | apply (word_branch Blt); assumption | apply (word_branch Bge); assumption
      | apply (word_branch Bltu); assumption | apply (word_branch Bgeu); assumption].
Qed.

Lemma words_fence : opcode w = 0x0f -> insn_or_trap w (decode_fence w).
Proof.
  intros E0. unfold decode_fence. destruct (Z.eqb_spec (funct3 w) 0) as [E3 |]; cbn [orb].
  - left. by apply (word_i 0x0f Fence).
  - destruct (Z.eqb_spec (funct3 w) 1) as [E3 |]; [cbn [andb] | apply trap_illegal].
    destruct (Z.eqb_spec (f_rd w) 0), (Z.eqb_spec (f_rs1 w) 0), (Z.eqb_spec (bits w 31 20) 0);
      cbn [andb]; try apply trap_illegal. left. by apply word_fencei.
Qed.

Lemma words_system : opcode w = 0x73 -> insn_or_trap w (decode_system w).
Proof.
  intros E0. unfold decode_system.
  destruct (Z.eqb_spec w 0x00000073) as [Ew |]; [left; by exists Ecall |].
  destruct (Z.eqb_spec w 0x00100073) as [Ew |]; [left; by exists Ebreak |].
  destruct (Z.eqb_spec w 0x30200073) as [Ew |]; [left; by exists Mret |].
  choices;
    first [apply (word_csr false CSR_RW); (assumption || done) | apply (word_csr false CSR_RS); (assumption || done)
      | apply (word_csr false CSR_RC); (assumption || done) | apply (word_csr true CSR_RW); (assumption || done)
      | apply (word_csr true CSR_RS); (assumption || done) | apply (word_csr true CSR_RC); (assumption || done)].
Qed.

Lemma words_all : insn_or_trap w (decode w).
Proof.
  unfold decode. destruct (opcode w) eqn:E0; try apply trap_illegal.
  repeat (case_match; subst; try apply trap_illegal);
    first [by apply words_op | by apply words_op_imm | by apply words_load | by apply words_store
      | by apply words_branch | by apply words_fence | by apply words_system
      | left; apply (word_i 0x67 Jalr); [assumption | by apply Z.eqb_eq | done]
      | left; by apply word_jal | left; by apply (word_u 0x37 Lui) | left; by apply (word_u 0x17 Auipc)].
Qed.
End words.

(** C38: no other word is executed.  Every 32-bit word is the encoding of an
    instruction of the set, or it traps as an illegal instruction with the
    word as trap value, whatever the operands. *)
Theorem other_words_trap w :
  in_u 32 w ->
  (exists i, insn_ok i /\ encode i = w) \/
  (forall pc a b old, execute (decode w) pc a b old = Trap EXC_ILLEGAL_INSN w).
Proof. apply words_all. Qed.

(** ** Witnesses *)

(** [sw x10, -4(x2)] *)
Lemma decode_implements_isa_witness :
  execute (decode 0xfea12e23) 0x100 0x2000 7 0 =
    Step NoWb 0x104 (Some (true, 0x1ffc, MEM_WORD, 7)) None false /\
  operands_ok (decode 0xfea12e23) (Store MEM_WORD 2 10 (-4)).
Proof.
  apply (decode_implements_isa (Store MEM_WORD 2 10 (-4)) 0x100 0x2000 7 0).
  unfold insn_ok, reg, imm12. cbn. lia.
Defined.

(** The multiplication [mul x1, x2, x3] is not in the set. *)
Lemma other_words_trap_witness :
  (exists i, insn_ok i /\ encode i = 0x023100b3) \/
  (forall pc a b old, execute (decode 0x023100b3) pc a b old = Trap EXC_ILLEGAL_INSN 0x023100b3).
Proof. apply (other_words_trap 0x023100b3). unfold in_u. cbn. lia. Defined.

Example demo_mul_traps : execute (decode 0x023100b3) 0 1 2 3 = Trap 2 0x023100b3.
Proof. reflexivity. Qed.
