(* ===== verification/Hw.v ===== *)
(** * Register arrays and lane loops of the RTL

    An unpacked array of registers is a list with a default for addresses
    outside it, a packed vector is a [Z].  [rget], [rset] and [ralter] read an
    element, assign it and assign some of its fields.  The last part relates
    the slots of a circular buffer to positions in the queue it holds. *)

From Stdlib Require Import ZArith Lia.
From stdpp Require Import base list numbers.
From S2P Require Import Prelude.

Local Open Scope Z_scope.

Section arrays.
Context {A : Type} (d : A).
Implicit Types (a : list A) (i j : Z).

Definition rget a i : A := default d (a !! Z.to_nat i).
Definition rset a i (v : A) : list A := <[Z.to_nat i := v]> a.
Definition ralter (f : A -> A) a i : list A := alter f (Z.to_nat i) a.

Lemma rget_lookup a i : 0 <= i < Z.of_nat (length a) -> a !! Z.to_nat i = Some (rget a i).
Proof.
  intros Hi. unfold rget. destruct (lookup_lt_is_Some_2 a (Z.to_nat i) ltac:(lia)) as [x Hx].
  by rewrite Hx.
Qed.

Lemma rget_rset a i j v :
  0 <= i < Z.of_nat (length a) -> 0 <= j ->
  rget (rset a i v) j = if j =? i then v else rget a j.
Proof.
  intros Hi Hj. unfold rget, rset. destruct (Z.eqb_spec j i) as [-> | Hne].
  - by rewrite list_lookup_insert_eq by lia.
  - by rewrite list_lookup_insert_ne by lia.
Qed.

Lemma rget_ralter f a i j :
  0 <= i < Z.of_nat (length a) -> 0 <= j ->
  rget (ralter f a i) j = if j =? i then f (rget a j) else rget a j.
Proof.
  intros Hi Hj. unfold ralter. destruct (Z.eqb_spec j i) as [-> | Hne].
  - unfold rget at 1. by rewrite list_lookup_alter_eq, (rget_lookup a i).
  - unfold rget. by rewrite list_lookup_alter_ne by lia.
Qed.

Lemma length_rset a i v : length (rset a i v) = length a.
Proof. apply length_insert. Qed.
Lemma length_ralter f a i : length (ralter f a i) = length a.
Proof. apply length_alter. Qed.
End arrays.

(** Arrays that agree at every address are equal. *)
Lemma rget_ext {A} (d : A) a b :
  length a = length b -> (forall i, 0 <= i < Z.of_nat (length a) -> rget d a i = rget d b i) -> a = b.
Proof.
  intros Hl H. apply list_eq. intros n. destruct (decide (n < length a)%nat) as [Hn | Hn].
  - specialize (H (Z.of_nat n) ltac:(lia)). pose proof (rget_lookup d a (Z.of_nat n) ltac:(lia)) as E1.
    pose proof (rget_lookup d b (Z.of_nat n) ltac:(lia)) as E2. rewrite Nat2Z.id in E1, E2. congruence.
  - rewrite !lookup_ge_None_2 by lia. done.
Qed.

(** ** Bits of a packed vector *)

(** [m[i] = b] in a vector of [n] bits; an address outside it is ignored. *)
Definition set_bit (n m i : Z) (b : bool) : Z :=
  if (0 <=? i) && (i <? n) then (if b then Z.setbit m i else Z.clearbit m i) else m.

Lemma testbit_set_bit n m i b j :
  0 <= i < n -> 0 <= j -> Z.testbit (set_bit n m i b) j = if j =? i then b else Z.testbit m j.
Proof.
  intros Hi Hj. unfold set_bit. rewrite (proj2 (Z.leb_le _ _)), (proj2 (Z.ltb_lt _ _)) by lia. cbn [andb].
  destruct b; [rewrite Z.setbit_eqb by lia | rewrite Z.clearbit_eqb]; rewrite (Z.eqb_sym i j);
    destruct (j =? i); cbn; try done; by rewrite ?andb_true_r, ?andb_false_r.
Qed.

Lemma testbit_set_bit_any n m i b j :
  0 <= j < n -> Z.testbit (set_bit n m i b) j = if j =? i then b else Z.testbit m j.
Proof.
  intros Hj. destruct (Z.leb_spec 0 i), (Z.ltb_spec i n); [by apply testbit_set_bit; lia | ..];
    (unfold set_bit; destruct (Z.leb_spec 0 i), (Z.ltb_spec i n); try lia; cbn [andb];
     by rewrite (proj2 (Z.eqb_neq j i)) by lia).
Qed.

(** ** Positions in a circular buffer *)

Section slots.
Context (n : Z) (Hn : 0 < n).

(** The distance from [h] to the slot [s], and the slot at a distance. *)
Definition distance (h s : Z) : Z := (s - h) mod n.
Definition slot (h k : Z) : Z := (h + k) mod n.

Lemma distance_range h s : 0 <= distance h s < n.
Proof. by apply Z.mod_pos_bound. Qed.
Lemma slot_range h k : 0 <= slot h k < n.
Proof. by apply Z.mod_pos_bound. Qed.

Lemma slot_distance h s : 0 <= s < n -> slot h (distance h s) = s.
Proof.
  intros Hs. unfold slot, distance. rewrite Zplus_mod_idemp_r.
  replace (h + (s - h)) with s by lia. by apply Z.mod_small.
Qed.

Lemma distance_slot h k : 0 <= k < n -> distance h (slot h k) = k.
Proof.
  intros Hk. unfold slot, distance. rewrite Zminus_mod_idemp_l.
  replace (h + k - h) with k by lia. by apply Z.mod_small.
Qed.

Lemma slot_slot h k l : slot (slot h k) l = slot h (k + l).
Proof. unfold slot. rewrite Zplus_mod_idemp_l. f_equal. lia. Qed.

Lemma distance_move h k s : 0 <= k <= distance h s -> distance (slot h k) s = distance h s - k.
Proof.
  intros Hk. pose proof (distance_range h s) as Hr. unfold distance, slot in *. rewrite Zminus_mod_idemp_r.
  replace (s - (h + k)) with ((s - h) - k) by lia. rewrite <- Zminus_mod_idemp_l.
  apply Z.mod_small. lia.
Qed.

Lemma distance_back h k s : distance h s < k <= n -> distance (slot h k) s = distance h s - k + n.
Proof.
  intros Hk. pose proof (distance_range h s) as Hr. unfold distance, slot in *. rewrite Zminus_mod_idemp_r.
  replace (s - (h + k)) with ((s - h) - k) by lia. rewrite <- Zminus_mod_idemp_l.
  symmetry. apply (Z.mod_unique _ _ (-1)); lia.
Qed.

Lemma distance_0 h s : 0 <= h < n -> 0 <= s < n -> distance h s = 0 -> s = h.
Proof.
  intros Hh Hs E. rewrite <- (slot_distance h s Hs), E. unfold slot. rewrite Z.add_0_r. by apply Z.mod_small.
Qed.

Lemma slot_0 h : 0 <= h < n -> slot h 0 = h.
Proof. intros Hh. unfold slot. rewrite Z.add_0_r. by apply Z.mod_small. Qed.

Lemma slot_inj h k l : 0 <= k < n -> 0 <= l < n -> slot h k = slot h l -> k = l.
Proof. intros Hk Hl E. by rewrite <- (distance_slot h k), <- (distance_slot h l), E. Qed.

Lemma slot_eqb h k l : 0 <= k < n -> 0 <= l < n -> (slot h k =? slot h l) = (k =? l).
Proof.
  intros Hk Hl. destruct (Z.eqb_spec k l) as [-> |]; [apply Z.eqb_refl |].
  apply Z.eqb_neq. intros E%slot_inj; done.
Qed.
End slots.
