(* ===== verification/Rob.v ===== *)
(** * The reorder buffer: ReorderBuffer.sv

    The instructions in flight, in program order, in a circular buffer whose
    slot numbers are the tags of the instructions.  The module is compared with
    a queue: entries are appended when they are allocated, completed in any
    order by their tag, removed from the front when they retire, and cut off
    behind a mispredicted branch. *)

From Stdlib Require Import ZArith Lia.
From stdpp Require Import base list numbers.
From S2P Require Import Prelude Hw MemWord Csr Isa Decode.

Local Open Scope Z_scope.

Section rob.
(** [tage_meta_t] with its zero, and the depth. *)
Context {Meta : Type} (meta0 : Meta) (DEPTH : Z).

(** ** The module *)

(** [rob_entry_t] *)
Record rob_entry := RobEntry {
  re_valid : bool; re_complete : bool; re_pc : Z; re_writesRd : bool; re_archRd : Z;
  re_newPhys : Z; re_oldPhys : Z; re_isMemory : bool; re_lsqTag : Z; re_isStore : bool;
  re_isBranch : bool; re_branchCtr : branch_ctr; re_isCall : bool; re_isReturn : bool;
  re_predictedTaken : bool; re_predictedTarget : Z; re_predictedBtbHit : bool;
  re_predictedRasUsed : bool; re_predictorIndex : Z; re_tageMeta : Meta;
  re_branchTaken : bool; re_branchTarget : Z; re_branchMispredicted : bool; re_isCsr : bool;
  re_exception : bool; re_exceptionCause : Z; re_exceptionValue : Z; re_mret : bool
}.

(** ['0] *)
Definition rob_entry0 : rob_entry :=
  RobEntry false false 0 false 0 0 0 false 0 false false BR_NONE false false false 0 false false 0 meta0
    false 0 false false false 0 0 false.

(** The assignments to fields: at allocation; of the completion; of
    [complete] alone; of the outcome of a branch. *)
Definition e_allocated (e : rob_entry) : rob_entry :=
  let 'RobEntry _ _ pc w r n o m q s b bc ca rt pt pg ph pu pi tm bt bg bm cs ex ec ev mr := e in
  RobEntry true false pc w r n o m q s b bc ca rt pt pg ph pu pi tm bt bg bm cs ex ec ev mr.
Definition e_completed (exception : bool) (cause value : Z) (e : rob_entry) : rob_entry :=
  let 'RobEntry v _ pc w r n o m q s b bc ca rt pt pg ph pu pi tm bt bg bm cs _ _ _ mr := e in
  RobEntry v true pc w r n o m q s b bc ca rt pt pg ph pu pi tm bt bg bm cs exception cause value mr.
Definition e_marked (e : rob_entry) : rob_entry :=
  let 'RobEntry v _ pc w r n o m q s b bc ca rt pt pg ph pu pi tm bt bg bm cs ex ec ev mr := e in
  RobEntry v true pc w r n o m q s b bc ca rt pt pg ph pu pi tm bt bg bm cs ex ec ev mr.
Definition e_resolved (taken : bool) (target : Z) (mispredicted : bool) (e : rob_entry) : rob_entry :=
  let 'RobEntry v c pc w r n o m q s b bc ca rt pt pg ph pu pi tm _ _ _ cs ex ec ev mr := e in
  RobEntry v c pc w r n o m q s b bc ca rt pt pg ph pu pi tm taken target mispredicted cs ex ec ev mr.

(** The registers. *)
Record rob := ROB { entries : list rob_entry; headPtr : Z; tailPtr : Z; entryCount : Z }.

(** The inputs of a cycle, one list element per lane. *)
Record completion := Completion {
  c_valid : bool; c_tag : Z; c_exception : bool; c_cause : Z; c_value : Z }.
Record rob_in := RobIn {
  flush_i : bool; recoverValid_i : bool; recoverTag_i : Z;
  allocValid_i : list bool; allocEntry_i : list rob_entry;
  complete_i : list completion;
  branchResolveValid_i : bool; branchResolveTag_i : Z;
  branchTaken_i : bool; branchTarget_i : Z; branchMispredicted_i : bool;
  commitReady_i : list bool
}.

Definition entry (r : rob) (i : Z) : rob_entry := rget rob_entry0 (entries r) i.

(** [$clog2(DEPTH)] *)
Definition PTR_W : Z := Z.log2_up DEPTH.

(** [while (sum >= DEPTH) sum = sum - DEPTH]; the fuel is the sum. *)
Fixpoint subtract_depth (n : nat) (sum : Z) : Z :=
  match n with
  | O => sum
  | S n => if DEPTH <=? sum then subtract_depth n (sum - DEPTH) else sum
  end.
Definition addPtr (base increment : Z) : Z :=
  let sum := base + increment in uwrap PTR_W (subtract_depth (Z.to_nat sum) sum).

(** Allocation: [allocReady_o] and [allocTag_o], lane by lane. *)
Fixpoint alloc_lanes (r : rob) (allocOffset : Z) (allocValid : list bool) : list (bool * Z) :=
  match allocValid with
  | [] => []
  | v :: vs =>
      let ready := allocOffset <? DEPTH - entryCount r in
      (ready, addPtr (tailPtr r) allocOffset) ::
        alloc_lanes r (if v && ready then allocOffset + 1 else allocOffset) vs
  end.
Definition alloc_o (r : rob) (i : rob_in) : list (bool * Z) := alloc_lanes r 0 (allocValid_i i).

(** The lanes that are taken, with their tags. *)
Definition accepted (r : rob) (i : rob_in) : list (Z * rob_entry) :=
  omap (fun '(v, e, (ready, tag)) => if v && ready : bool then Some (tag, e) else None)
    (zip (zip (allocValid_i i) (allocEntry_i i)) (alloc_o r i)).

(** Retirement: [commitValid_o], [commitTag_o], [commitEntry_o] of [n] lanes. *)
Fixpoint commit_lanes (r : rob) (n : nat) (combLane : Z) (contiguousComplete : bool)
    : list (bool * Z * rob_entry) :=
  match n with
  | O => []
  | S n =>
      let commitPtr := addPtr (headPtr r) combLane in
      let e := entry r commitPtr in
      if contiguousComplete && (combLane <? entryCount r) && re_valid e && re_complete e
      then (true, commitPtr, e) :: commit_lanes r n (combLane + 1) true
      else (false, commitPtr, rob_entry0) :: commit_lanes r n (combLane + 1) false
  end.
Definition COMMIT_WIDTH : nat := 2.
Definition commit_o (r : rob) : list (bool * Z * rob_entry) := commit_lanes r COMMIT_WIDTH 0 true.

(** [commitAccepted]: retirement is contiguous. *)
Fixpoint prefix_length (bs : list bool) : Z :=
  match bs with true :: bs => 1 + prefix_length bs | _ => 0 end.
Definition commitAccepted (r : rob) (i : rob_in) : Z :=
  prefix_length (zip_with (fun '(v, _, _) rdy => v && rdy) (commit_o r) (commitReady_i i)).

(** Recovery: the mask of younger entries, the number of entries to keep and
    whether the tag was found, slot by slot from the head. *)
Definition recover_slot (r : rob) (tag : Z) (st : Z * Z * bool) (recoverOffset : Z) : Z * Z * bool :=
  let '(mask, keep, found) := st in
  let recoverIndex := addPtr (headPtr r) recoverOffset in
  if recoverOffset <? entryCount r then
    (if found : bool then set_bit DEPTH mask recoverIndex true else mask,
     if found then keep else keep + 1,
     found || (recoverIndex =? tag))
  else st.
Definition recover_scan (r : rob) (tag : Z) : Z * Z * bool :=
  fold_left (recover_slot r tag) (seqZ 0 DEPTH) (0, 0, false).
Definition recoverYoungerMask_o (r : rob) (i : rob_in) : Z :=
  let '(mask, _, found) := recover_scan r (recoverTag_i i) in
  if recoverValid_i i && found then mask else 0.
Definition recoverKeepCount (r : rob) (i : rob_in) : Z :=
  let '(_, keep, found) := recover_scan r (recoverTag_i i) in
  if recoverValid_i i && found then keep else entryCount r.

(** The parts of the clocked process; conditions read the old registers. *)
Definition clear_younger (mask : Z) (es : list rob_entry) : list rob_entry :=
  fold_left (fun es k => if Z.testbit mask k then rset es k rob_entry0 else es) (seqZ 0 DEPTH) es.
Definition write_completion (r : rob) (mask : Z) (es : list rob_entry) (c : completion) : list rob_entry :=
  if c_valid c && re_valid (entry r (c_tag c)) && negb (Z.testbit mask (c_tag c))
  then ralter (e_completed (c_exception c) (c_cause c) (c_value c)) es (c_tag c) else es.
Definition clear_committed (r : rob) (n : Z) (es : list rob_entry) : list rob_entry :=
  fold_left (fun es k => rset es (addPtr (headPtr r) k) rob_entry0) (seqZ 0 n) es.
Definition write_allocated (es : list rob_entry) (te : Z * rob_entry) : list rob_entry :=
  rset es te.1 (e_allocated te.2).
Definition write_resolved (r : rob) (i : rob_in) (es : list rob_entry) : list rob_entry :=
  if branchResolveValid_i i && re_valid (entry r (branchResolveTag_i i))
  then ralter (e_resolved (branchTaken_i i) (branchTarget_i i) (branchMispredicted_i i)) es
         (branchResolveTag_i i)
  else es.

Definition rob_reset (r : rob) : rob := ROB (replicate (Z.to_nat DEPTH) rob_entry0) 0 0 0.

Definition rob_recover (r : rob) (i : rob_in) : rob :=
  let mask := recoverYoungerMask_o r i in
  let es := fold_left (write_completion r mask) (complete_i i) (clear_younger mask (entries r)) in
  ROB (ralter (fun e => e_resolved (branchTaken_i i) (branchTarget_i i) (branchMispredicted_i i) (e_marked e))
         es (recoverTag_i i))
      (headPtr r) (addPtr (headPtr r) (recoverKeepCount r i)) (recoverKeepCount r i).

Definition rob_advance (r : rob) (i : rob_in) : rob :=
  let n := commitAccepted r i in
  let es := fold_left write_allocated (accepted r i) (clear_committed r n (entries r)) in
  let es := fold_left (write_completion r 0) (complete_i i) es in
  ROB (write_resolved r i es) (addPtr (headPtr r) n)
    (addPtr (tailPtr r) (Z.of_nat (length (accepted r i))))
    (entryCount r + Z.of_nat (length (accepted r i)) - n).

Definition rob_step (r : rob) (i : rob_in) : rob :=
  if flush_i i then rob_reset r else if recoverValid_i i then rob_recover r i else rob_advance r i.

(** ** The queue it implements *)

(** What the ports of a cycle do to the entry with tag [t]. *)
Definition complete_at (t : Z) (cs : list completion) (e : rob_entry) : rob_entry :=
  fold_left (fun e c => if c_valid c && (c_tag c =? t)
                        then e_completed (c_exception c) (c_cause c) (c_value c) e else e) cs e.
Definition resolve_at (i : rob_in) (t : Z) (e : rob_entry) : rob_entry :=
  if branchResolveValid_i i && (branchResolveTag_i i =? t)
  then e_resolved (branchTaken_i i) (branchTarget_i i) (branchMispredicted_i i) e else e.

(** The number of entries to keep on a recovery: up to the tag, or all of them
    when the tag is not in flight. *)
Definition keep_count (h tag : Z) (n : nat) : nat :=
  if distance DEPTH h tag <? Z.of_nat n then S (Z.to_nat (distance DEPTH h tag)) else n.

(** One cycle of the queue [l] whose oldest entry has tag [h]; [k] entries
    retire and [new] are appended. *)
Definition queue_step (h : Z) (i : rob_in) (k : nat) (new : list rob_entry) (l : list rob_entry)
    : list rob_entry :=
  let tag n := slot DEPTH h (Z.of_nat n) in
  if flush_i i then []
  else if recoverValid_i i then
    imap (fun n e =>
            let e := complete_at (tag n) (complete_i i) e in
            if recoverTag_i i =? tag n
            then e_resolved (branchTaken_i i) (branchTarget_i i) (branchMispredicted_i i) (e_marked e)
            else e)
      (take (keep_count h (recoverTag_i i) (length l)) l)
  else
    drop k (imap (fun n e => resolve_at i (tag n) (complete_at (tag n) (complete_i i) e)) l)
      ++ map e_allocated new.

(** The buffer holds the queue [l]: the live slots hold its entries, all valid,
    and no other slot is valid. *)
Definition live (r : rob) (l : list rob_entry) : Prop :=
  Z.of_nat (length (entries r)) = DEPTH /\ 0 <= headPtr r < DEPTH /\
  entryCount r = Z.of_nat (length l) /\ entryCount r <= DEPTH /\
  tailPtr r = slot DEPTH (headPtr r) (entryCount r) /\
  forall s, 0 <= s < DEPTH ->
    match l !! Z.to_nat (distance DEPTH (headPtr r) s) with
    | Some e => entry r s = e /\ re_valid e = true
    | None => re_valid (entry r s) = false
    end.

(** ** Lemmas *)

Context (Hdepth : 0 < DEPTH).
Hint Resolve slot_range distance_range : core.

Lemma subtract_depth_mod n s : 0 <= s -> (Z.to_nat s <= n)%nat -> subtract_depth n s = s mod DEPTH.
Proof.
  revert s. induction n as [| n IH]; intros s Hs Hn; cbn [subtract_depth].
  - replace s with 0 by lia. by rewrite Z.mod_0_l by lia.
  - destruct (Z.leb_spec DEPTH s); [| by rewrite Z.mod_small].
    rewrite IH by lia. replace s with (s - DEPTH + 1 * DEPTH) at 2 by lia. by rewrite Z.mod_add by lia.
Qed.

Lemma addPtr_slot b k : 0 <= b -> 0 <= k -> addPtr b k = slot DEPTH b k.
Proof.
  intros Hb Hk. unfold addPtr, slot. cbn zeta. rewrite subtract_depth_mod by lia.
  assert (0 <= PTR_W) by apply Z.log2_up_nonneg. apply uwrap_id; [done |].
  pose proof (Z.mod_pos_bound (b + k) DEPTH Hdepth). unfold in_u, PTR_W in *.
  pose proof (Z.log2_log2_up_spec DEPTH Hdepth). lia.
Qed.

(** *** One slot after each part of the process *)

Lemma clear_committed_length r n es : length (clear_committed r n es) = length es.
Proof.
  unfold clear_committed. revert es. induction (seqZ 0 n) as [| k ks IH]; intros es; [done |].
  cbn [fold_left]. by rewrite IH, length_rset.
Qed.

Lemma clear_committed_slot r n es s :
  Z.of_nat (length es) = DEPTH -> 0 <= headPtr r < DEPTH -> 0 <= n <= DEPTH -> 0 <= s < DEPTH ->
  rget rob_entry0 (clear_committed r n es) s =
  if distance DEPTH (headPtr r) s <? n then rob_entry0 else rget rob_entry0 es s.
Proof.
  intros Hes Hh Hn Hs. assert (exists m, n = Z.of_nat m) as [m ->] by (exists (Z.to_nat n); lia).
  induction m as [| m IH].
  - cbn. pose proof (distance_range DEPTH Hdepth (headPtr r) s). by rewrite (proj2 (Z.ltb_ge _ _)) by lia.
  - unfold clear_committed. rewrite seqZ_S, fold_left_app.
    fold (clear_committed r (Z.of_nat m) es). cbn [fold_left]. rewrite Z.add_0_l.
    pose proof (slot_range DEPTH Hdepth (headPtr r) (Z.of_nat m)).
    rewrite addPtr_slot, rget_rset, IH by (rewrite ?clear_committed_length; lia).
    rewrite <- (slot_distance DEPTH (headPtr r) s) at 1 by done.
    rewrite slot_eqb by (try apply distance_range; lia).
    set (d := distance DEPTH (headPtr r) s).
    destruct (Z.eqb_spec d (Z.of_nat m)), (Z.ltb_spec d (Z.of_nat m)), (Z.ltb_spec d (Z.of_nat (S m)));
      (lia || done).
Qed.

Lemma write_allocated_slot new t es s :
  (forall j x, new !! j = Some x -> x.1 = slot DEPTH t (Z.of_nat j)) ->
  Z.of_nat (length new) <= DEPTH -> Z.of_nat (length es) = DEPTH -> 0 <= t < DEPTH -> 0 <= s < DEPTH ->
  rget rob_entry0 (fold_left write_allocated new es) s =
  match new !! Z.to_nat (distance DEPTH t s) with
  | Some x => e_allocated x.2
  | None => rget rob_entry0 es s
  end.
Proof.
  revert t es. induction new as [| x new IH]; intros t es Htag Hlen Hes Ht Hs; [done |].
  cbn [fold_left length] in *. pose proof (distance_range DEPTH Hdepth t s) as Hd.
  rewrite (IH (slot DEPTH t 1)).
  - unfold write_allocated. rewrite (Htag 0%nat x eq_refl), slot_0, rget_rset by lia.
    destruct (Z.eq_dec (distance DEPTH t s) 0) as [E | E].
    + assert (s = t) as -> by (by apply (distance_0 DEPTH)). rewrite Z.eqb_refl, distance_back by lia.
      rewrite E. cbn [lookup]. rewrite (lookup_ge_None_2 new) by lia. done.
    + rewrite distance_move by lia. rewrite (proj2 (Z.eqb_neq s t)).
      * replace (Z.to_nat (distance DEPTH t s)) with (S (Z.to_nat (distance DEPTH t s - 1))) by lia. done.
      * intros ->. unfold distance in E. rewrite Z.sub_diag, Z.mod_0_l in E; lia.
  - intros j y Hj. rewrite (Htag (S j) y Hj), slot_slot. f_equal. lia.
  - lia.
  - unfold write_allocated. by rewrite length_rset.
  - by apply slot_range.
  - done.
Qed.

Lemma complete_at_valid t cs e : re_valid (complete_at t cs e) = re_valid e.
Proof.
  unfold complete_at. revert e. induction cs as [| c cs IH]; intros e; [done |]. cbn [fold_left].
  rewrite IH. destruct (c_valid c && (c_tag c =? t)); [by destruct e | done].
Qed.

Lemma write_completion_length r mask es c : length (write_completion r mask es c) = length es.
Proof. unfold write_completion. destruct (_ && _ && _); [apply length_ralter | done]. Qed.

Lemma write_completions_slot r mask cs es s :
  Forall (fun c => 0 <= c_tag c < DEPTH) cs -> Z.of_nat (length es) = DEPTH -> 0 <= s < DEPTH ->
  rget rob_entry0 (fold_left (write_completion r mask) cs es) s =
  if re_valid (entry r s) && negb (Z.testbit mask s) then complete_at s cs (rget rob_entry0 es s)
  else rget rob_entry0 es s.
Proof.
  intros Hcs. revert es. induction Hcs as [| c cs Hc Hcs IH]; intros es Hes Hs.
  - cbn. by destruct (_ && _).
  - cbn [fold_left]. rewrite IH by (rewrite ?write_completion_length; done).
    unfold complete_at at 2. cbn [fold_left]. fold (complete_at s cs).
    unfold write_completion. destruct (Z.eqb_spec (c_tag c) s) as [<- | Hne].
    + destruct (re_valid _), (Z.testbit _ _); cbn; rewrite ?andb_true_r, ?andb_false_r; try done.
      destruct (c_valid c); [| done]. by rewrite rget_ralter, Z.eqb_refl by lia.
    + rewrite andb_false_r.
      destruct (_ && _ && _); [by rewrite rget_ralter, (proj2 (Z.eqb_neq s (c_tag c))) by lia | done].
Qed.

Lemma write_completions_length r mask cs es :
  length (fold_left (write_completion r mask) cs es) = length es.
Proof.
  revert es. induction cs as [| c cs IH]; intros es; [done |]. cbn [fold_left]. rewrite IH.
  apply write_completion_length.
Qed.

Lemma write_allocated_length new es : length (fold_left write_allocated new es) = length es.
Proof.
  revert es. induction new as [| x new IH]; intros es; [done |]. cbn [fold_left]. rewrite IH.
  apply length_rset.
Qed.

(** *** Allocation *)

Lemma alloc_lanes_length r o vs : length (alloc_lanes r o vs) = length vs.
Proof. revert o. induction vs as [| v vs IH]; intros o; cbn; [done |]. by rewrite IH. Qed.

(** The lanes taken get consecutive slots behind the tail, while there is room. *)
Lemma alloc_lanes_tags r vs es o :
  0 <= o -> 0 <= tailPtr r -> o <= DEPTH - entryCount r ->
  let new := omap (fun '(v, e, (ready, tag)) => if v && ready : bool then Some (tag, e) else None)
               (zip (zip vs es) (alloc_lanes r o vs)) in
  (forall j (x : Z * rob_entry), new !! j = Some x -> x.1 = slot DEPTH (tailPtr r) (o + Z.of_nat j)) /\
  o + Z.of_nat (length new) <= DEPTH - entryCount r.
Proof.
  revert es o. induction vs as [| v vs IH]; intros es o Ho Ht Hr; [split; [done | cbn; lia] |].
  destruct es as [| e es]; [split; [done | cbn; lia] |].
  cbn [alloc_lanes zip zip_with omap list_omap]. destruct (Z.ltb_spec o (DEPTH - entryCount r)).
  - rewrite andb_true_r. destruct v.
    + destruct (IH es (o + 1) ltac:(lia) Ht ltac:(lia)) as [IH1 IH2]. split.
      * intros [| j] x Hx; cbn in Hx.
        -- injection Hx as <-. cbn. rewrite addPtr_slot by done. f_equal. lia.
        -- rewrite (IH1 j x Hx). f_equal. lia.
      * cbn [length]. rewrite Nat2Z.inj_succ. unfold omap in *. lia.
    + apply (IH es o); lia.
  - rewrite andb_false_r. apply (IH es o); lia.
Qed.

(** *** Retirement *)

Lemma live_entry r l n e : live r l -> l !! n = Some e -> entry r (slot DEPTH (headPtr r) (Z.of_nat n)) = e.
Proof.
  intros (_ & Hh & Hc & Hle & _ & H) Hn. pose proof (lookup_lt_Some _ _ _ Hn).
  specialize (H _ (slot_range DEPTH Hdepth (headPtr r) (Z.of_nat n))).
  rewrite distance_slot, Nat2Z.id, Hn in H by lia. by destruct H.
Qed.

Lemma live_valid r l n e : live r l -> l !! n = Some e -> re_valid e = true.
Proof.
  intros (_ & Hh & Hc & Hle & _ & H) Hn. pose proof (lookup_lt_Some _ _ _ Hn).
  specialize (H _ (slot_range DEPTH Hdepth (headPtr r) (Z.of_nat n))).
  rewrite distance_slot, Nat2Z.id, Hn in H by lia. by destruct H.
Qed.

Lemma commit_lanes_lookup r l n j c m v t e :
  live r l -> 0 <= j -> commit_lanes r n j c !! m = Some (v, t, e) ->
  t = slot DEPTH (headPtr r) (j + Z.of_nat m) /\
  (v = true -> c = true /\ l !! Z.to_nat (j + Z.of_nat m) = Some e /\ re_complete e = true).
Proof.
  intros Hl. pose proof Hl as (_ & Hh & Hc & _ & _ & _). revert j c m.
  induction n as [| n IH]; intros j c m Hj Hm; [done |]. cbn [commit_lanes] in Hm.
  rewrite addPtr_slot in Hm by lia. destruct m as [| m].
  - rewrite Z.add_0_r. destruct (_ && _ && _ && _) eqn:E; cbn in Hm; injection Hm as <- <- <-; [| done].
    split; [done |]. intros _. apply andb_true_iff in E as [[[-> E%Z.ltb_lt]%andb_true_iff _]%andb_true_iff Ec].
    destruct (lookup_lt_is_Some_2 l (Z.to_nat j) ltac:(lia)) as [e He].
    pose proof (live_entry r l _ e Hl He) as E'. rewrite Z2Nat.id in E' by lia. by rewrite E' in *.
  - replace (j + Z.of_nat (S m)) with (j + 1 + Z.of_nat m) by lia.
    destruct (_ && _ && _ && _) eqn:E; cbn in Hm; apply IH in Hm as [-> Hm]; [| lia | | lia].
    + split; [done |]. intros Hv. destruct (Hm Hv) as (_ & ? & ?). destruct c; [done | by cbn in E].
    + split; [done |]. intros Hv. by destruct (Hm Hv).
Qed.

Lemma prefix_length_nonneg bs : 0 <= prefix_length bs <= Z.of_nat (length bs).
Proof. induction bs as [| [] bs IH]; cbn; lia. Qed.

Lemma prefix_length_lookup bs m : Z.of_nat m < prefix_length bs -> bs !! m = Some true.
Proof.
  revert m. induction bs as [| [] bs IH]; intros m Hm; cbn in Hm; [lia | | lia].
  destruct m as [| m]; [done |]. apply IH. lia.
Qed.

(** What retires is a prefix of the queue, and complete. *)
Lemma commitAccepted_prefix r i l m :
  live r l -> Z.of_nat m < commitAccepted r i ->
  exists e, l !! m = Some e /\ re_complete e = true /\
    commit_o r !! m = Some (true, slot DEPTH (headPtr r) (Z.of_nat m), e) /\ commitReady_i i !! m = Some true.
Proof.
  intros Hl Hm. apply prefix_length_lookup in Hm. apply lookup_zip_with_Some in Hm as ([[v t] e] & rdy & E & Hc & Hr).
  symmetry in E. apply andb_true_iff in E as [-> ->].
  destruct (commit_lanes_lookup r l _ _ _ _ _ _ _ Hl (Z.le_refl 0) Hc) as [Et Hv].
  destruct (Hv eq_refl) as (_ & He & Hcm). rewrite Z.add_0_l, Nat2Z.id in *. subst t. eauto.
Qed.

Lemma commitAccepted_range r i l : live r l -> 0 <= commitAccepted r i <= Z.of_nat (length l).
Proof.
  intros Hl. split; [apply prefix_length_nonneg |].
  destruct (Z.le_gt_cases (commitAccepted r i) (Z.of_nat (length l))) as [| Hgt]; [done |].
  destruct (commitAccepted_prefix r i l (length l) Hl Hgt) as (e & He & _).
  apply lookup_lt_Some in He. lia.
Qed.

(** *** Recovery *)

(** The scan up to offset [n], [d] being the distance of the tag. *)
Lemma recover_scan_upto r tag n :
  let d := distance DEPTH (headPtr r) tag in
  let m := Z.min (Z.of_nat n) (entryCount r) in
  0 <= headPtr r < DEPTH -> 0 <= tag < DEPTH -> 0 <= entryCount r -> Z.of_nat n <= DEPTH ->
  exists mask, fold_left (recover_slot r tag) (seqZ 0 (Z.of_nat n)) (0, 0, false) =
                 (mask, Z.min m (d + 1), d <? m) /\
    forall s, 0 <= s < DEPTH ->
      Z.testbit mask s = (d <? distance DEPTH (headPtr r) s) && (distance DEPTH (headPtr r) s <? m).
Proof.
  intros d m Hh Ht Hc. subst m. pose proof (distance_range DEPTH Hdepth (headPtr r) tag) as Hd. fold d in Hd.
  induction n as [| n IH]; intros Hn.
  - exists 0. change (seqZ 0 (Z.of_nat 0)) with (@nil Z). cbn [fold_left]. split; [f_equal; [f_equal; lia | symmetry; apply Z.ltb_ge; lia] |].
    intros s Hs. rewrite Z.testbit_0_l. pose proof (distance_range DEPTH Hdepth (headPtr r) s).
    symmetry. apply andb_false_iff. right. apply Z.ltb_ge. lia.
  - destruct IH as (mask & E & Hm); [lia |]. rewrite seqZ_S, fold_left_app, E. cbn [fold_left recover_slot].
    rewrite Z.add_0_l, addPtr_slot by lia.
    pose proof (slot_range DEPTH Hdepth (headPtr r) (Z.of_nat n)) as Hsl.
    assert ((slot DEPTH (headPtr r) (Z.of_nat n) =? tag) = (Z.of_nat n =? d)) as ->.
    { rewrite <- (slot_distance DEPTH (headPtr r) tag) at 1 by done. apply slot_eqb; fold d; lia. }
    destruct (Z.ltb_spec (Z.of_nat n) (entryCount r)) as [Hlt | Hge].
    + rewrite (Z.min_l (Z.of_nat n)), (Z.min_l (Z.of_nat (S n))) by lia.
      destruct (Z.ltb_spec d (Z.of_nat n)) as [Hf | Hf]; cbn [orb].
      * eexists. split; [f_equal; [f_equal; lia | symmetry; apply Z.ltb_lt; lia] |]. intros s Hs.
        rewrite testbit_set_bit, Hm by lia. rewrite !Z.min_l by lia.
        rewrite <- (slot_distance DEPTH (headPtr r) s) at 1 by done.
        pose proof (distance_range DEPTH Hdepth (headPtr r) s). rewrite slot_eqb by lia.
        set (x := distance DEPTH (headPtr r) s) in *.
        destruct (Z.eqb_spec x (Z.of_nat n)), (Z.ltb_spec d x), (Z.ltb_spec x (Z.of_nat n)),
          (Z.ltb_spec x (Z.of_nat (S n))); (done || lia).
      * exists mask. split; [f_equal; [f_equal; lia |] |].
        { destruct (Z.eqb_spec (Z.of_nat n) d), (Z.ltb_spec d (Z.of_nat (S n))); (done || lia). }
        intros s Hs. rewrite Hm by done. rewrite !Z.min_l by lia.
        destruct (Z.ltb_spec d (distance DEPTH (headPtr r) s)); cbn [andb]; [| done].
        destruct (Z.ltb_spec (distance DEPTH (headPtr r) s) (Z.of_nat n)),
          (Z.ltb_spec (distance DEPTH (headPtr r) s) (Z.of_nat (S n))); (done || lia).
    + exists mask. by rewrite (Z.min_r (Z.of_nat (S n))), (Z.min_r (Z.of_nat n)) in * by lia.
Qed.

Lemma recover_scan_result r tag l :
  live r l -> 0 <= tag < DEPTH ->
  let d := distance DEPTH (headPtr r) tag in
  let n := Z.of_nat (length l) in
  exists mask, recover_scan r tag = (mask, Z.min n (d + 1), d <? n) /\
    forall s, 0 <= s < DEPTH ->
      Z.testbit mask s = (d <? distance DEPTH (headPtr r) s) && (distance DEPTH (headPtr r) s <? n).
Proof.
  intros (_ & Hh & Hc & Hle & _) Ht d n.
  destruct (recover_scan_upto r tag (Z.to_nat DEPTH)) as (mask & E & Hm); [lia | lia | lia | lia |].
  rewrite Z2Nat.id, (Z.min_r DEPTH), Hc in E, Hm by lia. by exists mask.
Qed.

Lemma keep_count_le h tag n : (keep_count h tag n <= n)%nat.
Proof.
  unfold keep_count. pose proof (distance_range DEPTH Hdepth h tag).
  destruct (Z.ltb_spec (distance DEPTH h tag) (Z.of_nat n)); lia.
Qed.

Lemma recoverKeepCount_queue r i l :
  live r l -> 0 <= recoverTag_i i < DEPTH -> recoverValid_i i = true ->
  recoverKeepCount r i = Z.of_nat (keep_count (headPtr r) (recoverTag_i i) (length l)).
Proof.
  intros Hl Ht Hv. unfold recoverKeepCount.
  destruct (recover_scan_result r _ l Hl Ht) as (mask & -> & _). rewrite Hv. cbn [andb]. unfold keep_count.
  pose proof (distance_range DEPTH Hdepth (headPtr r) (recoverTag_i i)).
  destruct Hl as (_ & _ & Hc & _).
  destruct (Z.ltb_spec (distance DEPTH (headPtr r) (recoverTag_i i)) (Z.of_nat (length l))); lia.
Qed.

(** The mask names the live slots behind the kept part. *)
Lemma recoverYoungerMask_queue r i l s :
  live r l -> 0 <= recoverTag_i i < DEPTH -> recoverValid_i i = true -> 0 <= s < DEPTH ->
  Z.testbit (recoverYoungerMask_o r i) s =
  (Z.of_nat (keep_count (headPtr r) (recoverTag_i i) (length l)) <=? distance DEPTH (headPtr r) s) &&
  (distance DEPTH (headPtr r) s <? Z.of_nat (length l)).
Proof.
  intros Hl Ht Hv Hs. unfold recoverYoungerMask_o.
  destruct (recover_scan_result r _ l Hl Ht) as (mask & -> & Hm). rewrite Hv. cbn [andb]. unfold keep_count.
  pose proof (distance_range DEPTH Hdepth (headPtr r) (recoverTag_i i)).
  set (d := distance _ _ (recoverTag_i i)) in *. set (x := distance _ _ s) in *.
  destruct (Z.ltb_spec d (Z.of_nat (length l))).
  - rewrite Hm by done. fold x. f_equal. destruct (Z.ltb_spec d x), (Z.leb_spec (Z.of_nat (S (Z.to_nat d))) x); (done || lia).
  - rewrite Z.testbit_0_l. destruct (Z.leb_spec (Z.of_nat (length l)) x), (Z.ltb_spec x (Z.of_nat (length l))); (done || lia).
Qed.

Lemma clear_younger_length mask es : length (clear_younger mask es) = length es.
Proof.
  unfold clear_younger. revert es. induction (seqZ 0 DEPTH) as [| k ks IH]; intros es; [done |].
  cbn [fold_left]. rewrite IH. destruct (Z.testbit mask k); by rewrite ?length_rset.
Qed.

Lemma clear_younger_slot mask es s :
  Z.of_nat (length es) = DEPTH -> 0 <= s < DEPTH ->
  rget rob_entry0 (clear_younger mask es) s = if Z.testbit mask s then rob_entry0 else rget rob_entry0 es s.
Proof.
  intros Hes Hs. unfold clear_younger.
  assert (forall ks es, Z.of_nat (length es) = DEPTH -> Forall (fun k => 0 <= k < DEPTH) ks ->
    rget rob_entry0 (fold_left (fun es k => if Z.testbit mask k then rset es k rob_entry0 else es) ks es) s =
    if bool_decide (s ∈ ks) && Z.testbit mask s then rob_entry0 else rget rob_entry0 es s) as H.
  { clear es Hes. induction ks as [| k ks IH]; intros es Hes Hks; [done |].
    apply Forall_cons_1 in Hks as [Hk Hks]. cbn [fold_left].
    rewrite IH by (try done; destruct (Z.testbit mask k); by rewrite ?length_rset).
    destruct (decide (s ∈ ks)) as [Hin | Hin].
    { rewrite !bool_decide_true by (rewrite ?elem_of_cons; auto). cbn. destruct (Z.testbit mask s) eqn:E; [done |].
      destruct (Z.testbit mask k) eqn:Ek; [| done]. rewrite rget_rset by lia.
      destruct (Z.eqb_spec s k); [congruence | done]. }
    rewrite (bool_decide_false (s ∈ ks)) by done. cbn [andb].
    destruct (decide (s = k)) as [-> | Hne].
    - rewrite bool_decide_true by (rewrite elem_of_cons; auto). cbn [andb]. destruct (Z.testbit mask k); [| done].
      by rewrite rget_rset, Z.eqb_refl by lia.
    - rewrite bool_decide_false by (rewrite elem_of_cons; intros [|]; done). cbn [andb]. destruct (Z.testbit mask k); [| done].
      by rewrite rget_rset, (proj2 (Z.eqb_neq s k)) by lia. }
  rewrite H; [| done | apply Forall_seqZ; lia].
  by rewrite bool_decide_true by (apply elem_of_seqZ; lia).
Qed.

(** *** The simulation *)

(** Tags are numbers of slots. *)
Definition tags_ok (i : rob_in) : Prop :=
  0 <= recoverTag_i i < DEPTH /\ 0 <= branchResolveTag_i i < DEPTH /\
  Forall (fun c => 0 <= c_tag c < DEPTH) (complete_i i).

Lemma live_reset r : live (rob_reset r) [].
Proof.
  unfold live, rob_reset, entry. cbn. rewrite length_replicate. split_and!; [lia | lia | lia | done | lia | |].
  - by rewrite slot_0 by lia.
  - intros s Hs. unfold rget. by destruct (replicate _ _ !! _) eqn:E; [apply lookup_replicate in E as [-> _] |].
Qed.

Lemma resolved_valid t g m e : re_valid (e_resolved t g m e) = re_valid e.
Proof. by destruct e. Qed.
Lemma marked_valid e : re_valid (e_marked e) = re_valid e.
Proof. by destruct e. Qed.
Lemma resolve_at_valid i t e : re_valid (resolve_at i t e) = re_valid e.
Proof. unfold resolve_at. destruct (_ && _); [apply resolved_valid | done]. Qed.

(** A slot after the recovery process. *)
Lemma recover_slot_value r i s :
  tags_ok i -> Z.of_nat (length (entries r)) = DEPTH -> 0 <= s < DEPTH ->
  entry (rob_recover r i) s =
  let younger := Z.testbit (recoverYoungerMask_o r i) s in
  let e := if younger then rob_entry0 else entry r s in
  let e := if re_valid (entry r s) && negb younger then complete_at s (complete_i i) e else e in
  if s =? recoverTag_i i
  then e_resolved (branchTaken_i i) (branchTarget_i i) (branchMispredicted_i i) (e_marked e) else e.
Proof.
  intros (Ht & _ & Hcs) Hlen Hs. unfold rob_recover, entry at 1. cbn [entries].
  rewrite rget_ralter, write_completions_slot, clear_younger_slot
    by (rewrite ?write_completions_length, ?clear_younger_length; (done || lia)).
  done.
Qed.

Lemma live_recover r i l :
  live r l -> tags_ok i -> recoverValid_i i = true ->
  live (rob_recover r i)
    (imap (fun n e =>
       let e := complete_at (slot DEPTH (headPtr r) (Z.of_nat n)) (complete_i i) e in
       if recoverTag_i i =? slot DEPTH (headPtr r) (Z.of_nat n)
       then e_resolved (branchTaken_i i) (branchTarget_i i) (branchMispredicted_i i) (e_marked e) else e)
     (take (keep_count (headPtr r) (recoverTag_i i) (length l)) l)).
Proof.
  intros Hl Hok Hv. pose proof Hl as (Hlen & Hh & Hc & Hle & Ht & Hslot). pose proof Hok as (Hrt & _ & Hcs).
  set (k := keep_count _ _ _). assert (k <= length l)%nat as Hk by apply keep_count_le.
  unfold live. cbn [rob_recover headPtr tailPtr entryCount entries].
  rewrite (recoverKeepCount_queue r i l) by done. fold k.
  rewrite length_ralter, write_completions_length, clear_younger_length, length_imap, length_take.
  split_and!; [done | lia | lia | lia | lia | by rewrite addPtr_slot by lia |].
  intros s Hs. rewrite recover_slot_value, (recoverYoungerMask_queue r i l) by done. fold k. cbn zeta.
  pose proof (distance_range DEPTH Hdepth (headPtr r) s) as Hd. specialize (Hslot s Hs).
  rewrite list_lookup_imap. set (x := distance DEPTH (headPtr r) s) in *.
  destruct (Z.leb_spec (Z.of_nat k) x) as [Hkx | Hkx].
  - rewrite lookup_take_ge by lia. cbn [fmap option_fmap option_map andb negb].
    destruct (Z.ltb_spec x (Z.of_nat (length l))); cbn [negb]; rewrite ?andb_false_r, ?andb_true_r.
    + destruct (s =? _); by rewrite ?resolved_valid, ?marked_valid.
    + rewrite lookup_ge_None_2 in Hslot by lia. rewrite Hslot. destruct (s =? _); by rewrite ?resolved_valid, ?marked_valid.
  - rewrite lookup_take_lt by lia. cbn [andb negb]. rewrite andb_true_r.
    destruct (lookup_lt_is_Some_2 l (Z.to_nat x) ltac:(lia)) as [e He]. rewrite He in *.
    destruct Hslot as [-> Hve]. rewrite Hve. cbn [fmap option_fmap option_map].
    rewrite Z2Nat.id by lia. subst x. rewrite slot_distance by done. rewrite (Z.eqb_sym s).
    destruct (_ =? s); by rewrite ?resolved_valid, ?marked_valid, complete_at_valid.
Qed.

Lemma accepted_tags r i :
  0 <= tailPtr r -> entryCount r <= DEPTH ->
  (forall j x, accepted r i !! j = Some x -> x.1 = slot DEPTH (tailPtr r) (Z.of_nat j)) /\
  entryCount r + Z.of_nat (length (accepted r i)) <= DEPTH.
Proof.
  intros Ht Hc. destruct (alloc_lanes_tags r (allocValid_i i) (allocEntry_i i) 0) as [H1 H2]; [lia | lia | lia |].
  split; [intros j x Hx; by rewrite (H1 j x Hx) | fold (alloc_o r i) in H2; unfold accepted; lia].
Qed.

(** A slot after the process of a normal cycle. *)
Lemma advance_slot_value r i l s :
  live r l -> tags_ok i -> 0 <= s < DEPTH ->
  entry (rob_advance r i) s =
  let x := distance DEPTH (headPtr r) s in
  let e := if x <? commitAccepted r i then rob_entry0 else entry r s in
  let e := if x <? entryCount r then e
           else match accepted r i !! Z.to_nat (x - entryCount r) with Some te => e_allocated te.2 | None => e end in
  if re_valid (entry r s) then resolve_at i s (complete_at s (complete_i i) e) else e.
Proof.
  intros Hl (_ & Hb & Hcs) Hs. pose proof Hl as (Hlen & Hh & Hc & Hle & Ht & Hslot).
  destruct (accepted_tags r i) as [Htag Hroom]; [rewrite Ht; by apply slot_range | done |].
  pose proof (commitAccepted_range r i l Hl) as Hk.
  pose proof (distance_range DEPTH Hdepth (headPtr r) s) as Hd. cbn zeta.
  set (x := distance DEPTH (headPtr r) s) in *. set (k := commitAccepted r i) in *.
  assert (rget rob_entry0 (fold_left (write_completion r 0) (complete_i i)
            (fold_left write_allocated (accepted r i) (clear_committed r k (entries r)))) s =
          let e := if x <? k then rob_entry0 else entry r s in
          let e := if x <? entryCount r then e
           else match accepted r i !! Z.to_nat (x - entryCount r) with Some te => e_allocated te.2 | None => e end in
          if re_valid (entry r s) then complete_at s (complete_i i) e else e) as E.
  { rewrite write_completions_slot, Z.testbit_0_l, andb_true_r
      by (rewrite ?write_allocated_length, ?clear_committed_length; done).
    rewrite (write_allocated_slot _ (tailPtr r)), clear_committed_slot
      by (rewrite ?clear_committed_length; try done; try lia; rewrite Ht; by apply slot_range).
    fold x. cbn zeta. fold (entry r s). rewrite Ht. destruct (Z.ltb_spec x (entryCount r)).
    - rewrite distance_back by (fold x; lia). fold x. by rewrite (lookup_ge_None_2 (accepted r i)) by lia.
    - by rewrite distance_move by (fold x; lia). }
  unfold rob_advance, entry at 1. cbn [entries]. unfold write_resolved. fold k. unfold resolve_at.
  destruct (Z.eqb_spec (branchResolveTag_i i) s) as [<- | Hne].
  - rewrite andb_true_r. destruct (branchResolveValid_i i); cbn [andb].
    + destruct (re_valid (entry r (branchResolveTag_i i))) eqn:Ev.
      * rewrite rget_ralter, Z.eqb_refl, E by
          (rewrite ?write_completions_length, ?write_allocated_length, ?clear_committed_length; lia). done.
      * rewrite E. done.
    + rewrite E. done.
  - rewrite andb_false_r. destruct (_ && _).
    + rewrite rget_ralter, (proj2 (Z.eqb_neq s _)), E by
        (rewrite ?write_completions_length, ?write_allocated_length, ?clear_committed_length; lia). done.
    + rewrite E. done.
Qed.

Lemma live_advance r i l :
  live r l -> tags_ok i ->
  live (rob_advance r i)
    (drop (Z.to_nat (commitAccepted r i))
       (imap (fun n e => resolve_at i (slot DEPTH (headPtr r) (Z.of_nat n))
                           (complete_at (slot DEPTH (headPtr r) (Z.of_nat n)) (complete_i i) e)) l)
     ++ map e_allocated (accepted r i).*2).
Proof.
  intros Hl Hok. pose proof Hl as (Hlen & Hh & Hc & Hle & Ht & Hslot).
  destruct (accepted_tags r i) as [_ Hroom]; [rewrite Ht; by apply slot_range | done |].
  pose proof (commitAccepted_range r i l Hl) as Hk. set (k := commitAccepted r i) in *.
  set (new := accepted r i) in *.
  unfold live. cbn [rob_advance headPtr tailPtr entryCount entries]. fold k new.
  assert (length (drop (Z.to_nat k) (imap (fun n e => resolve_at i (slot DEPTH (headPtr r) (Z.of_nat n))
            (complete_at (slot DEPTH (headPtr r) (Z.of_nat n)) (complete_i i) e)) l) ++ map e_allocated new.*2) =
          length l - Z.to_nat k + length new)%nat as EL.
  { by rewrite length_app, length_drop, length_imap, length_map, length_fmap. }
  split_and!.
  - unfold write_resolved. destruct (_ && _);
      by rewrite ?length_ralter, write_completions_length, write_allocated_length, clear_committed_length.
  - rewrite addPtr_slot by lia. by apply slot_range.
  - rewrite addPtr_slot by lia. by apply slot_range.
  - rewrite EL. lia.
  - lia.
  - rewrite Ht, !addPtr_slot, !slot_slot by (try apply slot_range; lia). f_equal. lia.
  - intros s Hs. rewrite (advance_slot_value r i l) by done. cbn zeta. fold k new.
    rewrite addPtr_slot by lia. pose proof (distance_range DEPTH Hdepth (headPtr r) s) as Hd.
    specialize (Hslot s Hs). set (x := distance DEPTH (headPtr r) s) in *.
    destruct (Z.ltb_spec x k) as [Hxk | Hxk].
    { (* retired *)
      rewrite distance_back by (fold x; lia). fold x. rewrite lookup_ge_None_2 by (rewrite EL; lia).
      rewrite (proj2 (Z.ltb_lt x (entryCount r))) by lia.
      destruct (re_valid (entry r s)); by rewrite ?resolve_at_valid, ?complete_at_valid. }
    rewrite distance_move by (fold x; lia). fold x.
    destruct (Z.ltb_spec x (entryCount r)) as [Hxc | Hxc].
    { (* still in flight *)
      rewrite lookup_app_l by (rewrite length_drop, length_imap; lia).
      rewrite lookup_drop, list_lookup_imap. replace (Z.to_nat k + Z.to_nat (x - k))%nat with (Z.to_nat x) by lia.
      destruct (lookup_lt_is_Some_2 l (Z.to_nat x) ltac:(lia)) as [e He]. rewrite He in *.
      destruct Hslot as [-> Hve]. rewrite Hve. cbn [fmap option_fmap option_map].
      rewrite Z2Nat.id by lia. subst x. rewrite slot_distance by done.
      by rewrite resolve_at_valid, complete_at_valid. }
    (* free before: perhaps allocated now *)
    rewrite lookup_ge_None_2 in Hslot by lia. rewrite Hslot.
    rewrite lookup_app_r by (rewrite length_drop, length_imap; lia).
    rewrite length_drop, length_imap, list_lookup_fmap, list_lookup_fmap.
    replace (Z.to_nat (x - k) - (length l - Z.to_nat k))%nat with (Z.to_nat (x - entryCount r)) by lia.
    destruct (new !! _) as [te |]; cbn; [by destruct (te.2) | done].
Qed.

Lemma rob_step_live r i l :
  live r l -> tags_ok i ->
  live (rob_step r i)
    (queue_step (headPtr r) i (Z.to_nat (commitAccepted r i)) (accepted r i).*2 l).
Proof.
  intros Hl Hok. unfold rob_step, queue_step. destruct (flush_i i); [by apply live_reset |].
  destruct (recoverValid_i i) eqn:E; [by apply live_recover | by apply live_advance].
Qed.

(** *** The queue on its own *)

(** The number of entries that retire: those at the front that are complete and
    accepted, at most [COMMIT_WIDTH]. *)
Definition retiring (l : list rob_entry) (ready : list bool) : nat :=
  Z.to_nat (prefix_length (zip_with (fun e rdy => re_complete e && rdy) (take COMMIT_WIDTH l) ready)).

(** The entries that are taken: the valid ones, in order, while there is room. *)
Definition appended (room : nat) (valid : list bool) (es : list rob_entry) : list rob_entry :=
  take room (omap (fun '(v, e) => if v : bool then Some e else None) (zip valid es)).

(** The queue with the tag of its front. *)
Definition queue_next (q : Z * list rob_entry) (i : rob_in) : Z * list rob_entry :=
  let '(h, l) := q in
  let k := retiring l (commitReady_i i) in
  (if flush_i i then 0 else if recoverValid_i i then h else slot DEPTH h (Z.of_nat k),
   queue_step h i k (appended (Z.to_nat DEPTH - length l) (allocValid_i i) (allocEntry_i i)) l).

Lemma commit_lanes_retiring r l n j bs :
  live r l -> 0 <= j ->
  prefix_length (zip_with (fun '(v, _, _) rdy => v && rdy) (commit_lanes r n j true) bs) =
  prefix_length (zip_with (fun e rdy => re_complete e && rdy) (take n (drop (Z.to_nat j) l)) bs).
Proof.
  intros Hl. pose proof Hl as (_ & Hh & Hc & _ & _ & _). revert j bs.
  induction n as [| n IH]; intros j bs Hj; [by rewrite take_0 |].
  cbn [commit_lanes andb]. rewrite addPtr_slot by lia. destruct (Z.ltb_spec j (entryCount r)) as [Hlt | Hge].
  - destruct (lookup_lt_is_Some_2 l (Z.to_nat j) ltac:(lia)) as [e He].
    pose proof (live_entry r l _ e Hl He) as E. rewrite Z2Nat.id in E by lia. rewrite E.
    rewrite (live_valid r l _ e Hl He). cbn [andb].
    rewrite (drop_S _ e _ He). cbn [take]. replace (S (Z.to_nat j)) with (Z.to_nat (j + 1)) by lia.
    destruct bs as [| b bs]; [by destruct (re_complete e) |].
    cbn [zip_with]. destruct (re_complete e); cbn [zip_with andb]; [| done]. destruct b; [| done].
    cbn [prefix_length]. by rewrite IH by lia.
  - rewrite drop_ge by lia. cbn [andb take]. by destruct bs.
Qed.

Lemma commitAccepted_retiring r i l :
  live r l -> Z.to_nat (commitAccepted r i) = retiring l (commitReady_i i).
Proof. intros Hl. unfold commitAccepted, commit_o, retiring. by rewrite (commit_lanes_retiring r l). Qed.

Lemma alloc_lanes_appended r vs es o :
  0 <= o -> (omap (fun '(v, e, (ready, tag)) => if v && ready : bool then Some (tag, e) else None)
               (zip (zip vs es) (alloc_lanes r o vs))).*2 =
  appended (Z.to_nat (DEPTH - entryCount r - o)) vs es.
Proof.
  unfold appended. revert es o. induction vs as [| v vs IH]; intros [| e es] o Ho; cbn [alloc_lanes zip zip_with];
    cbn [omap list_omap]; try (by rewrite take_nil).
  destruct (Z.ltb_spec o (DEPTH - entryCount r)) as [Hlt | Hge].
  - rewrite andb_true_r. destruct v; [| by apply IH].
    replace (Z.to_nat (DEPTH - entryCount r - o)) with (S (Z.to_nat (DEPTH - entryCount r - (o + 1)))) by lia.
    cbn [take fmap list_fmap]. f_equal. apply IH. lia.
  - rewrite andb_false_r. replace (Z.to_nat (DEPTH - entryCount r - o)) with 0%nat in * by lia. rewrite take_0.
    etransitivity; [apply (IH es o Ho) |]. replace (Z.to_nat (DEPTH - entryCount r - o)) with 0%nat by lia.
    by rewrite take_0.
Qed.

Lemma accepted_appended r i l :
  live r l -> (accepted r i).*2 = appended (Z.to_nat DEPTH - length l) (allocValid_i i) (allocEntry_i i).
Proof.
  intros (_ & _ & Hc & Hle & _). unfold accepted, alloc_o. rewrite (alloc_lanes_appended r _ _ 0) by lia. f_equal. lia.
Qed.

Definition rob_run (r : rob) (ins : list rob_in) : rob := fold_left rob_step ins r.

Lemma rob_step_queue r i l :
  live r l -> tags_ok i ->
  headPtr (rob_step r i) = (queue_next (headPtr r, l) i).1 /\ live (rob_step r i) (queue_next (headPtr r, l) i).2.
Proof.
  intros Hl Hok. pose proof (rob_step_live r i l Hl Hok) as H. pose proof (commitAccepted_range r i l Hl) as Hk.
  cbn [queue_next fst snd]. rewrite <- (accepted_appended r i l), <- (commitAccepted_retiring r i l) by done.
  split; [| done]. destruct Hl as (_ & Hh & _). unfold rob_step. destruct (flush_i i); [done |].
  destruct (recoverValid_i i); [done |]. cbn [rob_advance headPtr].
  by rewrite (Z2Nat.id (commitAccepted r i)), addPtr_slot by lia.
Qed.

Lemma rob_run_queue ins r l :
  live r l -> Forall tags_ok ins ->
  headPtr (rob_run r ins) = (fold_left queue_next ins (headPtr r, l)).1 /\
  live (rob_run r ins) (fold_left queue_next ins (headPtr r, l)).2.
Proof.
  revert r l. induction ins as [| i ins IH]; intros r l Hl Hok; [done |].
  apply Forall_cons_1 in Hok as [Hi Hok]. cbn [rob_run fold_left].
  destruct (rob_step_queue r i l Hl Hi) as [Eh Hl']. specialize (IH _ _ Hl' Hok). rewrite Eh in IH.
  by rewrite <- surjective_pairing in IH.
Qed.

(** A lane offers an entry exactly when it and all its elders are complete. *)
Lemma commit_lanes_offer r l n j c m v t e :
  live r l -> 0 <= j -> commit_lanes r n j c !! m = Some (v, t, e) ->
  v = true <-> c = true /\ (Z.to_nat j + m < length l)%nat /\
    Forall (fun e => re_complete e = true) (take (S m) (drop (Z.to_nat j) l)).
Proof.
  intros Hl. pose proof Hl as (_ & Hh & Hc & _ & _ & _). revert j c m.
  induction n as [| n IH]; intros j c m Hj Hm; [done |]. cbn [commit_lanes] in Hm.
  rewrite addPtr_slot in Hm by lia.
  assert (c && (j <? entryCount r) && re_valid (entry r (slot DEPTH (headPtr r) j)) &&
            re_complete (entry r (slot DEPTH (headPtr r) j)) = true <->
          c = true /\ exists e, l !! Z.to_nat j = Some e /\ re_complete e = true) as Hj0.
  { destruct c; [| by split; [| intros []]]. cbn [andb]. destruct (Z.ltb_spec j (entryCount r)) as [Hlt | Hge]; cbn [andb].
    - destruct (lookup_lt_is_Some_2 l (Z.to_nat j) ltac:(lia)) as [e0 He].
      pose proof (live_entry r l _ e0 Hl He) as E. rewrite Z2Nat.id in E by lia. rewrite E, (live_valid r l _ e0 Hl He), He.
      cbn [andb]. split; [eauto | intros (_ & ? & [= <-] & ?); done].
    - split; [done |]. intros (_ & e0 & He & _). apply lookup_lt_Some in He. lia. }
  destruct (_ && _ && _ && _) eqn:E; destruct m as [| m]; cbn in Hm.
  - injection Hm as <- <- <-. destruct (proj1 Hj0 eq_refl) as (-> & e0 & He & Hcm). rewrite (drop_S _ e0 _ He).
    split; [| done]. intros _. split; [done |]. split; [apply lookup_lt_Some in He; lia |]. by repeat constructor.
  - apply IH in Hm; [| lia]. rewrite Hm. destruct (proj1 Hj0 eq_refl) as (-> & e0 & He & Hcm). rewrite (drop_S _ e0 _ He).
    replace (S (Z.to_nat j)) with (Z.to_nat (j + 1)) by lia. cbn [take].
    split; intros (_ & Hlt & HF); (split; [done |]); (split; [lia |]).
    + by constructor.
    + by apply Forall_cons_1 in HF as [_ ?].
  - injection Hm as <- <- <-. split; [done |]. intros (-> & Hlt & HF). exfalso.
    destruct (lookup_lt_is_Some_2 l (Z.to_nat j) ltac:(lia)) as [e0 He]. rewrite (drop_S _ e0 _ He) in HF.
    apply Forall_cons_1 in HF as [? _]. enough (false = true) by done. apply Hj0. eauto.
  - apply IH in Hm; [| lia]. rewrite Hm. split; [by intros [] |]. intros (-> & Hlt & HF). exfalso.
    destruct (lookup_lt_is_Some_2 l (Z.to_nat j) ltac:(lia)) as [e0 He]. rewrite (drop_S _ e0 _ He) in HF.
    apply Forall_cons_1 in HF as [? _]. enough (false = true) by done. apply Hj0. eauto.
Qed.

Lemma commit_o_lane r l n v t e :
  live r l -> commit_o r !! n = Some (v, t, e) ->
  t = slot DEPTH (headPtr r) (Z.of_nat n) /\
  (v = true <-> (n < length l)%nat /\ Forall (fun e => re_complete e = true) (take (S n) l)) /\
  (v = true -> l !! n = Some e).
Proof.
  intros Hl Hn. destruct (commit_lanes_lookup r l _ _ _ _ _ _ _ Hl (Z.le_refl 0) Hn) as [-> Hv].
  pose proof (commit_lanes_offer r l _ _ _ _ _ _ _ Hl (Z.le_refl 0) Hn) as Ho. rewrite Z.add_0_l, Nat2Z.id in Hv.
  split; [done |]. split; [rewrite Ho; cbn; tauto |]. intros E. by destruct (Hv E) as (_ & ? & _).
Qed.

(** C23: the reorder buffer is a queue.  From reset, for every depth and every
    sequence of inputs, the circular buffer holds exactly the queue that the
    abstract machine [queue_next] computes: complete entries retire from the
    front in order, valid lanes are appended while there is room, completions
    and branch outcomes reach the entry with their tag and no other, a recovery
    cuts the queue behind the branch, a flush empties it.  The outputs are those
    of the queue: a lane offers for retirement exactly a complete entry all of
    whose elders are complete. *)
Theorem reorder_buffer_is_queue r0 ins :
  Forall tags_ok ins ->
  let r := rob_run (rob_reset r0) ins in
  let '(h, l) := fold_left queue_next ins (0, []) in
  live r l /\ headPtr r = h /\ (length l <= Z.to_nat DEPTH)%nat /\
  entryCount r = Z.of_nat (length l) /\
  forall n v t e, commit_o r !! n = Some (v, t, e) ->
    t = slot DEPTH h (Z.of_nat n) /\
    (v = true <-> (n < length l)%nat /\ Forall (fun e => re_complete e = true) (take (S n) l)) /\
    (v = true -> l !! n = Some e).
Proof.
  intros Hok r. destruct (rob_run_queue ins (rob_reset r0) [] (live_reset r0) Hok) as [Hh Hl].
  fold r in Hh, Hl. change (headPtr (rob_reset r0)) with 0 in Hh, Hl.
  destruct (fold_left queue_next ins (0, [])) as [h l]. cbn [fst snd] in Hh, Hl.
  pose proof Hl as (_ & _ & Hc & Hle & _). split_and!; [done | done | lia | done |].
  intros n v t e Hn. rewrite <- Hh. by apply commit_o_lane.
Qed.
End rob.

(** Two instructions enter, the first completes and retires. *)
Lemma reorder_buffer_is_queue_witness :
  let e := RobEntry true false 4 true 1 32 1 false 0 false false BR_NONE false false false 0 false false 0 tt
             false 0 false false false 0 0 false in
  let i0 := RobIn false false 0 [true; true] [e; e] [] false 0 false 0 false [true; true] in
  let i1 := RobIn false false 0 [] [] [Completion true 0 false 0 0] false 0 false 0 false [true; true] in
  let i2 := RobIn false false 0 [] [] [] false 0 false 0 false [true; true] in
  let r0 := ROB [] 0 0 0 in
  let r := rob_run tt 16 (rob_reset tt 16 r0) [i0; i1; i2] in
  headPtr r = 1 /\ entryCount r = 1.
Proof.
  intros e i0 i1 i2 r0 r.
  assert (Forall (tags_ok 16) [i0; i1; i2]) as H by (repeat constructor; cbn; lia).
  pose proof (reorder_buffer_is_queue tt 16 ltac:(lia) r0 [i0; i1; i2] H) as Hq. cbv zeta in Hq.
  set (q := fold_left (queue_next 16) [i0; i1; i2] (0, [])) in Hq. vm_compute in q. subst q. cbn beta iota in Hq.
  destruct Hq as (_ & Hh & _ & Hc & _). split; [exact Hh | exact Hc].
Defined.
