(* ===== verification/Rename.v ===== *)
(** * Register renaming: RenameMapTable.sv and PhysicalFreeList.sv

    The map table holds, for every architectural register, the physical
    register of its newest value: one map for the instructions that have
    retired, one with all renamed instructions applied, and a copy of the latter
    per branch in flight.  The free list is a mask of the physical registers
    that no map uses, with a copy per branch.  The file also proves what the
    loops over the lanes compute, for the invariant of Backend. *)

From Stdlib Require Import ZArith Lia.
From stdpp Require Import base list numbers.
From S2P Require Import Prelude Hw.

Local Open Scope Z_scope.

Section rename.
(** [REG_NUM], [PHYS_REG_NUM] and [ROB_ENTRY_NUM]. *)
Context (ARCH_REGS PHYS_REGS ROB_ENTRY_NUM : Z).

(** The loop over lanes that saves checkpoints: lane [n] stores [value n] under
    its tag. *)
Fixpoint save_lanes {A} (value : nat -> A) (n : nat) (lanes : list (bool * Z)) (saved : list A) : list A :=
  match lanes with
  | [] => saved
  | (valid, tag) :: lanes =>
      save_lanes value (S n) lanes (if valid : bool then rset saved tag (value n) else saved)
  end.

(** ** RenameMapTable.sv *)

Record map_table := MapTable {
  speculativeMap : list Z; committedMap : list Z; checkpointMap : list (list Z) }.

(** A write port: valid, architectural and physical register.  Register 0 is
    never renamed. *)
Definition write_port : Type := bool * Z * Z.
Definition map_write (m : list Z) (u : write_port) : list Z :=
  let '(v, rd, p) := u in if v && negb (rd =? 0) then rset m rd p else m.
Definition map_writes (m : list Z) (us : list write_port) : list Z := fold_left map_write us m.

(** The inputs of the lanes that rename, and of the whole table. *)
Record map_in := MapIn {
  restoreCommitted_i : bool; m_recoverValid_i : bool; m_recoverTag_i : Z;
  checkpoint_i : list (bool * Z); rename_i : list write_port; commit_i : list write_port }.

(** [sourceAPhys_o], [sourceBPhys_o] and [renameOldPhys_o] of a lane whose
    elders in the same group are [older]: the last of them that writes the
    register wins over the map. *)
Definition lookup_phys (m : list Z) (older : list write_port) (r : Z) : Z :=
  if r =? 0 then 0
  else fold_left (fun p '(v, rd, new) => if v && negb (rd =? 0) && (r =? rd) then new else p) older (rget 0 m r).

(** [committedFreeMask_o] *)
Definition committedFreeMask_o (t : map_table) : Z :=
  set_bit PHYS_REGS
    (fold_left (fun m r => set_bit PHYS_REGS m (rget 0 (committedMap t) r) false) (seqZ 0 ARCH_REGS)
       (Z.ones PHYS_REGS)) 0 false.

Definition map_reset : map_table :=
  let identity := seqZ 0 ARCH_REGS in
  MapTable identity identity (replicate (Z.to_nat ROB_ENTRY_NUM) identity).

(** The checkpoints: lane [n] saves the map with the writes up to its own. *)
Definition save_maps (m : list Z) (cks : list (bool * Z)) (us : list write_port) (saved : list (list Z))
    : list (list Z) :=
  save_lanes (fun n => map_writes m (take (S n) us)) 0 cks saved.

Definition map_step (t : map_table) (i : map_in) : map_table :=
  MapTable
    (if restoreCommitted_i i then committedMap t
     else if m_recoverValid_i i then rget [] (checkpointMap t) (m_recoverTag_i i)
     else map_writes (speculativeMap t) (rename_i i))
    (map_writes (committedMap t) (commit_i i))
    (save_maps (speculativeMap t) (checkpoint_i i) (rename_i i) (checkpointMap t)).

(** ** PhysicalFreeList.sv *)

Record free_list := FreeList { freeMask : Z; checkpointFreeMask : list Z }.

Record free_in := FreeIn {
  restore_i : bool; restoreFreeMask_i : Z; f_recoverValid_i : bool; f_recoverTag_i : Z;
  f_checkpoint_i : list (bool * Z); allocRequest_i : list bool; free_i : list (bool * Z) }.

(** [allocReady_o] and [allocPhys_o]: each lane takes the lowest free register. *)
Definition first_free (mask : Z) : option Z := List.find (Z.testbit mask) (seqZ 1 (PHYS_REGS - 1)).
Fixpoint free_alloc (availableMask : Z) (requests : list bool) : list (bool * Z) :=
  match requests with
  | [] => []
  | req :: reqs =>
      match first_free availableMask with
      | Some p => (true, p) :: free_alloc (if req : bool then set_bit PHYS_REGS availableMask p false else availableMask) reqs
      | None => (false, 0) :: free_alloc availableMask reqs
      end
  end.
Definition alloc_phys_o (f : free_list) (requests : list bool) : list (bool * Z) :=
  free_alloc (freeMask f) requests.

(** [freeCount_o] *)
Definition count_bits (mask : Z) : Z :=
  fold_left (fun n p => if Z.testbit mask p then n + 1 else n) (seqZ 0 PHYS_REGS) 0.
Definition freeCount_o (f : free_list) : Z := uwrap (Z.log2_up (PHYS_REGS + 1)) (count_bits (freeMask f)).

(** The two loops of the clocked process. *)
Definition mark_free (mask : Z) (fs : list (bool * Z)) : Z :=
  fold_left (fun m '(v, p) => if v && negb (p =? 0) then set_bit PHYS_REGS m p true else m) fs mask.
Definition mark_used (mask : Z) (reqs : list bool) (ps : list (bool * Z)) : Z :=
  fold_left (fun m '(req, (ready, p)) => if req && ready : bool then set_bit PHYS_REGS m p false else m)
    (zip reqs ps) mask.

Definition initial_mask : Z := Z.shiftl (Z.ones (PHYS_REGS - ARCH_REGS)) ARCH_REGS.
Definition free_reset : free_list :=
  FreeList initial_mask (replicate (Z.to_nat ROB_ENTRY_NUM) initial_mask).

Definition save_masks (f : free_list) (i : free_in) : list Z :=
  let ps := alloc_phys_o f (allocRequest_i i) in
  save_lanes (fun n => mark_free (mark_used (freeMask f) (take (S n) (allocRequest_i i)) ps) (free_i i)) 0
    (f_checkpoint_i i) (map (fun m => mark_free m (free_i i)) (checkpointFreeMask f)).

Definition free_step (f : free_list) (i : free_in) : free_list :=
  FreeList
    (set_bit PHYS_REGS
       (if restore_i i then restoreFreeMask_i i
        else if f_recoverValid_i i then mark_free (rget 0 (checkpointFreeMask f) (f_recoverTag_i i)) (free_i i)
        else mark_used (mark_free (freeMask f) (free_i i)) (allocRequest_i i)
               (alloc_phys_o f (allocRequest_i i)))
       0 false)
    (save_masks f i).

(** ** What the loops compute *)

Context (Harch : 0 < ARCH_REGS) (Hphys : ARCH_REGS < PHYS_REGS) (Hrob : 0 < ROB_ENTRY_NUM).

Lemma map_writes_app m us vs : map_writes m (us ++ vs) = map_writes (map_writes m us) vs.
Proof. apply fold_left_app. Qed.

Lemma length_map_write m u : length (map_write m u) = length m.
Proof. destruct u as [[v rd] p]. cbn. destruct (_ && _); [apply length_rset | done]. Qed.

Lemma length_map_writes m us : length (map_writes m us) = length m.
Proof.
  revert m. induction us as [| u us IH]; intros m; [done |].
  change (map_writes m (u :: us)) with (map_writes (map_write m u) us). rewrite IH. apply length_map_write.
Qed.

(** Ports that name existing registers. *)
Definition port_ok (u : write_port) : Prop := 0 <= u.1.2 < ARCH_REGS.

Lemma rget_map_write m u r :
  Z.of_nat (length m) = ARCH_REGS -> port_ok u -> 0 <= r ->
  rget 0 (map_write m u) r =
  if u.1.1 && negb (u.1.2 =? 0) && (r =? u.1.2) then u.2 else rget 0 m r.
Proof.
  intros Hm Hu Hr. destruct u as [[v rd] p]. unfold port_ok in Hu. cbn in *.
  destruct (v && negb (rd =? 0)); cbn [andb]; [by rewrite rget_rset by lia | done].
Qed.

(** A lane sees the map with the writes of its elders applied. *)
Lemma lookup_phys_map m older r :
  Z.of_nat (length m) = ARCH_REGS -> Forall port_ok older -> 0 <= r -> rget 0 m 0 = 0 ->
  lookup_phys m older r = rget 0 (map_writes m older) r.
Proof.
  intros Hm Hok Hr H0. unfold lookup_phys.
  assert (rget 0 (map_writes m older) r =
          fold_left (fun p '(v, rd, new) => if v && negb (rd =? 0) && (r =? rd) then new else p) older (rget 0 m r))
    as ->.
  { clear H0. revert m Hm. induction Hok as [| u us Hu Hus IH]; intros m Hm; [done |].
    change (map_writes m (u :: us)) with (map_writes (map_write m u) us). cbn [fold_left].
    rewrite IH by (by rewrite length_map_write).
    rewrite rget_map_write by done. by destruct u as [[v rd] p]. }
  destruct (Z.eqb_spec r 0) as [-> | Hne]; [| done]. rewrite H0. clear Hok.
  induction older as [| [[v rd] p] us IH]; [done |]. cbn [fold_left].
  destruct (Z.eqb_spec rd 0) as [-> | Hrd]; cbn [negb]; rewrite ?andb_false_r; cbn [andb]; [done |].
  by rewrite (proj2 (Z.eqb_neq 0 rd)), andb_false_r by done.
Qed.

Lemma map_writes_0 m us :
  Z.of_nat (length m) = ARCH_REGS -> Forall port_ok us -> rget 0 m 0 = 0 -> rget 0 (map_writes m us) 0 = 0.
Proof. intros Hm Hok H0. rewrite <- lookup_phys_map by done. done. Qed.

(** *** Checkpoints *)

Lemma length_save_lanes {A} (g : nat -> A) n lanes saved : length (save_lanes g n lanes saved) = length saved.
Proof.
  revert n saved. induction lanes as [| [v t] lanes IH]; intros n saved; [done |]. cbn. rewrite IH.
  destruct v; [apply length_rset | done].
Qed.

Lemma save_lanes_other {A} (d : A) g n lanes saved t :
  Forall (fun x => 0 <= x.2 < Z.of_nat (length saved)) lanes -> 0 <= t -> (true, t) ∉ lanes ->
  rget d (save_lanes g n lanes saved) t = rget d saved t.
Proof.
  revert n saved. induction lanes as [| [v u] lanes IH]; intros n saved Hok Ht Hn; [done |]. cbn.
  apply Forall_cons_1 in Hok as [Hu Hok]. cbn in Hu. rewrite not_elem_of_cons in Hn. destruct Hn as [Hne Hn].
  rewrite IH; [| by destruct v; rewrite ?length_rset | done | done].
  destruct v; [| done]. rewrite rget_rset by lia. destruct (Z.eqb_spec t u); [congruence | done].
Qed.

(** A tag that one lane saves. *)
Lemma save_lanes_this {A} (d : A) g n lanes saved j t :
  Forall (fun x => 0 <= x.2 < Z.of_nat (length saved)) lanes -> lanes !! j = Some (true, t) ->
  (forall k, lanes !! k = Some (true, t) -> k = j) ->
  rget d (save_lanes g n lanes saved) t = g (n + j)%nat.
Proof.
  revert n saved j. induction lanes as [| [v u] lanes IH]; intros n saved j Hok Hj Hu; [done |]. cbn.
  apply Forall_cons_1 in Hok as [Hr Hok]. cbn in Hr. destruct j as [| j]; cbn in Hj.
  - injection Hj as -> ->. rewrite save_lanes_other.
    + by rewrite rget_rset, Z.eqb_refl, Nat.add_0_r by lia.
    + by rewrite length_rset.
    + lia.
    + intros [k Hk]%list_elem_of_lookup. by specialize (Hu (S k) Hk).
  - rewrite (IH _ _ j); [f_equal; lia | by destruct v; rewrite ?length_rset | done |].
    intros k Hk. specialize (Hu (S k) Hk). lia.
Qed.

(** *** Masks *)

Lemma testbit_mark_free mask fs p :
  0 <= p < PHYS_REGS ->
  Z.testbit (mark_free mask fs) p = bool_decide (p <> 0 /\ (true, p) ∈ fs) || Z.testbit mask p.
Proof.
  unfold mark_free. intros Hp. revert mask. induction fs as [| [v q] fs IH]; intros mask.
  - cbn. rewrite bool_decide_false; [done |]. by intros [_ ?%not_elem_of_nil].
  - cbn [fold_left]. rewrite IH. destruct (decide (p <> 0 /\ (true, p) ∈ fs)) as [H | H].
    { rewrite !bool_decide_true by (rewrite ?elem_of_cons; tauto). done. }
    rewrite (bool_decide_false _ H). cbn [orb].
    destruct (decide (p <> 0 /\ (true, p) = (v, q))) as [[Hp0 [= <- <-]] | Hne].
    + rewrite bool_decide_true by (rewrite elem_of_cons; auto). rewrite (proj2 (Z.eqb_neq p 0)) by done. cbn.
      by rewrite testbit_set_bit_any, Z.eqb_refl by lia.
    + rewrite bool_decide_false by (rewrite elem_of_cons; tauto).
      destruct v; [| done]. destruct (Z.eqb_spec q 0) as [-> | Hq0]; cbn [negb andb orb]; [done |].
      rewrite testbit_set_bit_any by lia. destruct (Z.eqb_spec p q) as [-> |]; [| done]. by destruct Hne.
Qed.

(** The registers that the lanes take. *)
Definition taken (reqs : list bool) (ps : list (bool * Z)) : list Z :=
  omap (fun '(req, (ready, p)) => if req && ready : bool then Some p else None) (zip reqs ps).

Lemma testbit_mark_used mask reqs ps p :
  0 <= p < PHYS_REGS ->
  Z.testbit (mark_used mask reqs ps) p = negb (bool_decide (p ∈ taken reqs ps)) && Z.testbit mask p.
Proof.
  unfold mark_used, taken. revert mask. induction (zip reqs ps) as [| [req [rdy q]] l IH]; intros mask Hp.
  - cbn. rewrite bool_decide_false; [done |]. apply not_elem_of_nil.
  - cbn [fold_left omap list_omap] in *. destruct (req && rdy); [| by apply IH].
    rewrite IH by done. rewrite testbit_set_bit_any by lia.
    destruct (decide (p ∈ omap (fun '(req, (ready, p)) => if req && ready : bool then Some p else None) l)) as [H | H].
    + by rewrite !bool_decide_true by (rewrite ?elem_of_cons; auto).
    + rewrite (bool_decide_false _ H). cbn [negb andb]. destruct (Z.eqb_spec p q) as [-> | Hne].
      * by rewrite bool_decide_true by (rewrite elem_of_cons; auto).
      * by rewrite bool_decide_false by (rewrite elem_of_cons; tauto).
Qed.

Lemma first_free_Some mask p : first_free mask = Some p -> 1 <= p < PHYS_REGS /\ Z.testbit mask p = true.
Proof.
  unfold first_free. intros [Hin Hb]%find_some. split; [| done].
  apply list_elem_of_In, elem_of_seqZ in Hin. lia.
Qed.

(** The registers taken are free, distinct and not 0. *)
Lemma free_alloc_taken mask reqs :
  NoDup (taken reqs (free_alloc mask reqs)) /\
  Forall (fun p => 1 <= p < PHYS_REGS /\ Z.testbit mask p = true) (taken reqs (free_alloc mask reqs)).
Proof.
  revert mask. induction reqs as [| req reqs IH]; intros mask; [split; constructor |].
  unfold taken. cbn [free_alloc]. destruct (first_free mask) as [p |] eqn:E; cbn [zip zip_with omap list_omap].
  - apply first_free_Some in E as [Hp Hb]. rewrite andb_true_r. destruct req; [| apply IH].
    destruct (IH (set_bit PHYS_REGS mask p false)) as [Hn HF]. fold (taken reqs (free_alloc (set_bit PHYS_REGS mask p false) reqs)).
    assert (Forall (fun q => 1 <= q < PHYS_REGS /\ Z.testbit mask q = true /\ q <> p)
              (taken reqs (free_alloc (set_bit PHYS_REGS mask p false) reqs))) as HF'.
    { eapply Forall_impl; [| exact HF]. intros q [Hq Hbq]. rewrite testbit_set_bit in Hbq by lia.
      destruct (Z.eqb_spec q p); [done | auto]. }
    split; constructor; [| done | done |].
    + intros H. apply list_elem_of_In in H. by apply (proj1 (Forall_forall _ _) HF') in H as (_ & _ & ?).
    + eapply Forall_impl; [| exact HF']. by intros q (? & ? & _).
  - rewrite andb_false_r. apply IH.
Qed.

Lemma testbit_committedFreeMask t p :
  Z.of_nat (length (committedMap t)) = ARCH_REGS -> Forall (fun q => 0 <= q < PHYS_REGS) (committedMap t) ->
  0 <= p < PHYS_REGS ->
  Z.testbit (committedFreeMask_o t) p = negb (p =? 0) && negb (bool_decide (p ∈ committedMap t)).
Proof.
  intros Hlen Hok Hp. unfold committedFreeMask_o. rewrite testbit_set_bit by lia.
  destruct (Z.eqb_spec p 0) as [-> | Hne]; cbn [negb andb]; [done |].
  assert (forall l m, Forall (fun r => 0 <= r < ARCH_REGS) l ->
    Z.testbit (fold_left (fun m r => set_bit PHYS_REGS m (rget 0 (committedMap t) r) false) l m) p =
    negb (bool_decide (p ∈ map (rget 0 (committedMap t)) l)) && Z.testbit m p) as H.
  { induction l as [| r l IH]; intros m Hl.
    - cbn. rewrite bool_decide_false; [done |]. apply not_elem_of_nil.
    - apply Forall_cons_1 in Hl as [Hr Hl]. cbn [fold_left map]. rewrite IH by done.
      assert (0 <= rget 0 (committedMap t) r < PHYS_REGS) as Hq.
      { pose proof (rget_lookup 0 (committedMap t) r ltac:(lia)) as E. by eapply Forall_lookup_1 in Hok; [| exact E]. }
      rewrite testbit_set_bit by lia.
      destruct (decide (p ∈ map (rget 0 (committedMap t)) l)) as [Hin | Hin].
      + by rewrite !bool_decide_true by (rewrite ?elem_of_cons; auto).
      + rewrite (bool_decide_false _ Hin). cbn [negb andb].
        destruct (Z.eqb_spec p (rget 0 (committedMap t) r)) as [-> | Hpr].
        * by rewrite bool_decide_true by (rewrite elem_of_cons; auto).
        * by rewrite bool_decide_false by (rewrite elem_of_cons; tauto). }
  rewrite H by (apply Forall_seqZ; lia). rewrite Z.ones_spec_low, andb_true_r by lia. f_equal.
  apply bool_decide_ext. rewrite (list_elem_of_fmap (rget 0 (committedMap t)) (seqZ 0 ARCH_REGS) p).
  rewrite list_elem_of_lookup. split.
  - intros (r & -> & Hr%elem_of_seqZ). exists (Z.to_nat r). apply rget_lookup. lia.
  - intros [n Hn]. exists (Z.of_nat n). pose proof (lookup_lt_Some _ _ _ Hn). split.
    + unfold rget. by rewrite Nat2Z.id, Hn.
    + apply elem_of_seqZ. lia.
Qed.

(** *** The count of free registers *)

Lemma fold_count_length (f : Z -> bool) ks n :
  fold_left (fun n p => if f p then n + 1 else n) ks n = n + Z.of_nat (length (List.filter f ks)).
Proof.
  revert n. induction ks as [| k ks IH]; intros n; cbn [fold_left List.filter]; [cbn; lia |].
  rewrite IH. destruct (f k); cbn [length]; lia.
Qed.

Lemma filter_length_clear mask p ks :
  NoDup ks -> Forall (fun k => 0 <= k < PHYS_REGS) ks -> 0 <= p < PHYS_REGS -> Z.testbit mask p = true ->
  length (List.filter (Z.testbit mask) ks) =
  ((if bool_decide (p ∈ ks) then 1 else 0) + length (List.filter (Z.testbit (set_bit PHYS_REGS mask p false)) ks))%nat.
Proof.
  intros Hnd Hks Hp Hb. induction Hnd as [| k ks Hk Hnd IH]; [done |].
  apply Forall_cons_1 in Hks as [Hkr Hks]. specialize (IH Hks). cbn [List.filter].
  rewrite testbit_set_bit by lia. destruct (Z.eqb_spec k p) as [-> | Hne].
  - rewrite Hb, bool_decide_true by (rewrite elem_of_cons; auto). cbn [length]. rewrite IH.
    by rewrite bool_decide_false.
  - rewrite (bool_decide_ext (p ∈ k :: ks) (p ∈ ks)) by (rewrite elem_of_cons; split; [intros [|]; congruence | auto]).
    destruct (Z.testbit mask k); cbn [length]; lia.
Qed.

Lemma count_bits_clear mask p :
  0 <= p < PHYS_REGS -> Z.testbit mask p = true -> count_bits (set_bit PHYS_REGS mask p false) = count_bits mask - 1.
Proof.
  intros Hp Hb. unfold count_bits. rewrite !fold_count_length.
  rewrite (filter_length_clear mask p) by (try done; try apply NoDup_seqZ; apply Forall_seqZ; lia).
  rewrite bool_decide_true by (apply elem_of_seqZ; lia). lia.
Qed.

Lemma count_bits_range mask : 0 <= count_bits mask <= PHYS_REGS.
Proof.
  unfold count_bits. rewrite fold_count_length. pose proof (filter_length_le (Z.testbit mask) (seqZ 0 PHYS_REGS)) as H.
  rewrite length_seqZ in H. lia.
Qed.

Lemma freeCount_bits f : freeCount_o f = count_bits (freeMask f).
Proof.
  unfold freeCount_o. pose proof (count_bits_range (freeMask f)). apply uwrap_id; [apply Z.log2_up_nonneg |].
  pose proof (Z.log2_log2_up_spec (PHYS_REGS + 1) ltac:(lia)). unfold in_u. lia.
Qed.

(** While the count is positive a register is found. *)
Lemma first_free_count mask :
  Z.testbit mask 0 = false -> 0 < count_bits mask -> is_Some (first_free mask).
Proof.
  intros H0 Hc. unfold first_free. destruct (List.find _ _) eqn:E; [eauto |]. exfalso.
  unfold count_bits in Hc. rewrite fold_count_length in Hc.
  destruct (List.filter (Z.testbit mask) (seqZ 0 PHYS_REGS)) as [| p l] eqn:El; [cbn in Hc; lia |].
  assert (In p (List.filter (Z.testbit mask) (seqZ 0 PHYS_REGS))) as Hin by (rewrite El; by left).
  apply filter_In in Hin as [Hin Hb]. apply list_elem_of_In, elem_of_seqZ in Hin.
  destruct (Z.eq_dec p 0) as [-> | Hne]; [congruence |].
  pose proof (find_none _ _ E p) as Hn. rewrite Hb in Hn. enough (true = false) by done. apply Hn.
  apply list_elem_of_In, elem_of_seqZ. lia.
Qed.
End rename.
