(* ===== verification/Dispatch.v ===== *)
(** * Dispatch: DispatchControl.sv

    Which of the decoded instructions of a cycle enter the backend.  The
    controller counts the free entries of the reorder buffer, the scheduler, the
    load/store queue and the free list; an instruction enters when all it needs
    is free and no older one was held back. *)

From Stdlib Require Import ZArith Lia.
From stdpp Require Import base list numbers.
From S2P Require Import Prelude Hw Rename.

Local Open Scope Z_scope.

(** The inputs of a lane. *)
Record lane_in := LaneIn {
  laneValid_i : bool; laneSupported_i : bool; laneWritesDestination_i : bool; laneIsMemory_i : bool }.

(** The loop over the lanes: [accept_o]. *)
Fixpoint accept_lanes (robFree issueFree lsqFree physFree : Z) (olderLaneAccepted : bool) (lanes : list lane_in)
    : list bool :=
  match lanes with
  | [] => []
  | l :: lanes =>
      let laneHasResources :=
        (0 <? robFree) && (0 <? issueFree) && (negb (laneIsMemory_i l) || (0 <? lsqFree)) &&
        (negb (laneWritesDestination_i l) || (0 <? physFree)) in
      let accept := olderLaneAccepted && laneValid_i l && laneSupported_i l && laneHasResources in
      accept ::
        accept_lanes
          (if accept then robFree - 1 else robFree) (if accept then issueFree - 1 else issueFree)
          (if accept && laneIsMemory_i l then lsqFree - 1 else lsqFree)
          (if accept && laneWritesDestination_i l then physFree - 1 else physFree)
          (if laneValid_i l && negb accept then false else olderLaneAccepted) lanes
  end.

Section dispatch.
(** The capacities of TypesPkg.sv. *)
Context (ROB_ENTRY_NUM UNIFIED_IQ_ENTRY_NUM LSQ_ENTRY_NUM : Z).

Definition accept_o (robCount issueCount lsqCount freePhysCount : Z) (lanes : list lane_in) : list bool :=
  accept_lanes (ROB_ENTRY_NUM - robCount) (UNIFIED_IQ_ENTRY_NUM - issueCount) (LSQ_ENTRY_NUM - lsqCount)
    freePhysCount true lanes.
Definition stall_o (lanes : list lane_in) (accept : list bool) : bool :=
  match lanes, accept with l :: _, a :: _ => laneValid_i l && negb a | _, _ => false end.
End dispatch.

(** ** What it guarantees *)

Definition count_true (bs : list bool) : Z := Z.of_nat (length (List.filter id bs)).

Lemma count_true_cons b bs : count_true (b :: bs) = (if b then 1 else 0) + count_true bs.
Proof. unfold count_true. cbn. destruct b; cbn; lia. Qed.

(** The accepted lanes with a property. *)
Definition accepted_with (f : lane_in -> bool) (accept : list bool) (lanes : list lane_in) : list bool :=
  zip_with (fun a l => a && f l) accept lanes.

Lemma length_accept_lanes rf qf lf pf o lanes : length (accept_lanes rf qf lf pf o lanes) = length lanes.
Proof. revert rf qf lf pf o. induction lanes as [| l lanes IH]; intros; cbn; [done |]. by rewrite IH. Qed.

Lemma accept_lanes_none rf qf lf pf lanes n : accept_lanes rf qf lf pf false lanes !! n <> Some true.
Proof.
  revert rf qf lf pf n. induction lanes as [| l lanes IH]; intros rf qf lf pf n; [done |]. cbn [accept_lanes andb].
  destruct n as [| n]; [done |]. cbn [lookup list_lookup]. destruct (laneValid_i l && negb false); apply IH.
Qed.

(** No more instructions are accepted than there are free entries, in each
    structure. *)
Lemma accept_lanes_fit rf qf lf pf o lanes :
  let a := accept_lanes rf qf lf pf o lanes in
  (0 <= rf -> count_true a <= rf) /\ (0 <= qf -> count_true a <= qf) /\
  (0 <= lf -> count_true (accepted_with laneIsMemory_i a lanes) <= lf) /\
  (0 <= pf -> count_true (accepted_with laneWritesDestination_i a lanes) <= pf).
Proof.
  revert rf qf lf pf o. induction lanes as [| l lanes IH]; intros rf qf lf pf o; [unfold count_true; cbn; lia |].
  cbn zeta. cbn [accept_lanes accepted_with zip_with]. set (acc := o && laneValid_i l && laneSupported_i l && _).
  rewrite !count_true_cons.
  match goal with |- context [accept_lanes ?a ?b ?c ?d ?e lanes] => pose proof (IH a b c d e) as H end.
  unfold accepted_with in H. cbn zeta in H. destruct acc eqn:E; cbn [andb] in *; [| lia].
  unfold acc in E. repeat (apply andb_true_iff in E as [E ?]).
  destruct (laneIsMemory_i l), (laneWritesDestination_i l); cbn [negb orb] in *;
    repeat match goal with H : (0 <? _) = true |- _ => apply Z.ltb_lt in H end; lia.
Qed.

(** Dispatch is in order: an instruction enters only together with all older
    valid ones of its group. *)
Lemma accept_lanes_in_order rf qf lf pf lanes m n l :
  accept_lanes rf qf lf pf true lanes !! n = Some true -> (m < n)%nat -> lanes !! m = Some l ->
  laneValid_i l = true -> accept_lanes rf qf lf pf true lanes !! m = Some true.
Proof.
  revert rf qf lf pf m n. induction lanes as [| x lanes IH]; intros rf qf lf pf m n Hn Hmn Hm Hv; [done |].
  cbn [accept_lanes andb] in *. destruct n as [| n]; [lia |]. cbn [lookup list_lookup] in Hn.
  set (acc := laneValid_i x && laneSupported_i x && _) in *.
  destruct (laneValid_i x && negb acc) eqn:E.
  - by apply accept_lanes_none in Hn.
  - destruct m as [| m]; cbn in Hm.
    + injection Hm as ->. rewrite Hv in E. cbn in E. by destruct acc.
    + cbn [lookup list_lookup]. apply (IH _ _ _ _ m n Hn); [lia | done | done].
Qed.

Lemma accept_lanes_valid rf qf lf pf o lanes n :
  accept_lanes rf qf lf pf o lanes !! n = Some true -> exists l, lanes !! n = Some l /\ laneValid_i l = true.
Proof.
  revert rf qf lf pf o n. induction lanes as [| x lanes IH]; intros rf qf lf pf o n Hn; [done |].
  cbn [accept_lanes] in Hn. destruct n as [| n]; cbn [lookup list_lookup] in Hn |- *.
  - injection Hn as Hn. exists x. split; [done |]. by destruct o, (laneValid_i x).
  - by apply IH in Hn.
Qed.

(** Every accepted instruction with a destination gets a physical register
    from the free list in the same cycle. *)
Lemma accept_lanes_alloc PHYS_REGS rf qf lf mask o lanes :
  0 < PHYS_REGS -> Z.testbit mask 0 = false ->
  let a := accept_lanes rf qf lf (count_bits PHYS_REGS mask) o lanes in
  let reqs := accepted_with laneWritesDestination_i a lanes in
  forall n, reqs !! n = Some true -> exists p, free_alloc PHYS_REGS mask reqs !! n = Some (true, p).
Proof.
  intros HP. revert rf qf lf mask o. induction lanes as [| l lanes IH]; intros rf qf lf mask o H0 a reqs n Hn; [done |].
  subst a reqs. cbn [accept_lanes accepted_with zip_with free_alloc] in *.
  set (acc := o && laneValid_i l && laneSupported_i l && _) in *.
  revert Hn. destruct (acc && laneWritesDestination_i l) eqn:E; intros Hn.
  - assert (0 < count_bits PHYS_REGS mask) as Hc.
    { apply andb_true_iff in E as [Ea Ew]. unfold acc in Ea. rewrite Ew in Ea. cbn [negb orb] in Ea.
      apply andb_true_iff in Ea as [_ [_ Ea]%andb_true_iff]. by apply Z.ltb_lt. }
    destruct (first_free_count PHYS_REGS mask H0 Hc) as [p Hp]. rewrite Hp.
    apply first_free_Some in Hp as [Hp Hb]. destruct n as [| n]; [by exists p |].
    cbn [lookup list_lookup] in Hn |- *. rewrite <- (count_bits_clear PHYS_REGS mask p) in * by (done || lia).
    apply IH; [| done]. rewrite testbit_set_bit by lia. destruct (Z.eqb_spec 0 p); [lia | done].
  - destruct n as [| n]; [done |]. cbn [lookup list_lookup] in Hn.
    destruct (first_free PHYS_REGS mask) as [p |]; cbn [lookup list_lookup]; by apply IH.
Qed.
