(* ===== verification/Commit.v ===== *)
(** * Retirement: BackendCommitStage.sv

    Which of the entries that the reorder buffer offers retire in a cycle, the
    store they send to memory, and traps.  The stage makes two passes over the
    lanes: the first forms the store request without looking at the Ready of the
    memory, the second decides what retires. *)

From Stdlib Require Import ZArith Lia.
From stdpp Require Import base list numbers.
From S2P Require Import Prelude Hw MemWord Csr Isa Decode Rob.

Local Open Scope Z_scope.

(** [lsq_entry_t] *)
Record lsq_entry := LsqEntry {
  lq_valid : bool; lq_isLoad : bool; lq_isStore : bool; lq_robTag : Z; lq_destPhys : Z;
  lq_memCtr : mem_access; lq_pc : Z; lq_addressReady : bool; lq_address : Z;
  lq_dataReady : bool; lq_storeDataPhys : Z; lq_storeData : Z
}.
Definition lsq_entry0 : lsq_entry := LsqEntry false false false 0 0 MEM_BYTE 0 false 0 false 0 0.

Section commit.
Context {Meta : Type} (MMIO_BASE_ADDR MMIO_LAST_ADDR : Z).

(** The inputs: the lanes of the reorder buffer, the two oldest entries of the
    load/store queue with their tags. *)
Record commit_in := CommitIn {
  recoveryValid_i : bool; branchTrainReady_i : bool; storeReady_i : bool; mmioStoreReady_i : bool;
  robCommit_i : list (bool * @rob_entry Meta); lsqHead_i : list (lsq_entry * Z) }.

(** The Ready/Valid request of a store. *)
Record store_req := StoreReq { st_mmio : bool; st_address : Z; st_data : Z; st_access : mem_access }.

Definition addressIsMmio (a : Z) : bool := (MMIO_BASE_ADDR <=? a) && (a <=? MMIO_LAST_ADDR).

Section passes.
Context (i : commit_in).

Definition lsq_head (offset : Z) : lsq_entry * Z := rget (lsq_entry0, 0) (lsqHead_i i) offset.
Definition is_store (e : @rob_entry Meta) : bool := re_isMemory e && re_isStore e.
Definition request_of (offset : Z) : store_req :=
  let q := (lsq_head offset).1 in StoreReq (addressIsMmio (lq_address q)) (lq_address q) (lq_storeData q) (lq_memCtr q).

(** The conditions that the two passes share: the lane may commit, its entry of
    the load/store queue is the next one, a store is the only one and has its
    address and data; a branch is the only one and can be trained. *)
Definition lane_ready (prefix : bool) (lane : bool * @rob_entry Meta) : bool :=
  negb (recoveryValid_i i) && prefix && lane.1 && negb (re_exception lane.2).
Definition memory_ready (offset stores : Z) (e : @rob_entry Meta) : bool :=
  if re_isMemory e then
    lq_valid (lsq_head offset).1 && ((lsq_head offset).2 =? re_lsqTag e) &&
    (if re_isStore e then lq_addressReady (lsq_head offset).1 && lq_dataReady (lsq_head offset).1 && (stores =? 0)
     else true)
  else true.
Definition branch_ready (branches : Z) (e : @rob_entry Meta) : bool :=
  if re_isBranch e then (branches =? 0) && branchTrainReady_i i else true.
Definition port_ready (offset : Z) (e : @rob_entry Meta) : bool :=
  if is_store e
  then (if addressIsMmio (lq_address (lsq_head offset).1) then mmioStoreReady_i i else storeReady_i i) else true.

Definition bump (b : bool) (n : Z) : Z := if b then n + 1 else n.

(** First pass. *)
Fixpoint candidate_pass (prefix : bool) (offset stores branches : Z) (lanes : list (bool * @rob_entry Meta))
    (store : option store_req) : option store_req :=
  match lanes with
  | [] => store
  | lane :: lanes =>
      let e := lane.2 in
      if lane_ready prefix lane && memory_ready offset stores e && branch_ready branches e
      then candidate_pass prefix (bump (re_isMemory e) offset) (bump (is_store e) stores)
             (bump (re_isBranch e) branches) lanes (if is_store e then Some (request_of offset) else store)
      else candidate_pass false offset stores branches lanes store
  end.

(** Second pass: [robCommitReady_o] (which is also [robRetireValid_o]) and the
    number of memory instructions that retire. *)
Fixpoint retire_pass (prefix : bool) (offset stores branches : Z) (lanes : list (bool * @rob_entry Meta))
    : list bool * Z :=
  match lanes with
  | [] => ([], offset)
  | lane :: lanes =>
      let e := lane.2 in
      if lane_ready prefix lane && memory_ready offset stores e && port_ready offset e && branch_ready branches e
      then let '(rs, n) := retire_pass prefix (bump (re_isMemory e) offset) (bump (is_store e) stores)
                             (bump (re_isBranch e) branches) lanes in (true :: rs, n)
      else let '(rs, n) := retire_pass false offset stores branches lanes in (false :: rs, n)
  end.

Definition store_o : option store_req := candidate_pass true 0 0 0 (robCommit_i i) None.
Definition robCommitReady_o : list bool := (retire_pass true 0 0 0 (robCommit_i i)).1.
Definition lsqRetireCount_o : Z := uwrap 2 (retire_pass true 0 0 0 (robCommit_i i)).2.

(** [trapValid_o] with [trapPc_o], [trapCause_o], [trapValue_o]; [mretCommit_o]. *)
Definition trapValid_o : bool :=
  match robCommit_i i with (v, e) :: _ => v && re_exception e | [] => false end.
Definition trap_o : Z * Z * Z :=
  match robCommit_i i with (_, e) :: _ => (re_pc e, re_exceptionCause e, re_exceptionValue e) | [] => (0, 0, 0) end.
Definition mretCommit_o : bool :=
  existsb (fun '(r, (_, e)) => r && re_mret e) (zip robCommitReady_o (robCommit_i i)).

(** ** What it guarantees *)

(** The stores that retire, with their data. *)
Fixpoint retired_stores (offset : Z) (ready : list bool) (lanes : list (bool * @rob_entry Meta)) : list store_req :=
  match ready, lanes with
  | r :: rs, lane :: lanes =>
      (if r && is_store lane.2 then [request_of offset] else []) ++
      retired_stores (bump (r && re_isMemory lane.2) offset) rs lanes
  | _, _ => []
  end.

Lemma retire_pass_false offset stores branches lanes n :
  (retire_pass false offset stores branches lanes).1 !! n <> Some true.
Proof.
  revert n. induction lanes as [| lane lanes IH]; intros n; [done |]. cbn [retire_pass].
  unfold lane_ready. rewrite andb_false_r. cbn [andb]. specialize (IH (pred n)).
  destruct (retire_pass false offset stores branches lanes) as [rs k]. by destruct n.
Qed.

Lemma length_retire_pass prefix offset stores branches lanes :
  length (retire_pass prefix offset stores branches lanes).1 = length lanes.
Proof.
  revert prefix offset stores branches. induction lanes as [| lane lanes IH]; intros prefix offset stores branches; [done |].
  cbn [retire_pass length]. destruct (_ && _ && _ && _);
    match goal with |- context [retire_pass ?a ?b ?c ?d lanes] =>
      specialize (IH a b c d); destruct (retire_pass a b c d lanes) as [rs k] end; cbn in *; by rewrite IH.
Qed.

(** A lane that retires is offered and has no exception, there is no recovery,
    and all lanes before it retire. *)
Lemma retire_pass_lane prefix offset stores branches lanes n :
  (retire_pass prefix offset stores branches lanes).1 !! n = Some true ->
  recoveryValid_i i = false /\ (exists e, lanes !! n = Some (true, e) /\ re_exception e = false) /\
  forall m, (m < n)%nat -> (retire_pass prefix offset stores branches lanes).1 !! m = Some true.
Proof.
  revert prefix offset stores branches n. induction lanes as [| lane lanes IH];
    intros prefix offset stores branches n Hn; [done |]. cbn [retire_pass] in *.
  destruct (lane_ready prefix lane && _ && _ && _) eqn:E.
  - match type of Hn with context [retire_pass ?a ?b ?c ?d lanes] =>
      specialize (IH a b c d (pred n)); destruct (retire_pass a b c d lanes) as [rs k] end. cbn [fst] in *.
    assert (recoveryValid_i i = false /\ lane.1 = true /\ re_exception lane.2 = false) as (Hrec & Hv & Hx).
    { do 3 (apply andb_true_iff in E as [E _]). unfold lane_ready in E.
      by destruct (recoveryValid_i i), prefix, lane.1, (re_exception lane.2). }
    destruct n as [| n].
    + split; [done |]. split; [exists lane.2; by rewrite <- Hv, <- surjective_pairing |]. lia.
    + destruct (IH Hn) as (? & ? & Hm). split; [done |]. split; [done |]. intros [| m] Hlt; [done |]. apply Hm. cbn. lia.
  - exfalso. pose proof (retire_pass_false offset stores branches lanes (pred n)) as Hf.
    destruct (retire_pass false offset stores branches lanes) as [rs k]. by destruct n.
Qed.

Lemma retired_stores_false offset lanes stores branches off :
  retired_stores offset (retire_pass false off stores branches lanes).1 lanes = [].
Proof.
  revert offset off. induction lanes as [| lane lanes IH]; intros offset off; [done |]. cbn [retire_pass].
  unfold lane_ready. rewrite andb_false_r. cbn [andb]. specialize (IH offset off).
  destruct (retire_pass false off stores branches lanes) as [rs k]. cbn in *. done.
Qed.

Lemma candidate_pass_false offset stores branches lanes st :
  candidate_pass false offset stores branches lanes st = st.
Proof.
  revert st. induction lanes as [| lane lanes IH]; intros st; [done |]. cbn [candidate_pass].
  unfold lane_ready. rewrite andb_false_r. cbn [andb]. apply IH.
Qed.

(** A second store of the same cycle is never a candidate. *)
Lemma one_store_candidate prefix offset stores branches lanes st :
  0 < stores -> candidate_pass prefix offset stores branches lanes st = st.
Proof.
  revert prefix offset stores branches st. induction lanes as [| lane lanes IH];
    intros prefix offset stores branches st Hs; [done |]. cbn [candidate_pass].
  destruct (lane_ready _ _ && _ && _) eqn:E; [| by apply IH].
  rewrite IH by (unfold bump; destruct (is_store _); lia).
  destruct (is_store lane.2) eqn:Es; [exfalso | done]. unfold is_store in Es. apply andb_true_iff in Es as [Em Es].
  unfold memory_ready in E. rewrite Em, Es, (proj2 (Z.eqb_neq stores 0)), !andb_false_r in E by lia. done.
Qed.

Lemma one_store_retires prefix offset stores branches lanes :
  0 < stores -> retired_stores offset (retire_pass prefix offset stores branches lanes).1 lanes = [].
Proof.
  revert prefix offset stores branches. induction lanes as [| lane lanes IH]; intros prefix offset stores branches Hs; [done |].
  cbn [retire_pass]. destruct (lane_ready _ _ && _ && _ && _) eqn:E.
  - specialize (IH prefix (bump (re_isMemory lane.2) offset) (bump (is_store lane.2) stores)
      (bump (re_isBranch lane.2) branches) ltac:(unfold bump; destruct (is_store _); lia)).
    destruct (retire_pass prefix _ _ _ lanes) as [rs k]. cbn [fst retired_stores andb] in *. rewrite IH.
    destruct (is_store lane.2) eqn:Es; [exfalso | done]. unfold is_store in Es. apply andb_true_iff in Es as [Em Es].
    unfold memory_ready in E. rewrite Em, Es, (proj2 (Z.eqb_neq stores 0)), !andb_false_r in E by lia. done.
  - pose proof (retired_stores_false offset lanes stores branches offset) as H.
    destruct (retire_pass false offset stores branches lanes) as [rs k]. done.
Qed.

Definition accepts (s : store_req) : bool := if st_mmio s then mmioStoreReady_i i else storeReady_i i.

Lemma passes_agree prefix offset branches lanes :
  retired_stores offset (retire_pass prefix offset 0 branches lanes).1 lanes =
  match candidate_pass prefix offset 0 branches lanes None with
  | Some s => if accepts s then [s] else []
  | None => []
  end.
Proof.
  revert prefix offset branches. induction lanes as [| lane lanes IH]; intros prefix offset branches; [done |].
  cbn [retire_pass candidate_pass]. set (e := lane.2). rewrite <- andb_assoc, (andb_comm (port_ready offset e)), andb_assoc.
  destruct (lane_ready prefix lane && memory_ready offset 0 e && branch_ready branches e); cbn [andb].
  2: { pose proof (retired_stores_false offset lanes 0 branches offset) as H. rewrite candidate_pass_false.
       destruct (retire_pass false offset 0 branches lanes) as [rs k]. done. }
  destruct (is_store e) eqn:Es.
  - cbn [bump]. rewrite one_store_candidate by lia.
    assert (port_ready offset e = accepts (request_of offset)) as ->.
    { unfold port_ready, accepts, request_of. cbn. by rewrite Es. }
    destruct (accepts (request_of offset)).
    + pose proof (one_store_retires prefix (bump (re_isMemory e) offset) (0 + 1) (bump (re_isBranch e) branches) lanes ltac:(lia)) as H.
      destruct (retire_pass prefix _ _ _ lanes) as [rs k]. cbn [fst retired_stores andb] in *. fold e. by rewrite Es, H.
    + pose proof (retired_stores_false offset lanes 0 branches offset) as H.
      destruct (retire_pass false offset 0 branches lanes) as [rs k]. done.
  - assert (port_ready offset e = true) as -> by (unfold port_ready; by rewrite Es). cbn [bump].
    specialize (IH prefix (bump (re_isMemory e) offset) (bump (re_isBranch e) branches)).
    destruct (retire_pass prefix _ 0 _ lanes) as [rs k]. cbn [fst retired_stores andb] in *. fold e. by rewrite Es, <- IH.
Qed.

(** A lane that retires. *)
Lemma retire_lane n :
  robCommitReady_o !! n = Some true ->
  recoveryValid_i i = false /\ trapValid_o = false /\
  (exists e, robCommit_i i !! n = Some (true, e) /\ re_exception e = false) /\
  forall m, (m < n)%nat -> robCommitReady_o !! m = Some true.
Proof.
  intros Hn.
  destruct (retire_pass_lane true 0 0 0 (robCommit_i i) n Hn) as (Hr & He & Hm). split_and!; [done | | done | done].
  assert (robCommitReady_o !! 0%nat = Some true) as H0 by (destruct n; [done | apply Hm; lia]).
  destruct (retire_pass_lane true 0 0 0 (robCommit_i i) 0 H0) as (_ & (e & E & Hx) & _).
  unfold trapValid_o. destruct (robCommit_i i) as [| [v e0] ?]; [done |]. injection E as -> ->. by rewrite Hx.
Qed.

(** C24: a store leaves the backend exactly when its instruction retires.  In every
    cycle the stores that retire are the request of the first pass when its port
    takes it (the store buffer, or the data memory for a host register), with
    the address, data and width of the queue entry of that instruction, and
    none otherwise: no store is lost, sent twice or sent for an instruction that
    stays.  Lanes retire in order, only when the buffer offers them without an
    exception, and never during a recovery or a trap. *)
Theorem stores_retire_with_their_request :
  retired_stores 0 robCommitReady_o (robCommit_i i) =
    match store_o with Some s => if accepts s then [s] else [] | None => [] end /\
  (forall n, robCommitReady_o !! n = Some true ->
     recoveryValid_i i = false /\ trapValid_o = false /\
     (exists e, robCommit_i i !! n = Some (true, e) /\ re_exception e = false) /\
     forall m, (m < n)%nat -> robCommitReady_o !! m = Some true).
Proof. split; [apply passes_agree | intros n; apply retire_lane]. Qed.
End passes.
End commit.
