(* ===== verification/Prf.v ===== *)
(** * The physical register file: PhysicalRegisterFile.sv

    Values and ready bits of the physical registers.  Allocation clears the
    ready bit, a write-back stores a value and sets it; reads see the write-backs
    of the same cycle.  Register 0 is always 0 and ready. *)

From Stdlib Require Import ZArith Lia.
From stdpp Require Import base list numbers.
From S2P Require Import Prelude Hw.

Local Open Scope Z_scope.

Section prf.
Context (REG_NUM PHYS_REGS : Z).

Record prf := PRF { registers : list Z; readyTable : Z }.

(** Ports: valid and register of an allocation; valid, register and data of a
    write-back. *)
Definition alloc_port : Type := bool * Z.
Definition wb_port : Type := bool * Z * Z.

(** [readData_o] and [readReady_o] of a read port. *)
Definition prf_read (f : prf) (wbs : list wb_port) (p : Z) : Z * bool :=
  if p =? 0 then (0, true)
  else fold_left (fun r '(v, q, d) => if v && (q =? p) then (d, true) else r) wbs
         (rget 0 (registers f) p, Z.testbit (readyTable f) p).

Definition prf_reset : prf := PRF (replicate (Z.to_nat PHYS_REGS) 0) (Z.ones REG_NUM).

Definition clear_ready (m : Z) (allocs : list alloc_port) : Z :=
  fold_left (fun m '(v, p) => if v && negb (p =? 0) then set_bit PHYS_REGS m p false else m) allocs m.
Definition set_ready (m : Z) (wbs : list wb_port) : Z :=
  fold_left (fun m '(v, p, _) => if v && negb (p =? 0) then set_bit PHYS_REGS m p true else m) wbs m.
Definition write_back (rs : list Z) (wbs : list wb_port) : list Z :=
  fold_left (fun rs '(v, p, d) => if v && negb (p =? 0) then rset rs p d else rs) wbs rs.

Definition prf_step (f : prf) (allocs : list alloc_port) (wbs : list wb_port) : prf :=
  PRF (rset (write_back (registers f) wbs) 0 0)
    (set_bit PHYS_REGS (set_ready (clear_ready (readyTable f) allocs) wbs) 0 true).

(** ** What it guarantees *)

Definition wb_ok (u : wb_port) : Prop := 0 <= u.1.2 < PHYS_REGS.
Definition sized (f : prf) : Prop := Z.of_nat (length (registers f)) = PHYS_REGS.

Context (Hphys : 0 < PHYS_REGS).

(** The last valid write-back to a register. *)
Definition written (wbs : list wb_port) (p : Z) : option Z :=
  fold_left (fun r '(v, q, d) => if v && (q =? p) then Some d else r) wbs None.

Lemma written_start wbs p x :
  fold_left (fun r '(v, q, d) => if v && (q =? p) then Some d else r) (wbs : list wb_port) x =
  match written wbs p with Some d => Some d | None => x end.
Proof.
  unfold written. revert x. induction wbs as [| [[v q] d] wbs IH]; intros x; [done |]. cbn [fold_left].
  rewrite IH, (IH (if v && (q =? p) then Some d else None)). 
  match goal with |- context [fold_left ?f wbs None] => destruct (fold_left f wbs None) end;
    by destruct (v && (q =? p)).
Qed.

Lemma written_cons v q d wbs p :
  written ((v, q, d) :: wbs) p =
  match written wbs p with Some x => Some x | None => if v && (q =? p) then Some d else None end.
Proof. apply (written_start wbs p (if v && (q =? p) then Some d else None)). Qed.

Lemma written_Some wbs p d : written wbs p = Some d -> (true, p, d) ∈ wbs.
Proof.
  induction wbs as [| [[v q] x] wbs IH]; [done |]. rewrite written_cons, elem_of_cons.
  destruct (written wbs p); [intros [= ->]; auto |]. destruct v; [| done]. cbn.
  destruct (Z.eqb_spec q p) as [-> |]; [intros [= ->]; auto | done].
Qed.

Lemma prf_read_written f wbs p :
  prf_read f wbs p =
  if p =? 0 then (0, true)
  else match written wbs p with
       | Some d => (d, true)
       | None => (rget 0 (registers f) p, Z.testbit (readyTable f) p)
       end.
Proof.
  unfold prf_read. destruct (p =? 0); [done |]. generalize (rget 0 (registers f) p, Z.testbit (readyTable f) p).
  induction wbs as [| [[v q] d] wbs IH]; intros x; [done |]. cbn [fold_left]. rewrite IH, written_cons.
  destruct (written wbs p); [done |]. by destruct (v && (q =? p)).
Qed.

Lemma write_back_length rs wbs : length (write_back rs wbs) = length rs.
Proof.
  unfold write_back. revert rs. induction wbs as [| [[v q] d] wbs IH]; intros rs; [done |]. cbn [fold_left].
  rewrite IH. destruct (_ && _); [apply length_rset | done].
Qed.

Lemma rget_write_back rs wbs p :
  Z.of_nat (length rs) = PHYS_REGS -> Forall wb_ok wbs -> 0 < p ->
  rget 0 (write_back rs wbs) p = match written wbs p with Some d => d | None => rget 0 rs p end.
Proof.
  intros Hrs Hok Hp. unfold write_back. revert rs Hrs.
  induction Hok as [| [[v q] d] wbs Hq Hok IH]; intros rs Hrs; [done |]. cbn [fold_left]. unfold wb_ok in Hq. cbn in Hq.
  rewrite IH by (destruct (_ && _); by rewrite ?length_rset). rewrite written_cons.
  destruct (written wbs p); [done |]. destruct v; [| done]. cbn [andb].
  destruct (Z.eqb_spec q 0) as [-> | Hq0]; cbn [negb]; [by rewrite (proj2 (Z.eqb_neq 0 p)) by lia |].
  rewrite rget_rset, (Z.eqb_sym p q) by lia. by destruct (q =? p).
Qed.

Lemma testbit_set_ready m wbs p :
  Forall wb_ok wbs -> 0 < p ->
  Z.testbit (set_ready m wbs) p = match written wbs p with Some _ => true | None => Z.testbit m p end.
Proof.
  intros Hok Hp. unfold set_ready. revert m.
  induction Hok as [| [[v q] d] wbs Hq Hok IH]; intros m; [done |]. cbn [fold_left]. unfold wb_ok in Hq. cbn in Hq.
  rewrite IH, written_cons. destruct (written wbs p); [done |]. destruct v; [| done]. cbn [andb].
  destruct (Z.eqb_spec q 0) as [-> | Hq0]; cbn [negb]; [by rewrite (proj2 (Z.eqb_neq 0 p)) by lia |].
  rewrite testbit_set_bit, (Z.eqb_sym p q) by lia. by destruct (q =? p).
Qed.

Lemma testbit_clear_ready m allocs p :
  0 < p < PHYS_REGS ->
  Z.testbit (clear_ready m allocs) p = negb (bool_decide ((true, p) ∈ allocs)) && Z.testbit m p.
Proof.
  intros Hp. unfold clear_ready. revert m. induction allocs as [| [v q] allocs IH]; intros m.
  - cbn. rewrite bool_decide_false; [done |]. apply not_elem_of_nil.
  - cbn [fold_left]. rewrite IH. destruct (decide ((true, p) ∈ allocs)) as [H | H].
    + by rewrite !bool_decide_true by (rewrite ?elem_of_cons; auto).
    + rewrite (bool_decide_false _ H). cbn [negb andb]. destruct (decide ((true, p) = (v, q))) as [[= <- <-] | Hne].
      * rewrite bool_decide_true by (rewrite elem_of_cons; auto). rewrite (proj2 (Z.eqb_neq p 0)) by lia. cbn.
        by rewrite testbit_set_bit_any, Z.eqb_refl by lia.
      * rewrite bool_decide_false by (rewrite elem_of_cons; tauto). cbn [negb andb].
        destruct v; [| done]. destruct (Z.eqb_spec q 0); cbn [negb andb]; [done |].
        rewrite testbit_set_bit_any by lia. destruct (Z.eqb_spec p q); [congruence | done].
Qed.

(** A register after one edge. *)
Lemma prf_step_value f allocs wbs p :
  sized f -> Forall wb_ok wbs -> 0 <= p < PHYS_REGS ->
  rget 0 (registers (prf_step f allocs wbs)) p =
  if p =? 0 then 0 else match written wbs p with Some d => d | None => rget 0 (registers f) p end.
Proof.
  intros Hf Hok Hp. unfold sized in Hf. unfold prf_step. cbn [registers].
  rewrite rget_rset by (rewrite ?write_back_length; lia). destruct (Z.eqb_spec p 0); [done |].
  by rewrite rget_write_back by (done || lia).
Qed.

Lemma prf_step_ready f allocs wbs p :
  Forall wb_ok wbs -> 0 <= p < PHYS_REGS ->
  Z.testbit (readyTable (prf_step f allocs wbs)) p =
  if p =? 0 then true
  else match written wbs p with
       | Some _ => true
       | None => negb (bool_decide ((true, p) ∈ allocs)) && Z.testbit (readyTable f) p
       end.
Proof.
  intros Hok Hp. unfold prf_step. cbn [readyTable]. rewrite testbit_set_bit by lia.
  destruct (Z.eqb_spec p 0); [done |]. by rewrite testbit_set_ready, testbit_clear_ready by (done || lia).
Qed.

Lemma prf_step_sized f allocs wbs : sized f -> sized (prf_step f allocs wbs).
Proof. unfold sized, prf_step. cbn. by rewrite length_rset, write_back_length. Qed.

(** The bypass: a read sees what the register will hold after the edge. *)
Lemma prf_read_next f allocs wbs p :
  sized f -> Forall wb_ok wbs -> 0 <= p < PHYS_REGS ->
  (prf_read f wbs p).1 = rget 0 (registers (prf_step f allocs wbs)) p.
Proof.
  intros Hf Hok Hp. rewrite prf_step_value, prf_read_written by done.
  destruct (p =? 0); [done |]. by destruct (written wbs p).
Qed.
End prf.
