(* ===== verification/RenameInv.v ===== *)
(** * The invariant of register renaming

    The committed map [C] and the list [L] of what the instructions in flight
    rename determine everything else: the map a newly decoded instruction sees is
    [C] with the writes of [L] applied in program order, and a physical register
    is in use exactly when it is in [C] or is the destination of an instruction
    of [L].  The lemmas say that this survives renaming, retirement and
    cutting [L] behind a branch. *)

From Stdlib Require Import ZArith Lia.
From stdpp Require Import base numbers list.
From S2P Require Import Prelude Hw Rename.

Local Open Scope Z_scope.

(** What an instruction renames: whether it writes, the architectural register,
    the new and the previous physical register; and whether it is a branch. *)
Record ren_info := RenInfo {
  ri_writes : bool; ri_rd : Z; ri_new : Z; ri_old : Z; ri_branch : bool }.

Definition ren (x : ren_info) : write_port := (ri_writes x, ri_rd x, ri_new x).
Definition rens (L : list ren_info) : list write_port := map ren L.
Definition news (L : list ren_info) : list Z := omap (fun x => if ri_writes x then Some (ri_new x) else None) L.
Definition olds (L : list ren_info) : list Z := omap (fun x => if ri_writes x then Some (ri_old x) else None) L.

Section inv.
Context (ARCH_REGS PHYS_REGS : Z).

(** The map after the instructions [L]. *)
Definition view (C : list Z) (L : list ren_info) : list Z := map_writes C (rens L).

(** The physical registers in use. *)
Definition busy (C : list Z) (L : list ren_info) : list Z := C ++ news L.

Definition renamed_ok (m : list Z) (x : ren_info) : Prop :=
  0 <= ri_rd x < ARCH_REGS /\ (ri_writes x = true -> 0 < ri_rd x /\ ri_old x = rget 0 m (ri_rd x)).

Record wf (C : list Z) (L : list ren_info) : Prop := {
  wf_length : Z.of_nat (length C) = ARCH_REGS;
  wf_zero : rget 0 C 0 = 0;
  wf_nodup : NoDup (busy C L);
  wf_range : Forall (fun p => 0 <= p < PHYS_REGS) (busy C L);
  wf_renamed : forall n x, L !! n = Some x -> renamed_ok (view C (take n L)) x
}.

(** A mask of free registers. *)
Definition free_ok (mask : Z) (C : list Z) (L : list ren_info) : Prop :=
  forall p, 0 <= p < PHYS_REGS -> Z.testbit mask p = negb (bool_decide (p ∈ busy C L)).

Context (Harch : 0 < ARCH_REGS) (Hphys : ARCH_REGS < PHYS_REGS).

Lemma rens_app L K : rens (L ++ K) = rens L ++ rens K.
Proof. apply map_app. Qed.
Lemma news_app L K : news (L ++ K) = news L ++ news K.
Proof. apply omap_app. Qed.
Lemma view_app C L K : view C (L ++ K) = view (view C L) K.
Proof. unfold view. by rewrite rens_app, map_writes_app. Qed.
Lemma view_cons C x L : view C (x :: L) = view (map_write C (ren x)) L.
Proof. done. Qed.
Lemma news_one x : news [x] = if ri_writes x then [ri_new x] else [].
Proof. unfold news. cbn. by destruct (ri_writes x). Qed.
Lemma view_one_skip C x : ri_writes x = false -> view C [x] = C.
Proof. intros E. unfold view. cbn. unfold ren. by rewrite E. Qed.
Lemma length_view C L : length (view C L) = length C.
Proof. apply length_map_writes. Qed.

Lemma news_take_subset L n p : p ∈ news (take n L) -> p ∈ news L.
Proof. intros H. rewrite <- (take_drop n L), news_app. apply elem_of_app. auto. Qed.

Lemma wf_init : wf (seqZ 0 ARCH_REGS) [].
Proof.
  split.
  - rewrite length_seqZ. lia.
  - unfold rget. by rewrite lookup_seqZ_lt by lia.
  - unfold busy. rewrite app_nil_r. apply NoDup_seqZ.
  - unfold busy. rewrite app_nil_r. apply Forall_seqZ. lia.
  - done.
Qed.

Lemma busy_take_sublist C L n : busy C (take n L) `sublist_of` busy C L.
Proof.
  unfold busy. rewrite <- (take_drop n L) at 2. rewrite news_app, app_assoc. apply sublist_inserts_r. done.
Qed.

Lemma wf_take C L n : wf C L -> wf C (take n L).
Proof.
  intros [Hl H0 Hn Hr Hx]. split; [done | done | | |].
  - eapply sublist_NoDup; [exact Hn | apply busy_take_sublist].
  - unfold busy in *. rewrite <- (take_drop n L), news_app, app_assoc in Hr. by apply Forall_app in Hr as [? _].
  - intros m x Hm. apply lookup_take_Some in Hm as [Hm Hlt]. rewrite take_take, Nat.min_l by lia. by apply Hx.
Qed.

Lemma wf_ports C L : wf C L -> Forall (port_ok ARCH_REGS) (rens L).
Proof.
  intros H. apply Forall_lookup_2. intros n u Hu. unfold rens in Hu. rewrite list_lookup_fmap in Hu.
  destruct (L !! n) as [x |] eqn:E; [| done]. injection Hu as <-. by destruct (wf_renamed _ _ H n x E).
Qed.

(** The speculative map never renames register 0. *)
Lemma view_zero C L : wf C L -> rget 0 (view C L) 0 = 0.
Proof.
  intros H. apply (map_writes_0 ARCH_REGS); [apply (wf_length _ _ H) | by apply (wf_ports C) | apply (wf_zero _ _ H)].
Qed.

(** What the map gives is in use. *)
Lemma view_busy C L r : wf C L -> 0 <= r < ARCH_REGS -> rget 0 (view C L) r ∈ busy C L.
Proof.
  intros Hwf Hr. assert (forall n, (n <= length L)%nat -> rget 0 (view C (take n L)) r ∈ busy C (take n L)) as H.
  2: { specialize (H (length L) (le_n _)). by rewrite firstn_all in H. }
  induction n as [| n IH]; intros Hn.
  - pose proof (rget_lookup 0 C r) as E. rewrite (wf_length _ _ Hwf) in E. unfold busy. rewrite take_0.
    apply elem_of_app. left. apply list_elem_of_lookup. eauto.
  - destruct (lookup_lt_is_Some_2 L n ltac:(lia)) as [x Hx]. rewrite (take_S_r _ _ _ Hx), view_app.
    destruct (wf_renamed _ _ Hwf n x Hx) as [Hrd _].
    change (view ?V [x]) with (map_write V (ren x)). unfold busy. rewrite news_app, news_one, app_assoc.
    rewrite (rget_map_write ARCH_REGS) by (rewrite ?length_view; try apply (wf_length _ _ Hwf); done || lia). cbn [ren fst snd].
    destruct (ri_writes x); cbn [andb]; [| rewrite app_nil_r; apply IH; lia].
    destruct (negb (ri_rd x =? 0) && (r =? ri_rd x)); apply elem_of_app; [right; by apply list_elem_of_singleton | left; apply IH; lia].
Qed.

(** One more renamed instruction, with a fresh register if it writes. *)
Lemma wf_snoc C L x :
  wf C L -> renamed_ok (view C L) x ->
  (ri_writes x = true -> 0 <= ri_new x < PHYS_REGS /\ ri_new x ∉ busy C L) -> wf C (L ++ [x]).
Proof.
  intros [Hl H0 Hn Hr Hx] Hok Hf.
  assert (busy C (L ++ [x]) = busy C L ++ (if ri_writes x then [ri_new x] else [])) as E.
  { unfold busy. rewrite news_app, app_assoc. f_equal. cbn. by destruct (ri_writes x). }
  split; [done | done | | |].
  - rewrite E. destruct (ri_writes x); [| by rewrite app_nil_r]. destruct (Hf eq_refl) as [_ Hni].
    apply NoDup_app. split; [done |]. split; [| apply NoDup_singleton].
    intros p Hp ->%list_elem_of_singleton. done.
  - rewrite E. apply Forall_app. split; [done |]. destruct (ri_writes x); [| constructor].
    destruct (Hf eq_refl) as [Hrange _]. by apply Forall_singleton.
  - intros n y Hy. apply lookup_snoc_Some in Hy as [[Hlt Hy] | [-> <-]].
    + rewrite take_app_le by lia. by apply Hx.
    + by rewrite take_app_length.
Qed.

(** The oldest instruction retires: its previous register leaves the busy set
    and nothing else changes. *)
Lemma wf_retire C x L :
  wf C (x :: L) ->
  wf (map_write C (ren x)) L /\
  (ri_writes x = true -> ri_old x <> 0) /\
  forall p, p ∈ busy (map_write C (ren x)) L <-> p ∈ busy C (x :: L) /\ ~ (ri_writes x = true /\ p = ri_old x).
Proof.
  intros [Hl H0 Hn Hr Hx]. destruct (Hx 0%nat x eq_refl) as [Hrd Hw]. change (view C (take 0 (x :: L))) with C in Hw.
  assert (forall n y, L !! n = Some y -> renamed_ok (view (map_write C (ren x)) (take n L)) y) as Hx'.
  { intros n y Hy. apply (Hx (S n) y Hy). }
  destruct (ri_writes x) eqn:Ew.
  2: { assert (map_write C (ren x) = C) as Em by (unfold ren, map_write; by rewrite Ew). rewrite Em in *.
       assert (busy C (x :: L) = busy C L) as E by (unfold busy, news; cbn; by rewrite Ew).
       rewrite E in *. split; [by split |]. split; [done |]. intros p.
       split; [intros Hp; split; [done | by intros [? _]] | tauto]. }
  destruct (Hw eq_refl) as [Hpos Hold].
  assert (map_write C (ren x) = rset C (ri_rd x) (ri_new x)) as Em.
  { unfold ren, map_write. by rewrite Ew, (proj2 (Z.eqb_neq _ 0)) by lia. }
  rewrite Em in *. pose proof (rget_lookup 0 C (ri_rd x) ltac:(lia)) as Hget. rewrite <- Hold in Hget.
  set (D := take (Z.to_nat (ri_rd x)) C ++ drop (S (Z.to_nat (ri_rd x))) C ++ news L).
  assert (busy C (x :: L) ≡ₚ ri_old x :: ri_new x :: D) as P1.
  { unfold busy, news at 1. cbn [omap list_omap]. rewrite Ew. fold (news L).
    rewrite <- (take_drop_middle C _ _ Hget) at 1. unfold D. rewrite <- !app_assoc. cbn.
    rewrite <- Permutation_middle. f_equiv. rewrite <- !Permutation_middle. done. }
  assert (busy (rset C (ri_rd x) (ri_new x)) L ≡ₚ ri_new x :: D) as P2.
  { unfold busy, rset. rewrite insert_take_drop by (apply lookup_lt_Some in Hget; lia). unfold D.
    rewrite <- !app_assoc. cbn. by rewrite <- Permutation_middle. }
  rewrite P1 in Hn, Hr. apply NoDup_cons in Hn as [Hno Hn]. apply Forall_cons_1 in Hr as [Hro Hr].
  split; [split |].
  - by rewrite length_rset.
  - rewrite rget_rset by lia. by rewrite (proj2 (Z.eqb_neq 0 _)) by lia.
  - by rewrite P2.
  - by rewrite P2.
  - done.
  - split.
    + intros _ E0. apply Hno. rewrite E0. right. unfold D. apply elem_of_app. left.
      apply list_elem_of_lookup. exists 0%nat. rewrite lookup_take_lt by lia.
      pose proof (rget_lookup 0 C 0 ltac:(lia)) as E'. by rewrite H0 in E'.
    + intros p. rewrite P1, P2, (elem_of_cons (ri_new x :: D)). split.
      * intros Hp. split; [auto |]. intros [_ ->]. done.
      * intros [[-> | Hp] Hne]; [by destruct Hne | done].
Qed.

(** [k] instructions retire. *)
Lemma wf_retires k C L :
  wf C L ->
  wf (view C (take k L)) (drop k L) /\ Forall (fun p => p <> 0) (olds (take k L)) /\
  forall p, p ∈ busy (view C (take k L)) (drop k L) <-> p ∈ busy C L /\ p ∉ olds (take k L).
Proof.
  revert C L. induction k as [| k IH]; intros C L H.
  - rewrite take_0, drop_0. split; [done |]. split; [constructor |]. intros p.
    split; [| tauto]. intros Hp. split; [done |]. apply not_elem_of_nil.
  - destruct L as [| x L]; cbn [take drop].
    { split; [done |]. split; [constructor |]. intros p. split; [| tauto]. intros Hp. split; [done |]. apply not_elem_of_nil. }
    destruct (wf_retire C x L H) as (H1 & Hne & Hb). destruct (IH _ _ H1) as (Hwf & HF & Hbk).
    rewrite view_cons. split; [done |].
    assert (olds (x :: take k L) = (if ri_writes x then [ri_old x] else []) ++ olds (take k L)) as E.
    { unfold olds. cbn. by destruct (ri_writes x). }
    rewrite E. split.
    + apply Forall_app. split; [| done]. destruct (ri_writes x); [| constructor]. constructor; [by apply Hne | constructor].
    + intros p. rewrite Hbk, Hb, not_elem_of_app. destruct (ri_writes x).
      * rewrite not_elem_of_cons. split.
        -- intros [[Hp Hn1] Hn2]. split; [done |]. split; [| done]. split; [| apply not_elem_of_nil]. intros ->. by apply Hn1.
        -- intros [Hp [[Hn1 _] Hn2]]. split; [| done]. split; [done |]. by intros [_ ->].
      * split.
        -- intros [[Hp _] Hn2]. split; [done |]. split; [apply not_elem_of_nil | done].
        -- intros [Hp [_ Hn2]]. split; [| done]. split; [done |]. by intros [? _].
Qed.
End inv.
