(* ===== verification/Backend.v ===== *)
(** * The backend: RenameStage.sv and the wiring of OoOBackend.sv

    Dispatch, renaming, the reorder buffer, the register file and retirement,
    connected as OoOBackend.sv connects them; the flush input is the trap output
    (topCPU.sv).  The scheduler, the execution stage and the load/store queue are
    the environment: their outputs are inputs of a cycle. *)

From Stdlib Require Import ZArith Lia.
From stdpp Require Import base numbers list.
From S2P Require Import Prelude Hw MemWord Csr Isa Decode Rob Rename Dispatch Commit Prf.

Local Open Scope Z_scope.

Section backend.
Context {Meta : Type} (meta0 : Meta).
(** The sizes of TypesPkg.sv and the range of the host registers. *)
Context (REG_NUM PHYS_REG_NUM ROB_ENTRY_NUM UNIFIED_IQ_ENTRY_NUM LSQ_ENTRY_NUM : Z).
Context (MMIO_BASE_ADDR MMIO_LAST_ADDR : Z).

(** ** RenameStage.sv *)

(** The decode bus: [b_ctl] are the signals that the decoder drives. *)
Record decode_bus := DecodeBus {
  b_valid : bool; b_pc : Z; b_predictedTaken : bool; b_predictedTarget : Z; b_predictorIndex : Z;
  b_historySnapshot : Z; b_tageMeta : Meta; b_predictedBtbHit : bool; b_predictedRasUsed : bool;
  b_ctl : ctl }.

(** [renamed_uop_t]; [u_ctl] are the fields copied from the decode bus. *)
Record renamed_uop := RenamedUop {
  u_valid : bool; u_pc : Z; u_predictedTaken : bool; u_predictedTarget : Z; u_predictorIndex : Z;
  u_historySnapshot : Z; u_predictedBtbHit : bool; u_predictedRasUsed : bool; u_isCall : bool; u_isReturn : bool;
  u_fuClass : fu_class; u_ctl : ctl; u_src1Phys : Z; u_src2Phys : Z; u_src1Ready : bool; u_src2Ready : bool;
  u_destPhys : Z; u_robTag : Z; u_lsqTag : Z }.

Definition bus_writes (b : decode_bus) : bool := b_valid b && registerWriteEnable (b_ctl b) && negb (rd (b_ctl b) =? 0).
Definition bus_branch (b : decode_bus) : bool := match branchCtr (b_ctl b) with BR_NONE => false | _ => true end.
Definition link (r : Z) : bool := (r =? 1) || (r =? 5).
Definition bus_call (b : decode_bus) : bool :=
  match branchCtr (b_ctl b) with BR_JAL | BR_JALR => link (rd (b_ctl b)) | _ => false end.
Definition bus_return (b : decode_bus) : bool :=
  match branchCtr (b_ctl b) with BR_JALR => (rd (b_ctl b) =? 0) && link (rs1 (b_ctl b)) | _ => false end.
Definition is_memory (c : ctl) : bool := match fuClass c with FU_MEMORY => true | _ => false end.

(** A lane with what dispatch, the reorder buffer and the queue give it. *)
Record lane := Lane { ln_bus : decode_bus; ln_enable : bool; ln_robTag : Z; ln_lsqTag : Z }.

(** What the stage produces for a lane; [rn_port] is the write port of the map
    table: [destinationAllocValid_o], the register, [destinationPhys_o]. *)
Record renamed := Renamed {
  rn_port : write_port; rn_uop : renamed_uop; rn_rob : @rob_entry Meta; rn_lsq : lsq_entry }.

Definition free_request (l : lane) : bool := ln_enable l && bus_writes (ln_bus l).

Section stage.
(** The speculative map and the busy table of the register file. *)
Context (m : list Z) (source_ready : Z -> bool).

Definition rename_lane (older : list write_port) (l : lane) (alloc : bool * Z) : renamed :=
  let b := ln_bus l in
  let c := b_ctl b in
  let '(freeReady, freePhys) := alloc in
  let writes := bus_writes b in
  let destinationPhys := if writes then freePhys else 0 in
  let allocValid := free_request l && freeReady in
  let src1 := lookup_phys m older (rs1 c) in
  let src2 := lookup_phys m older (rs2 c) in
  let fresh p := existsb (fun '(v, _, q) => v && (p =? q)) older in
  let valid := b_valid b && ln_enable l && (negb writes || freeReady) in
  Renamed (allocValid, rd c, destinationPhys)
    (RenamedUop valid (b_pc b) (b_predictedTaken b) (b_predictedTarget b) (b_predictorIndex b)
       (b_historySnapshot b) (b_predictedBtbHit b) (b_predictedRasUsed b) (bus_call b) (bus_return b)
       (fuClass c) c src1 src2 (source_ready src1 && negb (fresh src1)) (source_ready src2 && negb (fresh src2))
       destinationPhys (ln_robTag l) (ln_lsqTag l))
    (RobEntry valid false (b_pc b) writes (if writes then rd c else 0) destinationPhys
       (if writes then lookup_phys m older (rd c) else 0) (is_memory c) (ln_lsqTag l) (dataWriteEnable c)
       (bus_branch b) (branchCtr c) (bus_call b) (bus_return b) (b_predictedTaken b) (b_predictedTarget b)
       (b_predictedBtbHit b) (b_predictedRasUsed b) (b_predictorIndex b) (b_tageMeta b) false 0 false
       (match wbSelect c with WB_CSR => true | _ => false end) false 0 (exceptionValue c) (mret c))
    (LsqEntry (valid && is_memory c) (match wbSelect c with WB_MEM => true | _ => false end) (dataWriteEnable c)
       (ln_robTag l) destinationPhys (memCtr c) (b_pc b) false 0 false src2 0).

(** The lanes in order; a lane sees the renames of its elders. *)
Fixpoint rename_lanes (older : list write_port) (lanes : list lane) (allocs : list (bool * Z)) : list renamed :=
  match lanes, allocs with
  | l :: lanes, a :: allocs =>
      let r := rename_lane older l a in r :: rename_lanes (older ++ [rn_port r]) lanes allocs
  | _, _ => []
  end.
End stage.

Definition checkpoints (lanes : list lane) : list (bool * Z) :=
  map (fun l => (ln_enable l && bus_branch (ln_bus l), ln_robTag l)) lanes.

(** ** OoOBackend.sv *)

Record backend := Backend {
  k_rob : @rob Meta; k_map : map_table; k_free : free_list; k_prf : prf; k_serializing : bool }.

(** The inputs of a cycle: the decode buses; what the scheduler, the load/store
    queue, the store buffer and the memory report; completions, write-backs and
    the resolved branch of the execution stage. *)
Record backend_in := BackendIn {
  i_decode : list decode_bus;
  i_issueCount : Z; i_lsqCount : Z; i_issueEmpty : bool; i_lsqEmpty : bool;
  i_storeBufferEmpty : bool; i_memoryIdle : bool; i_lsqTag : list Z; i_lsqHead : list (lsq_entry * Z);
  i_branchTrainReady : bool; i_storeReady : bool; i_mmioStoreReady : bool;
  i_complete : list completion; i_writeback : list wb_port;
  i_branchResolved : bool; i_branchRobTag : Z; i_branchTaken : bool; i_branchTarget : Z;
  i_branchMispredicted : bool }.

Section cycle.
Context (b : backend) (i : backend_in).

(** Retirement. *)
Definition commit_offer : list (bool * Z * @rob_entry Meta) := commit_o meta0 ROB_ENTRY_NUM (k_rob b).
Definition commit_inputs : commit_in :=
  CommitIn (i_branchMispredicted i) (i_branchTrainReady i) (i_storeReady i) (i_mmioStoreReady i)
    (map (fun '(v, _, e) => (v, e)) commit_offer) (i_lsqHead i).
Definition retire : list bool := robCommitReady_o MMIO_BASE_ADDR MMIO_LAST_ADDR commit_inputs.
Definition flush : bool := trapValid_o commit_inputs.

(** Dispatch: [laneWritesDestination], [laneIsMemory], [laneSupported]. *)
Definition lane_memory (c : ctl) : bool := dataWriteEnable c || match wbSelect c with WB_MEM => true | _ => false end.
Definition starts_serialization (c : ctl) : bool := serialize c || match wbSelect c with WB_CSR => true | _ => false end.
Definition is_control (d : decode_bus) : bool := bus_branch d || match wbSelect (b_ctl d) with WB_CSR => true | _ => false end.
Definition robCount : Z := uwrap (Z.log2_up (ROB_ENTRY_NUM + 1)) (entryCount (k_rob b)).
Definition drained : bool :=
  (robCount =? 0) && i_issueEmpty i && i_lsqEmpty i && i_storeBufferEmpty i && i_memoryIdle i.
Definition supported (n : nat) (d : decode_bus) : bool :=
  negb (k_serializing b) &&
  match n with
  | O => negb (starts_serialization (b_ctl d)) || drained
  | S _ => negb (is_control d) && negb (starts_serialization (b_ctl d))
  end.
Definition dispatch_lanes : list lane_in :=
  imap (fun n d => LaneIn (b_valid d) (supported n d) (bus_writes d) (lane_memory (b_ctl d))) (i_decode i).
Definition accept : list bool :=
  accept_o ROB_ENTRY_NUM UNIFIED_IQ_ENTRY_NUM LSQ_ENTRY_NUM robCount (i_issueCount i) (i_lsqCount i)
    (freeCount_o PHYS_REG_NUM (k_free b)) dispatch_lanes.
Definition robAllocValid : list bool := zip_with (fun a d => a && b_valid d) accept (i_decode i).
Definition robAllocTag : list Z := (alloc_lanes ROB_ENTRY_NUM (k_rob b) 0 robAllocValid).*2.

(** Renaming. *)
Definition lanes : list lane :=
  imap (fun n d => Lane d (rget false accept (Z.of_nat n)) (rget 0 robAllocTag (Z.of_nat n))
                     (rget 0 (i_lsqTag i) (Z.of_nat n))) (i_decode i).
Definition requests : list bool := map free_request lanes.
Definition allocs : list (bool * Z) := alloc_phys_o PHYS_REG_NUM (k_free b) requests.
Definition renamed_o : list renamed :=
  rename_lanes (speculativeMap (k_map b)) (fun p => (prf_read (k_prf b) (i_writeback i) p).2) [] lanes allocs.

(** [commitArchRd_o], and the ports of the map table and the free list. *)
Definition commit_rd (e : @rob_entry Meta) : Z := if re_writesRd e then re_archRd e else 0.
Definition commit_ports : list write_port :=
  zip_with (fun r '(_, _, e) => (r, commit_rd e, re_newPhys e)) retire commit_offer.
Definition free_ports : list (bool * Z) :=
  zip_with (fun r '(_, _, e) => (r && negb (commit_rd e =? 0) && negb (re_oldPhys e =? 0), re_oldPhys e))
    retire commit_offer.

Definition rob_inputs : rob_in :=
  RobIn flush (i_branchMispredicted i) (i_branchRobTag i) robAllocValid (map rn_rob renamed_o) (i_complete i)
    (i_branchResolved i) (i_branchRobTag i) (i_branchTaken i) (i_branchTarget i) (i_branchMispredicted i) retire.
Definition map_inputs : map_in :=
  MapIn flush (i_branchMispredicted i) (i_branchRobTag i) (checkpoints lanes) (map rn_port renamed_o) commit_ports.
Definition free_inputs : free_in :=
  FreeIn flush (committedFreeMask_o REG_NUM PHYS_REG_NUM (k_map b)) (i_branchMispredicted i) (i_branchRobTag i)
    (checkpoints lanes) requests free_ports.
Definition prf_allocs : list alloc_port := map (fun r => ((rn_port r).1.1, (rn_port r).2)) renamed_o.

(** The serialisation register. *)
Definition serializing_next : bool :=
  if flush then false
  else match accept, i_decode i with
       | true :: _, d :: _ =>
           if b_valid d && starts_serialization (b_ctl d) then true
           else if k_serializing b && (robCount =? 0) then false else k_serializing b
       | _, _ => if k_serializing b && (robCount =? 0) then false else k_serializing b
       end.

Definition backend_step : backend :=
  Backend (rob_step meta0 ROB_ENTRY_NUM (k_rob b) rob_inputs) (map_step (k_map b) map_inputs)
    (free_step PHYS_REG_NUM (k_free b) free_inputs)
    (prf_step PHYS_REG_NUM (k_prf b) prf_allocs (i_writeback i)) serializing_next.
End cycle.

Definition backend_reset (b : backend) : backend :=
  Backend (rob_reset meta0 ROB_ENTRY_NUM (k_rob b)) (map_reset REG_NUM ROB_ENTRY_NUM)
    (free_reset REG_NUM PHYS_REG_NUM ROB_ENTRY_NUM) (prf_reset REG_NUM PHYS_REG_NUM) false.

Definition backend_run (b : backend) (ins : list backend_in) : backend := fold_left backend_step ins b.
End backend.

(** ** A run *)

(** Two additions, a branch that is mispredicted and an instruction behind it,
    with the sizes of TypesPkg.sv. *)
Module Demo.
Definition bus (w : Z) : @decode_bus unit := DecodeBus true 0 false 0 0 0 tt false false (decode w).
Definition idle (ds : list decode_bus) (cs : list completion) (wbs : list wb_port) (mispredicted : bool) : @backend_in unit :=
  BackendIn ds 0 0 true true true true [0; 0] [] true true true cs wbs mispredicted (if mispredicted then 2 else 0) mispredicted 8 mispredicted.
Definition done_at (t : Z) : completion := Completion true t false 0 0.

(** [addi x1, x0, 5; add x2, x1, x1] *)
Definition c0 := idle [bus 0x00500093; bus 0x00108133] [] [] false.
(** [beq x1, x2, 8; addi x3, x0, 7] *)
Definition c1 := idle [bus 0x00208463; bus 0x00700193] [] [] false.
Definition c2 := idle [] [done_at 0] [(true, 32, 5)] false.
Definition c3 := idle [] [done_at 1] [(true, 33, 10)] true.
Definition c4 := idle [] [done_at 2] [] false.
Definition c5 := idle [] [] [] false.

Definition off : @backend unit := Backend (ROB [] 0 0 0) (MapTable [] [] []) (FreeList 0 []) (PRF [] 0) false.
Definition reset := backend_reset tt 32 48 16 off.
Definition step := backend_step tt 32 48 16 16 16 0xFFE0 0xFFFF.
Definition run := backend_run tt 32 48 16 16 16 0xFFE0 0xFFFF reset.

(** The architectural registers. *)
Definition arch (b : @backend unit) (r : Z) : Z := rget 0 (registers (k_prf b)) (rget 0 (committedMap (k_map b)) r).

Example retires : map (arch (run [c0; c1; c2; c3; c4; c5])) [1; 2; 3] = [5; 10; 0].
Proof. vm_compute. reflexivity. Qed.
Example recovers : map (rget 0 (speculativeMap (k_map (run [c0; c1; c2; c3])))) [1; 2; 3] = [32; 33; 3].
Proof. vm_compute. reflexivity. Qed.
End Demo.
