(* ===== verification/BackendInv.v ===== *)
(** * Renaming is precise

    The invariant of the backend: the reorder buffer holds a queue of
    instructions in flight; the maps, the free list and all checkpoints are what
    RenameInv computes from the committed map and that queue. *)

From Stdlib Require Import ZArith Lia.
From stdpp Require Import base numbers list.
From S2P Require Import Prelude Hw MemWord Csr Isa Decode Rob Rename Dispatch Commit Prf RenameInv Backend.

Local Open Scope Z_scope.

Section inv.
Context {Meta : Type} (meta0 : Meta).
Context (REG_NUM PHYS_REG_NUM ROB_ENTRY_NUM UNIFIED_IQ_ENTRY_NUM LSQ_ENTRY_NUM : Z).
Context (MMIO_BASE_ADDR MMIO_LAST_ADDR : Z).
Context (Hreg : 0 < REG_NUM) (Hphys : REG_NUM < PHYS_REG_NUM) (Hrob : 0 < ROB_ENTRY_NUM).

Local Abbreviation wf := (wf REG_NUM PHYS_REG_NUM).
Local Abbreviation free_ok := (free_ok PHYS_REG_NUM).
Local Abbreviation free_alloc := (free_alloc PHYS_REG_NUM).
Local Abbreviation mark_used := (mark_used PHYS_REG_NUM).
Local Abbreviation mark_free := (mark_free PHYS_REG_NUM).
Local Abbreviation slot := (slot ROB_ENTRY_NUM).
Local Abbreviation live := (live meta0 ROB_ENTRY_NUM).

(** What an entry of the reorder buffer renames. *)
Definition info (e : @rob_entry Meta) : ren_info :=
  RenInfo (re_writesRd e) (re_archRd e) (re_newPhys e) (re_oldPhys e) (re_isBranch e).

(** ** Lanes *)

Lemma length_free_alloc mask reqs : length (free_alloc mask reqs) = length reqs.
Proof.
  revert mask. induction reqs as [| r reqs IH]; intros mask; [done |]. cbn. destruct (first_free _ _); cbn; by rewrite IH.
Qed.

Lemma free_alloc_take mask reqs n : take n (free_alloc mask reqs) = free_alloc mask (take n reqs).
Proof.
  revert mask n. induction reqs as [| r reqs IH]; intros mask [| n]; try done. cbn.
  destruct (first_free _ _); cbn; by rewrite IH.
Qed.

Lemma rename_lanes_take m sr older (ls : list (@lane Meta)) al n :
  take n (rename_lanes m sr older ls al) = rename_lanes m sr older (take n ls) (take n al).
Proof.
  revert older al n. induction ls as [| l ls IH]; intros older al [| n]; try done; destruct al as [| a al]; try done.
  cbn. by rewrite IH.
Qed.

Lemma length_rename_lanes m sr older (ls : list (@lane Meta)) al :
  length al = length ls -> length (rename_lanes m sr older ls al) = length ls.
Proof.
  revert older al. induction ls as [| l ls IH]; intros older [| a al] E; try done. cbn in *. by rewrite IH by lia.
Qed.

(** Decoded registers exist. *)
Definition bus_ok (d : @decode_bus Meta) : Prop :=
  0 <= rs1 (b_ctl d) < REG_NUM /\ 0 <= rs2 (b_ctl d) < REG_NUM /\ 0 <= rd (b_ctl d) < REG_NUM.

(** A function of the accepted lanes; what they rename. *)
Definition enabled {A} (f : @lane Meta -> @renamed Meta -> A) (ls : list (@lane Meta)) (rns : list (@renamed Meta)) : list A :=
  omap (fun '(l, r) => if ln_enable l then Some (f l r) else None) (zip ls rns).
Definition entering (ls : list (@lane Meta)) (rns : list (@renamed Meta)) : list ren_info :=
  enabled (fun _ r => info (rn_rob r)) ls rns.

Lemma renames_fresh C L m sr older (ls : list (@lane Meta)) mask :
  wf C L -> map_writes m older = view C L -> Z.of_nat (length m) = REG_NUM -> rget 0 m 0 = 0 ->
  Forall (port_ok REG_NUM) older -> free_ok mask C L -> Forall (fun l => bus_ok (ln_bus l)) ls ->
  (forall n, map free_request ls !! n = Some true ->
     exists p, free_alloc mask (map free_request ls) !! n = Some (true, p)) ->
  let al := free_alloc mask (map free_request ls) in
  let rns := rename_lanes m sr older ls al in
  wf C (L ++ entering ls rns) /\ map_writes (view C L) (map rn_port rns) = view C (L ++ entering ls rns) /\
  news (entering ls rns) = taken (map free_request ls) al.
Proof.
  revert L older mask. induction ls as [| l ls IH]; intros L older mask Hwf Hm Hlen H0 Hold Hfree Hbus Hreq.
  { cbn. by rewrite app_nil_r. }
  apply Forall_cons_1 in Hbus as [(_ & _ & Hrd) Hbus]. cbn zeta. cbn [map].
  assert (forall r, 0 <= r -> lookup_phys m older r = rget 0 (view C L) r) as Hlook.
  { intros r Hr. rewrite <- Hm. by apply (lookup_phys_map REG_NUM). }
  (* the allocation of this lane and what it leaves *)
  assert (exists a mask', free_alloc mask (free_request l :: map free_request ls) =
            a :: free_alloc mask' (map free_request ls) /\
          (free_request l = false -> mask' = mask) /\
          (free_request l = true -> exists p, a = (true, p) /\ first_free PHYS_REG_NUM mask = Some p /\
             mask' = set_bit PHYS_REG_NUM mask p false)) as (a & mask' & Ea & Hskip & Htake).
  { pose proof (Hreq 0%nat) as Hr0. cbn in Hr0 |- *. destruct (first_free PHYS_REG_NUM mask) as [p |].
    - eexists _, _. split; [done |]. split; [by intros -> |]. intros ->. by exists p.
    - eexists _, _. split; [done |]. split; [done |]. intros E. rewrite E in Hr0. by destruct (Hr0 eq_refl) as [? [=]]. }
  assert (forall n, map free_request ls !! n = Some true ->
     exists p, free_alloc mask' (map free_request ls) !! n = Some (true, p)) as Hreq'.
  { intros n Hn. destruct (Hreq (S n) Hn) as [p Hp]. cbn [map] in Hp. rewrite Ea in Hp. by exists p. }
  rewrite Ea. cbn [rename_lanes]. set (r := rename_lane m sr older l a).
  set (x := info (rn_rob r)).
  assert (entering (l :: ls) (r :: rename_lanes m sr (older ++ [rn_port r]) ls (free_alloc mask' (map free_request ls))) =
    (if ln_enable l then [x] else []) ++
    entering ls (rename_lanes m sr (older ++ [rn_port r]) ls (free_alloc mask' (map free_request ls)))) as Een.
  { unfold entering, enabled. cbn. by destruct (ln_enable l). }
  rewrite Een. cbn [map].
  change (map_writes (view C L) (rn_port r :: ?u)) with (map_writes (map_write (view C L) (rn_port r)) u).
  assert (port_ok REG_NUM (rn_port r)) as Hport.
  { unfold r, rename_lane, port_ok. by destruct a. }
  (* this lane keeps the invariant *)
  assert (let L1 := L ++ (if ln_enable l then [x] else []) in
          wf C L1 /\ map_write (view C L) (rn_port r) = view C L1 /\ free_ok mask' C L1 /\
          news (if ln_enable l then [x] else []) = taken [free_request l] [a]) as (Hwf1 & Hm1 & Hfree1 & Hnew1).
  { cbn zeta. destruct (free_request l) eqn:Ereq.
    - destruct (Htake eq_refl) as (p & -> & Hff & ->). pose proof Ereq as Ereq'. unfold free_request in Ereq.
      apply andb_true_iff in Ereq as [Een' Ew]. rewrite Een'.
      apply first_free_Some in Hff as [Hp Hb]. rewrite Hfree in Hb by lia. apply negb_true_iff, bool_decide_eq_false in Hb.
      assert (0 < rd (b_ctl (ln_bus l))) as Hpos.
      { unfold bus_writes in Ew. apply andb_true_iff in Ew as [_ Ew]. apply negb_true_iff, Z.eqb_neq in Ew. lia. }
      assert (x = RenInfo true (rd (b_ctl (ln_bus l))) p (rget 0 (view C L) (rd (b_ctl (ln_bus l)))) (bus_branch (ln_bus l))) as Ex.
      { unfold x, r, rename_lane, info. cbn. by rewrite Ew, Hlook by lia. }
      assert (wf C (L ++ [x])) as Hw1.
      { apply wf_snoc; [done | | ]; rewrite Ex; cbn; [| auto with lia]. split; cbn; [lia | auto]. }
      split; [done |]. split; [| split].
      + rewrite view_app, Ex. cbn. unfold r, rename_lane. cbn. by rewrite Ereq', Ew.
      + intros q Hq. rewrite testbit_set_bit, Hfree by lia. unfold busy. rewrite news_app, app_assoc.
        assert (news [x] = [p]) as -> by (by rewrite Ex). destruct (Z.eqb_spec q p) as [-> | Hne].
        * by rewrite bool_decide_true by (rewrite elem_of_app, list_elem_of_singleton; auto).
        * f_equal. apply bool_decide_ext. rewrite (elem_of_app (C ++ news L)), list_elem_of_singleton. tauto.
      + by rewrite Ex.
    - rewrite (Hskip eq_refl). pose proof Ereq as Ereq'. unfold free_request in Ereq.
      assert (map_write (view C L) (rn_port r) = view C L) as Ev.
      { unfold r, rename_lane. destruct a as [rdy p]. cbn. by rewrite Ereq'. }
      rewrite Ev. destruct (ln_enable l); [| by rewrite app_nil_r; destruct a].
      cbn in Ereq.
      assert (ri_writes x = false /\ ri_rd x = 0) as [Ew0 Erd0].
      { unfold x, r, rename_lane, info. destruct a. cbn. by rewrite Ereq. }
      assert (news [x] = []) as En by (by rewrite news_one, Ew0).
      split; [| split; [| split]].
      + apply wf_snoc; [done | | by rewrite Ew0]. split; [rewrite Erd0; lia | by rewrite Ew0].
      + by rewrite view_app, view_one_skip.
      + intros q Hq. rewrite Hfree by done. unfold busy. by rewrite news_app, En, app_nil_r.
      + rewrite En. by destruct a. }
  destruct (IH (L ++ (if ln_enable l then [x] else [])) (older ++ [rn_port r]) mask') as (IH1 & IH2 & IH3); try done.
  - by rewrite map_writes_app, Hm, <- Hm1.
  - apply Forall_app. split; [done |]. by apply Forall_singleton.
  - rewrite app_assoc. split; [done |]. split; [by rewrite Hm1 |].
    rewrite news_app, Hnew1, IH3. unfold taken. cbn. destruct a as [rdy p]. by destruct (free_request l && rdy).
Qed.

(** ** What the reorder buffer keeps of an entry *)

Lemma info_completed ex ca va e : info (e_completed ex ca va e) = info e.
Proof. by destruct e. Qed.
Lemma info_marked e : info (e_marked e) = info e.
Proof. by destruct e. Qed.
Lemma info_resolved t g ms e : info (e_resolved t g ms e) = info e.
Proof. by destruct e. Qed.
Lemma info_allocated e : info (e_allocated e) = info e.
Proof. by destruct e. Qed.

Lemma info_complete_at t cs e : info (complete_at t cs e) = info e.
Proof.
  unfold complete_at. revert e. induction cs as [| c cs IH]; intros e; [done |]. cbn [fold_left]. rewrite IH.
  destruct (_ && _); [apply info_completed | done].
Qed.
Lemma info_resolve_at (i : @rob_in Meta) t e : info (resolve_at i t e) = info e.
Proof. unfold resolve_at. destruct (_ && _); [apply info_resolved | done]. Qed.

Lemma map_info_imap f (l : list (@rob_entry Meta)) :
  (forall n e, info (f n e) = info e) -> map info (imap f l) = map info l.
Proof.
  intros Hf. apply list_eq. intros n. 
  rewrite (list_lookup_fmap info (imap f l)), (list_lookup_fmap info l), list_lookup_imap. destruct (l !! n) as [e |]; [| done]. cbn. by rewrite Hf.
Qed.

(** The queue of renames after a cycle. *)
Lemma info_queue_step h (i : @rob_in Meta) k new l :
  map info (queue_step ROB_ENTRY_NUM h i k new l) =
  if flush_i i then []
  else if recoverValid_i i then take (keep_count ROB_ENTRY_NUM h (recoverTag_i i) (length l)) (map info l)
  else drop k (map info l) ++ map info new.
Proof.
  unfold queue_step. destruct (flush_i i); [done |]. destruct (recoverValid_i i).
  - rewrite map_info_imap; [by rewrite firstn_map |]. intros n e. cbn zeta.
    destruct (_ =? _); by rewrite ?info_resolved, ?info_marked, info_complete_at.
  - rewrite map_app, map_map, <- skipn_map, map_info_imap.
    + f_equal. apply map_ext. intros e. apply info_allocated.
    + intros n e. by rewrite info_resolve_at, info_complete_at.
Qed.

(** ** The invariant *)

Local Abbreviation backend := (@backend Meta).
Local Abbreviation retire := (retire meta0 ROB_ENTRY_NUM MMIO_BASE_ADDR MMIO_LAST_ADDR).
Local Abbreviation commit_offer := (commit_offer meta0 ROB_ENTRY_NUM).
Local Abbreviation flush := (flush meta0 ROB_ENTRY_NUM).
Local Abbreviation commit_ports := (commit_ports meta0 ROB_ENTRY_NUM MMIO_BASE_ADDR MMIO_LAST_ADDR).
Local Abbreviation free_ports := (free_ports meta0 ROB_ENTRY_NUM MMIO_BASE_ADDR MMIO_LAST_ADDR).
Local Abbreviation rob_inputs :=
  (rob_inputs meta0 PHYS_REG_NUM ROB_ENTRY_NUM UNIFIED_IQ_ENTRY_NUM LSQ_ENTRY_NUM MMIO_BASE_ADDR MMIO_LAST_ADDR).
Local Abbreviation lanes := (lanes PHYS_REG_NUM ROB_ENTRY_NUM UNIFIED_IQ_ENTRY_NUM LSQ_ENTRY_NUM).
Local Abbreviation renamed_o := (renamed_o PHYS_REG_NUM ROB_ENTRY_NUM UNIFIED_IQ_ENTRY_NUM LSQ_ENTRY_NUM).
Local Abbreviation accept := (accept PHYS_REG_NUM ROB_ENTRY_NUM UNIFIED_IQ_ENTRY_NUM LSQ_ENTRY_NUM).
Local Abbreviation robAllocValid := (robAllocValid PHYS_REG_NUM ROB_ENTRY_NUM UNIFIED_IQ_ENTRY_NUM LSQ_ENTRY_NUM).
Local Abbreviation robAllocTag := (robAllocTag PHYS_REG_NUM ROB_ENTRY_NUM UNIFIED_IQ_ENTRY_NUM LSQ_ENTRY_NUM).
Local Abbreviation requests := (requests PHYS_REG_NUM ROB_ENTRY_NUM UNIFIED_IQ_ENTRY_NUM LSQ_ENTRY_NUM).
Local Abbreviation allocs := (allocs PHYS_REG_NUM ROB_ENTRY_NUM UNIFIED_IQ_ENTRY_NUM LSQ_ENTRY_NUM).

(** The number of instructions that retire. *)
Definition retired (b : backend) (i : backend_in) : nat :=
  Z.to_nat (commitAccepted meta0 ROB_ENTRY_NUM (k_rob b) (rob_inputs b i)).

Lemma commit_offer_two (b : backend) :
  exists x y, commit_offer b = [x; y].
Proof.
  unfold Backend.commit_offer, commit_o, COMMIT_WIDTH. cbn [commit_lanes].
  destruct (_ && _ && _ && _); cbn [andb]; [destruct (_ && _ && _) |]; eauto.
Qed.

(** None, one or both lanes retire; in the last cases they are the front of the
    queue. *)
Lemma retire_cases (b : backend) i l :
  live (k_rob b) l ->
  (retire b i = [false; false] /\ retired b i = 0%nat) \/
  (exists t e y, retire b i = [true; false] /\ commit_offer b = [(true, t, e); y] /\ retired b i = 1%nat /\
     take 1 l = [e] /\ i_branchMispredicted i = false /\ flush b i = false) \/
  (exists t e t' e', retire b i = [true; true] /\ commit_offer b = [(true, t, e); (true, t', e')] /\
     retired b i = 2%nat /\ take 2 l = [e; e'] /\ i_branchMispredicted i = false /\ flush b i = false).
Proof.
  intros Hl. destruct (commit_offer_two b) as ([[v t] e] & [[v' t'] e'] & Eo).
  assert (commitAccepted meta0 ROB_ENTRY_NUM (k_rob b) (rob_inputs b i) =
          prefix_length (zip_with (fun '(v, _, _) rdy => v && rdy) (commit_offer b) (retire b i))) as Ek by done.
  pose proof (retire_lane MMIO_BASE_ADDR MMIO_LAST_ADDR (commit_inputs meta0 ROB_ENTRY_NUM b i)) as Hr. fold (Backend.retire meta0 ROB_ENTRY_NUM MMIO_BASE_ADDR MMIO_LAST_ADDR b i) in Hr.
  fold (Backend.flush meta0 ROB_ENTRY_NUM b i) in Hr. cbn [commit_inputs recoveryValid_i robCommit_i] in Hr.
  assert (length (retire b i) = 2%nat) as Hlen.
  { unfold Backend.retire, robCommitReady_o. rewrite length_retire_pass. cbn [commit_inputs robCommit_i]. by rewrite Eo. }
  destruct (retire b i) as [| r [| r' [|]]] eqn:Er; try done. unfold retired. rewrite Ek, Eo in *. cbn [map] in Hr.
  assert (forall n v t e, commit_offer b !! n = Some (v, t, e) -> v = true -> l !! n = Some e) as Hq.
  { intros n v1 t1 e1 Hn Hv. by apply (commit_o_lane meta0 ROB_ENTRY_NUM Hrob _ l) in Hn as (_ & _ & Hn); [apply Hn |]. }
  rewrite Eo in Hq. pose proof (Hr 0%nat) as H0. pose proof (Hr 1%nat) as H1. cbn in H0, H1.
  destruct r; [right | left].
  - destruct (H0 eq_refl) as (Hm & Hf & (x & [= -> <-] & _) & _). pose proof (Hq 0%nat true t e eq_refl eq_refl) as He.
    destruct l as [| e0 l]; [done |]. injection He as ->.
    destruct r'; [right | left].
    + destruct (H1 eq_refl) as (_ & _ & (x & [= -> <-] & _) & _). pose proof (Hq 1%nat true t' e' eq_refl eq_refl) as He'.
      destruct l as [| e0 l]; [done |]. injection He' as ->. exists t, e, t', e'. done.
    + exists t, e, (v', t', e'). split_and!; try done. cbn. by rewrite andb_false_r.
  - destruct r'; [by destruct (H1 eq_refl) as (_ & _ & _ & Hp); specialize (Hp 0%nat ltac:(lia)) |].
    split; [done |]. cbn. by rewrite andb_false_r.
Qed.

(** What the retirement ports carry. *)
Lemma commit_ports_view (b : backend) i l C :
  live (k_rob b) l -> map_writes C (commit_ports b i) = view C (take (retired b i) (map info l)).
Proof.
  intros Hl. assert (forall C e, map_write C (true, commit_rd e, re_newPhys e) = map_write C (ren (info e))) as Hw.
  { intros C' e. unfold commit_rd. cbn. by destruct (re_writesRd e). }
  unfold Backend.commit_ports.
  destruct (retire_cases b i l Hl) as [(-> & ->) | [(t & e & y & -> & -> & -> & E & _) | (t & e & t' & e' & -> & -> & -> & E & _)]].
  - destruct (commit_offer_two b) as ([[? ?] ?] & [[? ?] ?] & ->). done.
  - rewrite firstn_map, E. destruct y as [[? ?] ?]. cbn [zip_with map]. unfold view, map_writes, rens. cbn [map fold_left].
    by rewrite Hw.
  - rewrite firstn_map, E. cbn [zip_with map]. unfold view, map_writes, rens. cbn [map fold_left]. by rewrite !Hw.
Qed.

Lemma free_ports_olds (b : backend) i l p :
  live (k_rob b) l -> wf (committedMap (k_map b)) (map info l) ->
  p <> 0 /\ (true, p) ∈ free_ports b i <-> p ∈ olds (take (retired b i) (map info l)).
Proof.
  intros Hl Hwf. destruct (wf_retires REG_NUM PHYS_REG_NUM (retired b i) _ _ Hwf) as (_ & Hnz & _).
  assert (forall n e, l !! n = Some e -> re_writesRd e = true -> re_archRd e <> 0) as Hrd.
  { intros n e Hn Hw. destruct (wf_renamed _ _ _ _ Hwf n (info e)) as [_ H].
    - by rewrite (list_lookup_fmap info l), Hn.
    - destruct (H Hw) as [? _]. cbn in *. lia. }
  (* one lane that retires *)
  assert (forall e n, l !! n = Some e -> Forall (fun q => q <> 0) (olds [info e]) ->
    p <> 0 /\ (true, p) = (true && negb (commit_rd e =? 0) && negb (re_oldPhys e =? 0), re_oldPhys e) <->
    p ∈ olds [info e]) as Hone.
  { intros e n Hn HF. unfold olds, commit_rd in *. cbn in *. destruct (re_writesRd e) eqn:Ew; cbn in *.
    - apply Forall_cons_1 in HF as [HF _]. rewrite list_elem_of_singleton.
      
      rewrite (proj2 (Z.eqb_neq (re_archRd e) 0) (Hrd n e Hn Ew)), (proj2 (Z.eqb_neq (re_oldPhys e) 0) HF). cbn. split; [by intros [_ [=]] | intros ->; done].
    - split; [by intros [_ [=]] | by intros ?%not_elem_of_nil]. }
  unfold Backend.free_ports.
  destruct (retire_cases b i l Hl) as [(-> & E) | [(t & e & y & -> & -> & E & El & _) | (t & e & t' & e' & -> & -> & E & El & _)]];
    rewrite E in *.
  - destruct (commit_offer_two b) as ([[? ?] ?] & [[? ?] ?] & ->). cbn. rewrite !elem_of_cons, !elem_of_nil.
    split; [by intros [_ [[=] | [[=] | []]]] | done].
  - rewrite firstn_map, El in *. destruct y as [[v1 t1] e1]. cbn [zip_with map] in *.
    rewrite <- (Hone e 0%nat); [| by destruct l as [|? l]; [| injection El as ->] | done].
    rewrite !elem_of_cons, elem_of_nil. cbn [andb].
    split; [by intros [? [| [[=] | []]]] | by intros [? ->]; auto].
  - rewrite firstn_map, El in *. cbn [zip_with map] in *.
    assert (l !! 0%nat = Some e /\ l !! 1%nat = Some e') as [He He'].
    { destruct l as [| a [| c l]]; try done. by injection El as -> ->. }
    change [info e; info e'] with ([info e] ++ [info e']) in *. unfold olds in *. rewrite omap_app in *.
    apply Forall_app in Hnz as [Hz1 Hz2]. rewrite elem_of_app.
    rewrite <- (Hone e 0%nat He Hz1), <- (Hone e' 1%nat He' Hz2). rewrite !elem_of_cons, elem_of_nil. tauto.
Qed.

(** ** Dispatch *)

Local Abbreviation dispatch_lanes := (dispatch_lanes ROB_ENTRY_NUM).
Local Abbreviation robCount := (robCount ROB_ENTRY_NUM).

Lemma robCount_length (b : backend) l : live (k_rob b) l -> robCount b = Z.of_nat (length l).
Proof.
  intros (_ & _ & Hc & Hle & _). unfold Backend.robCount. rewrite Hc in *. apply uwrap_id; [apply Z.log2_up_nonneg |].
  pose proof (Z.log2_log2_up_spec (ROB_ENTRY_NUM + 1) ltac:(lia)). unfold in_u. lia.
Qed.

Lemma length_accept (b : backend) i : length (accept b i) = length (i_decode i).
Proof.
  unfold Backend.accept, accept_o. rewrite length_accept_lanes. unfold Backend.dispatch_lanes. apply length_imap.
Qed.

Lemma accept_valid (b : backend) i n :
  accept b i !! n = Some true -> exists d, i_decode i !! n = Some d /\ b_valid d = true.
Proof.
  intros (x & Hx & Hv)%accept_lanes_valid. unfold Backend.dispatch_lanes in Hx. rewrite list_lookup_imap in Hx.
  destruct (i_decode i !! n) as [d |]; [| done]. injection Hx as <-. by exists d.
Qed.

Lemma lanes_lookup (b : backend) i n d :
  i_decode i !! n = Some d -> exists a t q,
    lanes b i !! n = Some (Lane d a t q) /\ accept b i !! n = Some a /\ robAllocTag b i !! n = Some t.
Proof.
  intros Hn. pose proof (lookup_lt_Some _ _ _ Hn) as Hlt.
  destruct (lookup_lt_is_Some_2 (accept b i) n) as [a Ha]; [by rewrite length_accept |].
  assert (length (robAllocTag b i) = length (i_decode i)) as Hlen.
  { unfold Backend.robAllocTag. rewrite length_fmap, alloc_lanes_length. unfold Backend.robAllocValid.
    rewrite length_zip_with, length_accept. lia. }
  destruct (lookup_lt_is_Some_2 (robAllocTag b i) n) as [t Ht]; [lia |].
  eexists a, t, _. split; [| done]. unfold Backend.lanes. rewrite list_lookup_imap, Hn. cbn.
  unfold rget. by rewrite Nat2Z.id, Ha, Ht.
Qed.

Lemma length_lanes (b : backend) i : length (lanes b i) = length (i_decode i).
Proof. apply length_imap. Qed.

Lemma lanes_inv (b : backend) i n x :
  lanes b i !! n = Some x ->
  i_decode i !! n = Some (ln_bus x) /\ accept b i !! n = Some (ln_enable x) /\ robAllocTag b i !! n = Some (ln_robTag x).
Proof.
  intros Hx. assert (n < length (i_decode i))%nat as Hlt by (rewrite <- (length_lanes b); by apply lookup_lt_Some in Hx).
  destruct (lookup_lt_is_Some_2 _ _ Hlt) as [d Hd]. destruct (lanes_lookup b i n d Hd) as (a & t & q & E & Ha & Ht).
  rewrite Hx in E. injection E as ->. done.
Qed.

Lemma enables (b : backend) i : map ln_enable (lanes b i) = accept b i.
Proof.
  apply list_eq. intros n. rewrite (list_lookup_fmap ln_enable (lanes b i)). destruct (lanes b i !! n) as [x |] eqn:E.
  - by apply lanes_inv in E as (_ & -> & _).
  - symmetry. apply lookup_ge_None in E. apply lookup_ge_None. by rewrite length_accept, <- (length_lanes b).
Qed.

Lemma robAllocValid_accept (b : backend) i : robAllocValid b i = accept b i.
Proof.
  unfold Backend.robAllocValid. apply list_eq. intros n. rewrite lookup_zip_with.
  destruct (accept b i !! n) as [a |] eqn:Ea; [| done]. cbn.
  destruct (i_decode i !! n) as [d |] eqn:Ed; cbn.
  - destruct a; [| done]. destruct (accept_valid b i n Ea) as (d' & E & Hv). rewrite Ed in E. injection E as <-. by rewrite Hv.
  - apply lookup_lt_Some in Ea. rewrite length_accept in Ea. apply lookup_ge_None in Ed. lia.
Qed.

Lemma requests_accepted (b : backend) i :
  requests b i = accepted_with laneWritesDestination_i (accept b i) (dispatch_lanes b i).
Proof.
  unfold Backend.requests, accepted_with. apply list_eq. intros n.
  rewrite (list_lookup_fmap free_request (lanes b i)), lookup_zip_with.
  destruct (lanes b i !! n) as [x |] eqn:E.
  - apply lanes_inv in E as (Hd & -> & _). unfold Backend.dispatch_lanes. rewrite list_lookup_imap, Hd. done.
  - apply lookup_ge_None in E. rewrite length_lanes in E.
    by rewrite (lookup_ge_None_2 (accept b i)) by (by rewrite length_accept).
Qed.

(** Every accepted instruction gets its resources. *)
Lemma dispatch_fits (b : backend) i l :
  live (k_rob b) l -> Z.of_nat (length l) + count_true (accept b i) <= ROB_ENTRY_NUM.
Proof.
  intros Hl. pose proof (accept_lanes_fit (ROB_ENTRY_NUM - robCount b) (UNIFIED_IQ_ENTRY_NUM - i_issueCount i)
    (LSQ_ENTRY_NUM - i_lsqCount i) (freeCount_o PHYS_REG_NUM (k_free b)) true (dispatch_lanes b i)) as (H & _).
  rewrite (robCount_length b l Hl) in H. pose proof Hl as (_ & _ & Hc & Hle & _).
  unfold Backend.accept, accept_o. rewrite (robCount_length b l Hl). lia.
Qed.

Lemma dispatch_allocates (b : backend) i C L n :
  free_ok (freeMask (k_free b)) C L -> wf C L -> requests b i !! n = Some true ->
  exists p, allocs b i !! n = Some (true, p).
Proof.
  intros Hf Hwf Hn. unfold Backend.allocs, alloc_phys_o. rewrite requests_accepted in *.
  unfold Backend.accept, accept_o in *. rewrite (freeCount_bits REG_NUM PHYS_REG_NUM Hreg Hphys) in *.
  apply accept_lanes_alloc; [lia | | done]. rewrite Hf by lia. apply negb_false_iff, bool_decide_eq_true. unfold busy.
  apply elem_of_app. left. pose proof (rget_lookup 0 C 0) as E. rewrite (wf_length _ _ _ _ Hwf), (wf_zero _ _ _ _ Hwf) in E.
  apply list_elem_of_lookup. exists (Z.to_nat 0). apply E. lia.
Qed.

(** *** What enters the reorder buffer *)

Lemma alloc_lanes_tag (r : @rob Meta) o vs n t :
  0 <= tailPtr r -> 0 <= o -> o + count_true vs <= ROB_ENTRY_NUM - entryCount r ->
  (alloc_lanes ROB_ENTRY_NUM r o vs).*2 !! n = Some t -> t = slot (tailPtr r) (o + count_true (take n vs)).
Proof.
  revert o n. induction vs as [| v vs IH]; intros o n Ht Ho Hroom Hn; [done |]. rewrite count_true_cons in Hroom.
  assert (0 <= count_true vs) as Hpos by (unfold count_true; lia).
  cbn [alloc_lanes fmap list_fmap] in Hn. destruct n as [| n]; cbn in Hn.
  - injection Hn as <-. rewrite addPtr_slot by lia. cbn. f_equal. unfold count_true. cbn. lia.
  - cbn [take]. rewrite count_true_cons. destruct v; cbn [andb] in Hn.
    + rewrite (proj2 (Z.ltb_lt _ _)) in Hn by lia. apply IH in Hn as ->; [f_equal; lia | lia.. ].
    + apply IH in Hn as ->; [f_equal; lia | lia.. ].
Qed.

Lemma length_omap_enabled (vs : list bool) (es : list (@rob_entry Meta)) :
  length vs = length es ->
  Z.of_nat (length (omap (fun '(v, e) => if v : bool then Some e else None) (zip vs es))) = count_true vs.
Proof.
  revert es. induction vs as [| v vs IH]; intros [| e es] E; try done. rewrite count_true_cons. cbn in *.
  destruct v; cbn; rewrite <- (IH es) by lia; lia.
Qed.

Lemma entering_omap (ls : list (@lane Meta)) rns :
  map info (omap (fun '(v, e) => if v : bool then Some e else None) (zip (map ln_enable ls) (map rn_rob rns))) =
  entering ls rns.
Proof.
  unfold entering, enabled. revert rns. induction ls as [| l ls IH]; intros [| r rns]; try done. cbn.
  destruct (ln_enable l); cbn; by rewrite IH.
Qed.

(** A group of lanes cut after lane [n]. *)
Lemma entering_take (ls : list (@lane Meta)) rns n :
  length rns = length ls ->
  entering (take n ls) (take n rns) =
  take (Z.to_nat (count_true (take n (map ln_enable ls)))) (entering ls rns).
Proof.
  unfold entering, enabled. revert rns n. induction ls as [| l ls IH]; intros [| r rns] n E; try done.
  { rewrite !take_nil. cbn. by rewrite take_nil. }
  destruct n as [| n]; [done |]. cbn [take map zip zip_with omap list_omap]. rewrite count_true_cons.
  assert (0 <= count_true (take n (map ln_enable ls))) as Hpos by (unfold count_true; lia).
  injection E as E. destruct (ln_enable l); rewrite IH by done; [| done].
  replace (Z.to_nat (1 + count_true (take n (map ln_enable ls))))
    with (S (Z.to_nat (count_true (take n (map ln_enable ls))))) by lia. done.
Qed.

Lemma length_renamed (b : backend) i : length (renamed_o b i) = length (lanes b i).
Proof.
  unfold Backend.renamed_o. apply length_rename_lanes. unfold Backend.allocs, alloc_phys_o.
  rewrite length_free_alloc. unfold Backend.requests. apply length_map.
Qed.

(** The instructions of this cycle, as the queue gets them. *)
Definition incoming (b : backend) (i : backend_in) : list ren_info := entering (lanes b i) (renamed_o b i).

Lemma appended_incoming (b : backend) i l :
  live (k_rob b) l ->
  map info (appended (Z.to_nat ROB_ENTRY_NUM - length l) (robAllocValid b i) (map rn_rob (renamed_o b i))) = incoming b i.
Proof.
  intros Hl. pose proof (dispatch_fits b i l Hl) as Hfit. unfold appended, incoming. rewrite robAllocValid_accept.
  rewrite take_ge.
  - rewrite <- enables. apply entering_omap.
  - apply Nat2Z.inj_le. rewrite length_omap_enabled; [lia |].
    rewrite length_map, length_renamed, length_lanes. apply length_accept.
Qed.

Lemma incoming_wf (b : backend) i C L n :
  wf C L -> speculativeMap (k_map b) = view C L -> free_ok (freeMask (k_free b)) C L -> Forall bus_ok (i_decode i) ->
  let X := entering (take n (lanes b i)) (take n (renamed_o b i)) in
  wf C (L ++ X) /\ map_writes (view C L) (take n (map rn_port (renamed_o b i))) = view C (L ++ X) /\
  news X = taken (take n (requests b i)) (allocs b i).
Proof.
  intros Hwf Hs Hf Hbus X.
  assert (take n (renamed_o b i) = rename_lanes (speculativeMap (k_map b)) (fun p => (prf_read (k_prf b) (i_writeback i) p).2)
            [] (take n (lanes b i)) (free_alloc (freeMask (k_free b)) (map free_request (take n (lanes b i))))) as E.
  { unfold Backend.renamed_o. rewrite rename_lanes_take. unfold Backend.allocs, alloc_phys_o, Backend.requests.
    by rewrite free_alloc_take, firstn_map. }
  unfold X. rewrite firstn_map, E.
  destruct (renames_fresh C L (speculativeMap (k_map b)) (fun p => (prf_read (k_prf b) (i_writeback i) p).2) []
              (take n (lanes b i)) (freeMask (k_free b))) as (H1 & H2 & H3); try done.
  - rewrite Hs, length_view. apply (wf_length _ _ _ _ Hwf).
  - rewrite Hs. by apply (view_zero REG_NUM PHYS_REG_NUM).
  - apply Forall_take, Forall_lookup_2. intros m x Hx. apply lanes_inv in Hx as (Hx & _ & _).
    by eapply Forall_lookup_1 in Hbus; [| exact Hx].
  - intros m Hm. rewrite <- firstn_map in Hm |- *. apply lookup_take_Some in Hm as [Hm Hlt].
    destruct (dispatch_allocates b i C L m Hf Hwf Hm) as [p Hp]. exists p.
    rewrite <- free_alloc_take. apply lookup_take_Some. done.
  - split; [done |]. split; [done |]. rewrite H3. unfold Backend.allocs, alloc_phys_o, Backend.requests.
    unfold taken. f_equal. rewrite <- firstn_map, <- free_alloc_take.
    rewrite <- (take_drop n (free_alloc (freeMask (k_free b)) (map free_request (lanes b i)))) at 2.
    clear. generalize (free_alloc (freeMask (k_free b)) (map free_request (lanes b i))).
    generalize (map free_request (lanes b i)). revert n. induction n as [| n IH]; intros [| r rs] [| p ps]; try done.
    cbn. f_equal. apply IH.
Qed.

Lemma enabled_lookup {A} (f : @lane Meta -> @renamed Meta -> A) (ls : list (@lane Meta)) rns j x :
  enabled f ls rns !! j = Some x -> exists m l r,
    ls !! m = Some l /\ rns !! m = Some r /\ ln_enable l = true /\ x = f l r /\
    Z.to_nat (count_true (take m (map ln_enable ls))) = j.
Proof.
  unfold enabled. revert rns j. induction ls as [| l ls IH]; intros [| r rns] j Hj; try done.
  cbn [zip zip_with omap list_omap] in Hj. destruct (ln_enable l) eqn:El.
  - destruct j as [| j]; cbn in Hj.
    + injection Hj as <-. exists 0%nat, l, r. done.
    + apply IH in Hj as (m & l' & r' & ? & ? & ? & ? & <-). exists (S m), l', r'. split_and!; try done.
      cbn [map take]. rewrite El, count_true_cons. unfold count_true. lia.
  - apply IH in Hj as (m & l' & r' & ? & ? & ? & ? & <-). exists (S m), l', r'. split_and!; try done.
    cbn [map take]. by rewrite El, count_true_cons.
Qed.

Lemma enabled_map {A B} (g : A -> B) (f : @lane Meta -> @renamed Meta -> A) (ls : list (@lane Meta)) rns :
  g <$> enabled f ls rns = enabled (fun l r => g (f l r)) ls rns.
Proof.
  unfold enabled. revert rns. induction ls as [| l ls IH]; intros [| r rns]; try done.
  cbn [zip zip_with omap list_omap]. destruct (ln_enable l); cbn; by rewrite <- IH.
Qed.

Lemma enabled_at {A} (f : @lane Meta -> @renamed Meta -> A) (ls : list (@lane Meta)) rns m l r :
  ls !! m = Some l -> rns !! m = Some r -> ln_enable l = true ->
  enabled f ls rns !! Z.to_nat (count_true (take m (map ln_enable ls))) = Some (f l r).
Proof.
  unfold enabled. revert rns m. induction ls as [| l' ls IH]; intros [| r' rns] m Hl Hr He; try done.
  destruct m as [| m]; cbn [lookup list_lookup] in Hl, Hr.
  - injection Hl as ->. injection Hr as ->. cbn. by rewrite He.
  - cbn [zip zip_with omap list_omap map take]. rewrite count_true_cons. pose proof (IH rns m Hl Hr He) as H.
    assert (0 <= count_true (take m (map ln_enable ls))) by (unfold count_true; lia).
    destruct (ln_enable l'); [| done].
    by replace (Z.to_nat (1 + count_true (take m (map ln_enable ls))))
      with (S (Z.to_nat (count_true (take m (map ln_enable ls))))) by lia.
Qed.

(** The lanes that dispatch are those whose instruction is valid. *)
Lemma enabled_valid (ls : list (@lane Meta)) rns :
  length rns = length ls ->
  (forall m l r, ls !! m = Some l -> rns !! m = Some r -> u_valid (rn_uop r) = ln_enable l) ->
  List.filter u_valid (map rn_uop rns) = enabled (fun _ r => rn_uop r) ls rns.
Proof.
  unfold enabled. revert rns. induction ls as [| l ls IH]; intros [| r rns] E H; try done.
  cbn [map List.filter zip zip_with omap list_omap]. rewrite (H 0%nat l r eq_refl eq_refl).
  rewrite IH by (try (injection E; done); intros m; apply (H (S m))). by destruct (ln_enable l).
Qed.

Lemma length_enabled {A} (f : @lane Meta -> @renamed Meta -> A) (ls : list (@lane Meta)) rns :
  length rns = length ls -> Z.of_nat (length (enabled f ls rns)) = count_true (map ln_enable ls).
Proof.
  unfold enabled. revert rns. induction ls as [| l ls IH]; intros [| r rns] E; try done.
  cbn [map zip zip_with omap list_omap]. rewrite count_true_cons, <- (IH rns) by (by injection E).
  destruct (ln_enable l); cbn [length]; lia.
Qed.

(** A lane of the group sees the ports of its elders. *)
Lemma rename_lanes_lookup m sr older (ls : list (@lane Meta)) al n r :
  rename_lanes m sr older ls al !! n = Some r -> exists l a, ls !! n = Some l /\ al !! n = Some a /\
    r = rename_lane m sr (older ++ take n (map rn_port (rename_lanes m sr older ls al))) l a.
Proof.
  revert older al n. induction ls as [| l ls IH]; intros older [| a al] n Hn; try done. cbn [rename_lanes] in Hn |- *.
  destruct n as [| n]; cbn [lookup list_lookup] in Hn.
  - injection Hn as <-. exists l, a. cbn [take]. by rewrite app_nil_r.
  - apply IH in Hn as (l' & a' & Hl & Ha & ->). exists l', a'. split_and!; try done. cbn [map take].
    by rewrite <- app_assoc.
Qed.

Lemma count_true_take (bs : list bool) m n :
  (m < n)%nat -> bs !! m = Some true -> count_true (take m bs) < count_true (take n bs).
Proof.
  revert m n. induction bs as [| b bs IH]; intros m n Hlt Hm; [done |]. destruct n as [| n]; [lia |].
  destruct m as [| m]; cbn [take] in *; rewrite ?count_true_cons.
  - injection Hm as ->. unfold count_true. cbn. lia.
  - specialize (IH m n ltac:(lia) Hm). lia.
Qed.

Lemma renamed_branch m sr older (ls : list (@lane Meta)) al n l r :
  ls !! n = Some l -> rename_lanes m sr older ls al !! n = Some r -> re_isBranch (rn_rob r) = bus_branch (ln_bus l).
Proof.
  revert older al n. induction ls as [| x ls IH]; intros older [| a al] n Hl Hr; try done. cbn in Hr.
  destruct n as [| n]; cbn in Hl, Hr; [| by eapply IH]. injection Hl as ->. injection Hr as <-.
  unfold rename_lane. by destruct a.
Qed.

(** The tags of the lanes. *)
Lemma lane_tag (b : backend) i l n x :
  live (k_rob b) l -> lanes b i !! n = Some x ->
  ln_robTag x = slot (headPtr (k_rob b)) (Z.of_nat (length l) + count_true (take n (map ln_enable (lanes b i)))).
Proof.
  intros Hl (_ & _ & Ht)%lanes_inv. pose proof (dispatch_fits b i l Hl) as Hfit. pose proof Hl as (_ & Hh & Hc & Hle & Etail & _).
  apply alloc_lanes_tag in Ht; [| rewrite Etail; by apply slot_range | lia | rewrite robAllocValid_accept; lia].
  rewrite Ht, Etail, slot_slot, Hc, enables, robAllocValid_accept. f_equal.
Qed.

(** *** One cycle of the free list *)

(** A mask that is exact for [L] becomes exact when [Y] is renamed and [k]
    instructions retire, in whichever order the two are applied. *)
Lemma mask_cycle mask C L Y fs reqs al k :
  free_ok mask C L -> wf C (L ++ Y) -> (k <= length L)%nat -> news Y = taken reqs al ->
  (forall p, p <> 0 /\ (true, p) ∈ fs <-> p ∈ olds (take k L)) ->
  free_ok (mark_free (mark_used mask reqs al) fs) (view C (take k L)) (drop k L ++ Y) /\
  free_ok (mark_used (mark_free mask fs) reqs al) (view C (take k L)) (drop k L ++ Y).
Proof.
  intros Hf Hwf Hk Hnew Hfs. destruct (wf_retires REG_NUM PHYS_REG_NUM k _ _ Hwf) as (_ & _ & Hb).
  rewrite take_app_le, drop_app_le in Hb by done.
  assert (forall p, p ∈ busy C (L ++ Y) <-> p ∈ busy C L \/ p ∈ news Y) as Hsplit.
  { intros p. unfold busy. rewrite news_app, app_assoc. apply elem_of_app. }
  assert (forall p, p ∈ news Y -> p ∉ olds (take k L)) as Hdis.
  { intros p Hp. apply Hb. unfold busy. rewrite news_app, !elem_of_app. auto. }
  split; intros p Hp.
  - rewrite testbit_mark_free, testbit_mark_used, Hf by done. rewrite <- Hnew.
    rewrite (bool_decide_ext _ _ (Hfs p)), (bool_decide_ext _ _ (Hb p)).
    destruct (decide (p ∈ olds (take k L))) as [Ho | Ho].
    + rewrite (bool_decide_true (p ∈ olds _)) by done. cbn [orb].
      by rewrite (bool_decide_false (p ∈ busy C (L ++ Y) /\ _)) by tauto.
    + rewrite (bool_decide_false (p ∈ olds _)) by done. cbn [orb]. rewrite <- negb_orb. f_equal.
      rewrite <- bool_decide_or. apply bool_decide_ext. rewrite Hsplit. tauto.
  - rewrite testbit_mark_used, testbit_mark_free, Hf by done. rewrite <- Hnew.
    rewrite (bool_decide_ext _ _ (Hfs p)), (bool_decide_ext _ _ (Hb p)).
    destruct (decide (p ∈ olds (take k L))) as [Ho | Ho].
    + rewrite (bool_decide_true (p ∈ olds _)), (bool_decide_false (p ∈ news Y)) by (intros Hn || done; by apply (Hdis p)). cbn [orb negb andb].
      by rewrite (bool_decide_false (p ∈ busy C (L ++ Y) /\ _)) by tauto.
    + rewrite (bool_decide_false (p ∈ olds _)) by done. cbn [orb]. rewrite <- negb_orb. f_equal.
      rewrite <- bool_decide_or. apply bool_decide_ext. rewrite Hsplit. tauto.
Qed.

(** Only retirement. *)
Lemma mask_retire mask C L fs k :
  free_ok mask C L -> wf C L -> (k <= length L)%nat ->
  (forall p, p <> 0 /\ (true, p) ∈ fs <-> p ∈ olds (take k L)) ->
  free_ok (mark_free mask fs) (view C (take k L)) (drop k L).
Proof.
  intros Hf Hwf Hk Hfs. destruct (mask_cycle mask C L [] fs [] [] k) as [H _]; try done.
  - by rewrite app_nil_r.
  - by rewrite app_nil_r in H.
Qed.

Lemma free_ok_clear mask C L : wf C L -> free_ok mask C L -> free_ok (set_bit PHYS_REG_NUM mask 0 false) C L.
Proof.
  intros Hwf Hf p Hp. rewrite testbit_set_bit_any, Hf by done. destruct (Z.eqb_spec p 0) as [-> |]; [| done].
  symmetry. apply negb_false_iff, bool_decide_eq_true. unfold busy. apply elem_of_app. left.
  pose proof (rget_lookup 0 C 0) as E. rewrite (wf_length _ _ _ _ Hwf), (wf_zero _ _ _ _ Hwf) in E.
  apply list_elem_of_lookup. exists (Z.to_nat 0). apply E. lia.
Qed.

(** *** The invariant *)

Local Abbreviation backend_step :=
  (backend_step meta0 REG_NUM PHYS_REG_NUM ROB_ENTRY_NUM UNIFIED_IQ_ENTRY_NUM LSQ_ENTRY_NUM MMIO_BASE_ADDR MMIO_LAST_ADDR).
Local Abbreviation backend_reset := (backend_reset meta0 REG_NUM PHYS_REG_NUM ROB_ENTRY_NUM).
Local Abbreviation backend_run :=
  (backend_run meta0 REG_NUM PHYS_REG_NUM ROB_ENTRY_NUM UNIFIED_IQ_ENTRY_NUM LSQ_ENTRY_NUM MMIO_BASE_ADDR MMIO_LAST_ADDR).

(** The queue [l] of instructions in flight explains the state. *)
Record precise (b : backend) (l : list (@rob_entry Meta)) : Prop := {
  pr_live : live (k_rob b) l;
  pr_wf : wf (committedMap (k_map b)) (map info l);
  pr_map : speculativeMap (k_map b) = view (committedMap (k_map b)) (map info l);
  pr_free : free_ok (freeMask (k_free b)) (committedMap (k_map b)) (map info l);
  pr_maps : Z.of_nat (length (checkpointMap (k_map b))) = ROB_ENTRY_NUM;
  pr_masks : Z.of_nat (length (checkpointFreeMask (k_free b))) = ROB_ENTRY_NUM;
  pr_checkpoint : forall n x, map info l !! n = Some x -> ri_branch x = true ->
    let t := slot (headPtr (k_rob b)) (Z.of_nat n) in
    rget [] (checkpointMap (k_map b)) t = view (committedMap (k_map b)) (take (S n) (map info l)) /\
    free_ok (rget 0 (checkpointFreeMask (k_free b)) t) (committedMap (k_map b)) (take (S n) (map info l))
}.

(** What the environment promises about the inputs of a cycle: fields have their
    widths, and a misprediction is reported for a branch that is in flight. *)
Record inputs_ok (b : backend) (i : @backend_in Meta) : Prop := {
  ok_decode : Forall bus_ok (i_decode i);
  ok_branchTag : 0 <= i_branchRobTag i < ROB_ENTRY_NUM;
  ok_complete : Forall (fun c => 0 <= c_tag c < ROB_ENTRY_NUM) (i_complete i);
  ok_recover : i_branchMispredicted i = true ->
    let e := entry meta0 (k_rob b) (i_branchRobTag i) in re_valid e = true /\ re_isBranch e = true
}.

Lemma precise_reset b : precise (backend_reset b) [].
Proof.
  unfold Backend.backend_reset. split; cbn [k_rob k_map k_free committedMap speculativeMap checkpointMap freeMask
    checkpointFreeMask map_reset free_reset].
  - by apply live_reset.
  - by apply wf_init.
  - done.
  - intros p Hp. unfold initial_mask. cbn. unfold busy. rewrite app_nil_r. rewrite Z.shiftl_spec by lia.
    destruct (Z.lt_ge_cases p REG_NUM) as [Hlt | Hge].
    + rewrite Z.testbit_neg_r by lia. symmetry. apply negb_false_iff, bool_decide_eq_true, elem_of_seqZ. lia.
    + rewrite Z.ones_spec_low by lia. symmetry. apply negb_true_iff, bool_decide_eq_false. rewrite elem_of_seqZ. lia.
  - rewrite length_replicate. lia.
  - rewrite length_replicate. lia.
  - done.
Qed.

(** The checkpoint of a tag after a cycle: unchanged but for the registers
    freed, unless one of the new branches has the tag. *)
Lemma checkpoints_range (b : backend) i l N :
  live (k_rob b) l -> N = ROB_ENTRY_NUM -> Forall (fun x => 0 <= x.2 < N) (checkpoints (lanes b i)).
Proof.
  intros Hl ->. apply Forall_lookup_2. intros n x Hx. unfold checkpoints in Hx.
  rewrite (list_lookup_fmap _ (lanes b i)) in Hx. destruct (lanes b i !! n) as [y |] eqn:E; [| done].
  injection Hx as <-. cbn. rewrite (lane_tag b i l n y) by done. by apply slot_range.
Qed.

Lemma old_tag_not_saved (b : backend) i l n :
  live (k_rob b) l -> (n < length l)%nat -> (true, slot (headPtr (k_rob b)) (Z.of_nat n)) ∉ checkpoints (lanes b i).
Proof.
  intros Hl Hn [m Hm]%list_elem_of_lookup. unfold checkpoints in Hm. rewrite (list_lookup_fmap _ (lanes b i)) in Hm.
  destruct (lanes b i !! m) as [y |] eqn:E; [| done]. injection Hm as Hv Ht.
  apply andb_true_iff in Hv as [Hv _]. rewrite (lane_tag b i l m y) in Ht by done.
  pose proof (dispatch_fits b i l Hl) as Hfit. pose proof Hl as (_ & _ & Hc & Hle & _).
  assert (count_true (take m (map ln_enable (lanes b i))) < count_true (map ln_enable (lanes b i))) as Hlt.
  { rewrite <- (firstn_all (map ln_enable (lanes b i))) at 2. apply count_true_take.
    - rewrite length_map. by apply lookup_lt_Some in E.
    - by rewrite (list_lookup_fmap ln_enable (lanes b i)), E, <- Hv. }
  rewrite enables in *. assert (0 <= count_true (take m (accept b i))) by (unfold count_true; lia).
  apply slot_inj in Ht; lia.
Qed.

Lemma saved_map (b : backend) i l n :
  precise b l -> (n < length l)%nat ->
  let t := slot (headPtr (k_rob b)) (Z.of_nat n) in
  rget [] (checkpointMap (k_map (backend_step b i))) t = rget [] (checkpointMap (k_map b)) t.
Proof.
  intros Hp Hn t. pose proof (pr_live _ _ Hp) as Hl. cbn [Backend.backend_step k_map map_step checkpointMap map_inputs
    checkpoint_i rename_i]. unfold save_maps. apply save_lanes_other.
  - eapply checkpoints_range; [done | apply (pr_maps _ _ Hp)].
  - by apply slot_range.
  - by eapply old_tag_not_saved.
Qed.

Lemma saved_mask (b : backend) i l n :
  precise b l -> (n < length l)%nat ->
  let t := slot (headPtr (k_rob b)) (Z.of_nat n) in
  rget 0 (checkpointFreeMask (k_free (backend_step b i))) t =
  mark_free (rget 0 (checkpointFreeMask (k_free b)) t) (free_ports b i).
Proof.
  intros Hp Hn t. pose proof (pr_live _ _ Hp) as Hl. cbn [Backend.backend_step k_free free_step checkpointFreeMask
    free_inputs]. unfold save_masks. cbn [f_checkpoint_i allocRequest_i free_i].
  assert (0 <= t < ROB_ENTRY_NUM) as Ht by (by apply slot_range).
  rewrite save_lanes_other.
  - pose proof (rget_lookup 0 (checkpointFreeMask (k_free b)) t) as E. rewrite (pr_masks _ _ Hp) in E.
    unfold rget at 1. by rewrite list_lookup_fmap, E.
  - eapply checkpoints_range; [done |]. rewrite length_map. apply (pr_masks _ _ Hp).
  - lia.
  - by eapply old_tag_not_saved.
Qed.

(** A new branch saves its checkpoint under its own tag. *)
Lemma new_checkpoint (b : backend) i l j x :
  precise b l -> incoming b i !! j = Some x -> ri_branch x = true ->
  exists m, let t := slot (headPtr (k_rob b)) (Z.of_nat (length l + j)) in
    entering (take (S m) (lanes b i)) (take (S m) (renamed_o b i)) = take (S j) (incoming b i) /\
    rget [] (checkpointMap (k_map (backend_step b i))) t =
      map_writes (speculativeMap (k_map b)) (take (S m) (map rn_port (renamed_o b i))) /\
    rget 0 (checkpointFreeMask (k_free (backend_step b i))) t =
      mark_free (mark_used (freeMask (k_free b)) (take (S m) (requests b i)) (allocs b i)) (free_ports b i).
Proof.
  intros Hp Hx Hbr. pose proof (pr_live _ _ Hp) as Hl.
  apply enabled_lookup in Hx as (m & y & r & Hy & Hr & Hen & -> & Hj). exists m. intros t.
  assert (ln_robTag y = t) as Ht.
  { rewrite (lane_tag b i l m y) by done. unfold t. f_equal. unfold count_true in *. lia. }
  assert (checkpoints (lanes b i) !! m = Some (true, t)) as Hck.
  { unfold checkpoints. rewrite (list_lookup_fmap _ (lanes b i)), Hy. cbn. rewrite Hen, Ht.
    apply (renamed_branch _ _ _ _ _ _ _ _ Hy) in Hr. cbn in Hbr. rewrite Hbr in Hr. by rewrite <- Hr. }
  assert (forall k, checkpoints (lanes b i) !! k = Some (true, t) -> k = m) as Huniq.
  { intros k Hk. unfold checkpoints in Hk. rewrite (list_lookup_fmap _ (lanes b i)) in Hk.
    destruct (lanes b i !! k) as [z |] eqn:Hz; [| done]. injection Hk as Hv Htz.
    apply andb_true_iff in Hv as [Hv _]. rewrite (lane_tag b i l k z) in Htz by done.
    rewrite (lane_tag b i l m y) in Ht by done. rewrite <- Ht in Htz.
    pose proof (dispatch_fits b i l Hl) as Hfit. rewrite <- enables in Hfit.
    assert (forall u w, lanes b i !! u = Some w -> ln_enable w = true -> 
      0 <= count_true (take u (map ln_enable (lanes b i))) < count_true (map ln_enable (lanes b i))) as Hb.
    { intros u w Hu Hw. split; [unfold count_true; lia |].
      rewrite <- (firstn_all (map ln_enable (lanes b i))) at 2. apply count_true_take.
      - rewrite length_map. by apply lookup_lt_Some in Hu.
      - by rewrite (list_lookup_fmap ln_enable (lanes b i)), Hu, <- Hw. }
    pose proof (Hb k z Hz Hv). pose proof (Hb m y Hy Hen).
    apply slot_inj in Htz; [| lia..].
    assert (map ln_enable (lanes b i) !! k = Some true) as Hk1 by (by rewrite (list_lookup_fmap ln_enable (lanes b i)), Hz, <- Hv).
    assert (map ln_enable (lanes b i) !! m = Some true) as Hm1 by (by rewrite (list_lookup_fmap ln_enable (lanes b i)), Hy, <- Hen).
    destruct (Nat.lt_trichotomy k m) as [Hlt | [-> | Hlt]]; [| done |];
      apply (count_true_take (map ln_enable (lanes b i))) in Hlt; (done || lia). }
  split_and!.
  - unfold incoming. rewrite entering_take by apply length_renamed. f_equal.
    assert (map ln_enable (lanes b i) !! m = Some true) as Hm1 by (by rewrite (list_lookup_fmap ln_enable (lanes b i)), Hy, <- Hen).
    rewrite (take_S_r _ _ _ Hm1). unfold count_true in *. rewrite List.filter_app, length_app. cbn. lia.
  - cbn [Backend.backend_step k_map map_step checkpointMap map_inputs checkpoint_i rename_i]. unfold save_maps.
    rewrite (save_lanes_this _ _ _ _ _ m); [done | | done | done].
    eapply checkpoints_range; [done | apply (pr_maps _ _ Hp)].
  - cbn [Backend.backend_step k_free free_step checkpointFreeMask free_inputs]. unfold save_masks.
    cbn [f_checkpoint_i allocRequest_i free_i].
    rewrite (save_lanes_this _ _ _ _ _ m); [done | | done | done].
    eapply checkpoints_range; [done |]. rewrite length_map. apply (pr_masks _ _ Hp).
Qed.

(** The reorder buffer after a cycle. *)
Lemma inputs_tags (b : backend) i : inputs_ok b i -> tags_ok ROB_ENTRY_NUM (rob_inputs b i).
Proof. intros [_ Ht Hc _]. by split. Qed.

Lemma retired_le (b : backend) i l : live (k_rob b) l -> (retired b i <= length l)%nat.
Proof.
  intros Hl. unfold retired. pose proof (commitAccepted_range meta0 ROB_ENTRY_NUM Hrob (k_rob b) (rob_inputs b i) l Hl). lia.
Qed.

(** The queue of the next cycle. *)
Definition next_queue (b : backend) (i : backend_in) (l : list (@rob_entry Meta)) : list (@rob_entry Meta) :=
  (queue_next ROB_ENTRY_NUM (headPtr (k_rob b), l) (rob_inputs b i)).2.

Lemma rob_cycle (b : backend) i l :
  live (k_rob b) l -> inputs_ok b i ->
  live (k_rob (backend_step b i)) (next_queue b i l) /\
  headPtr (k_rob (backend_step b i)) =
    (if flush b i then 0 else if i_branchMispredicted i then headPtr (k_rob b)
     else slot (headPtr (k_rob b)) (Z.of_nat (retired b i))) /\
  map info (next_queue b i l) =
    if flush b i then []
    else if i_branchMispredicted i
    then take (keep_count ROB_ENTRY_NUM (headPtr (k_rob b)) (i_branchRobTag i) (length l)) (map info l)
    else drop (retired b i) (map info l) ++ incoming b i.
Proof.
  intros Hl Hok. destruct (rob_step_queue meta0 ROB_ENTRY_NUM Hrob (k_rob b) (rob_inputs b i) l Hl (inputs_tags b i Hok)) as [Hh Hq].
  split; [done |]. cbn [Backend.backend_step k_rob]. rewrite Hh. unfold next_queue. cbn [queue_next fst snd].
  rewrite info_queue_step. unfold retired. rewrite (commitAccepted_retiring meta0 ROB_ENTRY_NUM Hrob _ _ l Hl).
  cbn [Backend.rob_inputs flush_i recoverValid_i recoverTag_i allocValid_i allocEntry_i commitReady_i].
  split; [done |]. by rewrite appended_incoming.
Qed.

(** Nothing retires in a recovery or a trap. *)
Lemma retired_none (b : backend) i l :
  live (k_rob b) l -> flush b i = true \/ i_branchMispredicted i = true -> retired b i = 0%nat.
Proof.
  intros Hl H. destruct (retire_cases b i l Hl) as [[_ ?] | [(? & ? & ? & _ & _ & _ & _ & Hm & Hf) | (? & ? & ? & ? & _ & _ & _ & _ & Hm & Hf)]];
    [done | rewrite Hm, Hf in H; by destruct H..].
Qed.

Lemma committed_next (b : backend) i l :
  live (k_rob b) l ->
  committedMap (k_map (backend_step b i)) = view (committedMap (k_map b)) (take (retired b i) (map info l)).
Proof. intros Hl. cbn [Backend.backend_step k_map map_step committedMap map_inputs commit_i]. by apply commit_ports_view. Qed.

Lemma lengths_next (b : backend) i l :
  precise b l ->
  Z.of_nat (length (checkpointMap (k_map (backend_step b i)))) = ROB_ENTRY_NUM /\
  Z.of_nat (length (checkpointFreeMask (k_free (backend_step b i)))) = ROB_ENTRY_NUM.
Proof.
  intros Hp. cbn [Backend.backend_step k_map k_free map_step free_step checkpointMap checkpointFreeMask].
  unfold save_maps, save_masks. rewrite !length_save_lanes, length_map. split; [apply (pr_maps _ _ Hp) | apply (pr_masks _ _ Hp)].
Qed.

(** *** A trap *)
Lemma precise_trap (b : backend) i l :
  precise b l -> inputs_ok b i -> flush b i = true -> precise (backend_step b i) (next_queue b i l).
Proof.
  intros Hp Hok Hf. pose proof (pr_live _ _ Hp) as Hl. destruct (rob_cycle b i l Hl Hok) as (Hl' & _ & HL).
  pose proof (committed_next b i l Hl) as HC. rewrite (retired_none b i l Hl (or_introl Hf)) in HC.
  change (committedMap (k_map (backend_step b i)) = committedMap (k_map b)) in HC. rewrite Hf in HL.
  destruct (lengths_next b i l Hp) as [Hm1 Hm2].
  assert (wf (committedMap (k_map b)) []) as Hwf by (apply (wf_take _ _ _ _ 0 (pr_wf _ _ Hp))).
  split; rewrite ?HL, ?HC; try done.
  - cbn [Backend.backend_step k_map map_step speculativeMap map_inputs restoreCommitted_i]. by rewrite Hf.
  - cbn [Backend.backend_step k_free free_step freeMask free_inputs restore_i restoreFreeMask_i]. rewrite Hf.
    apply free_ok_clear; [done |]. intros p Hpr.
    pose proof (wf_range _ _ _ _ Hwf) as Hr. unfold busy in *. cbn in *. rewrite app_nil_r in *.
    rewrite testbit_committedFreeMask by (try done; apply (wf_length _ _ _ _ Hwf)).
    destruct (Z.eqb_spec p 0) as [-> | Hne]; cbn [negb andb]; [| done].
    symmetry. apply negb_false_iff, bool_decide_eq_true. pose proof (rget_lookup 0 (committedMap (k_map b)) 0) as E.
    rewrite (wf_length _ _ _ _ Hwf), (wf_zero _ _ _ _ Hwf) in E. apply list_elem_of_lookup. exists (Z.to_nat 0). apply E. lia.
Qed.

(** *** A misprediction *)

(** The branch is at some position of the queue. *)
Lemma recovering_branch (b : backend) i l :
  precise b l -> inputs_ok b i -> i_branchMispredicted i = true ->
  exists d x, map info l !! d = Some x /\ ri_branch x = true /\ i_branchRobTag i = slot (headPtr (k_rob b)) (Z.of_nat d) /\
    keep_count ROB_ENTRY_NUM (headPtr (k_rob b)) (i_branchRobTag i) (length l) = S d.
Proof.
  intros Hp Hok Hm. destruct (ok_recover _ _ Hok Hm) as [Hv Hbr]. pose proof (ok_branchTag _ _ Hok) as Ht.
  destruct (pr_live _ _ Hp) as (_ & Hh & Hc & Hle & _ & Hslot). specialize (Hslot _ Ht).
  pose proof (distance_range ROB_ENTRY_NUM Hrob (headPtr (k_rob b)) (i_branchRobTag i)) as Hd.
  set (d := distance ROB_ENTRY_NUM (headPtr (k_rob b)) (i_branchRobTag i)) in *.
  destruct (l !! Z.to_nat d) as [e |] eqn:E; [| congruence]. destruct Hslot as [Ee _].
  exists (Z.to_nat d), (info e). split_and!.
  - by rewrite (list_lookup_fmap info l), E.
  - cbn. by rewrite <- Ee.
  - rewrite Z2Nat.id by lia. symmetry. by apply slot_distance.
  - unfold keep_count. fold d. apply lookup_lt_Some in E. by rewrite (proj2 (Z.ltb_lt _ _)) by lia.
Qed.

Lemma no_frees (b : backend) i l C :
  precise b l -> retired b i = 0%nat -> forall mask L, free_ok mask C L -> free_ok (mark_free mask (free_ports b i)) C L.
Proof.
  intros Hp H0 mask L Hf p Hpr. rewrite testbit_mark_free by done.
  rewrite (bool_decide_ext _ _ (free_ports_olds b i l p (pr_live _ _ Hp) (pr_wf _ _ Hp))), H0, take_0.
  rewrite bool_decide_false by apply not_elem_of_nil. cbn. by apply Hf.
Qed.

Lemma precise_recovery (b : backend) i l :
  precise b l -> inputs_ok b i -> flush b i = false -> i_branchMispredicted i = true ->
  precise (backend_step b i) (next_queue b i l).
Proof.
  intros Hp Hok Hf Hm. pose proof (pr_live _ _ Hp) as Hl. destruct (rob_cycle b i l Hl Hok) as (Hl' & Hh & HL).
  pose proof (retired_none b i l Hl (or_intror Hm)) as H0.
  pose proof (committed_next b i l Hl) as HC. rewrite H0 in HC.
  change (committedMap (k_map (backend_step b i)) = committedMap (k_map b)) in HC. rewrite Hf, Hm in HL, Hh.
  destruct (lengths_next b i l Hp) as [Hm1 Hm2].
  destruct (recovering_branch b i l Hp Hok Hm) as (d & x & Hx & Hbr & Htag & Hk). rewrite Hk in HL.
  destruct (pr_checkpoint _ _ Hp d x Hx Hbr) as [Hck Hckf]. rewrite <- Htag in Hck, Hckf.
  assert (wf (committedMap (k_map b)) (take (S d) (map info l))) as Hwf by (apply (wf_take _ _ _ _ _ (pr_wf _ _ Hp))).
  split; rewrite ?HL, ?HC, ?Hh; try done.
  - cbn [Backend.backend_step k_map map_step speculativeMap map_inputs restoreCommitted_i m_recoverValid_i m_recoverTag_i].
    by rewrite Hf, Hm.
  - cbn [Backend.backend_step k_free free_step freeMask free_inputs restore_i f_recoverValid_i f_recoverTag_i free_i].
    rewrite Hf, Hm. apply free_ok_clear; [done |]. by apply (no_frees b i l).
  - intros n y Hy Hbry t. apply lookup_take_Some in Hy as [Hy Hlt]. rewrite take_take, Nat.min_l by lia.
    destruct (pr_checkpoint _ _ Hp n y Hy Hbry) as [H1 H2].
    assert (n < length l)%nat as Hn by (apply lookup_lt_Some in Hy; by rewrite length_map in Hy).
    unfold t. rewrite (saved_map b i l n), (saved_mask b i l n) by done. split; [done |].
    by apply (no_frees b i l).
Qed.

(** *** Any other cycle *)
Lemma precise_advance (b : backend) i l :
  precise b l -> inputs_ok b i -> flush b i = false -> i_branchMispredicted i = false ->
  precise (backend_step b i) (next_queue b i l).
Proof.
  intros Hp Hok Hf Hm. pose proof Hp as [Hl Hwf0 Hspec Hfree _ _ Hck]. destruct (rob_cycle b i l Hl Hok) as (Hl' & Hh & HL).
  pose proof (committed_next b i l Hl) as HC. rewrite Hf, Hm in HL, Hh. destruct (lengths_next b i l Hp) as [Hm1 Hm2].
  pose proof (retired_le b i l Hl) as Hk. rewrite <- (length_map info) in Hk.
  set (C := committedMap (k_map b)) in *. set (L := map info l) in *. set (k := retired b i) in *. set (X := incoming b i) in *.
  assert (forall p, p <> 0 /\ (true, p) ∈ free_ports b i <-> p ∈ olds (take k L)) as Hfs.
  { intros p. by apply free_ports_olds. }
  pose proof (fun n => incoming_wf b i C L n Hwf0 Hspec Hfree (ok_decode _ _ Hok)) as Hin.
  assert (entering (take (length (lanes b i)) (lanes b i)) (take (length (lanes b i)) (renamed_o b i)) = X) as EX.
  { unfold X, incoming. rewrite firstn_all. rewrite take_ge by (by rewrite length_renamed). done. }
  destruct (Hin (length (lanes b i))) as (Hwf & Hports & Hnews). rewrite EX in Hwf, Hports, Hnews.
  rewrite take_ge in Hports by (by rewrite length_map, length_renamed).
  rewrite take_ge in Hnews by (unfold Backend.requests; by rewrite length_map).
  destruct (wf_retires REG_NUM PHYS_REG_NUM k _ _ Hwf) as (HwfN & _ & _). rewrite take_app_le, drop_app_le in HwfN by done.
  assert (forall Y, view (view C (take k L)) (drop k L ++ Y) = view C (L ++ Y)) as Hview.
  { intros Y. rewrite <- view_app, app_assoc, take_drop. done. }
  split; rewrite ?HL, ?HC; try done.
  - rewrite Hview, <- Hports.
    cbn [Backend.backend_step k_map map_step speculativeMap map_inputs restoreCommitted_i m_recoverValid_i rename_i].
    by rewrite Hf, Hm, <- Hspec.
  - cbn [Backend.backend_step k_free free_step freeMask free_inputs restore_i f_recoverValid_i free_i allocRequest_i].
    rewrite Hf, Hm. apply free_ok_clear; [done |].
    by destruct (mask_cycle (freeMask (k_free b)) C L X (free_ports b i) (requests b i) (allocs b i) k) as [_ ?].
  - intros n x Hx Hbr t. unfold t. rewrite Hh, slot_slot.
    destruct (decide (n < length (drop k L))%nat) as [Hlt | Hge].
    + (* a branch that was in flight before *)
      rewrite lookup_app_l, lookup_drop in Hx by done. rewrite length_drop in Hlt.
      destruct (Hck _ x Hx Hbr) as [H1 H2]. assert (k + n < length l)%nat as Hn by (unfold L in Hlt; rewrite length_map in Hlt; lia).
      replace (Z.of_nat k + Z.of_nat n) with (Z.of_nat (k + n)) by lia.
      rewrite (saved_map b i l), (saved_mask b i l), H1 by done.
      rewrite take_app_le by (rewrite length_drop; lia).
      assert (take (S n) (drop k L) = drop k (take (S (k + n)) L)) as E.
      { rewrite take_drop_commute. do 2 f_equal. lia. }
      rewrite E. assert (take k L = take k (take (S (k + n)) L)) as E' by (rewrite take_take; f_equal; lia). rewrite E'.
      split; [by rewrite <- view_app, take_drop |].
      apply mask_retire; [done | by apply wf_take | rewrite length_take; lia |]. intros p. by rewrite <- E'.
    + (* a branch that enters *)
      rewrite lookup_app_r in Hx by lia. rewrite length_drop in Hx, Hge. set (j := (n - (length L - k))%nat) in *.
      destruct (new_checkpoint b i l j x Hp Hx Hbr) as (m & Een & H1 & H2).
      replace (Z.of_nat k + Z.of_nat n) with (Z.of_nat (length l + j)) by (unfold j, L; rewrite length_map in *; unfold L in *; rewrite length_map in *; lia).
      rewrite H1, H2.
      assert (take (S n) (drop k L ++ X) = drop k L ++ take (S j) X) as E.
      { rewrite take_app, length_drop, take_ge by (rewrite length_drop; lia). do 2 f_equal. unfold j. lia. }
      rewrite E. destruct (Hin (S m)) as (Hwfm & Hpm & Hnm). rewrite Een in Hwfm, Hpm, Hnm. fold X in Hwfm, Hpm, Hnm.
      split; [by rewrite Hview, <- Hpm, <- Hspec |].
      by destruct (mask_cycle (freeMask (k_free b)) C L (take (S j) X) (free_ports b i) (take (S m) (requests b i)) (allocs b i) k) as [? _].
Qed.

Lemma precise_step (b : backend) i l :
  precise b l -> inputs_ok b i -> precise (backend_step b i) (next_queue b i l).
Proof.
  intros Hp Hok. destruct (flush b i) eqn:Hf; [by apply precise_trap |].
  destruct (i_branchMispredicted i) eqn:Hm; [by apply precise_recovery | by apply precise_advance].
Qed.

(** ** Runs *)

(** The environment keeps its promise in every cycle. *)
Fixpoint run_ok (b : backend) (ins : list backend_in) : Prop :=
  match ins with [] => True | i :: ins => inputs_ok b i /\ run_ok (backend_step b i) ins end.

Lemma precise_run ins b l : precise b l -> run_ok b ins -> exists l', precise (backend_run b ins) l'.
Proof.
  revert b l. induction ins as [| i ins IH]; intros b l Hp Hok; [eauto |]. destruct Hok as [Hi Hok].
  apply (IH _ (next_queue b i l)); [by apply precise_step | done].
Qed.

(** The free list counts the registers that nothing uses. *)
Lemma count_bits_busy mask C L :
  wf C L -> free_ok mask C L ->
  count_bits PHYS_REG_NUM mask = PHYS_REG_NUM - REG_NUM - Z.of_nat (length (news L)).
Proof.
  intros Hwf Hf. unfold count_bits. rewrite fold_count_length.
  set (P := fun p => negb (bool_decide (p ∈ busy C L))).
  assert (List.filter (Z.testbit mask) (seqZ 0 PHYS_REG_NUM) = List.filter P (seqZ 0 PHYS_REG_NUM)) as ->.
  { apply filter_ext_in. intros p Hp%list_elem_of_In%elem_of_seqZ. apply Hf. lia. }
  assert (busy C L ++ List.filter P (seqZ 0 PHYS_REG_NUM) ≡ₚ seqZ 0 PHYS_REG_NUM) as HP.
  { apply NoDup_Permutation.
    - apply NoDup_app. split; [apply (wf_nodup _ _ _ _ Hwf) |]. split.
      + intros p Hp Hin%list_elem_of_In. apply filter_In in Hin as [_ Hn]. unfold P in Hn.
        by apply negb_true_iff, bool_decide_eq_false in Hn.
      + apply NoDup_ListNoDup, List.NoDup_filter, NoDup_ListNoDup, NoDup_seqZ.
    - apply NoDup_seqZ.
    - intros p. rewrite elem_of_app, (list_elem_of_In (List.filter _ _) p), filter_In, <- list_elem_of_In. unfold P. split.
      + intros [Hp | [Hp _]]; [| done]. apply elem_of_seqZ. pose proof (wf_range _ _ _ _ Hwf) as Hr.
        rewrite list.Forall_forall in Hr. specialize (Hr p Hp). lia.
      + intros Hp. destruct (decide (p ∈ busy C L)); [auto |]. right. split; [done |]. by rewrite bool_decide_false. }
  apply Permutation_length in HP. rewrite length_app, length_seqZ in HP. unfold busy in HP. rewrite length_app in HP.
  pose proof (wf_length _ _ _ _ Hwf). lia.
Qed.

(** C5: register renaming is precise.  From reset, whatever is decoded, completed,
    mispredicted and retired, in every state there is a queue of instructions in
    flight, the contents of the reorder buffer in program order, such that: the
    map for the next instruction is the committed map with the writes of the
    queue applied in order; a physical register is free exactly when the
    committed map does not use it and no instruction in flight writes it, and no
    register has two owners, so none is lost or given out twice and the count of
    free registers is what remains; the checkpoint of every branch in flight is
    the state right behind it. *)
Theorem renaming_precise b0 ins :
  run_ok (backend_reset b0) ins ->
  let b := backend_run (backend_reset b0) ins in
  let C := committedMap (k_map b) in
  exists l, let L := map info l in
    live (k_rob b) l /\
    speculativeMap (k_map b) = map_writes C (rens L) /\
    NoDup (C ++ news L) /\
    (forall p, 0 <= p < PHYS_REG_NUM -> (Z.testbit (freeMask (k_free b)) p = true <-> (p ∉ C) /\ (p ∉ news L))) /\
    freeCount_o PHYS_REG_NUM (k_free b) = PHYS_REG_NUM - REG_NUM - Z.of_nat (length (news L)) /\
    forall n e, l !! n = Some e -> re_isBranch e = true ->
      let t := slot (headPtr (k_rob b)) (Z.of_nat n) in
      rget [] (checkpointMap (k_map b)) t = map_writes C (rens (take (S n) L)) /\
      forall p, 0 <= p < PHYS_REG_NUM ->
        (Z.testbit (rget 0 (checkpointFreeMask (k_free b)) t) p = true <-> (p ∉ C) /\ (p ∉ news (take (S n) L))).
Proof.
  intros Hok b C. destruct (precise_run ins _ [] (precise_reset b0) Hok) as [l Hp]. fold b in Hp.
  assert (forall mask L', free_ok mask C L' -> forall p, 0 <= p < PHYS_REG_NUM ->
    (Z.testbit mask p = true <-> (p ∉ C) /\ (p ∉ news L'))) as Hfree.
  { intros mask L' Hf p Hpr. rewrite Hf by done. unfold busy. by rewrite negb_true_iff, bool_decide_eq_false, not_elem_of_app. }
  exists l. destruct Hp as [Hl Hwf Hs Hf _ _ Hck]. fold C in Hwf, Hs, Hf, Hck. split_and!; try done.
  - apply (wf_nodup _ _ _ _ Hwf).
  - by apply Hfree.
  - rewrite (freeCount_bits REG_NUM PHYS_REG_NUM Hreg Hphys). by apply (count_bits_busy _ C).
  - intros n e He Hbr. destruct (Hck n (info e)) as [H1 H2]; [by rewrite (list_lookup_fmap info l), He | done |].
    split; [done |]. by apply Hfree.
Qed.

(** C6: recovery is precise.  In every state that can be reached, the cycle in which
    a branch in flight turns out mispredicted leaves in the reorder buffer the
    instructions up to and including the branch, in the map exactly their writes
    on top of the committed map, and frees exactly the registers of the
    instructions behind it; nothing retires.  A trap empties the buffer, leaves
    the committed map untouched and makes it the map of the next instruction,
    and frees everything else. *)
Theorem recovery_precise b0 ins i :
  let b := backend_run (backend_reset b0) ins in
  let b' := backend_step b i in
  let C := committedMap (k_map b) in
  run_ok (backend_reset b0) ins -> inputs_ok b i -> flush b i = true \/ i_branchMispredicted i = true ->
  exists l d, let kept := take d (map info l) in
    live (k_rob b) l /\
    (if flush b i then d = 0%nat
     else exists e, l !! pred d = Some e /\ (0 < d)%nat /\ re_isBranch e = true /\
       i_branchRobTag i = slot (headPtr (k_rob b)) (Z.of_nat (pred d))) /\
    retired b i = 0%nat /\
    (exists l', live (k_rob b') l' /\ map info l' = kept) /\
    committedMap (k_map b') = C /\
    speculativeMap (k_map b') = map_writes C (rens kept) /\
    forall p, 0 <= p < PHYS_REG_NUM -> (Z.testbit (freeMask (k_free b')) p = true <-> (p ∉ C) /\ (p ∉ news kept)).
Proof.
  intros b b' C Hrun Hok Hcase. destruct (precise_run ins _ [] (precise_reset b0) Hrun) as [l Hp]. fold b in Hp.
  pose proof (pr_live _ _ Hp) as Hl. pose proof (precise_step b i l Hp Hok) as Hp'.
  destruct (rob_cycle b i l Hl Hok) as (Hl' & _ & HL). fold b' in Hp', Hl'.
  pose proof (committed_next b i l Hl) as HC. rewrite (retired_none b i l Hl Hcase) in HC. fold b' C in HC.
  change (committedMap (k_map b') = C) in HC.
  assert (exists d, map info (next_queue b i l) = take d (map info l) /\
    (if flush b i then d = 0%nat
     else exists e, l !! pred d = Some e /\ (0 < d)%nat /\ re_isBranch e = true /\
       i_branchRobTag i = slot (headPtr (k_rob b)) (Z.of_nat (pred d)))) as (d & Ed & Hd).
  { destruct (flush b i); [by exists 0%nat |]. destruct Hcase as [? | Hm]; [done |]. rewrite Hm in HL.
    destruct (recovering_branch b i l Hp Hok Hm) as (d & x & Hx & Hbr & Ht & Hk). exists (S d). rewrite HL, Hk.
    split; [done |]. rewrite (list_lookup_fmap info l) in Hx. destruct (l !! d) as [e |] eqn:E; [| done]. injection Hx as <-.
    exists e. cbn [pred]. split_and!; [done | lia | done | done]. }
  exists l, d. intros kept. fold kept in Ed. destruct Hp' as [_ Hwf Hs Hf _ _ _]. rewrite Ed, HC in *.
  split_and!; try done; [by apply (retired_none b i l) | by exists (next_queue b i l) |].
  intros p Hpr. rewrite Hf by done. unfold busy. by rewrite negb_true_iff, bool_decide_eq_false, not_elem_of_app.
Qed.

(** C26: dispatch never starves an instruction it accepts.  In every state that can be
    reached, each instruction accepted in a cycle finds a slot of the reorder
    buffer that nothing in flight has, the next one after those in flight and its
    accepted elders, and a free physical register of its own if it writes one;
    and it is accepted only together with all older valid ones. *)
Theorem dispatch_has_resources b0 ins i :
  let b := backend_run (backend_reset b0) ins in
  run_ok (backend_reset b0) ins ->
  exists l, live (k_rob b) l /\
    Z.of_nat (length l) + count_true (accept b i) <= ROB_ENTRY_NUM /\
    NoDup (taken (requests b i) (allocs b i)) /\
    forall n x, lanes b i !! n = Some x -> ln_enable x = true ->
      ln_robTag x = slot (headPtr (k_rob b)) (Z.of_nat (length l) + count_true (take n (accept b i))) /\
      (bus_writes (ln_bus x) = true ->
         exists p, allocs b i !! n = Some (true, p) /\ 0 < p < PHYS_REG_NUM /\ Z.testbit (freeMask (k_free b)) p = true) /\
      forall m d, (m < n)%nat -> i_decode i !! m = Some d -> b_valid d = true -> accept b i !! m = Some true.
Proof.
  intros b Hrun. destruct (precise_run ins _ [] (precise_reset b0) Hrun) as [l Hp]. fold b in Hp.
  destruct Hp as [Hl Hwf _ Hf _ _ _]. destruct (free_alloc_taken PHYS_REG_NUM (freeMask (k_free b)) (requests b i)) as [Hnd HF].
  exists l. split; [done |]. split; [by apply dispatch_fits |]. split; [done |].
  intros n x Hx Hen. split; [rewrite <- enables; by apply lane_tag |]. pose proof (lanes_inv b i n x Hx) as (Hd & Ha & _).
  rewrite Hen in Ha. split.
  - intros Hw. assert (requests b i !! n = Some true) as Hreq.
    { unfold Backend.requests. rewrite (list_lookup_fmap free_request (lanes b i)), Hx. cbn. unfold free_request. by rewrite Hen, Hw. }
    destruct (dispatch_allocates b i _ _ n Hf Hwf Hreq) as [p Hpn]. exists p. split; [done |].
    assert (p ∈ taken (requests b i) (allocs b i)) as Hin.
    { unfold taken. apply list_elem_of_omap. exists (true, (true, p)). split; [| done].
      apply list_elem_of_lookup. exists n. by rewrite lookup_zip_with, Hreq, Hpn. }
    rewrite list.Forall_forall in HF. destruct (HF p Hin) as [? ?]. split; [lia | done].
  - intros m d Hlt Hm Hv. apply (accept_lanes_in_order _ _ _ _ _ m n (LaneIn (b_valid d) (supported ROB_ENTRY_NUM b i m d) (bus_writes d) (lane_memory (b_ctl d)))); try done.
    unfold Backend.dispatch_lanes. by rewrite list_lookup_imap, Hm.
Qed.
End inv.

(** ** The demonstration run *)

(** Decides the contract of a cycle by evaluation. *)
Ltac inputs_ok :=
  split; [repeat constructor; vm_compute; discriminate | vm_compute; split; [discriminate | reflexivity] |
          repeat constructor; vm_compute; discriminate | vm_compute; (discriminate || split; reflexivity)].
Ltac run_ok := repeat (split; [inputs_ok |]); exact I.

Lemma renaming_precise_witness :
  let b := Demo.run [Demo.c0; Demo.c1; Demo.c2] in
  run_ok tt 32 48 16 16 16 0xFFE0 0xFFFF Demo.reset [Demo.c0; Demo.c1; Demo.c2] /\
  exists l, live tt 16 (k_rob b) l /\ freeCount_o 48 (k_free b) = 16 - Z.of_nat (length (news (map info l))).
Proof.
  assert (run_ok tt 32 48 16 16 16 0xFFE0 0xFFFF Demo.reset [Demo.c0; Demo.c1; Demo.c2]) as H by run_ok.
  split; [exact H |].
  destruct (renaming_precise tt 32 48 16 16 16 0xFFE0 0xFFFF ltac:(lia) ltac:(lia) ltac:(lia) Demo.off _ H)
    as (l & Hl & _ & _ & _ & Hc & _). exists l. split; [exact Hl | exact Hc].
Defined.

Lemma recovery_precise_witness :
  let b := Demo.run [Demo.c0; Demo.c1; Demo.c2] in
  i_branchMispredicted Demo.c3 = true /\
  exists l d, live tt 16 (k_rob b) l /\
    speculativeMap (k_map (Demo.step b Demo.c3)) = map_writes (committedMap (k_map b)) (rens (take d (map info l))).
Proof.
  intros b. split; [reflexivity |].
  destruct (recovery_precise tt 32 48 16 16 16 0xFFE0 0xFFFF ltac:(lia) ltac:(lia) ltac:(lia) Demo.off
              [Demo.c0; Demo.c1; Demo.c2] Demo.c3) as (l & d & Hl & _ & _ & _ & _ & Hs & _).
  - run_ok.
  - inputs_ok.
  - right. reflexivity.
  - exists l, d. split; [exact Hl | exact Hs].
Defined.

Lemma dispatch_has_resources_witness :
  let b := Demo.run [Demo.c0] in
  accept 48 16 16 16 b Demo.c1 = [true; true] /\
  exists l, live tt 16 (k_rob b) l /\ Z.of_nat (length l) + 2 <= 16.
Proof.
  intros b. split; [vm_compute; reflexivity |].
  destruct (dispatch_has_resources tt 32 48 16 16 16 0xFFE0 0xFFFF ltac:(lia) ltac:(lia) ltac:(lia) Demo.off [Demo.c0] Demo.c1)
    as (l & Hl & Hc & _); [run_ok |].
  exists l. split; [exact Hl | exact Hc].
Defined.
