(* ===== verification/BackendValues.v ===== *)
(** * Out-of-order execution computes the in-order result

    The values of the physical registers.  The scheduler and the execution stage
    are the environment: they issue instructions in flight in any order, once
    their sources are ready, and write results back at any later time
    ([exec_ok]).  Then the register file, read through the committed map, holds
    at all times what executing the retired instructions one after the other in
    program order gives.  BackendSched discharges the scheduler's part. *)

From Stdlib Require Import ZArith Lia.
From stdpp Require Import base numbers list.
From S2P Require Import Prelude Hw MemWord Csr Isa Decode Rob Rename Dispatch Commit Prf RenameInv Backend BackendInv.

Local Open Scope Z_scope.

(** An instruction in flight: its source registers, whether it uses them, what it
    computes from them; the physical sources it was given; the operands it has
    read, once issued. *)
Record instr := Instr {
  g_rs1 : Z; g_rs2 : Z; g_use1 : bool; g_use2 : bool; g_fn : Z -> Z -> Z;
  g_src1 : Z; g_src2 : Z; g_ops : option (Z * Z) }.

(** The second source is needed for a result or a branch decision; the data of a
    store is not needed to issue it. *)
Definition needs2 (q : ren_info * instr) : bool := g_use2 q.2 && (ri_writes q.1 || ri_branch q.1).

(** A function that depends only on the sources that are used. *)
Definition ignores (use1 use2 : bool) (f : Z -> Z -> Z) : Prop :=
  (use1 = false -> forall a a' c, f a c = f a' c) /\ (use2 = false -> forall a c c', f a c = f a c').

(** ** In-order execution *)

(** One instruction on the architectural registers. *)
Definition result (R : list Z) (g : instr) : Z := g_fn g (rget 0 R (g_rs1 g)) (rget 0 R (g_rs2 g)).
Definition exec_one (R : list Z) (q : ren_info * instr) : list Z :=
  if ri_writes q.1 then rset R (ri_rd q.1) (result R q.2) else R.
Definition exec (R : list Z) (Q : list (ren_info * instr)) : list Z := fold_left exec_one Q R.

Lemma exec_app R Q K : exec R (Q ++ K) = exec (exec R Q) K.
Proof. apply fold_left_app. Qed.

Lemma length_exec R Q : length (exec R Q) = length R.
Proof.
  revert R. induction Q as [| q Q IH]; intros R; [done |]. change (exec R (q :: Q)) with (exec (exec_one R q) Q).
  rewrite IH. unfold exec_one. destruct (ri_writes q.1); [apply length_rset | done].
Qed.

Section owner.
Context (REG_NUM PHYS_REG_NUM : Z) (Hreg : 0 < REG_NUM).
Local Abbreviation wf := (wf REG_NUM PHYS_REG_NUM).
Implicit Types (Q : list (ren_info * instr)) (x : ren_info) (g : instr).

(** The register that a reader after [n] instructions is given holds the value
    that in-order execution gives at that point: it is the committed one, or the
    destination of the last of them that writes it. *)
Lemma owner C Q R n r :
  wf C Q.*1 -> Z.of_nat (length R) = REG_NUM -> (n <= length Q)%nat -> 0 <= r < REG_NUM ->
  (rget 0 (view C (take n Q.*1)) r = rget 0 C r /\ rget 0 (exec R (take n Q)) r = rget 0 R r) \/
  (exists m x g, (m < n)%nat /\ Q !! m = Some (x, g) /\ ri_writes x = true /\ ri_rd x = r /\
     rget 0 (view C (take n Q.*1)) r = ri_new x /\
     rget 0 (exec R (take n Q)) r = result (exec R (take m Q)) g).
Proof.
  intros Hwf HR Hn Hr. induction n as [| n IH]; [left; by rewrite !take_0 |].
  destruct (lookup_lt_is_Some_2 Q n ltac:(lia)) as [[x g] Hq].
  assert (Q.*1 !! n = Some x) as Hx by (by rewrite list_lookup_fmap, Hq).
  rewrite (take_S_r _ _ _ Hq), (take_S_r _ _ _ Hx), view_app, exec_app.
  destruct (wf_renamed _ _ _ _ Hwf n x Hx) as [Hrd Hw].
  change (view ?V [x]) with (map_write V (ren x)). change (exec ?V [(x, g)]) with (exec_one V (x, g)).
  unfold exec_one. cbn [fst snd].
  rewrite (rget_map_write REG_NUM) by (rewrite ?length_view; try apply (wf_length _ _ _ _ Hwf); done || lia). cbn [ren fst snd].
  destruct (ri_writes x) eqn:Ew; cbn [andb].
  - destruct (Hw eq_refl) as [Hpos _]. rewrite (proj2 (Z.eqb_neq (ri_rd x) 0)) by lia. cbn [negb andb].
    rewrite rget_rset by (rewrite ?length_exec; lia). destruct (Z.eqb_spec r (ri_rd x)) as [-> | Hne].
    + right. exists n, x, g. split_and!; (done || lia).
    + destruct (IH ltac:(lia)) as [[E1 E2] | (m & y & h & Hm & Hy & ? & ? & ? & ?)]; [by left |].
      right. exists m, y, h. split_and!; (done || lia).
  - destruct (IH ltac:(lia)) as [[E1 E2] | (m & y & h & Hm & Hy & ? & ? & ? & ?)]; [by left |].
    right. exists m, y, h. split_and!; (done || lia).
Qed.

(** Two instructions with the same destination are the same. *)
Lemma news_distinct Q m m' (x x' : ren_info) (g g' : instr) :
  NoDup (news Q.*1) -> (m < m')%nat -> Q !! m = Some (x, g) -> Q !! m' = Some (x', g') ->
  ri_writes x = true -> ri_writes x' = true -> ri_new x <> ri_new x'.
Proof.
  intros Hnd Hlt Hm Hm' Hw Hw' E. rewrite <- (take_drop m' Q), fmap_app, news_app in Hnd.
  apply NoDup_app in Hnd as (_ & Hd & _). apply (Hd (ri_new x)); unfold news; apply list_elem_of_omap.
  - exists x. rewrite Hw. split; [| done]. apply list_elem_of_lookup. exists m.
    by rewrite list_lookup_fmap, lookup_take_lt, Hm by lia.
  - exists x'. rewrite Hw', E. split; [| done]. apply list_elem_of_lookup. exists 0%nat.
    by rewrite list_lookup_fmap, lookup_drop, Nat.add_0_r, Hm'.
Qed.

Lemma owner_unique C Q m m' x g (x' : ren_info) (g' : instr) :
  wf C Q.*1 -> Q !! m = Some (x, g) -> Q !! m' = Some (x', g') -> ri_writes x = true -> ri_writes x' = true ->
  ri_new x = ri_new x' -> m = m'.
Proof.
  intros Hwf Hm Hm' Hw Hw' E. pose proof (wf_nodup _ _ _ _ Hwf) as Hnd. unfold busy in Hnd.
  apply NoDup_app in Hnd as (_ & _ & Hnd).
  destruct (Nat.lt_trichotomy m m') as [H | [H | H]]; [| done |]; exfalso.
  - by apply (news_distinct Q m m' x x' g g').
  - by apply (news_distinct Q m' m x' x g' g).
Qed.

(** A destination in flight is neither committed nor register 0. *)
Lemma dest_busy C Q m x g : wf C Q.*1 -> Q !! m = Some (x, g) -> ri_writes x = true -> ri_new x ∈ news Q.*1.
Proof.
  intros _ Hm Hw. unfold news. apply list_elem_of_omap. exists x. rewrite Hw. split; [| done].
  apply list_elem_of_lookup. exists m. by rewrite list_lookup_fmap, Hm.
Qed.

Lemma committed_elem C L r : wf C L -> 0 <= r < REG_NUM -> rget 0 C r ∈ C.
Proof.
  intros Hwf Hr. pose proof (rget_lookup 0 C r) as E. rewrite (wf_length _ _ _ _ Hwf) in E.
  apply list_elem_of_lookup. eauto.
Qed.

Lemma dest_not_committed C Q m x g r :
  wf C Q.*1 -> Q !! m = Some (x, g) -> ri_writes x = true -> 0 <= r < REG_NUM -> ri_new x <> rget 0 C r.
Proof.
  intros Hwf Hm Hw Hr E. pose proof (wf_nodup _ _ _ _ Hwf) as Hnd. unfold busy in Hnd.
  apply NoDup_app in Hnd as (_ & Hd & _). apply (Hd (ri_new x)); [rewrite E; by apply (committed_elem C Q.*1) | by eapply dest_busy].
Qed.

(** Only register 0 is mapped to physical register 0. *)
Lemma view_zero_only C Q n r :
  wf C Q.*1 -> (n <= length Q)%nat -> 0 <= r < REG_NUM -> rget 0 (view C (take n Q.*1)) r = 0 -> r = 0.
Proof.
  intros Hwf Hn Hr E. pose proof (wf_zero _ _ _ _ Hwf) as H0.
  destruct (owner C Q (replicate (Z.to_nat REG_NUM) 0) n r) as [[E1 _] | (m & x & g & _ & Hm & Hw & _ & Em & _)]; try done.
  - rewrite length_replicate. lia.
  - rewrite E1 in E. pose proof (wf_nodup _ _ _ _ Hwf) as Hnd. unfold busy in Hnd. apply NoDup_app in Hnd as (Hnd & _ & _).
    pose proof (rget_lookup 0 C r) as F1. pose proof (rget_lookup 0 C 0) as F2. rewrite (wf_length _ _ _ _ Hwf) in F1, F2.
    rewrite E in F1. rewrite H0 in F2. specialize (F1 Hr). specialize (F2 ltac:(lia)).
    pose proof (NoDup_lookup _ _ _ _ Hnd F1 F2). lia.
  - exfalso. eapply (dest_not_committed C Q m x g 0); [done | done | done | lia | congruence].
Qed.
End owner.

Section values.
Context {Meta : Type} (meta0 : Meta).
Context (REG_NUM PHYS_REG_NUM ROB_ENTRY_NUM UNIFIED_IQ_ENTRY_NUM LSQ_ENTRY_NUM : Z).
Context (MMIO_BASE_ADDR MMIO_LAST_ADDR : Z).
Context (Hreg : 0 < REG_NUM) (Hphys : REG_NUM < PHYS_REG_NUM) (Hrob : 0 < ROB_ENTRY_NUM).

Local Abbreviation backend := (@backend Meta).
Local Abbreviation wf := (wf REG_NUM PHYS_REG_NUM).
Local Abbreviation slot := (slot ROB_ENTRY_NUM).
Local Abbreviation flush := (flush meta0 ROB_ENTRY_NUM).
Local Abbreviation lanes := (lanes PHYS_REG_NUM ROB_ENTRY_NUM UNIFIED_IQ_ENTRY_NUM LSQ_ENTRY_NUM).
Local Abbreviation renamed_o := (renamed_o PHYS_REG_NUM ROB_ENTRY_NUM UNIFIED_IQ_ENTRY_NUM LSQ_ENTRY_NUM).
Local Abbreviation requests := (requests PHYS_REG_NUM ROB_ENTRY_NUM UNIFIED_IQ_ENTRY_NUM LSQ_ENTRY_NUM).
Local Abbreviation allocs := (allocs PHYS_REG_NUM ROB_ENTRY_NUM UNIFIED_IQ_ENTRY_NUM LSQ_ENTRY_NUM).
Local Abbreviation prf_allocs := (prf_allocs PHYS_REG_NUM ROB_ENTRY_NUM UNIFIED_IQ_ENTRY_NUM LSQ_ENTRY_NUM).
Local Abbreviation incoming := (incoming PHYS_REG_NUM ROB_ENTRY_NUM UNIFIED_IQ_ENTRY_NUM LSQ_ENTRY_NUM).
Local Abbreviation retired :=
  (retired meta0 PHYS_REG_NUM ROB_ENTRY_NUM UNIFIED_IQ_ENTRY_NUM LSQ_ENTRY_NUM MMIO_BASE_ADDR MMIO_LAST_ADDR).
Local Abbreviation next_queue :=
  (next_queue meta0 PHYS_REG_NUM ROB_ENTRY_NUM UNIFIED_IQ_ENTRY_NUM LSQ_ENTRY_NUM MMIO_BASE_ADDR MMIO_LAST_ADDR).
Local Abbreviation precise := (precise meta0 REG_NUM PHYS_REG_NUM ROB_ENTRY_NUM).
Local Abbreviation inputs_ok := (inputs_ok meta0 REG_NUM ROB_ENTRY_NUM).
Local Abbreviation backend_step :=
  (backend_step meta0 REG_NUM PHYS_REG_NUM ROB_ENTRY_NUM UNIFIED_IQ_ENTRY_NUM LSQ_ENTRY_NUM MMIO_BASE_ADDR MMIO_LAST_ADDR).
Local Abbreviation backend_reset := (backend_reset meta0 REG_NUM PHYS_REG_NUM ROB_ENTRY_NUM).
Local Abbreviation backend_run :=
  (backend_run meta0 REG_NUM PHYS_REG_NUM ROB_ENTRY_NUM UNIFIED_IQ_ENTRY_NUM LSQ_ENTRY_NUM MMIO_BASE_ADDR MMIO_LAST_ADDR).

(** ** The execution stage as an environment *)

(** A cycle: the inputs of the backend, what each decoded instruction computes,
    and the tags of the instructions that are issued. *)
Record cycle := Cycle { v_in : @backend_in Meta; v_fn : @decode_bus Meta -> Z -> Z -> Z; v_issue : list Z }.

Section step.
Context (b : backend) (v : cycle) (Q : list (ren_info * instr)).

Definition read (p : Z) : Z * bool := prf_read (k_prf b) (i_writeback (v_in v)) p.

(** Issue reads the operands. *)
Definition issue_at (n : nat) (q : ren_info * instr) : ren_info * instr :=
  let '(x, g) := q in
  if bool_decide (slot (headPtr (k_rob b)) (Z.of_nat n) ∈ v_issue v)
  then (x, Instr (g_rs1 g) (g_rs2 g) (g_use1 g) (g_use2 g) (g_fn g) (g_src1 g) (g_src2 g)
             (Some ((read (g_src1 g)).1, (read (g_src2 g)).1)))
  else q.

(** The instructions that enter. *)
Definition arriving : list (ren_info * instr) :=
  enabled (fun l r =>
             let c := b_ctl (ln_bus l) in
             (info (rn_rob r), Instr (rs1 c) (rs2 c) (useRs1 c) (useRs2 c) (v_fn v (ln_bus l))
                                 (u_src1Phys (rn_uop r)) (u_src2Phys (rn_uop r)) None))
    (lanes b (v_in v)) (renamed_o b (v_in v)).

(** The instructions in flight after the cycle. *)
Definition flight_next : list (ren_info * instr) :=
  if flush b (v_in v) then []
  else if i_branchMispredicted (v_in v)
  then take (keep_count ROB_ENTRY_NUM (headPtr (k_rob b)) (i_branchRobTag (v_in v)) (length Q)) (imap issue_at Q)
  else drop (retired b (v_in v)) (imap issue_at Q) ++ arriving.

(** What the scheduler and the execution stage promise: an instruction is issued
    when the sources it needs are ready; what is written back is the result of an
    instruction in flight that was issued before, computed from the operands it
    read; an instruction retires with its result written back, at the latest in
    that cycle; operands that are not used do not matter. *)
Record exec_ok : Prop := {
  ex_issue : forall n x g, Q !! n = Some (x, g) -> slot (headPtr (k_rob b)) (Z.of_nat n) ∈ v_issue v ->
    (g_use1 g = true -> (read (g_src1 g)).2 = true) /\ (needs2 (x, g) = true -> (read (g_src2 g)).2 = true);
  ex_writeback : forall p d, (true, p, d) ∈ i_writeback (v_in v) -> p <> 0 ->
    exists n x g a c, Q !! n = Some (x, g) /\ ri_writes x = true /\ ri_new x = p /\
      g_ops g = Some (a, c) /\ d = g_fn g a c;
  ex_retire : forall n x g, (n < retired b (v_in v))%nat -> Q !! n = Some (x, g) -> ri_writes x = true ->
    (read (ri_new x)).2 = true;
  ex_ports : Forall (wb_ok PHYS_REG_NUM) (i_writeback (v_in v));
  ex_unused : forall d, d ∈ i_decode (v_in v) -> bus_writes d = true ->
    ignores (useRs1 (b_ctl d)) (useRs2 (b_ctl d)) (v_fn v d)
}.
End step.

(** The contract but for its last clause can be evaluated. *)
Definition exec_okb (b : backend) (v : cycle) (Q : list (ren_info * instr)) : bool :=
  forallb (fun '(n, (x, g)) =>
    negb (bool_decide (slot (headPtr (k_rob b)) (Z.of_nat n) ∈ v_issue v)) ||
    ((negb (g_use1 g) || (read b v (g_src1 g)).2) && (negb (needs2 (x, g)) || (read b v (g_src2 g)).2)))
    (imap pair Q) &&
  forallb (fun '(u, p, d) => negb u || (p =? 0) ||
    existsb (fun '(x, g) => ri_writes x && (ri_new x =? p) &&
      match g_ops g with Some (a, c) => d =? g_fn g a c | None => false end) Q) (i_writeback (v_in v)) &&
  forallb (fun '(x, g) => negb (ri_writes x) || (read b v (ri_new x)).2) (take (retired b (v_in v)) Q) &&
  forallb (fun '(_, p, _) => (0 <=? p) && (p <? PHYS_REG_NUM)) (i_writeback (v_in v)).

Lemma forallb_elem {A} (f : A -> bool) l x : forallb f l = true -> x ∈ l -> f x = true.
Proof. intros H Hx%list_elem_of_In. by eapply forallb_forall in H. Qed.

Lemma exec_okb_sound b v Q :
  exec_okb b v Q = true ->
  (forall d, d ∈ i_decode (v_in v) -> bus_writes d = true -> ignores (useRs1 (b_ctl d)) (useRs2 (b_ctl d)) (v_fn v d)) ->
  exec_ok b v Q.
Proof.
  unfold exec_okb. intros (((HI & HW)%andb_true_iff & HR)%andb_true_iff & HP)%andb_true_iff Hun. split; [.. | done].
  - intros n x g Hn Hin. eapply (forallb_elem _ _ (n, (x, g))) in HI.
    2: { apply list_elem_of_lookup. exists n. by rewrite list_lookup_imap, Hn. }
    cbn in HI. rewrite bool_decide_true in HI by done. apply andb_true_iff in HI as [H1 H2].
    split; intros E; rewrite E in *; done.
  - intros p d Hin Hp. apply (forallb_elem _ _ _ HW) in Hin. cbn [negb orb] in Hin.
    rewrite (proj2 (Z.eqb_neq p 0)) in Hin by done. apply existsb_exists in Hin as ([x g] & Hq & H).
    apply list_elem_of_In, list_elem_of_lookup in Hq as [n Hn].
    apply andb_true_iff in H as [(Hw & Hnew%Z.eqb_eq)%andb_true_iff Ho]. destruct (g_ops g) as [[a c] |] eqn:Eo; [| done].
    apply Z.eqb_eq in Ho. by exists n, x, g, a, c.
  - intros n x g Hlt Hn Hw. eapply (forallb_elem _ _ (x, g)) in HR.
    + cbn in HR. by rewrite Hw in HR.
    + apply list_elem_of_lookup. exists n. by rewrite lookup_take_lt.
  - rewrite list.Forall_forall. intros [[u p] d] Hin. apply (forallb_elem _ _ _ HP) in Hin.
    cbn in Hin. unfold wb_ok. cbn. lia.
Qed.

(** ** The invariant of the values *)

(** The register file [f] agrees with in-order execution from the committed
    values [R], for the committed map [C] and the instructions in flight [Q]. *)
Record values (f : prf) (C : list Z) (Q : list (ren_info * instr)) (R : list Z) : Prop := {
  va_length : Z.of_nat (length R) = REG_NUM;
  va_zero : rget 0 R 0 = 0;
  va_sized : sized PHYS_REG_NUM f;
  va_sources : forall n x g, Q !! n = Some (x, g) ->
    let m := view C (take n Q.*1) in
    0 <= g_rs1 g < REG_NUM /\ 0 <= g_rs2 g < REG_NUM /\
    g_src1 g = rget 0 m (g_rs1 g) /\ g_src2 g = rget 0 m (g_rs2 g);
  va_unused : forall n x g, Q !! n = Some (x, g) -> ri_writes x = true -> ignores (g_use1 g) (g_use2 g) (g_fn g);
  va_committed : forall r, 0 <= r < REG_NUM ->
    Z.testbit (readyTable f) (rget 0 C r) = true /\ rget 0 (registers f) (rget 0 C r) = rget 0 R r;
  va_results : forall n x g, Q !! n = Some (x, g) -> ri_writes x = true ->
    Z.testbit (readyTable f) (ri_new x) = true -> rget 0 (registers f) (ri_new x) = result (exec R (take n Q)) g;
  va_operands : forall n x g a c, Q !! n = Some (x, g) -> g_ops g = Some (a, c) ->
    (g_use1 g = true -> a = rget 0 (exec R (take n Q)) (g_rs1 g)) /\
    (needs2 (x, g) = true -> c = rget 0 (exec R (take n Q)) (g_rs2 g))
}.

(** Operands that were read give the result of in-order execution. *)
Lemma operands_result f C Q R n x g a c :
  values f C Q R -> Q !! n = Some (x, g) -> ri_writes x = true -> g_ops g = Some (a, c) ->
  g_fn g a c = result (exec R (take n Q)) g.
Proof.
  intros Hv Hq Hw Ho. destruct (va_operands _ _ _ _ Hv n x g a c Hq Ho) as [H1 H2].
  destruct (va_unused _ _ _ _ Hv n x g Hq Hw) as [U1 U2]. unfold result.
  transitivity (g_fn g (rget 0 (exec R (take n Q)) (g_rs1 g)) c).
  - destruct (g_use1 g); [by rewrite <- H1 | by apply U1].
  - unfold needs2 in H2. cbn in H2. rewrite Hw in H2. destruct (g_use2 g); [by rewrite <- H2 | by apply U2].
Qed.

(** *** Reading *)

Section reading.
Context (b : backend) (v : cycle) (C : list Z) (Q : list (ren_info * instr)) (R : list Z).
Context (Hv : values (k_prf b) C Q R) (Hwf : wf C Q.*1) (Hx : exec_ok b v Q).

(** Reading a register that is ready gives the in-order value, also when it is
    written back in the same cycle. *)
Lemma read_value n r :
  (n <= length Q)%nat -> 0 <= r < REG_NUM ->
  let p := rget 0 (view C (take n Q.*1)) r in
  (read b v p).2 = true -> (read b v p).1 = rget 0 (exec R (take n Q)) r.
Proof.
  intros Hn Hr p. unfold read. rewrite prf_read_written.
  pose proof (owner REG_NUM PHYS_REG_NUM C Q R n r Hwf (va_length _ _ _ _ Hv) Hn Hr) as Hown.
  destruct (Z.eqb_spec p 0) as [E | Hp0].
  { intros _. apply (view_zero_only REG_NUM PHYS_REG_NUM Hreg) in E; try done. subst r. cbn [fst].
    assert (p = 0) as Ep by (unfold p; apply (view_zero REG_NUM PHYS_REG_NUM), wf_take, Hwf).
    destruct Hown as [[_ ->] | (m & x & g & _ & Hm & Hw & _ & Em & _)].
    - by rewrite (va_zero _ _ _ _ Hv).
    - exfalso. fold p in Em. eapply (dest_not_committed REG_NUM PHYS_REG_NUM _ Q m x g 0); try done.
      rewrite (wf_zero _ _ _ _ Hwf). congruence. }
  destruct (written (i_writeback (v_in v)) p) as [d |] eqn:Ew; cbn [fst snd].
  - intros _. apply written_Some in Ew. destruct (ex_writeback _ _ _ Hx p d Ew Hp0) as (m & x & g & a & c & Hm & Hwr & Enew & Ho & ->).
    rewrite (operands_result _ C Q R m x g) by done.
    destruct Hown as [[Ep _] | (m' & x' & g' & _ & Hm' & Hw' & _ & Em & ->)]; fold p in Ep || fold p in Em.
    + exfalso. eapply (dest_not_committed REG_NUM PHYS_REG_NUM _ Q m x g r); try done. congruence.
    + assert (m = m') as <- by (eapply (owner_unique REG_NUM PHYS_REG_NUM); [exact Hwf | done..| congruence]). congruence.
  - intros Hrdy. destruct Hown as [[Ep ->] | (m' & x' & g' & _ & Hm' & Hw' & _ & Em & ->)].
    + fold p in Ep. rewrite Ep. by destruct (va_committed _ _ _ _ Hv r Hr).
    + fold p in Em. rewrite Em in *. by apply (va_results _ _ _ _ Hv m' x' g').
Qed.

(** The same for a destination. *)
Lemma read_result m x g :
  Q !! m = Some (x, g) -> ri_writes x = true ->
  (read b v (ri_new x)).2 = true -> (read b v (ri_new x)).1 = result (exec R (take m Q)) g.
Proof.
  intros Hm Hw Hrdy.
  assert (Q.*1 !! m = Some x) as Hx1 by (by rewrite list_lookup_fmap, Hm).
  destruct (wf_renamed _ _ _ _ Hwf m x Hx1) as [Hrd Hold]. destruct (Hold Hw) as [Hpos _].
  assert (rget 0 (view C (take (S m) Q.*1)) (ri_rd x) = ri_new x) as Ep.
  { rewrite (take_S_r _ _ _ Hx1), view_app. change (view ?V [x]) with (map_write V (ren x)).
    rewrite (rget_map_write REG_NUM) by (rewrite ?length_view; try apply (wf_length _ _ _ _ Hwf); done || lia).
    cbn [ren fst snd]. by rewrite Hw, (proj2 (Z.eqb_neq _ 0)), Z.eqb_refl by lia. }
  pose proof (read_value (S m) (ri_rd x)) as H. rewrite Ep in H. rewrite H; [| | done | done].
  - rewrite (take_S_r _ _ _ Hm), exec_app. change (exec ?V [(x, g)]) with (exec_one V (x, g)). unfold exec_one. cbn [fst snd].
    rewrite Hw, rget_rset, Z.eqb_refl; [done | | lia]. rewrite length_exec, (va_length _ _ _ _ Hv). lia.
  - apply lookup_lt_Some in Hm. lia.
Qed.
End reading.

(** *** What preserves the agreement *)

(** Instructions that differ in what they have read. *)
Definition same (q q' : ren_info * instr) : Prop :=
  q.1 = q'.1 /\ g_rs1 q.2 = g_rs1 q'.2 /\ g_rs2 q.2 = g_rs2 q'.2 /\ g_fn q.2 = g_fn q'.2.

Lemma exec_same Q Q' R : Forall2 same Q Q' -> exec R Q = exec R Q'.
Proof.
  intros H. revert R. induction H as [| [x g] [x' g'] Q Q' (E1 & E2 & E3 & E4) _ IH]; intros R; [done |].
  cbn in E1, E2, E3, E4. change (exec (exec_one R (x, g)) Q = exec (exec_one R (x', g')) Q'). rewrite IH. f_equal.
  unfold exec_one, result. cbn. by rewrite E1, E2, E3, E4.
Qed.

Lemma issue_at_inv b v n q x g :
  issue_at b v n q = (x, g) -> exists g0, q = (x, g0) /\ same q (x, g) /\
    g_src1 g = g_src1 g0 /\ g_src2 g = g_src2 g0 /\ g_use1 g = g_use1 g0 /\ g_use2 g = g_use2 g0 /\
    (g = g0 \/ slot (headPtr (k_rob b)) (Z.of_nat n) ∈ v_issue v /\
               g_ops g = Some ((read b v (g_src1 g0)).1, (read b v (g_src2 g0)).1)).
Proof.
  destruct q as [y h]. unfold issue_at. destruct (bool_decide_reflect (slot (headPtr (k_rob b)) (Z.of_nat n) ∈ v_issue v));
    intros [= <- <-]; exists h; unfold same; split_and!; auto.
Qed.

Lemma issued_same b v Q : Forall2 same Q (imap (issue_at b v) Q).
Proof.
  apply Forall2_lookup. intros n. rewrite list_lookup_imap. destruct (Q !! n) as [q |]; cbn; constructor.
  destruct (issue_at b v n q) as [x g] eqn:E. by apply issue_at_inv in E as (g0 & _ & Hs & _).
Qed.

Lemma same_fst Q Q' : Forall2 same Q Q' -> Q'.*1 = Q.*1.
Proof. induction 1 as [| q q' Q Q' [E _] _ IH]; [done |]. cbn. by rewrite E, IH. Qed.

(** A clock edge: the registers in use hold what a read gives. *)
Lemma values_edge b v f C Q R :
  values (k_prf b) C Q R -> wf C Q.*1 -> exec_ok b v Q -> sized PHYS_REG_NUM f ->
  (forall p, p ∈ busy C Q.*1 -> rget 0 (registers f) p = (read b v p).1 /\ Z.testbit (readyTable f) p = (read b v p).2) ->
  values f C (imap (issue_at b v) Q) R.
Proof.
  intros Hv Hwf Hx Hf Hread. pose proof (issued_same b v Q) as Hs. pose proof (same_fst _ _ Hs) as E1.
  assert (forall n, exec R (take n (imap (issue_at b v) Q)) = exec R (take n Q)) as Ee.
  { intros n. symmetry. by apply exec_same, Forall2_take. }
  assert (forall n x g, imap (issue_at b v) Q !! n = Some (x, g) ->
    exists g0, Q !! n = Some (x, g0) /\ issue_at b v n (x, g0) = (x, g)) as Hinv.
  { intros n x g Hn. rewrite list_lookup_imap in Hn. destruct (Q !! n) as [q |]; [| done]. injection Hn as Hn.
    pose proof Hn as (g0 & -> & _)%issue_at_inv. eauto. }
  pose proof Hv as [Hl H0 _ Hsrc Hun Hc Hr Ho]. split; try done.
  - intros n x g Hn m. destruct (Hinv _ _ _ Hn) as (g0 & Hq & Eg). apply issue_at_inv in Eg as (h & [= <-] & (_ & A & B & _) & S1 & S2 & _).
    unfold m. rewrite E1. cbn in A, B. rewrite <- A, <- B, S1, S2. by apply (Hsrc n x).
  - intros n x g Hn. destruct (Hinv _ _ _ Hn) as (g0 & Hq & Eg). apply issue_at_inv in Eg as (h & [= <-] & (_ & _ & _ & F) & _ & _ & U1 & U2 & _).
    cbn in F. rewrite <- F, U1, U2. by apply (Hun n x).
  - intros r Hrr. destruct (Hread (rget 0 C r)) as [V Y].
    { unfold busy. apply elem_of_app. left. by eapply (committed_elem REG_NUM PHYS_REG_NUM). }
    assert ((read b v (rget 0 C r)).2 = true) as Hrd.
    { unfold read. rewrite prf_read_written. destruct (_ =? 0); [done |].
      destruct (written _ _); [done |]. cbn. by apply Hc. }
    rewrite V, Y. split; [done |].
    by apply (read_value b v C Q R Hv Hwf Hx 0 r); [lia | |].
  - intros n x g Hn Hw Hrdy. destruct (Hinv _ _ _ Hn) as (g0 & Hq & Eg). apply issue_at_inv in Eg as (h & [= <-] & (_ & A & B & F) & _).
    destruct (Hread (ri_new x)) as [V Y].
    { unfold busy. apply elem_of_app. right. by eapply (dest_busy REG_NUM PHYS_REG_NUM). }
    rewrite V, Ee. rewrite Y in Hrdy. rewrite (read_result b v C Q R Hv Hwf Hx n x g0) by done.
    unfold result. cbn in A, B, F. by rewrite A, B, F.
  - intros n x g a c Hn Hops. destruct (Hinv _ _ _ Hn) as (g0 & Hq & Eg).
    apply issue_at_inv in Eg as (h & [= <-] & (_ & A & B & _) & _ & _ & U1 & U2 & Hcase). cbn in A, B.
    unfold needs2. cbn. rewrite Ee, U1, U2, <- A, <- B. destruct Hcase as [-> | [Hin Eops]]; [by apply (Ho n x g0) |].
    rewrite Eops in Hops. injection Hops as <- <-. destruct (ex_issue _ _ _ Hx n x g0 Hq Hin) as [I1 I2].
    destruct (Hsrc n x g0 Hq) as (R1 & R2 & S1 & S2). apply lookup_lt_Some in Hq as Hlt.
    split; intros Hu; [specialize (I1 Hu); rewrite S1 in I1 |- * | specialize (I2 Hu); rewrite S2 in I2 |- *];
      apply (read_value b v C Q R Hv Hwf Hx); (done || lia).
Qed.

(** The instructions behind a point are dropped. *)
Lemma values_take f C Q R d : values f C Q R -> values f C (take d Q) R.
Proof.
  intros [Hl H0 Hf Hsrc Hun Hc Hr Ho].
  assert (forall n q, take d Q !! n = Some q -> Q !! n = Some q /\ take n (take d Q) = take n Q /\
    take n (take d Q).*1 = take n Q.*1) as Hin.
  { intros n q Hn. apply lookup_take_Some in Hn as [Hn Hlt]. split; [done |].
    by rewrite fmap_take, !take_take, Nat.min_l by lia. }
  split; try done; intros n x g; [| | | intros a c]; intros Hn; destruct (Hin n (x, g) Hn) as (Hq & E & E1).
  - cbn zeta. rewrite E1. by apply (Hsrc n x).
  - by apply (Hun n x).
  - rewrite E. by apply (Hr n x).
  - rewrite E. by apply (Ho n x).
Qed.

(** The oldest [k] retire with their results written. *)
Lemma values_retire f C Q R k :
  values f C Q R -> wf C Q.*1 -> (k <= length Q)%nat ->
  (forall n x g, (n < k)%nat -> Q !! n = Some (x, g) -> ri_writes x = true -> Z.testbit (readyTable f) (ri_new x) = true) ->
  values f (view C (take k Q.*1)) (drop k Q) (exec R (take k Q)).
Proof.
  intros [Hl H0 Hf Hsrc Hun Hc Hr Ho] Hwf Hk Hrdy.
  assert (forall n q, drop k Q !! n = Some q -> Q !! (k + n)%nat = Some q) as Hin by (intros n q; by rewrite lookup_drop).
  assert (forall n, exec (exec R (take k Q)) (take n (drop k Q)) = exec R (take (k + n) Q)) as Ee.
  { intros n. by rewrite <- exec_app, take_take_drop. }
  assert (forall n, view (view C (take k Q.*1)) (take n (drop k Q).*1) = view C (take (k + n) Q.*1)) as Ev.
  { intros n. by rewrite <- view_app, fmap_drop, take_take_drop. }
  pose proof (fun r => owner REG_NUM PHYS_REG_NUM C Q R k r Hwf Hl Hk) as Hown.
  split; try done.
  - by rewrite length_exec.
  - destruct (Hown 0 ltac:(lia)) as [[_ ->] | (m & x & g & _ & Hm & Hw & Erd & _)]; [done |]. exfalso.
    assert (Q.*1 !! m = Some x) as Hm1 by (by rewrite list_lookup_fmap, Hm).
    destruct (wf_renamed _ _ _ _ Hwf m x Hm1) as [_ Hpos]. destruct (Hpos Hw). lia.
  - intros n x g Hn m. unfold m. rewrite Ev. by apply (Hsrc _ x), Hin.
  - intros n x g Hn. by apply (Hun (k + n)%nat x), Hin.
  - intros r Hrr. destruct (Hown r Hrr) as [[-> ->] | (m & x & g & Hlt & Hm & Hw & _ & -> & ->)]; [by apply Hc |].
    split; [by apply (Hrdy m x g) |]. apply Hr; [done | done | by apply (Hrdy m x g)].
  - intros n x g Hn. rewrite Ee. by apply (Hr _ x), Hin.
  - intros n x g a c Hn. rewrite Ee. by apply (Ho _ x), Hin.
Qed.

(** Instructions enter that have read nothing and whose destinations are busy. *)
Lemma values_app f C Q R X :
  values f C Q R ->
  (forall j x g, X !! j = Some (x, g) ->
     let m := view C (Q.*1 ++ take j X.*1) in
     (0 <= g_rs1 g < REG_NUM /\ 0 <= g_rs2 g < REG_NUM /\ g_src1 g = rget 0 m (g_rs1 g) /\ g_src2 g = rget 0 m (g_rs2 g)) /\
     (ri_writes x = true -> ignores (g_use1 g) (g_use2 g) (g_fn g)) /\
     g_ops g = None /\ (ri_writes x = true -> Z.testbit (readyTable f) (ri_new x) = false)) ->
  values f C (Q ++ X) R.
Proof.
  intros [Hl H0 Hf Hsrc Hun Hc Hr Ho] HX.
  assert (forall n q, (Q ++ X) !! n = Some q ->
    (Q !! n = Some q /\ take n (Q ++ X) = take n Q /\ take n (Q ++ X).*1 = take n Q.*1) \/
    (exists j, X !! j = Some q /\ take n (Q ++ X).*1 = Q.*1 ++ take j X.*1)) as Hin.
  { intros n q Hn. apply lookup_app_Some in Hn as [Hn | [Hge Hn]].
    - left. apply lookup_lt_Some in Hn as Hlt. rewrite fmap_app, !take_app_le by (rewrite ?length_fmap; lia). done.
    - right. exists (n - length Q)%nat. split; [done |]. rewrite fmap_app, take_app, length_fmap.
      by rewrite take_ge by (rewrite length_fmap; lia). }
  split; try done; intros n x g; [| | | intros a c]; intros Hn;
    (destruct (Hin n (x, g) Hn) as [(Hq & E & E1) | (j & Hj & E1)]; [| destruct (HX j x g Hj) as (X1 & X2 & X3 & X4)]).
  - cbn zeta. rewrite E1. by apply (Hsrc n x).
  - cbn zeta. by rewrite E1.
  - by apply (Hun n x).
  - done.
  - rewrite E. by apply (Hr n x).
  - intros Hw Hrdy. by rewrite (X4 Hw) in Hrdy.
  - rewrite E. by apply (Ho n x).
  - congruence.
Qed.

(** *** A cycle of the backend *)

Section cycle.
Context (b : backend) (v : cycle) (l : list (@rob_entry Meta)) (Q : list (ren_info * instr)) (R : list Z).
Local Abbreviation C := (committedMap (k_map b)).
Local Abbreviation i := (v_in v).
Context (Hp : precise b l) (HQ : Q.*1 = map info l) (Hok : inputs_ok b i).
Context (Hv : values (k_prf b) C Q R) (Hx : exec_ok b v Q).

Lemma queue_wf : wf C Q.*1.
Proof. rewrite HQ. apply (pr_wf _ _ _ _ _ _ Hp). Qed.

(** A lane that allocates. *)
Lemma port_allocated n l0 r :
  lanes b i !! n = Some l0 -> renamed_o b i !! n = Some r -> (rn_port r).1.1 = true ->
  free_request l0 = true /\ allocs b i !! n = Some (true, (rn_port r).2).
Proof.
  intros Hl Hr Hport. apply rename_lanes_lookup in Hr as (l' & [rdy q] & Hl' & Ha & ->).
  rewrite Hl in Hl'. injection Hl' as <-. cbn in Hport |- *. apply andb_true_iff in Hport as [Hreq ->].
  split; [done |]. unfold free_request in Hreq. apply andb_true_iff in Hreq as [_ ->]. done.
Qed.

(** Allocation takes registers that are not in use. *)
Lemma allocated_fresh p : (true, p) ∈ prf_allocs b i -> 1 <= p < PHYS_REG_NUM /\ p ∉ busy C Q.*1.
Proof.
  intros Hin. unfold Backend.prf_allocs in Hin. apply list_elem_of_lookup in Hin as [n Hn].
  rewrite (list_lookup_fmap _ (renamed_o b i)) in Hn. destruct (renamed_o b i !! n) as [r |] eqn:Hr; [| done].
  injection Hn as Hport Hq.
  destruct (lookup_lt_is_Some_2 (lanes b i) n) as [l0 Hl0].
  { rewrite <- length_renamed. by apply lookup_lt_Some in Hr. }
  destruct (port_allocated n l0 r Hl0 Hr Hport) as [Hreq Ha]. rewrite Hq in Ha.
  destruct (free_alloc_taken PHYS_REG_NUM (freeMask (k_free b)) (requests b i)) as [_ HF].
  rewrite list.Forall_forall in HF. destruct (HF p) as [Hrange Hbit].
  { unfold taken. apply list_elem_of_omap. exists (true, (true, p)). split; [| done]. apply list_elem_of_lookup.
    exists n. rewrite lookup_zip_with. unfold Backend.requests. rewrite (list_lookup_fmap free_request (lanes b i)), Hl0.
    cbn. rewrite Hreq. change (free_alloc PHYS_REG_NUM (freeMask (k_free b)) (map free_request (lanes b i))) with (allocs b i).
    by rewrite Ha. }
  split; [done |]. rewrite (pr_free _ _ _ _ _ _ Hp) in Hbit by lia. rewrite HQ. by apply negb_true_iff, bool_decide_eq_false in Hbit.
Qed.

(** A write-back goes to a register in use. *)
Lemma written_busy p d : p <> 0 -> written (i_writeback i) p = Some d -> p ∈ busy C Q.*1.
Proof.
  intros Hp0 Hw%written_Some. destruct (ex_writeback _ _ _ Hx p d Hw Hp0) as (n & x & g & _ & _ & Hn & Hwr & <- & _).
  unfold busy. apply elem_of_app. right. eapply (dest_busy REG_NUM PHYS_REG_NUM); [apply queue_wf | done | done].
Qed.

Lemma registers_next p :
  p ∈ busy C Q.*1 ->
  rget 0 (registers (k_prf (backend_step b i))) p = (read b v p).1 /\
  Z.testbit (readyTable (k_prf (backend_step b i))) p = (read b v p).2.
Proof.
  intros Hb. pose proof (wf_range _ _ _ _ queue_wf) as Hrange. rewrite list.Forall_forall in Hrange. specialize (Hrange p Hb).
  cbn [Backend.backend_step k_prf]. rewrite prf_step_value, prf_step_ready by (try apply (va_sized _ _ _ _ Hv); try apply (ex_ports _ _ _ Hx); done || lia).
  unfold read. rewrite prf_read_written. destruct (p =? 0); [done |]. destruct (written _ p); [done |].
  rewrite bool_decide_false; [done |]. intros Hin. by apply allocated_fresh in Hin as [_ ?].
Qed.

Lemma issued_values : values (k_prf (backend_step b i)) C (imap (issue_at b v) Q) R.
Proof.
  apply values_edge; try done; [apply queue_wf | | apply registers_next].
  cbn [Backend.backend_step k_prf]. apply prf_step_sized, (va_sized _ _ _ _ Hv).
Qed.

Lemma arriving_incoming : (arriving b v).*1 = incoming b i.
Proof. unfold arriving, BackendInv.incoming, entering. by rewrite enabled_map. Qed.

(** What enters: its sources are the map after all its elders, its destination
    is not ready. *)
Lemma arriving_ok j x g :
  arriving b v !! j = Some (x, g) ->
  let m := view C (Q.*1 ++ take j (arriving b v).*1) in
  (0 <= g_rs1 g < REG_NUM /\ 0 <= g_rs2 g < REG_NUM /\ g_src1 g = rget 0 m (g_rs1 g) /\ g_src2 g = rget 0 m (g_rs2 g)) /\
  (ri_writes x = true -> ignores (g_use1 g) (g_use2 g) (g_fn g)) /\
  g_ops g = None /\ (ri_writes x = true -> Z.testbit (readyTable (k_prf (backend_step b i))) (ri_new x) = false).
Proof.
  intros Hj m. apply enabled_lookup in Hj as (n & l0 & r & Hl & Hr & Hen & E & Hcount). injection E as -> ->.
  destruct (lanes_inv _ _ _ _ _ _ _ _ Hl) as (Hbus & _ & _).
  pose proof (Forall_lookup_1 _ _ _ _ (ok_decode _ _ _ _ _ Hok) Hbus) as (B1 & B2 & B3).
  cbn [g_rs1 g_rs2 g_src1 g_src2 g_use1 g_use2 g_fn g_ops].
  pose proof (pr_wf _ _ _ _ _ _ Hp) as Hwf. rewrite <- HQ in Hwf.
  destruct (incoming_wf REG_NUM PHYS_REG_NUM ROB_ENTRY_NUM UNIFIED_IQ_ENTRY_NUM LSQ_ENTRY_NUM Hreg Hphys b i C Q.*1 n)
    as (_ & Hports & _).
  { done. } { rewrite HQ. apply (pr_map _ _ _ _ _ _ Hp). } { rewrite HQ. apply (pr_free _ _ _ _ _ _ Hp). }
  { apply (ok_decode _ _ _ _ _ Hok). }
  rewrite entering_take, Hcount in Hports by apply length_renamed.
  change (entering (lanes b i) (renamed_o b i)) with (incoming b i) in Hports. rewrite <- arriving_incoming in Hports.
  assert (speculativeMap (k_map b) = view C Q.*1) as Hspec by (rewrite HQ; apply (pr_map _ _ _ _ _ _ Hp)).
  assert (forall s, 0 <= s -> lookup_phys (speculativeMap (k_map b)) (take n (map rn_port (renamed_o b i))) s = rget 0 m s) as Hlook.
  { intros s Hs. unfold m. rewrite <- Hports, Hspec. apply (lookup_phys_map REG_NUM); [| | done |].
    - rewrite length_view. apply (wf_length _ _ _ _ Hwf).
    - apply Forall_take, Forall_lookup_2. intros k u Hu. rewrite (list_lookup_fmap rn_port (renamed_o b i)) in Hu.
      destruct (renamed_o b i !! k) as [r' |] eqn:Hr'; [| done]. injection Hu as <-.
      apply rename_lanes_lookup in Hr' as (l' & [a1 a2] & Hl' & _ & ->).
      destruct (lanes_inv _ _ _ _ _ _ _ _ Hl') as (Hbus' & _ & _).
      by destruct (Forall_lookup_1 _ _ _ _ (ok_decode _ _ _ _ _ Hok) Hbus') as (_ & _ & ?).
    - by apply (view_zero REG_NUM PHYS_REG_NUM). }
  pose proof Hr as (l' & [rdy q] & Hl' & Ha & Er)%rename_lanes_lookup. change (lanes b i !! n = Some l') in Hl'. rewrite Hl in Hl'.
  injection Hl' as <-. change (allocs b i !! n = Some (rdy, q)) in Ha.
  change (rename_lanes (speculativeMap (k_map b)) _ [] (lanes b i) _) with (renamed_o b i) in Er. rewrite app_nil_l in Er.
  split_and!.
  - lia.
  - lia.
  - lia.
  - lia.
  - rewrite Er. cbn. apply Hlook. lia.
  - rewrite Er. cbn. apply Hlook. lia.
  - intros Hw. apply (ex_unused _ _ _ Hx); [by eapply list_elem_of_lookup_2 |]. rewrite Er in Hw. exact Hw.
  - done.
  - intros Hw.
    assert (requests b i !! n = Some true) as Hreq.
    { unfold Backend.requests. rewrite (list_lookup_fmap free_request (lanes b i)), Hl. cbn. unfold free_request.
      rewrite Hen. rewrite Er in Hw. cbn in Hw. by rewrite Hw. }
    destruct (dispatch_allocates REG_NUM PHYS_REG_NUM ROB_ENTRY_NUM UNIFIED_IQ_ENTRY_NUM LSQ_ENTRY_NUM Hreg Hphys b i C Q.*1 n)
      as [p Hpn]; [rewrite HQ; apply (pr_free _ _ _ _ _ _ Hp) | done | done |].
    rewrite Ha in Hpn. injection Hpn as -> ->.
    assert (ri_new (info (rn_rob r)) = p) as ->.
    { rewrite Er in Hw |- *. cbn in Hw |- *. by rewrite Hw. }
    assert ((true, p) ∈ prf_allocs b i) as Hin.
    { unfold Backend.prf_allocs. apply list_elem_of_lookup. exists n. rewrite (list_lookup_fmap _ (renamed_o b i)), Hr. cbn.
      unfold Backend.requests in Hreq. rewrite (list_lookup_fmap free_request (lanes b i)), Hl in Hreq. injection Hreq as Hreq.
      rewrite Er in Hw |- *. cbn in Hw |- *. by rewrite Hreq, Hw. }
    destruct (allocated_fresh p Hin) as [Hrange Hnb].
    cbn [Backend.backend_step k_prf]. rewrite prf_step_ready by (apply (ex_ports _ _ _ Hx) || lia).
    rewrite (proj2 (Z.eqb_neq p 0)) by lia. destruct (written (i_writeback i) p) as [d |] eqn:Ewr.
    + exfalso. apply Hnb. apply (written_busy p d); [lia | done].
    + by rewrite bool_decide_true.
Qed.

(** The cycle keeps the agreement, with the retired instructions executed. *)
Lemma values_step :
  values (k_prf (backend_step b i)) (committedMap (k_map (backend_step b i))) (flight_next b v Q)
    (exec R (take (retired b i) Q)) /\
  (flight_next b v Q).*1 = map info (next_queue b i l).
Proof.
  pose proof issued_values as HI. pose proof (same_fst _ _ (issued_same b v Q)) as E1.
  pose proof (pr_live _ _ _ _ _ _ Hp) as Hl.
  destruct (rob_cycle meta0 REG_NUM PHYS_REG_NUM ROB_ENTRY_NUM UNIFIED_IQ_ENTRY_NUM LSQ_ENTRY_NUM MMIO_BASE_ADDR MMIO_LAST_ADDR Hrob b i l Hl Hok)
    as (_ & _ & Hnext).
  assert (length l = length Q) as Hlen by (rewrite <- (length_map info l), <- HQ; apply length_fmap).
  pose proof (committed_next meta0 REG_NUM PHYS_REG_NUM ROB_ENTRY_NUM UNIFIED_IQ_ENTRY_NUM LSQ_ENTRY_NUM MMIO_BASE_ADDR MMIO_LAST_ADDR
    Hrob b i l Hl) as HC. rewrite <- HQ in HC, Hnext. rewrite HC, Hnext. unfold flight_next. rewrite Hlen.
  pose proof (retired_none meta0 PHYS_REG_NUM ROB_ENTRY_NUM UNIFIED_IQ_ENTRY_NUM LSQ_ENTRY_NUM MMIO_BASE_ADDR MMIO_LAST_ADDR
    Hrob b i l Hl) as Hnone.
  destruct (flush b i).
  { rewrite Hnone by auto. split; [apply (values_take _ _ _ _ 0 HI) | done]. }
  destruct (i_branchMispredicted i).
  { rewrite Hnone by auto. split; [apply (values_take _ _ _ _ _ HI) |]. by rewrite fmap_take, E1. }
  clear Hnone Hnext HC.
  pose proof (retired_le meta0 PHYS_REG_NUM ROB_ENTRY_NUM UNIFIED_IQ_ENTRY_NUM LSQ_ENTRY_NUM MMIO_BASE_ADDR MMIO_LAST_ADDR
    Hrob b i l Hl) as Hk. rewrite Hlen in Hk.
  split; [| by rewrite fmap_app, fmap_drop, E1, arriving_incoming].
  apply values_app.
  - rewrite (exec_same _ _ R (Forall2_take _ _ _ (retired b i) (issued_same b v Q))), <- E1.
    apply values_retire; [done | rewrite E1; apply queue_wf | by rewrite length_imap |].
    intros n x g Hn Hq Hw. rewrite list_lookup_imap in Hq. destruct (Q !! n) as [q |] eqn:EQ; [| done]. injection Hq as Hq.
    apply issue_at_inv in Hq as (g0 & -> & _). destruct (registers_next (ri_new x)) as [_ ->].
    + unfold busy. apply elem_of_app. right. eapply (dest_busy REG_NUM PHYS_REG_NUM); [apply queue_wf | done | done].
    + by apply (ex_retire _ _ _ Hx n x g0).
  - intros j x g Hj. cbn zeta. rewrite fmap_drop, E1.
    replace (view (view C (take (retired b i) Q.*1)) (drop (retired b i) Q.*1 ++ take j (arriving b v).*1))
      with (view C (Q.*1 ++ take j (arriving b v).*1)); [by apply arriving_ok |].
    by rewrite <- view_app, app_assoc, take_drop.
Qed.
End cycle.

(** ** Runs *)

(** The backend, the instructions in flight, and those that have retired. *)
Definition value_step (s : backend * list (ren_info * instr) * list (ren_info * instr)) (v : cycle) :=
  let '(b, Q, T) := s in
  (backend_step b (v_in v), flight_next b v Q, T ++ take (retired b (v_in v)) Q).
Definition value_run := fold_left value_step.

Fixpoint value_run_ok (s : backend * list (ren_info * instr) * list (ren_info * instr)) (vs : list cycle) : Prop :=
  match vs with
  | [] => True
  | v :: vs => inputs_ok s.1.1 (v_in v) /\ exec_ok s.1.1 v s.1.2 /\ value_run_ok (value_step s v) vs
  end.

Definition agrees (s : backend * list (ren_info * instr) * list (ren_info * instr)) : Prop :=
  let '(b, Q, T) := s in
  exists l, precise b l /\ Q.*1 = map info l /\
    values (k_prf b) (committedMap (k_map b)) Q (exec (replicate (Z.to_nat REG_NUM) 0) T).

Lemma agrees_run vs s : agrees s -> value_run_ok s vs -> agrees (value_run vs s).
Proof.
  revert s. induction vs as [| v vs IH]; intros [[b Q] T] Hs Hok; [done |]. destruct Hok as (Hi & Hx & Hok).
  apply IH; [| done]. destruct Hs as (l & Hp & HQ & Hv). cbn [fst snd] in Hi, Hx.
  destruct (values_step b v l Q _ Hp HQ Hi Hv Hx) as [Hv' HQ']. rewrite <- exec_app in Hv'.
  eexists. split; [by apply precise_step |]. done.
Qed.

Lemma agrees_reset b0 : agrees (backend_reset b0, [], []).
Proof.
  exists []. split; [by apply precise_reset |]. split; [done |]. change (exec ?R []) with R.
  cbn [Backend.backend_reset k_prf k_map committedMap map_reset prf_reset].
  assert (forall n r, rget 0 (replicate n 0) r = 0) as Hz.
  { intros n r. unfold rget. destruct (replicate n 0 !! Z.to_nat r) as [y |] eqn:E; [| done].
    by apply lookup_replicate in E as [-> _]. }
  split; try done.
  - rewrite length_replicate. lia.
  - unfold sized. cbn. rewrite length_replicate. lia.
  - intros r Hr. cbn [registers readyTable]. split; [| etransitivity; [| symmetry]; apply Hz]. unfold rget.
    rewrite lookup_seqZ_lt by lia. cbn. apply Z.ones_spec_low. lia.
Qed.

Lemma value_run_backend vs s : (value_run vs s).1.1 = backend_run s.1.1 (map v_in vs).
Proof. revert s. induction vs as [| v vs IH]; intros [[b Q] T]; [done |]. apply (IH (value_step (b, Q, T) v)). Qed.

(** C3: out-of-order execution computes the in-order result.  From reset, however
    instructions are dispatched, issued, completed, squashed and retired within
    the contract of the environment ([inputs_ok] and [exec_ok] in every cycle: the
    inputs have their ranges and a misprediction names a branch in flight; an
    instruction is issued only when the sources it needs are ready; what is written
    back for a register is what its instruction computes from the operands it
    read, unused ones aside; an instruction retires with its result written back,
    at the latest in that cycle): the register file read through the committed map holds
    what executing the retired instructions [T], one after the other in program
    order, leaves in the architectural registers; a physical register of an
    instruction in flight that is marked ready holds the result that this
    instruction has in program order; and a branch that has issued has compared
    the values that its sources have in program order. *)
Theorem values_in_order b0 vs :
  value_run_ok (backend_reset b0, [], []) vs ->
  let '(b, Q, T) := value_run vs (backend_reset b0, [], []) in
  let R := exec (replicate (Z.to_nat REG_NUM) 0) T in
  b = backend_run (backend_reset b0) (map v_in vs) /\
  (exists l, live meta0 ROB_ENTRY_NUM (k_rob b) l /\ map info l = Q.*1) /\
  (forall r, 0 <= r < REG_NUM ->
     rget 0 (registers (k_prf b)) (rget 0 (committedMap (k_map b)) r) = rget 0 R r) /\
  (forall n x g, Q !! n = Some (x, g) -> ri_writes x = true -> Z.testbit (readyTable (k_prf b)) (ri_new x) = true ->
     rget 0 (registers (k_prf b)) (ri_new x) = result (exec R (take n Q)) g) /\
  (forall n x g a c, Q !! n = Some (x, g) -> ri_branch x = true -> g_ops g = Some (a, c) ->
     (g_use1 g = true -> a = rget 0 (exec R (take n Q)) (g_rs1 g)) /\
     (g_use2 g = true -> c = rget 0 (exec R (take n Q)) (g_rs2 g))).
Proof.
  intros Hok. pose proof (agrees_run vs _ (agrees_reset b0) Hok) as H.
  pose proof (value_run_backend vs (backend_reset b0, [], [])) as Hb.
  destruct (value_run vs (backend_reset b0, [], [])) as [[b Q] T]. destruct H as (l & Hp & HQ & Hv). cbn [fst] in Hb.
  split; [done |]. split; [exists l; split; [apply (pr_live _ _ _ _ _ _ Hp) | done] |]. split; [by apply Hv |].
  split; [by apply Hv |]. intros n x g a c Hn Hbr Ho. destruct (va_operands _ _ _ _ Hv n x g a c Hn Ho) as [H1 H2].
  split; [done |]. intros Hu. apply H2. unfold needs2. cbn. by rewrite Hu, Hbr, orb_true_r.
Qed.
End values.

(** ** The decoder and the functional units keep the contract *)

(** What an instruction computes: a load what memory holds at its address, any
    other instruction what OoOExecutionUnit.sv selects. *)
Definition ctl_fn (load : mem_access -> Z -> Z) (csr : Z -> Z) (k : ctl) (pc a c : Z) : Z :=
  match fuClass k with
  | FU_MEMORY => load (memCtr k) (lsu_address k a)
  | _ => selectedResult k pc a c (csr (csrAddr k))
  end.
Definition unit_fn {Meta} load csr (d : @decode_bus Meta) : Z -> Z -> Z := ctl_fn load csr (b_ctl d) (b_pc d).

Ltac decode_cases :=
  unfold decode, decode_op, decode_op_imm, decode_load, decode_store, decode_branch, decode_fence, decode_system;
  repeat case_match; cbn.

Lemma bits_range w hi lo : lo <= hi -> 0 <= bits w hi lo < 2 ^ (hi - lo + 1).
Proof. intros H. unfold bits. apply uwrap_range. lia. Qed.

Lemma decode_registers w : 0 <= rs1 (decode w) < 32 /\ 0 <= rs2 (decode w) < 32 /\ 0 <= rd (decode w) < 32.
Proof.
  pose proof (bits_range w 19 15 ltac:(lia)). pose proof (bits_range w 24 20 ltac:(lia)). pose proof (bits_range w 11 7 ltac:(lia)).
  assert (rs1 (decode w) = bits w 19 15 /\ rs2 (decode w) = bits w 24 20 /\ rd (decode w) = bits w 11 7) as (-> & -> & ->)
    by (decode_cases; done).
  done.
Qed.

Lemma decode_stores w :
  dataWriteEnable (decode w) = true -> registerWriteEnable (decode w) = false /\ branchCtr (decode w) = BR_NONE.
Proof. decode_cases; done. Qed.

Definition ctl_ignores (k : ctl) : Prop :=
  registerWriteEnable k = true -> forall load csr pc, ignores (useRs1 k) (useRs2 k) (ctl_fn load csr k pc).

Lemma decode_ignores w : ctl_ignores (decode w).
Proof. decode_cases; (intros E; discriminate E) || (intros _ load csr pc; split; [intros E | intros E]; (discriminate E || reflexivity)). Qed.

Lemma unit_fn_ignores {Meta} load csr (d : @decode_bus Meta) w :
  b_ctl d = decode w -> bus_writes d = true -> ignores (useRs1 (b_ctl d)) (useRs2 (b_ctl d)) (unit_fn load csr d).
Proof.
  intros E Hw. unfold unit_fn. unfold bus_writes in Hw. rewrite E in *. apply decode_ignores. by destruct (b_valid d), (registerWriteEnable (decode w)).
Qed.

(** ** The demonstration run *)

Definition demo_fn : @decode_bus unit -> Z -> Z -> Z := unit_fn (fun _ _ => 0) (fun _ => 0).
Definition demo : list cycle :=
  [Cycle Demo.c0 demo_fn []; Cycle Demo.c1 demo_fn [0]; Cycle Demo.c2 demo_fn [1]; Cycle Demo.c3 demo_fn [2];
   Cycle Demo.c4 demo_fn []; Cycle Demo.c5 demo_fn []].
Definition demo_start : @backend unit * list (ren_info * instr) * list (ren_info * instr) := (backend_reset tt 32 48 16 Demo.off, [], []).

Ltac exec_ok :=
  apply exec_okb_sound; [vm_compute; reflexivity |];
  let Hd := fresh "Hd" in
  intros ? Hd; repeat (apply elem_of_cons in Hd as [-> | Hd]); try (exfalso; by apply not_elem_of_nil in Hd);
  intros ?; (eapply (unit_fn_ignores (fun _ _ => 0) (fun _ => 0)); [reflexivity | assumption]).

Lemma demo_contract : value_run_ok tt 32 48 16 16 16 0xFFE0 0xFFFF demo_start demo.
Proof. repeat (split; [inputs_ok |]; split; [exec_ok |]). exact I. Qed.

(** The two additions retire and the instruction behind the branch does not. *)
Lemma values_in_order_witness :
  let '(b, Q, T) := value_run tt 32 48 16 16 16 0xFFE0 0xFFFF demo demo_start in
  Q = [] /\ length T = 3%nat /\
  forall r, 0 <= r < 32 -> Demo.arch b r = rget 0 (exec (replicate 32 0) T) r.
Proof.
  pose proof (values_in_order tt 32 48 16 16 16 0xFFE0 0xFFFF ltac:(lia) ltac:(lia) ltac:(lia) Demo.off demo demo_contract) as H.
  assert (let '(b, Q, T) := value_run tt 32 48 16 16 16 0xFFE0 0xFFFF demo demo_start in (length Q, length T) = (0, 3)%nat) as E
    by (vm_compute; reflexivity).
  fold demo_start in H.
  destruct (value_run tt 32 48 16 16 16 0xFFE0 0xFFFF demo demo_start) as [[b Q] T].
  destruct H as (_ & _ & H & _). split_and!; [by destruct Q | congruence | exact H].
Defined.
