(* ===== verification/IssueQueue.v ===== *)
(** * The scheduler: IssueQueue.sv

    The unified issue queue: instructions wait until their sources are ready,
    woken by the write-backs; in each cycle two are offered for issue and a third
    as a fallback.  BackendIssueStage.sv only passes the ports through. *)

From Stdlib Require Import ZArith Lia.
From stdpp Require Import base numbers list.
From S2P Require Import Prelude Hw MemWord Csr Isa Decode Rob Rename Dispatch Commit Prf Backend.

Local Open Scope Z_scope.

#[export] Instance fu_class_eq_dec : EqDecision fu_class.
Proof. solve_decision. Defined.

Definition ctl0 : ctl :=
  Ctl false false WB_ALU CSR_NONE 0 false 0 BR_NONE ALU_ADD MEM_BYTE false false false false 0 0 0 0 false 0 0 false false.
Definition uop0 : renamed_uop :=
  RenamedUop false 0 false 0 0 0 false false false false FU_INTEGER ctl0 0 0 false false 0 0 0.

(** The assignments to the two ready flags. *)
Definition set_sources (r1 r2 : bool) (u : renamed_uop) : renamed_uop :=
  let '(RenamedUop v pc pt pg pi hs ph pu ca rt fu c s1 s2 _ _ de rb lq) := u in
  RenamedUop v pc pt pg pi hs ph pu ca rt fu c s1 s2 r1 r2 de rb lq.

Section queue.
Context (DEPTH : Z).
Definition DISPATCH_WIDTH : nat := 2.
Definition AGE_W : Z := 32.

Record iq := IQ { iq_entries : list renamed_uop; ages : list Z; nextAge : Z }.

(** The inputs of a cycle: [q_wakeup] are the write-backs, [q_ready] and
    [q_fallbackReady] what the execution stage accepts. *)
Record iq_in := IqIn {
  q_flush : bool; q_recoverValid : bool; q_recoverYoungerMask : Z;
  q_dispatch : list renamed_uop; q_wakeup : list (bool * Z); q_ready0 : bool; q_ready1 : bool; q_fallbackReady : bool }.

Definition iq_entry (q : iq) (k : Z) : renamed_uop := rget uop0 (iq_entries q) k.
Definition age (q : iq) (k : Z) : Z := rget 0 (ages q) k.

Section comb.
Context (q : iq) (wakeup : list (bool * Z)).

Definition woken (p : Z) : bool := existsb (fun '(v, w) => v && (w =? p)) wakeup.
Definition sourceReadyNow (sourcePhys : Z) (storedReady sourceUsed : bool) : bool :=
  storedReady || negb sourceUsed || (sourcePhys =? 0) || woken sourcePhys.

(** The free slots, and the lanes that get one. *)
Definition freeSlot : list Z :=
  take DISPATCH_WIDTH (List.filter (fun k => negb (u_valid (iq_entry q k))) (seqZ 0 DEPTH)).
Fixpoint dispatch_ready (slots : list Z) (us : list renamed_uop) : list bool :=
  match us with
  | [] => []
  | u :: us =>
      match slots with
      | [] => false :: dispatch_ready [] us
      | _ :: ss => true :: dispatch_ready (if u_valid u then ss else slots) us
      end
  end.
Definition dispatchReady_o (us : list renamed_uop) : list bool := dispatch_ready freeSlot us.

(** [readyEntry]: a store may issue without its data. *)
Definition source1ReadyNow (u : renamed_uop) : bool := sourceReadyNow (u_src1Phys u) (u_src1Ready u) (useRs1 (u_ctl u)).
Definition source2ReadyNow (u : renamed_uop) : bool := sourceReadyNow (u_src2Phys u) (u_src2Ready u) (useRs2 (u_ctl u)).
Definition is_store_uop (u : renamed_uop) : bool := bool_decide (u_fuClass u = FU_MEMORY) && dataWriteEnable (u_ctl u).
Definition ready_uop (u : renamed_uop) : bool := u_valid u && source1ReadyNow u && (is_store_uop u || source2ReadyNow u).
Definition readyEntry (k : Z) : bool := ready_uop (iq_entry q k).
Definition fu (k : Z) : fu_class := u_fuClass (iq_entry q k).
Definition is_branch (k : Z) : bool := bool_decide (fu k = FU_BRANCH).
Definition int_or_branch (k : Z) : bool := bool_decide (fu k = FU_INTEGER) || is_branch k.

(** The loops that keep the oldest candidate. *)
Definition older (P : Z -> bool) (selected : option Z) (k : Z) : option Z :=
  if P k && match selected with None => true | Some j => age q k <? age q j end then Some k else selected.
Definition oldest (P : Z -> bool) : option Z := fold_left (older P) (seqZ 0 DEPTH) None.
Definition other (selected : option Z) (k : Z) : bool := negb (bool_decide (selected = Some k)).

(** Port 0 is for memory and CSR instructions when one is ready; port 1 takes
    the oldest integer instruction or branch; then a free port is filled. *)
Definition memory0 : option Z :=
  oldest (fun k => readyEntry k && (bool_decide (fu k = FU_MEMORY) || bool_decide (fu k = FU_CSR))).
Definition integer1 : option Z :=
  let m := memory0 in oldest (fun k => readyEntry k && int_or_branch k && other m k).
Definition selected0 : option Z :=
  match memory0 with
  | Some k => Some k
  | None =>
      let s1 := integer1 in
      oldest (fun k => readyEntry k && other s1 k && negb (match s1 with Some _ => true | None => false end && is_branch k))
  end.
Definition selected1 : option Z :=
  match integer1 with
  | Some k => Some k
  | None =>
      let s0 := selected0 in
      oldest (fun k => readyEntry k && int_or_branch k && other s0 k &&
                       negb (match s0 with Some j => is_branch j | None => false end && is_branch k))
  end.
Definition fallback : option Z :=
  let s0 := selected0 in
  let s1 := selected1 in
  oldest (fun k => readyEntry k && bool_decide (fu k = FU_INTEGER) && other s0 k && other s1 k).

(** [issueUop_o] of a port. *)
Definition issue_uop (k : Z) : renamed_uop :=
  let u := iq_entry q k in set_sources (source1ReadyNow u) (source2ReadyNow u) u.

(** [fallbackUop_o]: the flags are constant. *)
Definition fallback_uop (k : Z) : renamed_uop := set_sources true true (iq_entry q k).

(** [count_o], [empty_o] and [full_o]. *)
Definition occupied : Z := Z.of_nat (length (List.filter (fun k => u_valid (iq_entry q k)) (seqZ 0 DEPTH))).
Definition iq_count_o : Z := uwrap (Z.log2_up (DEPTH + 1)) occupied.
Definition iq_empty_o : bool := occupied =? 0.
Definition iq_full_o : bool := occupied =? DEPTH.
End comb.

(** The slots that complete the issue handshake. *)
Definition gate (ready : bool) (s : option Z) : list Z := if ready then option_list s else [].
Definition issued (q : iq) (i : iq_in) : list Z :=
  gate (q_ready0 i) (selected0 q (q_wakeup i)) ++ gate (q_ready1 i) (selected1 q (q_wakeup i)) ++
  gate (q_fallbackReady i) (fallback q (q_wakeup i)).

(** ** The clocked process *)

Definition wake (wakeup : list (bool * Z)) (u : renamed_uop) : renamed_uop :=
  if u_valid u
  then set_sources (u_src1Ready u || woken wakeup (u_src1Phys u)) (u_src2Ready u || woken wakeup (u_src2Phys u)) u
  else u.
Definition clear_slots (ks : list Z) (es : list renamed_uop) : list renamed_uop := fold_left (fun es k => rset es k uop0) ks es.

(** The lanes that enter with their slots, compacted. *)
Fixpoint dispatched (slots : list Z) (us : list renamed_uop) : list (Z * renamed_uop) :=
  match slots, us with
  | s :: ss, u :: us => if u_valid u then (s, u) :: dispatched ss us else dispatched slots us
  | _, _ => []
  end.
Definition enter (wakeup : list (bool * Z)) (u : renamed_uop) : renamed_uop :=
  set_sources (sourceReadyNow wakeup (u_src1Phys u) (u_src1Ready u) (useRs1 (u_ctl u)))
    (sourceReadyNow wakeup (u_src2Phys u) (u_src2Ready u) (useRs2 (u_ctl u))) u.

Definition iq_reset : iq := IQ (replicate (Z.to_nat DEPTH) uop0) (replicate (Z.to_nat DEPTH) 0) 0.

Definition iq_step (q : iq) (i : iq_in) : iq :=
  if q_flush i then iq_reset
  else if q_recoverValid i then
    IQ (clear_slots (issued q i)
          (map (fun u => if u_valid u && Z.testbit (q_recoverYoungerMask i) (u_robTag u) then uop0 else wake (q_wakeup i) u)
             (iq_entries q)))
      (ages q) (nextAge q)
  else
    let new := dispatched (freeSlot q) (q_dispatch i) in
    IQ (fold_left (fun es '(s, u) => rset es s (enter (q_wakeup i) u)) new
          (clear_slots (issued q i) (map (wake (q_wakeup i)) (iq_entries q))))
      (fold_left (fun a '(n, (s, _)) => rset a s (uwrap AGE_W (nextAge q + Z.of_nat n))) (imap pair new) (ages q))
      (uwrap AGE_W (nextAge q + Z.of_nat (length new))).

(** ** What it selects *)

Section select.
Context (q : iq) (wakeup : list (bool * Z)).

Lemma older_fold P ks s :
  match fold_left (older q P) ks s with
  | Some k => (s = Some k \/ k ∈ ks /\ P k = true) /\
              (forall j, j ∈ ks -> P j = true -> age q k <= age q j) /\ (forall j, s = Some j -> age q k <= age q j)
  | None => s = None /\ forall j, j ∈ ks -> P j = false
  end.
Proof.
  revert s. induction ks as [| k ks IH]; intros s.
  { cbn. destruct s as [k |].
    - split; [auto |]. split; [intros j Hj; by apply not_elem_of_nil in Hj |]. by intros j [= ->].
    - split; [done |]. intros j Hj. by apply not_elem_of_nil in Hj. }
  cbn [fold_left]. specialize (IH (older q P s k)).
  remember (older q P s k) as s' eqn:Es. unfold older in Es. destruct (fold_left (older q P) ks s') as [m |]; subst s'.
  - destruct IH as (H1 & H2 & H3). split; [| split].
    + destruct H1 as [E | [? ?]]; [| right; split; [by right | done]].
      destruct (P k) eqn:EP; cbn [andb] in E; [| by left].
      destruct s as [j |]; [destruct (age q k <? age q j) |]; [injection E as <-| by left | injection E as <-];
        right; (split; [by left | done]).
    + intros j Hj HP. apply elem_of_cons in Hj as [-> | Hj]; [| by apply H2].
      rewrite HP in H3. cbn [andb] in H3. destruct s as [i |]; [destruct (Z.ltb_spec (age q k) (age q i)) |].
      * by apply H3.
      * specialize (H3 i eq_refl). lia.
      * by apply H3.
    + intros j ->. destruct (P k); cbn [andb] in H3; [| by apply H3].
      destruct (Z.ltb_spec (age q k) (age q j)); [specialize (H3 k eq_refl); lia | by apply H3].
  - destruct IH as (H1 & H2). destruct (P k) eqn:EP; cbn [andb] in H1.
    + destruct s as [j |]; [by destruct (age q k <? age q j) | done].
    + split; [done |]. intros j Hj. apply elem_of_cons in Hj as [-> | Hj]; [done | by apply H2].
Qed.

Lemma oldest_Some P k :
  oldest q P = Some k ->
  0 <= k < DEPTH /\ P k = true /\ forall j, 0 <= j < DEPTH -> P j = true -> age q k <= age q j.
Proof.
  intros E. pose proof (older_fold P (seqZ 0 DEPTH) None) as H. unfold oldest in E. rewrite E in H.
  destruct H as ([| [Hk HP]] & H2 & _); [done |]. apply elem_of_seqZ in Hk. split; [lia |]. split; [done |].
  intros j Hj. apply H2, elem_of_seqZ. lia.
Qed.

Lemma oldest_None P j : oldest q P = None -> 0 <= j < DEPTH -> P j = false.
Proof.
  intros E Hj. pose proof (older_fold P (seqZ 0 DEPTH) None) as H. unfold oldest in E. rewrite E in H.
  apply H, elem_of_seqZ. lia.
Qed.

Lemma other_ne s k : other s k = true <-> s <> Some k.
Proof. unfold other. by rewrite negb_true_iff, bool_decide_eq_false. Qed.

Lemma memory0_Some k :
  memory0 q wakeup = Some k ->
  0 <= k < DEPTH /\ readyEntry q wakeup k = true /\ (fu q k = FU_MEMORY \/ fu q k = FU_CSR) /\
  forall j, 0 <= j < DEPTH -> readyEntry q wakeup j = true -> fu q j = FU_MEMORY \/ fu q j = FU_CSR -> age q k <= age q j.
Proof.
  intros (Hk & HP & Hold)%oldest_Some. apply andb_true_iff in HP as [Hr Hf]. split; [done |]. split; [done |]. split.
  - apply orb_true_iff in Hf as [?%bool_decide_eq_true | ?%bool_decide_eq_true]; auto.
  - intros j Hj Hrj Hfj. apply Hold; [done |]. rewrite Hrj. cbn. apply orb_true_iff.
    rewrite !bool_decide_eq_true. done.
Qed.

Lemma int_or_branch_iff k : int_or_branch q k = true <-> fu q k = FU_INTEGER \/ fu q k = FU_BRANCH.
Proof. unfold int_or_branch, is_branch. by rewrite orb_true_iff, !bool_decide_eq_true. Qed.

Lemma integer1_Some k :
  integer1 q wakeup = Some k ->
  0 <= k < DEPTH /\ readyEntry q wakeup k = true /\ (fu q k = FU_INTEGER \/ fu q k = FU_BRANCH) /\
  forall j, 0 <= j < DEPTH -> readyEntry q wakeup j = true -> fu q j = FU_INTEGER \/ fu q j = FU_BRANCH -> age q k <= age q j.
Proof.
  intros (Hk & HP & Hold)%oldest_Some. apply andb_true_iff in HP as [[Hr Hf]%andb_true_iff _]. apply int_or_branch_iff in Hf.
  do 3 (split; [done |]). intros j Hj Hrj Hfj. apply Hold; [done |]. rewrite Hrj. cbn [andb].
  rewrite (proj2 (int_or_branch_iff j) Hfj). cbn [andb]. apply other_ne. intros (_ & _ & Hm & _)%memory0_Some.
  destruct Hm, Hfj; congruence.
Qed.

Lemma integer1_None j :
  integer1 q wakeup = None -> 0 <= j < DEPTH -> readyEntry q wakeup j = true -> fu q j = FU_MEMORY \/ fu q j = FU_CSR.
Proof.
  intros E Hj Hr. pose proof (oldest_None _ j E Hj) as H. cbn beta in H. rewrite Hr in H. cbn [andb] in H.
  destruct (fu q j) eqn:Ef; auto; exfalso;
    rewrite (proj2 (int_or_branch_iff j)) in H by (rewrite Ef; auto); cbn [andb] in H;
    apply negb_false_iff, bool_decide_eq_true, memory0_Some in H as (_ & _ & Hm & _); destruct Hm; congruence.
Qed.

(** The fill-in of port 1 never finds anything. *)
Lemma selected1_integer1 : selected1 q wakeup = integer1 q wakeup.
Proof.
  unfold selected1. destruct (integer1 q wakeup) eqn:E; [done |]. destruct (oldest q _) as [k |] eqn:Ek; [| done]. exfalso.
  apply oldest_Some in Ek as (Hk & HP & _). do 3 apply andb_true_iff in HP as [HP ?].
  destruct (integer1_None k E Hk HP) as [Ef | Ef];
    match goal with H : int_or_branch q k = true |- _ => apply int_or_branch_iff in H as [?|?] end; congruence.
Qed.

Lemma memory0_None j :
  memory0 q wakeup = None -> 0 <= j < DEPTH -> readyEntry q wakeup j = true -> fu q j = FU_INTEGER \/ fu q j = FU_BRANCH.
Proof.
  intros E Hj Hr. pose proof (oldest_None _ j E Hj) as H. cbn beta in H. rewrite Hr in H. cbn [andb] in H.
  apply orb_false_iff in H as [?%bool_decide_eq_false ?%bool_decide_eq_false]. destruct (fu q j); auto; done.
Qed.

Lemma selected0_Some k :
  selected0 q wakeup = Some k ->
  0 <= k < DEPTH /\ readyEntry q wakeup k = true /\ fu q k <> FU_BRANCH /\ integer1 q wakeup <> Some k.
Proof.
  unfold selected0. destruct (memory0 q wakeup) as [m |] eqn:E0.
  - intros [= <-]. apply memory0_Some in E0 as (Hk & Hr & Hf & _). do 2 (split; [done |]). split.
    + intros Eb. destruct Hf; congruence.
    + intros (_ & _ & Hi & _)%integer1_Some. destruct Hi, Hf; congruence.
  - intros (Hk & HP & _)%oldest_Some. apply andb_true_iff in HP as [[Hr Ho]%andb_true_iff Hb]. apply other_ne in Ho.
    do 2 (split; [done |]). split; [| done]. intros Ef. unfold is_branch in Hb. rewrite bool_decide_true in Hb by done.
    destruct (integer1 q wakeup) eqn:E1; [done |].
    destruct (integer1_None k E1 Hk Hr) as [? | ?]; congruence.
Qed.

Lemma fallback_Some k :
  fallback q wakeup = Some k ->
  0 <= k < DEPTH /\ readyEntry q wakeup k = true /\ fu q k = FU_INTEGER /\
  selected0 q wakeup <> Some k /\ selected1 q wakeup <> Some k.
Proof.
  intros (Hk & HP & _)%oldest_Some. do 3 apply andb_true_iff in HP as [HP ?].
  repeat match goal with H : other _ k = true |- _ => apply other_ne in H | H : bool_decide _ = true |- _ => apply bool_decide_eq_true in H end.
  done.
Qed.

(** The constant flags of the fallback are those a port would compute. *)
Lemma fallback_uop_issue k : fallback q wakeup = Some k -> fallback_uop q k = issue_uop q wakeup k.
Proof.
  intros (_ & Hr & Hf & _)%fallback_Some. unfold readyEntry, ready_uop, is_store_uop in Hr. unfold fu in Hf.
  rewrite Hf in Hr. apply andb_true_iff in Hr as [[_ H1]%andb_true_iff H2]. rewrite bool_decide_false in H2 by done. cbn [andb orb] in H2.
  unfold fallback_uop, issue_uop. by rewrite H1, H2.
Qed.
End select.

(** C25: the ports are fed as the comments of the queue promise.  Whatever is
    offered on the two ports and the fallback is a valid instruction whose
    sources are ready in this cycle (a store may miss its data), and the three
    are different entries; memory and CSR instructions appear on port 0 only,
    which has the oldest of them; port 1 has the oldest integer instruction or
    branch, so that at most one branch is offered; the fallback is the oldest
    integer instruction besides; and if anything is ready something is offered. *)
Theorem issue_selects_oldest_ready q wakeup :
  let s0 := selected0 q wakeup in let s1 := selected1 q wakeup in let sf := fallback q wakeup in
  (forall k, s0 = Some k \/ s1 = Some k \/ sf = Some k -> 0 <= k < DEPTH /\ ready_uop wakeup (iq_entry q k) = true) /\
  (forall k, s0 = Some k -> s1 <> Some k /\ sf <> Some k /\ fu q k <> FU_BRANCH) /\
  (forall k, s1 = Some k -> sf <> Some k /\ (fu q k = FU_INTEGER \/ fu q k = FU_BRANCH)) /\
  (forall k, sf = Some k -> fu q k = FU_INTEGER) /\
  (forall j, 0 <= j < DEPTH -> ready_uop wakeup (iq_entry q j) = true ->
     match fu q j with
     | FU_MEMORY | FU_CSR => exists k, s0 = Some k /\ (fu q k = FU_MEMORY \/ fu q k = FU_CSR) /\ age q k <= age q j
     | FU_INTEGER => (exists k, s1 = Some k /\ age q k <= age q j) /\
         (s0 = Some j \/ s1 = Some j \/ exists k, sf = Some k /\ age q k <= age q j)
     | FU_BRANCH => exists k, s1 = Some k /\ age q k <= age q j
     end).
Proof.
  intros s0 s1 sf. pose proof (selected1_integer1 q wakeup) as E1. fold s1 in E1.
  pose proof (selected0_Some q wakeup) as H0. fold s0 in H0. pose proof (integer1_Some q wakeup) as H1. rewrite <- E1 in H0, H1.
  pose proof (fallback_Some q wakeup) as Hf. fold s0 s1 sf in Hf. split_and!.
  - intros k [H | [H | H]]; [apply H0 in H | apply H1 in H | apply Hf in H]; by destruct H as (? & ? & _).
  - intros k Hk. destruct (H0 k Hk) as (_ & _ & Hb & Hne). split_and!; try done. by intros (_ & _ & _ & ? & _)%Hf.
  - intros k Hk. destruct (H1 k Hk) as (_ & _ & Hi & _). split; [| done]. by intros (_ & _ & _ & _ & ?)%Hf.
  - intros k (_ & _ & ? & _)%Hf. done.
  - intros j Hj Hr.
    assert (fu q j = FU_INTEGER \/ fu q j = FU_BRANCH -> exists k, s1 = Some k /\ age q k <= age q j) as Hport1.
    { intros Hi. destruct s1 as [k |] eqn:Es.
      - exists k. split; [done |]. by apply H1.
      - symmetry in E1. destruct (integer1_None q wakeup j E1 Hj Hr); destruct Hi; congruence. }
    assert (fu q j = FU_MEMORY \/ fu q j = FU_CSR ->
      exists k, s0 = Some k /\ (fu q k = FU_MEMORY \/ fu q k = FU_CSR) /\ age q k <= age q j) as Hport0.
    { intros Hi. unfold s0, selected0. destruct (memory0 q wakeup) as [k |] eqn:E0.
      - apply memory0_Some in E0 as (_ & _ & Hk & Hold). eauto.
      - destruct (memory0_None q wakeup j E0 Hj Hr); destruct Hi; congruence. }
    destruct (fu q j) eqn:Ef; auto. split; [auto |].
    destruct (decide (s0 = Some j)); [auto |]. destruct (decide (s1 = Some j)); [auto |]. right; right.
    destruct sf as [k |] eqn:Es.
    + exists k. split; [done |]. apply oldest_Some in Es as (_ & _ & Hold). apply Hold; [done |].
      fold (readyEntry q wakeup j) in Hr. rewrite Hr, (bool_decide_true _ Ef). cbn [andb].
      by rewrite !(proj2 (other_ne _ _)).
    + apply (oldest_None q _ j) in Es; [| done]. cbn beta in Es. fold (readyEntry q wakeup j) in Hr.
      rewrite Hr, (bool_decide_true _ Ef) in Es. cbn [andb] in Es. by rewrite !(proj2 (other_ne _ _)) in Es.
Qed.

(** ** A clock edge, entry by entry *)

Context (Hdepth : 0 < DEPTH).
Definition iq_sized (q : iq) : Prop := Z.of_nat (length (iq_entries q)) = DEPTH.

Lemma issued_ready q i k : k ∈ issued q i -> 0 <= k < DEPTH /\ readyEntry q (q_wakeup i) k = true.
Proof.
  unfold issued, gate. rewrite !elem_of_app.
  assert (forall (b : bool) s, (forall k, s = Some k -> 0 <= k < DEPTH /\ readyEntry q (q_wakeup i) k = true) ->
    k ∈ (if b then option_list s else []) -> 0 <= k < DEPTH /\ readyEntry q (q_wakeup i) k = true) as H.
  { intros b s Hs Hk. destruct b; [| by apply not_elem_of_nil in Hk]. destruct s as [m |]; cbn in Hk; [apply list_elem_of_singleton in Hk; subst k; by apply Hs | by apply not_elem_of_nil in Hk]. }
  intros [Hk | [Hk | Hk]]; eapply H in Hk; try done; intros j Hj.
  - by destruct (selected0_Some q (q_wakeup i) j Hj) as (? & ? & _).
  - rewrite selected1_integer1 in Hj. by destruct (integer1_Some q (q_wakeup i) j Hj) as (? & ? & _).
  - by destruct (fallback_Some q (q_wakeup i) j Hj) as (? & ? & _).
Qed.

Lemma length_clear_slots ks es : length (clear_slots ks es) = length es.
Proof. unfold clear_slots. revert es. induction ks as [| k ks IH]; intros es; [done |]. cbn. by rewrite IH, length_rset. Qed.

Lemma rget_clear_slots ks es k :
  Forall (fun j => 0 <= j < Z.of_nat (length es)) ks -> 0 <= k ->
  rget uop0 (clear_slots ks es) k = if bool_decide (k ∈ ks) then uop0 else rget uop0 es k.
Proof.
  unfold clear_slots. intros HF Hk. revert es HF. induction ks as [| j ks IH]; intros es HF.
  - cbn. rewrite bool_decide_false; [done |]. apply not_elem_of_nil.
  - apply Forall_cons_1 in HF as [Hj HF]. cbn [fold_left]. rewrite IH by (by rewrite length_rset).
    destruct (decide (k ∈ ks)) as [Hin | Hin].
    + by rewrite !bool_decide_true by (rewrite ?elem_of_cons; auto).
    + rewrite (bool_decide_false (k ∈ ks)) by done. rewrite rget_rset by lia. destruct (Z.eqb_spec k j) as [-> | Hne].
      * by rewrite bool_decide_true by (rewrite elem_of_cons; auto).
      * rewrite bool_decide_false; [done |]. rewrite elem_of_cons. tauto.
Qed.

(** The slots for new instructions are free and different. *)
Lemma freeSlot_spec q :
  NoDup (freeSlot q) /\ Forall (fun s => 0 <= s < DEPTH /\ u_valid (iq_entry q s) = false) (freeSlot q).
Proof.
  unfold freeSlot. split.
  - eapply sublist_NoDup; [| apply sublist_take]. apply NoDup_ListNoDup, List.NoDup_filter, NoDup_ListNoDup, NoDup_seqZ.
  - apply Forall_take, List.Forall_forall. intros s [Hs Hv]%filter_In. apply list_elem_of_In, elem_of_seqZ in Hs.
    split; [lia | by apply negb_true_iff].
Qed.

Lemma length_freeSlot q : Z.of_nat (length (freeSlot q)) = Z.min 2 (DEPTH - occupied q).
Proof.
  unfold freeSlot, occupied. rewrite length_take. unfold DISPATCH_WIDTH.
  pose proof (filter_length (fun k => u_valid (iq_entry q k)) (seqZ 0 DEPTH)) as H. rewrite length_seqZ in H. lia.
Qed.

Section dispatched.
Implicit Types (ss : list Z) (us : list renamed_uop).

Lemma dispatched_elem ss us s u : (s, u) ∈ dispatched ss us -> s ∈ ss /\ u ∈ us /\ u_valid u = true.
Proof.
  revert ss. induction us as [| x us IH]; intros [| t ss]; cbn [dispatched]; try (intros H; by apply not_elem_of_nil in H).
  destruct (u_valid x) eqn:Ex.
  - rewrite elem_of_cons. intros [[= -> ->] | (? & ? & ?)%IH]; [by rewrite !elem_of_cons; auto |]. rewrite !elem_of_cons. auto.
  - intros (? & ? & ?)%IH. rewrite (elem_of_cons us). auto.
Qed.

Lemma dispatched_nodup ss us : NoDup ss -> NoDup (dispatched ss us).*1.
Proof.
  revert ss. induction us as [| x us IH]; intros [| t ss] Hnd; cbn [dispatched]; try constructor.
  apply NoDup_cons in Hnd as [Ht Hnd]. destruct (u_valid x); [| apply IH; by constructor].
  cbn. constructor; [| by apply IH]. intros ([s u] & -> & Hin)%list_elem_of_fmap. by apply dispatched_elem in Hin as (? & _).
Qed.

(** With room for all valid lanes every one of them enters, in order. *)
Lemma dispatched_all ss us :
  (length (List.filter u_valid us) <= length ss)%nat -> (dispatched ss us).*2 = List.filter u_valid us.
Proof.
  revert ss. induction us as [| x us IH]; intros [| t ss] H; cbn [dispatched List.filter] in *; try done.
  - destruct (u_valid x); cbn in H; [lia |]. destruct (List.filter u_valid us); [done | cbn in H; lia].
  - destruct (u_valid x); cbn in *; [rewrite IH by lia; done | by apply IH].
Qed.
End dispatched.

Lemma length_write_new w new es :
  length (fold_left (fun es '(s, u) => rset es s (enter w u)) (new : list (Z * renamed_uop)) es) = length es.
Proof. revert es. induction new as [| [s u] new IH]; intros es; [done |]. cbn. by rewrite IH, length_rset. Qed.

Lemma write_new_other w new es k :
  Forall (fun x => 0 <= x.1 < Z.of_nat (length es)) new -> 0 <= k -> k ∉ new.*1 ->
  rget uop0 (fold_left (fun es '(s, u) => rset es s (enter w u)) (new : list (Z * renamed_uop)) es) k = rget uop0 es k.
Proof.
  revert es. induction new as [| [s u] new IH]; intros es HF Hk Hn; [done |]. cbn in *.
  apply Forall_cons_1 in HF as [Hs HF]. apply not_elem_of_cons in Hn as [Hne Hn].
  rewrite IH by (rewrite ?length_rset; done). cbn in Hs. rewrite rget_rset by lia. by rewrite (proj2 (Z.eqb_neq k s)).
Qed.

Lemma write_new_this w new es s u :
  Forall (fun x => 0 <= x.1 < Z.of_nat (length es)) new -> NoDup new.*1 -> (s, u) ∈ new ->
  rget uop0 (fold_left (fun es '(s, u) => rset es s (enter w u)) (new : list (Z * renamed_uop)) es) s = enter w u.
Proof.
  revert es. induction new as [| [t x] new IH]; intros es HF Hnd Hin; [by apply not_elem_of_nil in Hin |]. cbn in *.
  apply Forall_cons_1 in HF as [Ht HF]. apply NoDup_cons in Hnd as [Hn Hnd]. cbn in Ht.
  apply elem_of_cons in Hin as [[= <- <-] | Hin].
  - rewrite write_new_other by (rewrite ?length_rset; done || lia). by rewrite rget_rset, Z.eqb_refl by lia.
  - apply IH; [by rewrite length_rset | done | done].
Qed.

Lemma rget_map_entries (f : renamed_uop -> renamed_uop) q k :
  iq_sized q -> 0 <= k < DEPTH -> rget uop0 (map f (iq_entries q)) k = f (iq_entry q k).
Proof.
  intros Hq Hk. unfold iq_sized in Hq. pose proof (rget_lookup uop0 (iq_entries q) k ltac:(lia)) as E.
  unfold rget at 1. by rewrite (list_lookup_fmap f (iq_entries q)), E.
Qed.

Lemma issued_range q i (es : list renamed_uop) :
  Z.of_nat (length es) = DEPTH -> Forall (fun j => 0 <= j < Z.of_nat (length es)) (issued q i).
Proof. intros ->. apply list.Forall_forall. intros k [Hk _]%issued_ready. done. Qed.

(** *** The three cases *)

Lemma iq_step_flush q i : q_flush i = true -> iq_step q i = iq_reset.
Proof. intros E. unfold iq_step. by rewrite E. Qed.

Lemma iq_step_recover q i k :
  iq_sized q -> q_flush i = false -> q_recoverValid i = true -> 0 <= k < DEPTH ->
  iq_entry (iq_step q i) k =
  let u := iq_entry q k in
  if bool_decide (k ∈ issued q i) then uop0
  else if u_valid u && Z.testbit (q_recoverYoungerMask i) (u_robTag u) then uop0 else wake (q_wakeup i) u.
Proof.
  intros Hq Hf Hr Hk. unfold iq_step. rewrite Hf, Hr. unfold iq_entry at 1. cbn [iq_entries].
  rewrite rget_clear_slots; [| apply issued_range; by rewrite length_map | lia].
  by rewrite rget_map_entries by done.
Qed.

Definition entering_uops (q : iq) (i : iq_in) : list (Z * renamed_uop) := dispatched (freeSlot q) (q_dispatch i).

Lemma entering_range q i (es : list renamed_uop) :
  Z.of_nat (length es) = DEPTH -> Forall (fun x => 0 <= x.1 < Z.of_nat (length es)) (entering_uops q i).
Proof.
  intros ->. apply list.Forall_forall. intros [s u] (Hs & _ & _)%dispatched_elem.
  destruct (freeSlot_spec q) as [_ HF]. rewrite list.Forall_forall in HF. by destruct (HF s Hs).
Qed.

Lemma iq_step_old q i k :
  iq_sized q -> q_flush i = false -> q_recoverValid i = false -> 0 <= k < DEPTH -> k ∉ (entering_uops q i).*1 ->
  iq_entry (iq_step q i) k = if bool_decide (k ∈ issued q i) then uop0 else wake (q_wakeup i) (iq_entry q k).
Proof.
  intros Hq Hf Hr Hk Hn. unfold iq_step. rewrite Hf, Hr. unfold iq_entry at 1. cbn [iq_entries].
  rewrite write_new_other; [| | lia | done].
  - rewrite rget_clear_slots; [| apply issued_range; by rewrite length_map | lia]. by rewrite rget_map_entries by done.
  - apply entering_range. rewrite length_clear_slots, length_map. done.
Qed.

Lemma iq_step_new q i s u :
  iq_sized q -> q_flush i = false -> q_recoverValid i = false -> (s, u) ∈ entering_uops q i ->
  iq_entry (iq_step q i) s = enter (q_wakeup i) u.
Proof.
  intros Hq Hf Hr Hin. unfold iq_step. rewrite Hf, Hr. unfold iq_entry. cbn [iq_entries].
  apply write_new_this; [| apply dispatched_nodup, freeSlot_spec | done].
  apply entering_range. rewrite length_clear_slots, length_map. done.
Qed.

Lemma iq_step_sized q i : iq_sized q -> iq_sized (iq_step q i).
Proof.
  unfold iq_sized, iq_step. intros Hq. destruct (q_flush i); [cbn; rewrite length_replicate; lia |].
  destruct (q_recoverValid i); cbn; by rewrite ?length_write_new, length_clear_slots, length_map.
Qed.

Lemma iq_reset_invalid k : u_valid (iq_entry iq_reset k) = false.
Proof.
  unfold iq_entry, iq_reset, rget. cbn [iq_entries].
  destruct (replicate (Z.to_nat DEPTH) uop0 !! Z.to_nat k) as [y |] eqn:E; [| done]. by apply lookup_replicate in E as [-> _].
Qed.
End queue.
