(* ===== verification/BackendSched.v ===== *)
(** * The backend with its scheduler

    The issue queue of IssueQueue.sv connected to the backend as OoOBackend.sv
    connects it.  The queue holds exactly the instructions in flight that have
    not been issued, and whatever it issues reads the values of in-order
    execution; what remains of the environment is the execution stage. *)

From Stdlib Require Import ZArith Lia.
From stdpp Require Import base numbers list.
From S2P Require Import Prelude Hw MemWord Csr Isa Decode Rob Rename Dispatch Commit Prf RenameInv Backend.
From S2P Require Import BackendInv BackendValues IssueQueue.

Local Open Scope Z_scope.

#[local] Arguments woken : simpl never.

Section sched.
Context {Meta : Type} (meta0 : Meta).
Context (REG_NUM PHYS_REG_NUM ROB_ENTRY_NUM UNIFIED_IQ_ENTRY_NUM LSQ_ENTRY_NUM : Z).
Context (MMIO_BASE_ADDR MMIO_LAST_ADDR : Z).
Context (Hreg : 0 < REG_NUM) (Hphys : REG_NUM < PHYS_REG_NUM) (Hrob : 0 < ROB_ENTRY_NUM) (Hiq : 0 < UNIFIED_IQ_ENTRY_NUM).

Local Abbreviation backend := (@backend Meta).
Local Abbreviation flight := (list (ren_info * instr)).
Local Abbreviation wf := (wf REG_NUM PHYS_REG_NUM).
Local Abbreviation slot := (slot ROB_ENTRY_NUM).
Local Abbreviation live := (live meta0 ROB_ENTRY_NUM).
Local Abbreviation flush := (flush meta0 ROB_ENTRY_NUM).
Local Abbreviation lanes := (lanes PHYS_REG_NUM ROB_ENTRY_NUM UNIFIED_IQ_ENTRY_NUM LSQ_ENTRY_NUM).
Local Abbreviation renamed_o := (renamed_o PHYS_REG_NUM ROB_ENTRY_NUM UNIFIED_IQ_ENTRY_NUM LSQ_ENTRY_NUM).
Local Abbreviation accept := (accept PHYS_REG_NUM ROB_ENTRY_NUM UNIFIED_IQ_ENTRY_NUM LSQ_ENTRY_NUM).
Local Abbreviation rob_inputs :=
  (rob_inputs meta0 PHYS_REG_NUM ROB_ENTRY_NUM UNIFIED_IQ_ENTRY_NUM LSQ_ENTRY_NUM MMIO_BASE_ADDR MMIO_LAST_ADDR).
Local Abbreviation retired :=
  (retired meta0 PHYS_REG_NUM ROB_ENTRY_NUM UNIFIED_IQ_ENTRY_NUM LSQ_ENTRY_NUM MMIO_BASE_ADDR MMIO_LAST_ADDR).
Local Abbreviation precise := (precise meta0 REG_NUM PHYS_REG_NUM ROB_ENTRY_NUM).
Local Abbreviation inputs_ok := (inputs_ok meta0 REG_NUM ROB_ENTRY_NUM).
Local Abbreviation backend_step :=
  (backend_step meta0 REG_NUM PHYS_REG_NUM ROB_ENTRY_NUM UNIFIED_IQ_ENTRY_NUM LSQ_ENTRY_NUM MMIO_BASE_ADDR MMIO_LAST_ADDR).
Local Abbreviation backend_reset := (backend_reset meta0 REG_NUM PHYS_REG_NUM ROB_ENTRY_NUM).
Local Abbreviation cycle := (@cycle Meta).
Local Abbreviation values := (values REG_NUM PHYS_REG_NUM).
Local Abbreviation exec_ok :=
  (exec_ok meta0 PHYS_REG_NUM ROB_ENTRY_NUM UNIFIED_IQ_ENTRY_NUM LSQ_ENTRY_NUM MMIO_BASE_ADDR MMIO_LAST_ADDR).
Local Abbreviation issue_at := (issue_at ROB_ENTRY_NUM).
Local Abbreviation arriving := (arriving PHYS_REG_NUM ROB_ENTRY_NUM UNIFIED_IQ_ENTRY_NUM LSQ_ENTRY_NUM).
Local Abbreviation flight_next :=
  (flight_next meta0 PHYS_REG_NUM ROB_ENTRY_NUM UNIFIED_IQ_ENTRY_NUM LSQ_ENTRY_NUM MMIO_BASE_ADDR MMIO_LAST_ADDR).
Local Abbreviation issued := (issued UNIFIED_IQ_ENTRY_NUM).
Local Abbreviation iq_step := (iq_step UNIFIED_IQ_ENTRY_NUM).
Local Abbreviation iq_sized := (iq_sized UNIFIED_IQ_ENTRY_NUM).

(** ** The wiring *)

(** A cycle: the inputs of the backend, but for what the queue reports; what the
    decoded instructions compute; and the handshake of the execution stage. *)
Record sched_cycle := SchedCycle {
  s_in : @backend_in Meta; s_fn : @decode_bus Meta -> Z -> Z -> Z;
  s_ready0 : bool; s_ready1 : bool; s_fallbackReady : bool }.

Section step.
Context (b : backend) (q : iq) (s : sched_cycle).

(** [count_o] and [empty_o] of the queue go to dispatch. *)
Definition sched_in : @backend_in Meta :=
  let '(BackendIn ds _ lc _ le se mi lt lh bt sr ms cs wbs br rt tk tg mp) := s_in s in
  BackendIn ds (iq_count_o UNIFIED_IQ_ENTRY_NUM q) lc (iq_empty_o UNIFIED_IQ_ENTRY_NUM q) le se mi lt lh bt sr ms cs wbs br rt tk tg mp.
Definition wakeups (wbs : list wb_port) : list (bool * Z) := map (fun '(v, p, _) => (v, p)) wbs.
Definition iq_inputs : iq_in :=
  IqIn (flush b sched_in) (i_branchMispredicted sched_in)
    (recoverYoungerMask_o ROB_ENTRY_NUM (k_rob b) (rob_inputs b sched_in))
    (map rn_uop (renamed_o b sched_in)) (wakeups (i_writeback sched_in)) (s_ready0 s) (s_ready1 s) (s_fallbackReady s).
Definition sched_issue : list Z := map (fun k => u_robTag (iq_entry q k)) (issued q iq_inputs).
Definition the_cycle : cycle := Cycle sched_in (s_fn s) sched_issue.

(** What is left of the contract: the execution stage writes back results of
    instructions that were issued before, an instruction retires after it was
    issued and with its result written; stores write no register. *)
Record stage_ok (Q : flight) : Prop := {
  st_inputs : inputs_ok b sched_in;
  st_width : (length (i_decode sched_in) <= DISPATCH_WIDTH)%nat;
  st_stores : forall d, d ∈ i_decode sched_in -> dataWriteEnable (b_ctl d) = true ->
    registerWriteEnable (b_ctl d) = false /\ branchCtr (b_ctl d) = BR_NONE;
  st_writeback : forall p d, (true, p, d) ∈ i_writeback sched_in -> p <> 0 ->
    exists n x g a c, Q !! n = Some (x, g) /\ ri_writes x = true /\ ri_new x = p /\
      g_ops g = Some (a, c) /\ d = g_fn g a c;
  st_retire : forall n x g, (n < retired b sched_in)%nat -> Q !! n = Some (x, g) ->
    g_ops g <> None /\ (ri_writes x = true -> (read b the_cycle (ri_new x)).2 = true);
  st_ports : Forall (wb_ok PHYS_REG_NUM) (i_writeback sched_in);
  st_unused : forall d, d ∈ i_decode sched_in -> bus_writes d = true ->
    ignores (useRs1 (b_ctl d)) (useRs2 (b_ctl d)) (s_fn s d)
}.
End step.

(** ** The invariant *)

(** An entry waits for the instruction [(x, g)]. *)
Record waits (f : prf) (u : renamed_uop) (x : ren_info) (g : instr) : Prop := {
  wa_src1 : u_src1Phys u = g_src1 g; wa_src2 : u_src2Phys u = g_src2 g;
  wa_use1 : useRs1 (u_ctl u) = g_use1 g; wa_use2 : useRs2 (u_ctl u) = g_use2 g;
  wa_store : is_store_uop u = true -> ri_writes x = false /\ ri_branch x = false;
  wa_ready1 : u_src1Ready u = true -> g_use1 g = true -> g_src1 g <> 0 -> Z.testbit (readyTable f) (g_src1 g) = true;
  wa_ready2 : u_src2Ready u = true -> g_use2 g = true -> g_src2 g <> 0 -> Z.testbit (readyTable f) (g_src2 g) = true
}.

Record holds (f : prf) (h : Z) (q : iq) (Q : flight) : Prop := {
  ho_waiting : forall k, 0 <= k < UNIFIED_IQ_ENTRY_NUM -> u_valid (iq_entry q k) = true ->
    exists n x g, Q !! n = Some (x, g) /\ g_ops g = None /\ u_robTag (iq_entry q k) = slot h (Z.of_nat n) /\
      waits f (iq_entry q k) x g;
  ho_held : forall n x g, Q !! n = Some (x, g) -> g_ops g = None ->
    exists k, 0 <= k < UNIFIED_IQ_ENTRY_NUM /\ u_valid (iq_entry q k) = true /\ u_robTag (iq_entry q k) = slot h (Z.of_nat n);
  ho_once : forall j k, 0 <= j < UNIFIED_IQ_ENTRY_NUM -> 0 <= k < UNIFIED_IQ_ENTRY_NUM ->
    u_valid (iq_entry q j) = true -> u_valid (iq_entry q k) = true ->
    u_robTag (iq_entry q j) = u_robTag (iq_entry q k) -> j = k
}.

(** *** Issue *)

Lemma woken_written wbs p : woken (wakeups wbs) p = true -> is_Some (written wbs p).
Proof.
  unfold woken, wakeups. induction wbs as [| [[v w] d] wbs IH]; cbn [map existsb]; [done |].
  rewrite written_cons, orb_true_iff. intros [H | H].
  - rewrite H. destruct (written wbs p); eauto.
  - destruct (IH H) as [y ->]. eauto.
Qed.

Lemma source_read b (v : cycle) p (stored used : bool) :
  sourceReadyNow (wakeups (i_writeback (v_in v))) p stored used = true -> used = true ->
  (stored = true -> p <> 0 -> Z.testbit (readyTable (k_prf b)) p = true) -> (read b v p).2 = true.
Proof.
  unfold sourceReadyNow, read. intros H -> Hs. rewrite prf_read_written. destruct (Z.eqb_spec p 0) as [| Hp]; [done |].
  destruct (written (i_writeback (v_in v)) p) eqn:Ew; [done |]. cbn [snd].
  destruct stored; [by apply Hs |]. cbn [negb orb] in H. apply woken_written in H as [y H]. congruence.
Qed.

Section cycle.
Context (b : backend) (q : iq) (s : sched_cycle) (l : list (@rob_entry Meta)) (Q : flight) (R : list Z).
Local Abbreviation C := (committedMap (k_map b)).
Local Abbreviation i := (sched_in q s).
Local Abbreviation v := (the_cycle b q s).
Local Abbreviation qi := (iq_inputs b q s).
Local Abbreviation h := (headPtr (k_rob b)).
Context (Hp : precise b l) (HQ : Q.*1 = map info l) (Hv : values (k_prf b) C Q R).
Context (Hst : stage_ok b q s Q) (Hq : iq_sized q) (Hh : holds (k_prf b) h q Q).

Lemma flight_length : length l = length Q.
Proof. rewrite <- (length_map info l), <- HQ. apply length_fmap. Qed.

Lemma flight_fits : Z.of_nat (length Q) <= ROB_ENTRY_NUM.
Proof. rewrite <- flight_length. destruct (pr_live _ _ _ _ _ _ Hp) as (_ & _ & Hc & Hle & _). lia. Qed.

(** A tag names one position. *)
Lemma position n m : (n < length Q)%nat -> (m < length Q)%nat -> slot h (Z.of_nat n) = slot h (Z.of_nat m) -> n = m.
Proof. intros Hn Hm E. pose proof flight_fits. apply slot_inj in E; lia. Qed.

Lemma issue_inv n :
  (n < length Q)%nat -> slot h (Z.of_nat n) ∈ v_issue v ->
  exists k x g, k ∈ issued q qi /\ 0 <= k < UNIFIED_IQ_ENTRY_NUM /\ u_valid (iq_entry q k) = true /\
    Q !! n = Some (x, g) /\ g_ops g = None /\ u_robTag (iq_entry q k) = slot h (Z.of_nat n) /\
    waits (k_prf b) (iq_entry q k) x g /\ ready_uop (q_wakeup qi) (iq_entry q k) = true.
Proof.
  intros Hn Hin. cbn [v_issue the_cycle] in Hin. unfold sched_issue in Hin. apply list_elem_of_fmap in Hin as (k & Et & Hk).
  pose proof (issued_ready _ _ _ _ Hk) as [Hr Hready]. pose proof Hready as Hvalid. unfold readyEntry, ready_uop in Hvalid.
  apply andb_true_iff in Hvalid as [[Hvalid _]%andb_true_iff _].
  destruct (ho_waiting _ _ _ _ Hh k Hr Hvalid) as (m & x & g & Hm & Ho & Etag & Hw).
  assert (n = m) as <- by (apply position; [done | by apply lookup_lt_Some in Hm | congruence]).
  by exists k, x, g.
Qed.

(** What is issued has its sources ready. *)
Lemma issue_ok n x g :
  Q !! n = Some (x, g) -> slot h (Z.of_nat n) ∈ v_issue v ->
  (g_use1 g = true -> (read b v (g_src1 g)).2 = true) /\ (needs2 (x, g) = true -> (read b v (g_src2 g)).2 = true).
Proof.
  intros Hn Hin. apply lookup_lt_Some in Hn as Hlt.
  destruct (issue_inv n Hlt Hin) as (k & x' & g' & _ & _ & _ & Hn' & _ & _ & [W1 W2 U1 U2 Ws R1 R2] & Hready).
  rewrite Hn in Hn'. injection Hn' as <- <-. unfold ready_uop in Hready.
  apply andb_true_iff in Hready as [[_ S1]%andb_true_iff S2]. unfold source1ReadyNow in S1. unfold source2ReadyNow in S2.
  rewrite W1, U1 in S1. rewrite W2, U2 in S2. split.
  - intros Hu. eapply source_read; [exact S1 | done |]. intros. by apply R1.
  - unfold needs2. cbn. intros [Hu Hwb]%andb_true_iff. apply orb_true_iff in S2 as [S2 | S2].
    + destruct (Ws S2) as [E1 E2]. rewrite E1, E2 in Hwb. done.
    + eapply source_read; [exact S2 | done |]. intros. by apply R2.
Qed.

Lemma sched_exec_ok : exec_ok b v Q.
Proof.
  destruct Hst as [Hi _ _ Hwb Hret Hports Hun]. split; try done.
  - apply issue_ok.
  - intros n x g Hn Hx. by destruct (Hret n x g Hn Hx) as [_ ?].
Qed.

(** After issue: an instruction has read its operands exactly when it had, or
    its entry is among those issued. *)
Lemma issued_flight n x g' :
  imap (issue_at b v) Q !! n = Some (x, g') -> exists g, Q !! n = Some (x, g) /\
    (g_ops g' = None -> g' = g /\ g_ops g = None /\
      forall k, 0 <= k < UNIFIED_IQ_ENTRY_NUM -> k ∈ issued q qi -> u_robTag (iq_entry q k) <> slot h (Z.of_nat n)) /\
    (forall k, 0 <= k < UNIFIED_IQ_ENTRY_NUM -> u_valid (iq_entry q k) = true -> u_robTag (iq_entry q k) = slot h (Z.of_nat n) ->
       k ∉ issued q qi -> g' = g).
Proof.
  intros Hn. rewrite list_lookup_imap in Hn. destruct (Q !! n) as [q0 |] eqn:EQ; [| done]. injection Hn as Hn.
  apply lookup_lt_Some in EQ as Hlt. pose proof Hn as (g & -> & _)%issue_at_inv. exists g. split; [done |].
  unfold BackendValues.issue_at in Hn. split.
  - intros Ho. destruct (bool_decide_reflect (slot h (Z.of_nat n) ∈ v_issue v)) as [Hin | Hin].
    + injection Hn as <-. done.
    + injection Hn as <-. split; [done |]. split; [done |]. intros k Hk Hki Et. apply Hin. cbn [v_issue the_cycle].
      unfold sched_issue. apply list_elem_of_fmap. by exists k.
  - intros k Hk Hvk Et Hki. destruct (bool_decide_reflect (slot h (Z.of_nat n) ∈ v_issue v)) as [Hin | Hin]; [| by injection Hn].
    exfalso. destruct (issue_inv n Hlt Hin) as (j & _ & _ & Hj & Hjr & Hvj & _ & _ & Etj & _).
    assert (j = k) as -> by (apply (ho_once _ _ _ _ Hh); congruence). done.
Qed.

(** *** What stays in the queue *)

Lemma sched_wf : wf C Q.*1.
Proof. rewrite HQ. apply (pr_wf _ _ _ _ _ _ Hp). Qed.

Lemma source_busy n x g :
  Q !! n = Some (x, g) -> g_src1 g ∈ busy C Q.*1 /\ g_src2 g ∈ busy C Q.*1.
Proof.
  intros Hn. destruct (va_sources _ _ _ _ _ _ Hv n x g Hn) as (R1 & R2 & -> & ->). pose proof sched_wf as Hwf.
  assert (forall r, 0 <= r < REG_NUM -> rget 0 (view C (take n Q.*1)) r ∈ busy C Q.*1) as H; [| by split; apply H].
  intros r Hr. eapply elem_of_submseteq; [eapply (view_busy REG_NUM PHYS_REG_NUM); [by apply wf_take | done] |].
  apply sublist_submseteq, busy_take_sublist.
Qed.

Lemma next_ready p : p ∈ busy C Q.*1 -> (read b v p).2 = true -> Z.testbit (readyTable (k_prf (backend_step b i))) p = true.
Proof.
  intros Hb Hr. pose proof (registers_next meta0 REG_NUM PHYS_REG_NUM ROB_ENTRY_NUM UNIFIED_IQ_ENTRY_NUM LSQ_ENTRY_NUM
    MMIO_BASE_ADDR MMIO_LAST_ADDR Hreg Hphys b v l Q R Hp HQ Hv sched_exec_ok p Hb) as [_ E]. change (v_in v) with i in E. by rewrite E.
Qed.

Lemma waits_wake n x g u :
  Q !! n = Some (x, g) -> u_valid u = true -> waits (k_prf b) u x g ->
  waits (k_prf (backend_step b i)) (wake (q_wakeup qi) u) x g.
Proof.
  intros Hn Hu [W1 W2 U1 U2 Ws R1 R2]. unfold wake. rewrite Hu. destruct (source_busy n x g Hn) as [B1 B2].
  destruct u as [uv upc upt upg upi uhs uph upu uca urt ufu uc s1 s2 r1 r2 ude urb ulq]. cbn in *.
  split; cbn; try done; intros Hr Huse Hne; apply next_ready; try done;
    [eapply (source_read b v (g_src1 g) r1 true) | eapply (source_read b v (g_src2 g) r2 true)]; try done.
  - unfold sourceReadyNow. cbn [v_in the_cycle]. rewrite <- W1. apply orb_true_iff in Hr as [-> | ->]; [done |].
    by rewrite !orb_true_r.
  - intros. by apply R1.
  - unfold sourceReadyNow. cbn [v_in the_cycle]. rewrite <- W2. apply orb_true_iff in Hr as [-> | ->]; [done |].
    by rewrite !orb_true_r.
  - intros. by apply R2.
Qed.

Lemma wake_fields w u : u_valid (wake w u) = u_valid u /\ u_robTag (wake w u) = u_robTag u.
Proof. unfold wake. destruct u as [uv]. destruct uv; done. Qed.

Lemma kept k :
  0 <= k < UNIFIED_IQ_ENTRY_NUM -> u_valid (iq_entry q k) = true -> k ∉ issued q qi ->
  exists n x g, Q !! n = Some (x, g) /\ imap (issue_at b v) Q !! n = Some (x, g) /\ g_ops g = None /\
    u_robTag (iq_entry q k) = slot h (Z.of_nat n) /\
    waits (k_prf (backend_step b i)) (wake (q_wakeup qi) (iq_entry q k)) x g.
Proof.
  intros Hk Hvk Hni. destruct (ho_waiting _ _ _ _ Hh k Hk Hvk) as (n & x & g & Hn & Ho & Et & Hw).
  assert (exists y, imap (issue_at b v) Q !! n = Some y) as [[y g'] Hi] by (rewrite list_lookup_imap, Hn; cbn; eauto).
  destruct (issued_flight n y g' Hi) as (g0 & Hn0 & _ & Hsame). rewrite Hn in Hn0. injection Hn0 as <- <-.
  rewrite (Hsame k Hk Hvk Et Hni) in Hi. exists n, x, g. split_and!; try done. by apply (waits_wake n).
Qed.

Lemma still_held n x g :
  imap (issue_at b v) Q !! n = Some (x, g) -> g_ops g = None ->
  exists k, 0 <= k < UNIFIED_IQ_ENTRY_NUM /\ u_valid (iq_entry q k) = true /\
    u_robTag (iq_entry q k) = slot h (Z.of_nat n) /\ k ∉ issued q qi.
Proof.
  intros Hn Ho. destruct (issued_flight n x g Hn) as (g0 & Hn0 & Hu & _). destruct (Hu Ho) as (-> & Ho0 & Hni).
  destruct (ho_held _ _ _ _ Hh n x g0 Hn0 Ho0) as (k & Hk & Hvk & Et). exists k. split_and!; try done; try lia.
  intros Hki. by apply (Hni k Hk Hki).
Qed.

(** *** Recovery *)

Lemma holds_recover :
  flush b i = false -> i_branchMispredicted i = true ->
  holds (k_prf (backend_step b i)) h (iq_step q qi)
    (take (keep_count ROB_ENTRY_NUM h (i_branchRobTag i) (length Q)) (imap (issue_at b v) Q)).
Proof.
  intros Hf Hm. set (keep := keep_count _ _ _ _). pose proof (st_inputs _ _ _ _ Hst) as Hin.
  assert (forall n, (n < length Q)%nat ->
    Z.testbit (q_recoverYoungerMask qi) (slot h (Z.of_nat n)) = negb (bool_decide (n < keep)%nat)) as Hmask.
  { intros n Hn. pose proof flight_fits. cbn [q_recoverYoungerMask iq_inputs].
    rewrite (recoverYoungerMask_queue meta0 ROB_ENTRY_NUM Hrob (k_rob b) (rob_inputs b i) l)
      by (try apply (pr_live _ _ _ _ _ _ Hp); try apply (ok_branchTag _ _ _ _ _ Hin); try (by apply slot_range); done).
    cbn [recoverTag_i Backend.rob_inputs]. rewrite distance_slot by lia. rewrite flight_length. fold keep.
    rewrite (proj2 (Z.ltb_lt _ _)) by lia. rewrite andb_true_r.
    destruct (bool_decide_reflect (n < keep)%nat), (Z.leb_spec (Z.of_nat keep) (Z.of_nat n)); (done || lia). }
  assert (forall k, 0 <= k < UNIFIED_IQ_ENTRY_NUM -> iq_entry (iq_step q qi) k =
    let u := iq_entry q k in
    if bool_decide (k ∈ issued q qi) then uop0
    else if u_valid u && Z.testbit (q_recoverYoungerMask qi) (u_robTag u) then uop0 else wake (q_wakeup qi) u) as Hstep.
  { intros k Hk. by apply iq_step_recover. }
  assert (forall k, 0 <= k < UNIFIED_IQ_ENTRY_NUM -> u_valid (iq_entry (iq_step q qi) k) = true ->
    u_valid (iq_entry q k) = true /\ (k ∉ issued q qi) /\ iq_entry (iq_step q qi) k = wake (q_wakeup qi) (iq_entry q k) /\
    Z.testbit (q_recoverYoungerMask qi) (u_robTag (iq_entry q k)) = false) as Hval.
  { intros k Hk Hvk. rewrite Hstep in Hvk |- * by done. cbn zeta in *. destruct (bool_decide_reflect (k ∈ issued q qi)); [done |].
    destruct (u_valid (iq_entry q k)) eqn:Ev; cbn [andb] in *.
    - destruct (Z.testbit _ _); done.
    - destruct (wake_fields (q_wakeup qi) (iq_entry q k)) as [E _]. congruence. }
  split.
  - intros k Hk Hvk. destruct (Hval k Hk Hvk) as (Hv0 & Hni & -> & Hmk).
    destruct (kept k Hk Hv0 Hni) as (n & x & g & Hn & Hn' & Ho & Et & Hw). exists n, x, g.
    destruct (wake_fields (q_wakeup qi) (iq_entry q k)) as [_ ->]. apply lookup_lt_Some in Hn as Hlt.
    rewrite Et, (Hmask n Hlt) in Hmk. apply negb_false_iff, bool_decide_eq_true in Hmk.
    rewrite lookup_take_lt by done. done.
  - intros n x g Hn Ho. apply lookup_take_Some in Hn as [Hn Hlt]. destruct (still_held n x g Hn Ho) as (k & Hk & Hvk & Et & Hni).
    assert (n < length Q)%nat as HnQ by (apply lookup_lt_Some in Hn; by rewrite length_imap in Hn).
    exists k. rewrite Hstep by done. cbn zeta. rewrite bool_decide_false by done. rewrite Hvk, Et, (Hmask n HnQ), bool_decide_true by done.
    cbn [andb negb]. destruct (wake_fields (q_wakeup qi) (iq_entry q k)) as [-> ->]. done.
  - intros j k Hj Hk Hvj Hvk. destruct (Hval j Hj Hvj) as (Hvj0 & _ & -> & _). destruct (Hval k Hk Hvk) as (Hvk0 & _ & -> & _).
    destruct (wake_fields (q_wakeup qi) (iq_entry q j)) as [_ ->]. destruct (wake_fields (q_wakeup qi) (iq_entry q k)) as [_ ->].
    by apply (ho_once _ _ _ _ Hh).
Qed.

(** *** What enters *)

Local Abbreviation L := (map info l).
Local Abbreviation X := (incoming PHYS_REG_NUM ROB_ENTRY_NUM UNIFIED_IQ_ENTRY_NUM LSQ_ENTRY_NUM b i).
Local Abbreviation count m := (count_true (take m (map ln_enable (lanes b i)))).

Lemma sched_incoming m :
  let Y := entering (take m (lanes b i)) (take m (renamed_o b i)) in
  wf C (L ++ Y) /\ map_writes (view C L) (take m (map rn_port (renamed_o b i))) = view C (L ++ Y).
Proof.
  destruct (incoming_wf REG_NUM PHYS_REG_NUM ROB_ENTRY_NUM UNIFIED_IQ_ENTRY_NUM LSQ_ENTRY_NUM Hreg Hphys b i C L m)
    as (H1 & H2 & _); try done.
  - apply (pr_wf _ _ _ _ _ _ Hp).
  - apply (pr_map _ _ _ _ _ _ Hp).
  - apply (pr_free _ _ _ _ _ _ Hp).
  - apply (ok_decode _ _ _ _ _ (st_inputs _ _ _ _ Hst)).
Qed.

Lemma entering_count m :
  entering (take m (lanes b i)) (take m (renamed_o b i)) = take (Z.to_nat (count m)) X.
Proof. unfold incoming. apply entering_take, length_renamed. Qed.

(** A register that an instruction of the group allocates belongs to it. *)
Lemma allocated_incoming p :
  (true, p) ∈ prf_allocs PHYS_REG_NUM ROB_ENTRY_NUM UNIFIED_IQ_ENTRY_NUM LSQ_ENTRY_NUM b i ->
  exists m r x, renamed_o b i !! m = Some r /\ (rn_port r).1.1 = true /\ (rn_port r).2 = p /\
    map ln_enable (lanes b i) !! m = Some true /\
    X !! Z.to_nat (count m) = Some x /\ ri_writes x = true /\ ri_new x = p.
Proof.
  intros Hin. unfold Backend.prf_allocs in Hin. apply list_elem_of_lookup in Hin as [m Hm].
  rewrite (list_lookup_fmap _ (renamed_o b i)) in Hm. destruct (renamed_o b i !! m) as [r |] eqn:Hr; [| done].
  injection Hm as Hport Hpp. destruct (lookup_lt_is_Some_2 (lanes b i) m) as [l0 Hl0].
  { rewrite <- length_renamed. by apply lookup_lt_Some in Hr. }
  destruct (port_allocated PHYS_REG_NUM ROB_ENTRY_NUM UNIFIED_IQ_ENTRY_NUM LSQ_ENTRY_NUM b v m l0 r Hl0 Hr Hport) as [Hreq _].
  unfold free_request in Hreq. apply andb_true_iff in Hreq as [He Hwr].
  exists m, r, (info (rn_rob r)). split; [done |]. split; [done |]. split; [done |].
  split; [by rewrite (list_lookup_fmap ln_enable (lanes b i)), Hl0, <- He |].
  split; [by apply (enabled_at (fun _ r => info (rn_rob r)) _ _ m l0 r) |].
  apply rename_lanes_lookup in Hr as (l1 & [a1 a2] & Hl1 & _ & Er). change (lanes b i !! m = Some l1) in Hl1.
  rewrite Hl0 in Hl1. injection Hl1 as <-. rewrite Er in Hpp |- *. cbn in Hpp |- *. by rewrite Hwr in Hpp |- *.
Qed.

(** A source that is reported ready and fresh from no elder stays ready. *)
Lemma new_source_ready m l0 r0 r :
  lanes b i !! m = Some l0 -> ln_enable l0 = true -> renamed_o b i !! m = Some r0 -> 0 <= r < REG_NUM ->
  let p := lookup_phys (speculativeMap (k_map b)) (take m (map rn_port (renamed_o b i))) r in
  (read b v p).2 && negb (existsb (fun '(u, _, w) => u && (p =? w)) (take m (map rn_port (renamed_o b i)))) = true -> p <> 0 ->
  Z.testbit (readyTable (k_prf (backend_step b i))) p = true.
Proof.
  intros Hl0 He Hr0 Hr p H Hp0. apply andb_true_iff in H as [Hread Hfresh].
  destruct (sched_incoming m) as [Hwf Hports]. rewrite entering_count in Hwf, Hports.
  assert (p = rget 0 (view C (L ++ take (Z.to_nat (count m)) X)) r) as Ep.
  { rewrite <- Hports, <- (pr_map _ _ _ _ _ _ Hp). apply (lookup_phys_map REG_NUM); [| | lia |].
    - rewrite (pr_map _ _ _ _ _ _ Hp), length_view. apply (wf_length _ _ _ _ Hwf).
    - apply Forall_take, Forall_lookup_2. intros k u Hu. rewrite (list_lookup_fmap rn_port (renamed_o b i)) in Hu.
      destruct (renamed_o b i !! k) as [r' |] eqn:Hr'; [| done]. injection Hu as <-.
      apply rename_lanes_lookup in Hr' as (l' & [a1 a2] & Hl' & _ & ->).
      destruct (lanes_inv _ _ _ _ _ _ _ _ Hl') as (Hbus' & _ & _).
      by destruct (Forall_lookup_1 _ _ _ _ (ok_decode _ _ _ _ _ (st_inputs _ _ _ _ Hst)) Hbus') as (_ & _ & ?).
    - rewrite (pr_map _ _ _ _ _ _ Hp). apply (view_zero REG_NUM PHYS_REG_NUM), (pr_wf _ _ _ _ _ _ Hp). }
  pose proof (view_busy REG_NUM PHYS_REG_NUM _ _ r Hwf Hr) as Hb. rewrite <- Ep in Hb.
  pose proof (wf_range _ _ _ _ Hwf) as Hrange. rewrite list.Forall_forall in Hrange. specialize (Hrange p Hb).
  cbn [Backend.backend_step k_prf]. rewrite prf_step_ready by (apply (st_ports _ _ _ _ Hst) || lia).
  rewrite (proj2 (Z.eqb_neq p 0)) by done. unfold read in Hread. rewrite prf_read_written in Hread.
  rewrite (proj2 (Z.eqb_neq p 0)) in Hread by done. cbn [v_in the_cycle] in Hread.
  destruct (written (i_writeback i) p); [done |]. cbn [snd] in Hread. rewrite Hread, andb_true_r.
  rewrite bool_decide_false; [done |]. intros Hin.
  destruct (allocated_incoming p Hin) as (m' & r' & x & Hr' & Hv' & Hp' & He' & Hx & Hwx & Hnx).
  destruct (decide (m' < m)%nat) as [Hlt | Hge].
  - (* an elder: the source would be fresh *)
    apply negb_true_iff in Hfresh. assert (existsb (fun '(u, _, w) => u && (p =? w)) (take m (map rn_port (renamed_o b i))) = true) as E.
    { apply existsb_exists. exists (rn_port r'). split.
      - apply list_elem_of_In, list_elem_of_lookup. exists m'. rewrite lookup_take_lt by done.
        by rewrite (list_lookup_fmap rn_port (renamed_o b i)), Hr'.
      - destruct (rn_port r') as [[u rd'] w]. cbn in Hv', Hp'. rewrite Hv', Hp', Z.eqb_refl. done. }
    congruence.
  - (* itself or a younger one: the register is not in use *)
    destruct (sched_incoming (length (lanes b i))) as [Hwf' _]. rewrite entering_count in Hwf'.
    rewrite (take_ge (map ln_enable (lanes b i))) in Hwf' by (by rewrite length_map).
    rewrite (take_ge X) in Hwf'.
    2: { apply Nat2Z.inj_le. unfold incoming, entering. rewrite length_enabled by apply length_renamed. lia. }
    pose proof (wf_nodup _ _ _ _ Hwf') as Hnd. rewrite <- (take_drop (Z.to_nat (count m)) X), app_assoc in Hnd.
    unfold busy in Hnd. rewrite news_app, app_assoc in Hnd. apply NoDup_app in Hnd as (_ & Hd & _).
    apply (Hd p); [exact Hb |]. unfold news. apply list_elem_of_omap. exists x. rewrite Hwx, Hnx. split; [| done].
    apply list_elem_of_lookup. exists (Z.to_nat (count m') - Z.to_nat (count m))%nat. rewrite lookup_drop, <- Hx. f_equal.
    assert (count m <= count m') as Hle.
    { destruct (decide (m = m')) as [-> |]; [lia |].
      enough (count m < count m') by lia. apply count_true_take; [lia |].
      by rewrite (list_lookup_fmap ln_enable (lanes b i)), Hl0, <- He. }
    lia.
Qed.

(** An accepted instruction is valid. *)
Lemma uop_valid m l0 r : lanes b i !! m = Some l0 -> renamed_o b i !! m = Some r -> u_valid (rn_uop r) = ln_enable l0.
Proof.
  intros Hl0 Hr. apply rename_lanes_lookup in Hr as (l1 & [rdy p] & Hl1 & Ha & ->). change (lanes b i !! m = Some l1) in Hl1.
  rewrite Hl0 in Hl1. injection Hl1 as <-. cbn. destruct (ln_enable l0) eqn:He; [| by rewrite andb_false_r].
  destruct (lanes_inv _ _ _ _ _ _ _ _ Hl0) as (Hbus & Hacc & _). rewrite He in Hacc.
  destruct (accept_valid _ _ _ _ _ _ _ Hacc) as (d & Hd & Hvd). rewrite Hbus in Hd. injection Hd as <-. rewrite Hvd. cbn.
  destruct (bus_writes (ln_bus l0)) eqn:Hwr; [| done]. cbn.
  destruct (dispatch_allocates REG_NUM PHYS_REG_NUM ROB_ENTRY_NUM UNIFIED_IQ_ENTRY_NUM LSQ_ENTRY_NUM Hreg Hphys b i C L m)
    as [p' Hp']; [apply (pr_free _ _ _ _ _ _ Hp) | apply (pr_wf _ _ _ _ _ _ Hp) | |].
  - unfold requests. rewrite (list_lookup_fmap free_request (lanes b i)), Hl0. cbn. unfold free_request. by rewrite He, Hwr.
  - change (allocs PHYS_REG_NUM ROB_ENTRY_NUM UNIFIED_IQ_ENTRY_NUM LSQ_ENTRY_NUM b i !! m = Some (rdy, p)) in Ha. congruence.
Qed.

(** The new instructions with their entries. *)
Local Abbreviation group := (enabled (fun l0 r =>
  let c := b_ctl (ln_bus l0) in
  (rn_uop r, (info (rn_rob r), Instr (rs1 c) (rs2 c) (useRs1 c) (useRs2 c) (s_fn s (ln_bus l0))
                                 (u_src1Phys (rn_uop r)) (u_src2Phys (rn_uop r)) None))) (lanes b i) (renamed_o b i)).

Lemma group_arriving : group.*2 = arriving b v.
Proof. by rewrite enabled_map. Qed.
Lemma group_uops : group.*1 = List.filter u_valid (q_dispatch qi).
Proof. rewrite enabled_map. symmetry. apply enabled_valid; [apply length_renamed | apply uop_valid]. Qed.
Lemma length_group : Z.of_nat (length group) = count_true (accept b i).
Proof. rewrite length_enabled by apply length_renamed. by rewrite enables. Qed.

Lemma occupied_range : 0 <= occupied UNIFIED_IQ_ENTRY_NUM q <= UNIFIED_IQ_ENTRY_NUM.
Proof.
  unfold occupied. pose proof (filter_length_le (fun k => u_valid (iq_entry q k)) (seqZ 0 UNIFIED_IQ_ENTRY_NUM)) as H.
  rewrite length_seqZ in H. lia.
Qed.

(** All of them find a free entry. *)
Lemma group_enters : (entering_uops UNIFIED_IQ_ENTRY_NUM q qi).*2 = group.*1.
Proof.
  rewrite group_uops. apply dispatched_all. rewrite <- group_uops, length_fmap. apply Nat2Z.inj_le.
  rewrite length_group, length_freeSlot by done. apply Z.min_glb.
  - pose proof (st_width _ _ _ _ Hst) as Hw. rewrite <- (length_lanes PHYS_REG_NUM ROB_ENTRY_NUM UNIFIED_IQ_ENTRY_NUM LSQ_ENTRY_NUM b) in Hw.
    rewrite <- enables. unfold count_true. pose proof (filter_length_le id (map ln_enable (lanes b i))) as H.
    rewrite length_map in H. unfold DISPATCH_WIDTH in Hw. lia.
  - pose proof occupied_range as Ho. unfold Backend.accept, accept_o.
    assert (i_issueCount i = occupied UNIFIED_IQ_ENTRY_NUM q) as ->.
    { unfold sched_in. destruct (s_in s). cbn. unfold iq_count_o. apply uwrap_id; [apply Z.log2_up_nonneg |].
      pose proof (Z.log2_log2_up_spec (UNIFIED_IQ_ENTRY_NUM + 1) ltac:(lia)). unfold in_u. lia. }
    match goal with |- count_true (accept_lanes ?rf ?qf ?lf ?pf ?o ?ls) <= _ =>
      destruct (accept_lanes_fit rf qf lf pf o ls) as (_ & H & _) end. apply H. lia.
Qed.

Lemma enter_fields w u : u_valid (enter w u) = u_valid u /\ u_robTag (enter w u) = u_robTag u.
Proof. by destruct u. Qed.

Lemma new_entry j u x g :
  group !! j = Some (u, (x, g)) ->
  u_valid u = true /\ g_ops g = None /\ u_robTag u = slot h (Z.of_nat (length Q + j)) /\
  waits (k_prf (backend_step b i)) (enter (q_wakeup qi) u) x g.
Proof.
  intros Hj. apply enabled_lookup in Hj as (m & l0 & r & Hl0 & Hr & He & E & Hc). injection E as -> -> ->.
  split; [by rewrite (uop_valid m l0 r), He |]. split; [done |].
  destruct (lanes_inv _ _ _ _ _ _ _ _ Hl0) as (Hbus & _ & _).
  pose proof (Forall_lookup_1 _ _ _ _ (ok_decode _ _ _ _ _ (st_inputs _ _ _ _ Hst)) Hbus) as (B1 & B2 & _).
  pose proof (lane_tag meta0 PHYS_REG_NUM ROB_ENTRY_NUM UNIFIED_IQ_ENTRY_NUM LSQ_ENTRY_NUM Hrob b i l m l0
    (pr_live _ _ _ _ _ _ Hp) Hl0) as Htag.
  pose proof (new_source_ready m l0 r (rs1 (b_ctl (ln_bus l0))) Hl0 He Hr B1) as Hs1.
  pose proof (new_source_ready m l0 r (rs2 (b_ctl (ln_bus l0))) Hl0 He Hr B2) as Hs2.
  pose proof Hr as (l1 & [rdy p] & Hl1 & Ha & Er)%rename_lanes_lookup. change (lanes b i !! m = Some l1) in Hl1. rewrite Hl0 in Hl1.
  injection Hl1 as <-. change (rename_lanes (speculativeMap (k_map b)) _ [] (lanes b i) _) with (renamed_o b i) in Er.
  rewrite app_nil_l in Er. split.
  { rewrite Er. cbn. rewrite Htag, flight_length. f_equal. unfold count_true in *. lia. }
  assert (forall p, written (i_writeback i) p <> None -> p <> 0 ->
    Z.testbit (readyTable (k_prf (backend_step b i))) p = true) as Hwoken.
  { intros p' Hw' Hp0. destruct (written (i_writeback i) p') as [d |] eqn:Ew; [| done].
    apply next_ready.
    - apply (written_busy meta0 REG_NUM PHYS_REG_NUM ROB_ENTRY_NUM UNIFIED_IQ_ENTRY_NUM LSQ_ENTRY_NUM
        MMIO_BASE_ADDR MMIO_LAST_ADDR b v l Q Hp HQ sched_exec_ok p' d Hp0 Ew).
    - unfold read. rewrite prf_read_written, (proj2 (Z.eqb_neq p' 0)) by done. cbn [v_in the_cycle]. by rewrite Ew. }
  assert (forall s1 (stored used : bool), sourceReadyNow (q_wakeup qi) s1 stored used = true -> used = true -> s1 <> 0 ->
    (stored = true -> Z.testbit (readyTable (k_prf (backend_step b i))) s1 = true) ->
    Z.testbit (readyTable (k_prf (backend_step b i))) s1 = true) as Hsrc.
  { intros s1 stored used Hnow -> Hne Hst1. unfold sourceReadyNow in Hnow. rewrite (proj2 (Z.eqb_neq s1 0)) in Hnow by done.
    destruct stored; [by apply Hst1 |]. cbn [negb orb] in Hnow. apply woken_written in Hnow as [y Hy]. apply Hwoken; [| done].
    cbn [q_wakeup iq_inputs] in Hy. congruence. }
  rewrite Er. cbn [rename_lane rn_uop rn_rob]. unfold enter.
  split; cbn [set_sources u_src1Phys u_src2Phys u_ctl u_src1Ready u_src2Ready g_src1 g_src2 g_use1 g_use2 info ri_writes ri_branch re_writesRd re_isBranch]; try done.
  - unfold is_store_uop. cbn [u_fuClass u_ctl set_sources]. intros [_ Hs]%andb_true_iff.
    destruct (st_stores _ _ _ _ Hst (ln_bus l0)) as [Hw Hb]; [by eapply list_elem_of_lookup_2 | done |].
    split; [unfold bus_writes; by rewrite Hw, andb_false_r | unfold bus_branch; by rewrite Hb].
  - intros Hnow Hu Hne. apply (Hsrc _ _ _ Hnow Hu Hne). intros Hstored. by apply Hs1.
  - intros Hnow Hu Hne. apply (Hsrc _ _ _ Hnow Hu Hne). intros Hstored. by apply Hs2.
Qed.

(** *** Any other cycle *)

Lemma group_fits j y : group !! j = Some y -> Z.of_nat (length Q + j) < ROB_ENTRY_NUM.
Proof.
  intros Hj%lookup_lt_Some. pose proof length_group as Hlen.
  pose proof (dispatch_fits meta0 PHYS_REG_NUM ROB_ENTRY_NUM UNIFIED_IQ_ENTRY_NUM LSQ_ENTRY_NUM Hrob b i l (pr_live _ _ _ _ _ _ Hp)) as Hfit.
  rewrite flight_length in Hfit. lia.
Qed.

(** An entry after the edge: one that stays, or a new one. *)
Lemma entry_cases k :
  flush b i = false -> i_branchMispredicted i = false -> 0 <= k < UNIFIED_IQ_ENTRY_NUM ->
  u_valid (iq_entry (iq_step q qi) k) = true ->
  (u_valid (iq_entry q k) = true /\ (k ∉ issued q qi) /\ iq_entry (iq_step q qi) k = wake (q_wakeup qi) (iq_entry q k)) \/
  (exists j u y, entering_uops UNIFIED_IQ_ENTRY_NUM q qi !! j = Some (k, u) /\ group !! j = Some (u, y) /\
     iq_entry (iq_step q qi) k = enter (q_wakeup qi) u).
Proof.
  intros Hf Hm Hk Hvk. destruct (decide (k ∈ (entering_uops UNIFIED_IQ_ENTRY_NUM q qi).*1)) as [Hin | Hin].
  - right. apply list_elem_of_fmap in Hin as ([k' u] & -> & Hin). pose proof Hin as [j Hj]%list_elem_of_lookup.
    assert (group.*1 !! j = Some u) as Hg by (rewrite <- group_enters, list_lookup_fmap, Hj; done).
    rewrite list_lookup_fmap in Hg. destruct (group !! j) as [[u' y] |] eqn:Eg; [| done]. injection Hg as ->.
    exists j, u, y. split; [done |]. split; [done |]. by apply iq_step_new.
  - left. rewrite (iq_step_old UNIFIED_IQ_ENTRY_NUM q qi k) in Hvk |- * by done.
    destruct (bool_decide_reflect (k ∈ issued q qi)); [done |]. destruct (wake_fields (q_wakeup qi) (iq_entry q k)) as [E _].
    rewrite <- E. done.
Qed.

Lemma holds_advance :
  flush b i = false -> i_branchMispredicted i = false ->
  holds (k_prf (backend_step b i)) (slot h (Z.of_nat (retired b i))) (iq_step q qi)
    (drop (retired b i) (imap (issue_at b v) Q) ++ arriving b v).
Proof.
  intros Hf Hm. set (k0 := retired b i). pose proof (entry_cases) as Hcases. rewrite <- group_arriving.
  assert (k0 <= length Q)%nat as Hk0.
  { rewrite <- flight_length. apply retired_le; [done |]. apply (pr_live _ _ _ _ _ _ Hp). }
  assert (forall n x g, imap (issue_at b v) Q !! n = Some (x, g) -> g_ops g = None -> (k0 <= n)%nat) as Hold.
  { intros n x g Hn Ho. destruct (decide (n < k0)%nat) as [Hlt |]; [| lia]. exfalso.
    destruct (issued_flight n x g Hn) as (g0 & Hn0 & Hu & _). destruct (Hu Ho) as (-> & Ho0 & _).
    by destruct (st_retire _ _ _ _ Hst n x g0 Hlt Hn0) as [? _]. }
  set (D := drop k0 (imap (issue_at b v) Q)).
  assert (length D = (length Q - k0)%nat) as HD by (unfold D; by rewrite length_drop, length_imap).
  split.
  - intros k Hk Hvk. destruct (Hcases k Hf Hm Hk Hvk) as [(Hv0 & Hni & ->) | (j & u & [x g] & _ & Hg & ->)].
    + destruct (kept k Hk Hv0 Hni) as (n & x & g & Hn & Hn' & Ho & Et & Hw). pose proof (Hold n x g Hn' Ho) as Hge.
      apply lookup_lt_Some in Hn as Hlt. exists (n - k0)%nat, x, g.
      destruct (wake_fields (q_wakeup qi) (iq_entry q k)) as [_ ->]. split_and!; try done.
      * rewrite lookup_app_l by lia. unfold D. rewrite lookup_drop. by replace (k0 + (n - k0))%nat with n by lia.
      * rewrite Et, slot_slot. f_equal. lia.
    + destruct (new_entry j u x g Hg) as (_ & Ho & Et & Hw). exists (length D + j)%nat, x, g.
      destruct (enter_fields (q_wakeup qi) u) as [_ ->]. split_and!; try done.
      * rewrite lookup_app_r, list_lookup_fmap by lia. by replace (length D + j - length D)%nat with j by lia; rewrite Hg.
      * rewrite Et, slot_slot. f_equal. lia.
  - intros n x g Hn Ho. apply lookup_app_Some in Hn as [Hn | [Hge Hn]].
    + unfold D in Hn. rewrite lookup_drop in Hn. destruct (still_held _ x g Hn Ho) as (k & Hk & Hvk & Et & Hni).
      exists k. rewrite (iq_step_old UNIFIED_IQ_ENTRY_NUM q qi k); try done.
      * rewrite bool_decide_false by done. destruct (wake_fields (q_wakeup qi) (iq_entry q k)) as [-> ->].
        split_and!; try done; try lia. rewrite Et, slot_slot. f_equal. lia.
      * intros ([k' u] & -> & Hin)%list_elem_of_fmap. apply dispatched_elem in Hin as (Hs & _ & _). cbn in *.
        destruct (freeSlot_spec UNIFIED_IQ_ENTRY_NUM q) as [_ HF]. rewrite list.Forall_forall in HF. destruct (HF k' Hs). congruence.
    + rewrite list_lookup_fmap in Hn. set (j := (n - length D)%nat) in *. destruct (group !! j) as [[u y] |] eqn:Hg; [| done].
      injection Hn as ->. destruct (new_entry j u x g Hg) as (Hu & _ & Et & _).
      assert ((entering_uops UNIFIED_IQ_ENTRY_NUM q qi).*2 !! j = Some u) as He by (rewrite group_enters, list_lookup_fmap, Hg; done).
      rewrite list_lookup_fmap in He. destruct (entering_uops UNIFIED_IQ_ENTRY_NUM q qi !! j) as [[k u'] |] eqn:Ek; [| done].
      injection He as ->. apply list_elem_of_lookup_2 in Ek as Hin. exists k.
      rewrite (iq_step_new UNIFIED_IQ_ENTRY_NUM q qi k u) by done.
      destruct (enter_fields (q_wakeup qi) u) as [-> ->].
      apply dispatched_elem in Hin as (Hs & _ & _). destruct (freeSlot_spec UNIFIED_IQ_ENTRY_NUM q) as [_ HF].
      rewrite list.Forall_forall in HF. destruct (HF k Hs) as [Hrange _].
      split; [lia |]. split; [done |]. rewrite Et, slot_slot. f_equal. unfold j. lia.
  - assert (forall k u j y, group !! j = Some (u, y) -> forall k', 0 <= k' < UNIFIED_IQ_ENTRY_NUM ->
      u_valid (iq_entry q k') = true -> u_robTag (iq_entry q k') = u_robTag u -> k = k') as Hmixed.
    { intros k u j [x g] Hg k' Hk' Hv' Et. exfalso. destruct (ho_waiting _ _ _ _ Hh k' Hk' Hv') as (n & x' & g' & Hn & _ & Et' & _).
      destruct (new_entry j u x g Hg) as (_ & _ & Etu & _). pose proof (group_fits j _ Hg). apply lookup_lt_Some in Hn.
      rewrite Et', Etu in Et. apply slot_inj in Et; lia. }
    intros j k Hj Hk Hvj Hvk.
    destruct (Hcases j Hf Hm Hj Hvj) as [(Hj0 & _ & ->) | (j1 & u1 & [x1 g1] & Ej & Hg1 & ->)];
    destruct (Hcases k Hf Hm Hk Hvk) as [(Hk0' & _ & ->) | (j2 & u2 & [x2 g2] & Ek & Hg2 & ->)];
    rewrite ?(proj2 (wake_fields _ _)), ?(proj2 (enter_fields _ _)); intros Et.
    + by apply (ho_once _ _ _ _ Hh).
    + symmetry. by apply (Hmixed k u2 j2 (x2, g2) Hg2).
    + by apply (Hmixed j u1 j1 (x1, g1) Hg1).
    + destruct (new_entry j1 u1 x1 g1 Hg1) as (_ & _ & Et1 & _). destruct (new_entry j2 u2 x2 g2 Hg2) as (_ & _ & Et2 & _).
      pose proof (group_fits j1 _ Hg1). pose proof (group_fits j2 _ Hg2). rewrite Et1, Et2 in Et.
      apply slot_inj in Et; [| lia..]. assert (j1 = j2) as <- by lia. congruence.
Qed.

(** *** A cycle of the whole *)
Lemma holds_step :
  holds (k_prf (backend_step b i)) (headPtr (k_rob (backend_step b i))) (iq_step q qi) (flight_next b v Q).
Proof.
  destruct (rob_cycle meta0 REG_NUM PHYS_REG_NUM ROB_ENTRY_NUM UNIFIED_IQ_ENTRY_NUM LSQ_ENTRY_NUM MMIO_BASE_ADDR MMIO_LAST_ADDR
    Hrob b i l (pr_live _ _ _ _ _ _ Hp) (st_inputs _ _ _ _ Hst)) as (_ & -> & _).
  unfold BackendValues.flight_next. change (v_in v) with i. destruct (flush b i) eqn:Hf.
  - rewrite iq_step_flush by done. split.
    + intros k _ Hvk. by rewrite iq_reset_invalid in Hvk.
    + done.
    + intros j k _ _ Hvk. by rewrite iq_reset_invalid in Hvk.
  - destruct (i_branchMispredicted i) eqn:Hm; [by apply holds_recover | by apply holds_advance].
Qed.
End cycle.

(** ** Runs *)

(** The backend, the queue, the instructions in flight and those retired. *)
Definition sched_state : Type := backend * iq * flight * flight.
Definition sched_step (st : sched_state) (s : sched_cycle) : sched_state :=
  let '(b, q, Q, T) := st in
  let v := the_cycle b q s in
  (backend_step b (v_in v), iq_step q (iq_inputs b q s), flight_next b v Q, T ++ take (retired b (v_in v)) Q).
Definition sched_run : list sched_cycle -> sched_state -> sched_state := fold_left sched_step.
Definition sched_reset (b0 : backend) : sched_state := (backend_reset b0, iq_reset UNIFIED_IQ_ENTRY_NUM, [], []).

Fixpoint sched_run_ok (st : sched_state) (ss : list sched_cycle) : Prop :=
  match ss with
  | [] => True
  | s :: ss => (let '(b, q, Q, _) := st in stage_ok b q s Q) /\ sched_run_ok (sched_step st s) ss
  end.

Definition sched_inv (st : sched_state) : Prop :=
  let '(b, q, Q, T) := st in
  agrees meta0 REG_NUM PHYS_REG_NUM ROB_ENTRY_NUM (b, Q, T) /\ iq_sized q /\ holds (k_prf b) (headPtr (k_rob b)) q Q.

Lemma sched_inv_step st s :
  sched_inv st -> (let '(b, q, Q, _) := st in stage_ok b q s Q) -> sched_inv (sched_step st s).
Proof.
  destruct st as [[[b q] Q] T]. intros ((l & Hp & HQ & Hv) & Hq & Hh) Hst. cbn [sched_step].
  split; [| split; [by apply iq_step_sized | by apply (holds_step b q s l Q (exec (replicate (Z.to_nat REG_NUM) 0) T))]].
  pose proof (sched_exec_ok b q s l Q Hp HQ Hst Hh) as Hx.
  apply (agrees_run meta0 REG_NUM PHYS_REG_NUM ROB_ENTRY_NUM UNIFIED_IQ_ENTRY_NUM LSQ_ENTRY_NUM MMIO_BASE_ADDR MMIO_LAST_ADDR
    Hreg Hphys Hrob [the_cycle b q s] (b, Q, T)); [by exists l |]. split; [apply (st_inputs _ _ _ _ Hst) |]. by split.
Qed.

Lemma sched_inv_run ss st : sched_inv st -> sched_run_ok st ss -> sched_inv (sched_run ss st).
Proof.
  revert st. induction ss as [| s ss IH]; intros st Hs Hok; [done |]. destruct Hok as [Hst Hok].
  apply IH; [by apply sched_inv_step | done].
Qed.

Lemma sched_inv_reset b0 : sched_inv (sched_reset b0).
Proof.
  split; [by apply agrees_reset |]. split.
  - unfold IssueQueue.iq_sized. cbn. rewrite length_replicate. lia.
  - split.
    + intros k _ Hvk. by rewrite iq_reset_invalid in Hvk.
    + done.
    + intros j k _ _ Hvk. by rewrite iq_reset_invalid in Hvk.
Qed.

(** C4: the scheduler is exact.  From reset, for any decoded instructions, any
    handshakes and any execution stage that keeps its promise, the issue queue
    holds exactly the instructions in flight that have not been issued, each in
    one entry, through wake-up, issue, squashing and slot reuse; every
    instruction that was issued has read the values its sources have in program
    order (a store needs only its address); and the register file read through
    the committed map is the result of executing the retired instructions in
    program order. *)
Theorem scheduler_exact b0 ss :
  sched_run_ok (sched_reset b0) ss ->
  let '(b, q, Q, T) := sched_run ss (sched_reset b0) in
  let h := headPtr (k_rob b) in
  let R := exec (replicate (Z.to_nat REG_NUM) 0) T in
  (exists l, live (k_rob b) l /\ map info l = Q.*1) /\
  (forall k, 0 <= k < UNIFIED_IQ_ENTRY_NUM -> u_valid (iq_entry q k) = true ->
     exists n x g, Q !! n = Some (x, g) /\ g_ops g = None /\ u_robTag (iq_entry q k) = slot h (Z.of_nat n)) /\
  (forall n x g, Q !! n = Some (x, g) -> g_ops g = None ->
     exists k, 0 <= k < UNIFIED_IQ_ENTRY_NUM /\ u_valid (iq_entry q k) = true /\
       u_robTag (iq_entry q k) = slot h (Z.of_nat n) /\
       forall j, 0 <= j < UNIFIED_IQ_ENTRY_NUM -> u_valid (iq_entry q j) = true ->
         u_robTag (iq_entry q j) = slot h (Z.of_nat n) -> j = k) /\
  (forall n x g a c, Q !! n = Some (x, g) -> g_ops g = Some (a, c) ->
     (g_use1 g = true -> a = rget 0 (exec R (take n Q)) (g_rs1 g)) /\
     (needs2 (x, g) = true -> c = rget 0 (exec R (take n Q)) (g_rs2 g))) /\
  (forall r, 0 <= r < REG_NUM ->
     rget 0 (registers (k_prf b)) (rget 0 (committedMap (k_map b)) r) = rget 0 R r).
Proof.
  intros Hok. pose proof (sched_inv_run ss _ (sched_inv_reset b0) Hok) as H.
  destruct (sched_run ss (sched_reset b0)) as [[[b q] Q] T]. destruct H as ((l & Hp & HQ & Hv) & Hq & [Hw Hheld Honce]).
  split_and!.
  - exists l. split; [apply (pr_live _ _ _ _ _ _ Hp) | done].
  - intros k Hk Hvk. destruct (Hw k Hk Hvk) as (n & x & g & ? & ? & ? & _). by exists n, x, g.
  - intros n x g Hn Ho. destruct (Hheld n x g Hn Ho) as (k & Hk & Hvk & Et). exists k. split_and!; try done; try lia.
    intros j Hj Hvj Ej. apply Honce; congruence.
  - apply (va_operands _ _ _ _ _ _ Hv).
  - by apply (va_committed _ _ _ _ _ _ Hv).
Qed.

(** The contract from conditions that can be evaluated. *)
Definition stage_okb (b : backend) (q : iq) (s : sched_cycle) (Q : flight) : bool :=
  exec_okb meta0 PHYS_REG_NUM ROB_ENTRY_NUM UNIFIED_IQ_ENTRY_NUM LSQ_ENTRY_NUM MMIO_BASE_ADDR MMIO_LAST_ADDR b (the_cycle b q s) Q &&
  forallb (fun '(_, g) => match g_ops g with Some _ => true | None => false end) (take (retired b (sched_in q s)) Q) &&
  (negb (i_branchMispredicted (s_in s)) ||
   (re_valid (entry meta0 (k_rob b) (i_branchRobTag (s_in s))) && re_isBranch (entry meta0 (k_rob b) (i_branchRobTag (s_in s))))).

Lemma stage_okb_sound b q s Q :
  stage_okb b q s Q = true ->
  Forall (fun d => bus_ok REG_NUM d /\
    (dataWriteEnable (b_ctl d) = true -> registerWriteEnable (b_ctl d) = false /\ branchCtr (b_ctl d) = BR_NONE) /\
    (bus_writes d = true -> ignores (useRs1 (b_ctl d)) (useRs2 (b_ctl d)) (s_fn s d))) (i_decode (s_in s)) ->
  0 <= i_branchRobTag (s_in s) < ROB_ENTRY_NUM ->
  Forall (fun c => 0 <= c_tag c < ROB_ENTRY_NUM) (i_complete (s_in s)) ->
  (length (i_decode (s_in s)) <= DISPATCH_WIDTH)%nat -> stage_ok b q s Q.
Proof.
  unfold stage_okb. intros ((He & Hr)%andb_true_iff & Hm)%andb_true_iff Hd Ht Hc Hw. rewrite list.Forall_forall in Hd.
  assert (i_decode (sched_in q s) = i_decode (s_in s) /\ i_branchRobTag (sched_in q s) = i_branchRobTag (s_in s) /\
    i_complete (sched_in q s) = i_complete (s_in s) /\ i_branchMispredicted (sched_in q s) = i_branchMispredicted (s_in s))
    as (E1 & E2 & E3 & E4) by (unfold sched_in; by destruct (s_in s)).
  apply exec_okb_sound in He as [_ Hwb Hret Hports Hun].
  2: { intros d Hin. change (v_in (the_cycle b q s)) with (sched_in q s) in Hin. rewrite E1 in Hin. by apply (Hd d Hin). }
  split; rewrite ?E1; try done.
  - split; rewrite ?E1, ?E2, ?E3, ?E4; try done.
    + apply list.Forall_forall. intros d Hin. by apply (Hd d Hin).
    + intros Em. rewrite Em in Hm. by apply andb_true_iff in Hm.
  - intros d Hin. by apply (Hd d Hin).
  - intros n x g Hn Hq. split; [| by apply (Hret n x g)].
    eapply (forallb_elem _ _ (x, g)) in Hr; [cbn in Hr; by destruct (g_ops g) |].
    apply list_elem_of_lookup. exists n. by rewrite lookup_take_lt.
  - intros d Hin. by apply (Hd d Hin).
Qed.
End sched.

(** ** The demonstration run *)

(** The queue issues the first addition in cycle 1, the second one and the
    instruction behind the branch in cycle 2, the branch in cycle 3. *)
Definition sdemo : list sched_cycle :=
  map (fun i => SchedCycle i demo_fn true true true) [Demo.c0; Demo.c1; Demo.c2; Demo.c3; Demo.c4; Demo.c5].
Definition sdemo_start := sched_reset tt 32 48 16 16 Demo.off.
Definition sdemo_run := sched_run tt 32 48 16 16 16 0xFFE0 0xFFFF.

Lemma decoded_bus_ok {Meta} load csr (d : @decode_bus Meta) w :
  b_ctl d = decode w ->
  bus_ok 32 d /\
  (dataWriteEnable (b_ctl d) = true -> registerWriteEnable (b_ctl d) = false /\ branchCtr (b_ctl d) = BR_NONE) /\
  (bus_writes d = true -> ignores (useRs1 (b_ctl d)) (useRs2 (b_ctl d)) (unit_fn load csr d)).
Proof.
  intros E. split; [unfold bus_ok; rewrite E; apply decode_registers |]. split; [rewrite E; apply decode_stores |].
  by apply (unit_fn_ignores load csr d w).
Qed.

Lemma sdemo_contract : sched_run_ok tt 32 48 16 16 16 0xFFE0 0xFFFF sdemo_start sdemo.
Proof.
  repeat (split;
    [apply stage_okb_sound;
      [vm_compute; reflexivity |
       repeat (constructor; [eapply decoded_bus_ok; reflexivity |]); constructor |
       vm_compute; split; [discriminate | reflexivity] |
       repeat constructor; vm_compute; discriminate | vm_compute; lia] |]).
  exact I.
Qed.

Lemma scheduler_exact_witness :
  let '(b, _, _, T) := sdemo_run sdemo sdemo_start in
  length T = 3%nat /\ forall r, 0 <= r < 32 -> Demo.arch b r = rget 0 (exec (replicate 32 0) T) r.
Proof.
  pose proof (scheduler_exact tt 32 48 16 16 16 0xFFE0 0xFFFF ltac:(lia) ltac:(lia) ltac:(lia) ltac:(lia) Demo.off sdemo sdemo_contract) as H.
  assert (let '(_, _, _, T) := sdemo_run sdemo sdemo_start in length T = 3%nat) as E by (vm_compute; reflexivity).
  fold sdemo_start sdemo_run in H. destruct (sdemo_run sdemo sdemo_start) as [[[b q] Q] T].
  destruct H as (_ & _ & _ & _ & H). split; [exact E | exact H].
Defined.
