(* ===== verification/Image.v ===== *)
(** * From the program's binary to the instruction memory

    bin2words.py turns a binary into a text of hexadecimal words, bin2bytes.py
    into one of bytes; the simulator reads the text into the arrays of
    insnMem.sv and dataMem.sv with [$readmemh]; insnMem.sv answers a fetch in
    the next cycle. *)

From Stdlib Require Import String ZArith Lia.
From stdpp Require Import base list numbers.
From S2P Require Import Prelude PortIO Printf MemWord DataMem Csr Isa Decode.

Local Open Scope Z_scope.

(** ** bin2words.py *)

(** [b0 | (b1<<8) | (b2<<16) | (b3<<24)] *)
Definition le_word (b0 b1 b2 b3 : Z) : Z :=
  Z.lor (Z.lor (Z.lor b0 (Z.shiftl b1 8)) (Z.shiftl b2 16)) (Z.shiftl b3 24).

(** [f.write(f'{w:08x}\n')], here for any width. *)
Definition hex_line (width w : Z) : list Z := show_unsigned 16 w width ch_zero ++ [ch_nl].

(** The loop over the padded data; four values must be unpacked from every
    slice. *)
Fixpoint word_lines (data : list Z) : option (list Z) :=
  match data with
  | [] => Some []
  | b0 :: b1 :: b2 :: b3 :: data => app (hex_line 8 (le_word b0 b1 b2 b3)) <$> word_lines data
  | _ => None
  end.

(** [None]: the data does not fit, or the size is not a multiple of four. *)
Definition bin_to_word_hex (data : list Z) (total_bytes : Z) : option (list Z) :=
  if total_bytes <? Z.of_nat (length data) then None
  else word_lines (data ++ replicate (Z.to_nat (total_bytes - Z.of_nat (length data))) 0).

(** ** bin2bytes.py *)

Definition bin_to_byte_hex (data : list Z) (total_bytes : Z) : option (list Z) :=
  if total_bytes <? Z.of_nat (length data) then None
  else Some (flat_map (hex_line 2)
         (data ++ replicate (Z.to_nat (total_bytes - Z.of_nat (length data))) 0)).

(** ** [$readmemh]

    Numbers of hexadecimal digits, separated by white space, for consecutive
    addresses from 0 on.  Comments, addresses and unknown digits, which the
    converter never writes, are not read here. *)

Definition hex_value (c : Z) : option Z :=
  if (48 <=? c) && (c <=? 57) then Some (c - 48)
  else if (97 <=? c) && (c <=? 102) then Some (c - 87)
  else if (65 <=? c) && (c <=? 70) then Some (c - 55)
  else None.
Definition is_space (c : Z) : bool := (c =? 32) || (c =? 9) || (c =? 10) || (c =? 13).

(** [cur]: the number being read. *)
Fixpoint readmemh (cur : option Z) (text : list Z) : option (list Z) :=
  match text with
  | [] => Some (option_list cur)
  | c :: text =>
      if is_space c then app (option_list cur) <$> readmemh None text
      else match hex_value c with
           | Some d => readmemh (Some (u32 (16 * default 0 cur + d))) text
           | None => None
           end
  end.

(** ** insnMem.sv *)

Record imem := IMem { iwords : list Z; responseValid_o : bool; responseWord_o : Z }.
Definition INS_WORD_COUNT : Z := 16384.

Definition imem_step (s : imem) (requestValid_i : bool) (requestAddr_i : Z) : imem :=
  IMem (iwords s) requestValid_i
    (if requestValid_i then ram_word (iwords s) (Z.shiftr (uwrap 16 requestAddr_i) 2) else responseWord_o s).
Definition imem_reset (s : imem) : imem := IMem (iwords s) false (responseWord_o s).

(** ** Reading back what was written *)

Lemma hex_value_digit d : 0 <= d < 16 -> hex_value (digit_char d) = Some d /\ is_space (digit_char d) = false.
Proof.
  intros Hd. assert (exists n, d = Z.of_nat n /\ (n < 16)%nat) as (n & -> & Hn) by (exists (Z.to_nat d); lia).
  do 16 (destruct n as [| n]; [done |]). lia.
Qed.

Lemma readmemh_digits ds cur text :
  Forall (fun d => 0 <= d < 16) ds -> ds <> [] \/ is_Some cur ->
  readmemh cur (map digit_char ds ++ text) =
    readmemh (Some (fold_left (fun v d => u32 (16 * v + d)) ds (default 0 cur))) text \/ ds = [].
Proof.
  intros Hds. revert cur. induction Hds as [| d ds Hd Hds IH]; intros cur Hc; [by right |]. left.
  cbn [map app readmemh]. destruct (hex_value_digit d Hd) as [-> ->].
  cbn [fold_left]. destruct ds as [| d2 ds]; [done |].
  destruct (IH (Some (u32 (16 * default 0 cur + d)))) as [-> | [=]]; [by right; eexists | done].
Qed.

(** Digits that stay below 2^32. *)
Lemma fold_digits ds v :
  Forall (fun d => 0 <= d < 16) ds -> 0 <= v -> (v + 1) * 16 ^ Z.of_nat (length ds) <= 2 ^ 32 ->
  fold_left (fun v d => u32 (16 * v + d)) ds v = v * 16 ^ Z.of_nat (length ds) + of_digits 16 ds.
Proof.
  intros Hds. revert v. induction Hds as [| d ds Hd Hds IH]; intros v Hv Hb; cbn [fold_left length].
  - cbn. lia.
  - cbn [length] in Hb. rewrite Nat2Z.inj_succ, Z.pow_succ_r in * by lia.
    assert (0 < 16 ^ Z.of_nat (length ds)) as Hp by (apply Z.pow_pos_nonneg; lia).
    assert (u32 (16 * v + d) = 16 * v + d) as ->.
    { apply uwrap_id; [lia |]. unfold in_u. nia. }
    rewrite IH by nia. rewrite of_digits_cons. lia.
Qed.

(** A line reads as its word. *)
Lemma readmemh_hex_line width w text :
  width <= 8 -> in_u 32 w -> readmemh None (hex_line width w ++ text) = cons w <$> readmemh None text.
Proof.
  intros Hwd Hw. assert (0 <= w < 2 ^ 32) as Hr by (by unfold in_u in Hw).
  destruct (digits_numeral 16 w ltac:(lia) Hr) as (Hds & Hval & Hlead).
  pose (ds := replicate (Z.to_nat (width - Z.of_nat (length (digits 16 w)))) 0 ++ digits 16 w).
  assert (hex_line width w = map digit_char ds ++ [ch_nl]) as ->.
  { unfold hex_line, show_unsigned, field, ds. rewrite length_map, map_app. f_equal. f_equal.
    symmetry. apply (fmap_replicate digit_char). }
  assert (length (digits 16 w) <= 8)%nat as Hlen.
  { destruct Hlead as [-> | (d & t & Ed & Hd)]; [cbn; lia |].
    rewrite Ed in *. rewrite of_digits_cons in Hval. apply Forall_inv in Hds as Hd16. apply Forall_inv_tail in Hds as Ht.
    pose proof (of_digits_range 16 t ltac:(lia) Ht).
    assert (16 ^ Z.of_nat (length t) < 16 ^ 8) as Hp by (change (16 ^ 8) with (2 ^ 32); nia).
    apply Z.pow_lt_mono_r_iff in Hp; [cbn; lia | lia | lia]. }
  assert (1 <= length ds <= 8)%nat as Hl8.
  { unfold ds. rewrite length_app, length_replicate. destruct Hlead as [Ed | (d & t & Ed & _)]; rewrite Ed in *; cbn [length] in *; lia. }
  assert (Forall (fun d => 0 <= d < 16) ds) as Hall
    by (apply Forall_app; split; [apply Forall_replicate; lia | done]).
  rewrite <- app_assoc. destruct (readmemh_digits ds None ([ch_nl] ++ text) Hall) as [-> | E].
  - left. intros E. rewrite E in Hl8. cbn in Hl8. lia.
  - rewrite fold_digits; [| done | done |].
    2:{ change (2 ^ 32) with (16 ^ 8). rewrite Z.mul_1_l. apply Z.pow_le_mono_r; lia. }
    cbn [default Z.mul Z.add]. replace (of_digits 16 ds) with w; [done |].
    unfold ds. clear -Hval. induction (Z.to_nat _) as [| n IH]; [done |].
    cbn [replicate app]. by rewrite of_digits_cons, <- IH.
  - rewrite E in Hl8. cbn in Hl8. lia.
Qed.

Lemma le_word_bytes b0 b1 b2 b3 :
  in_u 8 b0 -> in_u 8 b1 -> in_u 8 b2 -> in_u 8 b3 ->
  in_u 32 (le_word b0 b1 b2 b3) /\
  byte_of 0 (le_word b0 b1 b2 b3) = b0 /\ byte_of 1 (le_word b0 b1 b2 b3) = b1 /\
  byte_of 2 (le_word b0 b1 b2 b3) = b2 /\ byte_of 3 (le_word b0 b1 b2 b3) = b3.
Proof.
  intros H0 H1 H2 H3.
  assert (le_word b0 b1 b2 b3 = b0 + 2 ^ 8 * b1 + 2 ^ 16 * b2 + 2 ^ 24 * b3) as ->.
  { unfold le_word. unfold in_u in *.
    rewrite (Z.lor_comm b0), (Z.lor_comm _ (Z.shiftl b2 16)), (Z.lor_comm _ (Z.shiftl b3 24)).
    change (cat 24 b3 (cat 16 b2 (cat 8 b1 b0)) = b0 + 2 ^ 8 * b1 + 2 ^ 16 * b2 + 2 ^ 24 * b3).
    rewrite (cat_add 8), (cat_add 16), (cat_add 24); unfold in_u; rewrite ?(cat_add 8), ?(cat_add 16); unfold in_u; lia. }
  unfold in_u in *. unfold byte_of, u8. rewrite !uwrap_mod, !Z.shiftr_div_pow2 by lia.
  repeat match goal with |- context [2 ^ ?e] => let v := eval vm_compute in (2 ^ e) in change (2 ^ e) with v end.
  change (2 ^ 8) with 256 in *. split_and!; Z.div_mod_to_equations; lia.
Qed.

(** Converting a padded binary and reading the text back. *)
Lemma word_lines_read n data :
  Forall (in_u 8) data -> length data = (4 * n)%nat ->
  exists text words,
    word_lines data = Some text /\ readmemh None text = Some words /\ length words = n /\
    Forall (in_u 32) words /\
    forall i k, (i < n)%nat -> (k < 4)%nat ->
      byte_of (Z.of_nat k) (default 0 (words !! i)) = default 0 (data !! (4 * i + k)%nat).
Proof.
  revert data. induction n as [| n IH]; intros data Hd Hl.
  - destruct data; [| done]. exists [], []. split_and!; [done | done | done | constructor | lia].
  - destruct data as [| b0 [| b1 [| b2 [| b3 data]]]]; cbn in Hl; try lia.
    apply list.Forall_cons in Hd as (H0 & (H1 & (H2 & (H3 & Hd)%list.Forall_cons)%list.Forall_cons)%list.Forall_cons).
    destruct (IH data Hd ltac:(lia)) as (text & words & Et & Er & Hn & Hw & Hb).
    destruct (le_word_bytes b0 b1 b2 b3 H0 H1 H2 H3) as (Hr & B0 & B1 & B2 & B3).
    exists (hex_line 8 (le_word b0 b1 b2 b3) ++ text), (le_word b0 b1 b2 b3 :: words).
    cbn [word_lines]. rewrite Et, readmemh_hex_line, Er by (done || lia).
    split_and!; [done | done | by cbn; f_equal | by constructor |].
    intros [| i] k Hi Hk.
    + do 4 (destruct k as [| k]; [done |]). lia.
    + cbn [lookup list_lookup]. rewrite Hb by lia.
      by replace (4 * S i + k)%nat with (S (S (S (S (4 * i + k))))) by lia.
Qed.

Lemma word_lines_None data : (length data mod 4 <> 0)%nat -> word_lines data = None.
Proof.
  remember (length data) as n eqn:En. revert data En.
  induction n as [n IH] using lt_wf_ind. intros data En Hn.
  destruct data as [| b0 [| b1 [| b2 [| b3 data]]]]; cbn in En; subst n; try done.
  cbn [word_lines]. rewrite (IH (length data)); [done | lia | done |].
  intros E. apply Hn. by rewrite <- (Nat.Div0.mod_add _ 1 4), Nat.add_comm in E.
Qed.

(** The image of a binary: what the memories hold before the first cycle. *)
Definition image (data : list Z) (total_bytes : Z) : option (list Z) :=
  bin_to_word_hex data total_bytes ≫= readmemh None.

Lemma image_words data n :
  Forall (in_u 8) data -> (length data <= 4 * n)%nat ->
  exists words, image data (4 * Z.of_nat n) = Some words /\ length words = n /\ Forall (in_u 32) words /\
    forall a, 0 <= a < 4 * Z.of_nat n ->
      byte_of (a mod 4) (ram_word words (a / 4)) = default 0 (data !! Z.to_nat a).
Proof.
  intros Hd Hl. unfold image, bin_to_word_hex. rewrite (proj2 (Z.ltb_ge _ _)) by lia.
  set (z := Z.to_nat _).
  destruct (word_lines_read n (data ++ replicate z 0)) as (text & words & Et & Er & Hn & Hw & Hb).
  { apply Forall_app. split; [done |]. apply Forall_replicate. by apply in_u_0. }
  { rewrite length_app, length_replicate. lia. }
  exists words. rewrite Et. split_and!; [done | done | done |]. intros a Ha.
  pose proof (Z.div_mod a 4 ltac:(lia)). pose proof (Z.mod_pos_bound a 4 ltac:(lia)).
  specialize (Hb (Z.to_nat (a / 4)) (Z.to_nat (a mod 4)) ltac:(lia) ltac:(lia)).
  rewrite Z2Nat.id in Hb by lia. unfold ram_word, arr_get. rewrite (proj2 (Z.leb_le 0 (a / 4))) by lia.
  rewrite Hb. replace (4 * Z.to_nat (a / 4) + Z.to_nat (a mod 4))%nat with (Z.to_nat a) by lia.
  destruct (Nat.lt_ge_cases (Z.to_nat a) (length data)).
  - by rewrite lookup_app_l by done.
  - rewrite lookup_app_r, (lookup_ge_None_2 data) by done.
    by rewrite lookup_replicate_2 by lia.
Qed.

(** The byte-wide variant of the converter. *)
Lemma byte_image_loads data total_bytes :
  Forall (in_u 8) data ->
  bin_to_byte_hex data total_bytes ≫= readmemh None =
    if total_bytes <? Z.of_nat (length data) then None
    else Some (data ++ replicate (Z.to_nat (total_bytes - Z.of_nat (length data))) 0).
Proof.
  intros Hd. unfold bin_to_byte_hex. case_match; [done |]. cbn.
  set (l := data ++ _). assert (Forall (in_u 8) l) as Hl.
  { apply Forall_app. split; [done |]. apply Forall_replicate. by apply in_u_0. }
  clearbody l. induction Hl as [| b l Hb Hl IH]; [done |]. cbn [flat_map].
  rewrite readmemh_hex_line, IH; [done | lia |]. unfold in_u in *. lia.
Qed.

(** C36: loading a program is lossless.  A binary of bytes that fits a memory
    of a whole number of words is converted, the text is readable, and the
    array the simulator gets has exactly the memory's words; byte [a] of the
    memory, little-endian in its word, is byte [a] of the binary, and 0 past
    its end.  A binary that is too long, or a size that is not a multiple of
    four, is refused. *)
Theorem image_loads data total_bytes :
  Forall (in_u 8) data ->
  if (Z.of_nat (length data) <=? total_bytes) && (total_bytes mod 4 =? 0) then
    exists words, image data total_bytes = Some words /\
      4 * Z.of_nat (length words) = total_bytes /\ Forall (in_u 32) words /\
      forall a, 0 <= a < total_bytes ->
        byte_of (a mod 4) (ram_word words (a / 4)) = default 0 (data !! Z.to_nat a)
  else bin_to_word_hex data total_bytes = None.
Proof.
  intros Hd. destruct (Z.leb_spec (Z.of_nat (length data)) total_bytes) as [Hle | Hgt]; cbn [andb].
  - pose proof (Z.div_mod total_bytes 4 ltac:(lia)) as Hdm. destruct (Z.eqb_spec (total_bytes mod 4) 0) as [E | E].
    + destruct (image_words data (Z.to_nat (total_bytes / 4)) Hd ltac:(lia)) as (words & H1 & H2 & H3 & H4).
      replace (4 * Z.of_nat (Z.to_nat (total_bytes / 4))) with total_bytes in * by lia.
      exists words. split_and!; [done | lia | done | done].
    + unfold bin_to_word_hex. rewrite (proj2 (Z.ltb_ge _ _)) by lia. apply word_lines_None.
      rewrite length_app, length_replicate. replace (_ + _)%nat with (Z.to_nat total_bytes) by lia.
      intros E'. apply E. rewrite <- (Z2Nat.id total_bytes) by lia. change 4 with (Z.of_nat 4).
      by rewrite <- Nat2Z.inj_mod, E'.
  - unfold bin_to_word_hex. by rewrite (proj2 (Z.ltb_lt _ _)) by lia.
Qed.

(** ** Fetching the program *)

Lemma pack_range op r f3 s1 s2 f7 :
  0 <= op < 128 -> reg r -> 0 <= f3 < 8 -> reg s1 -> reg s2 -> 0 <= f7 < 128 ->
  in_u 32 (pack op r f3 s1 s2 f7).
Proof. unfold reg, in_u, pack. lia. Qed.

Lemma encode_range i : insn_ok i -> in_u 32 (encode i).
Proof.
  intros Hi. destruct funct3_ranges as (Ra & Rf & Rc & Rm & Rs).
  destruct i; cbn [encode insn_ok] in *; unfold pack_j, pack_u, pack_i, pack_s, pack_b;
    try (by split); repeat case_match; apply pack_range; unfold reg in *; try lia; try done;
    try (apply Z.mod_pos_bound; lia).
  - pose proof (Z.mod_pos_bound (offset / 2048) 2 ltac:(lia)).
    pose proof (Z.mod_pos_bound (offset / 2) 16 ltac:(lia)). lia.
  - pose proof (Z.mod_pos_bound (offset / 32) 64 ltac:(lia)).
    pose proof (Z.mod_pos_bound (offset / 4096) 2 ltac:(lia)). lia.
  - by specialize (Rs op); lia.
  - by specialize (Rs op); lia.
Qed.

(** The bytes of a program, as the assembler puts them into the binary. *)
Definition insn_bytes (i : insn) : list Z := map (fun k => byte_of k (encode i)) lanes.
Definition assemble (prog : list insn) : list Z := flat_map insn_bytes prog.

Lemma assemble_lookup prog n i k :
  prog !! n = Some i -> (k < 4)%nat -> assemble prog !! (4 * n + k)%nat = Some (byte_of (Z.of_nat k) (encode i)).
Proof.
  revert n. induction prog as [| j prog IH]; intros n Hn Hk; [done |].
  destruct n as [| n]; cbn [lookup list_lookup] in Hn.
  - injection Hn as ->. by do 4 (destruct k as [| k]; [done |]); lia.
  - replace (4 * S n + k)%nat with (S (S (S (S (4 * n + k))))) by lia. by apply IH.
Qed.

(** The word of an image at an aligned address whose bytes are those of [w]. *)
Lemma image_word_at data n words pc w :
  Forall (in_u 8) data -> (length data <= 4 * n)%nat -> image data (4 * Z.of_nat n) = Some words ->
  in_u 32 w -> 0 <= pc -> pc mod 4 = 0 -> pc + 4 <= Z.of_nat (length data) ->
  (forall k, (k < 4)%nat -> data !! (Z.to_nat pc + k)%nat = Some (byte_of (Z.of_nat k) w)) ->
  ram_word words (pc / 4) = w.
Proof.
  intros Hd Hl Hi Hw H0 Hal Hpc Hb.
  destruct (image_words data n Hd Hl) as (words' & E & _ & Hr & Hbytes).
  rewrite Hi in E. injection E as <-.
  apply word_ext; [| done |].
  - unfold ram_word, arr_get. case_match; [| by apply in_u_0].
    destruct (words !! Z.to_nat (pc / 4)) eqn:E; [by eapply Forall_lookup_1 | by apply in_u_0].
  - intros k Hk. specialize (Hbytes (pc + k) ltac:(lia)). specialize (Hb (Z.to_nat k) ltac:(lia)).
    replace ((pc + k) mod 4) with k in Hbytes by (Z.div_mod_to_equations; lia).
    replace ((pc + k) / 4) with (pc / 4) in Hbytes by (Z.div_mod_to_equations; lia).
    rewrite Hbytes. replace (Z.to_nat (pc + k)) with (Z.to_nat pc + Z.to_nat k)%nat by lia.
    rewrite Hb. cbn [default]. by rewrite Z2Nat.id by lia.
Qed.

(** The word that the memory reads for an instruction of the program. *)
Lemma image_fetch data words pre prog post n i :
  Forall (in_u 8) data -> image data (4 * INS_WORD_COUNT) = Some words ->
  data = pre ++ assemble prog ++ post -> Z.of_nat (length pre) mod 4 = 0 ->
  Forall insn_ok prog -> prog !! n = Some i ->
  ram_word words (Z.shiftr (uwrap 16 (Z.of_nat (length pre + 4 * n))) 2) = encode i.
Proof.
  intros Hd Hi -> Hpre Hok Hn. set (pc := Z.of_nat (length pre + 4 * n)).
  assert (insn_ok i) as Hii by (by eapply Forall_lookup_1).
  assert (length (assemble prog) = 4 * length prog)%nat as Hlen
    by (clear; unfold assemble; induction prog as [| j prog IH]; cbn in *; lia).
  apply lookup_lt_Some in Hn as Hnl.
  assert (length (pre ++ assemble prog ++ post) <= 4 * Z.to_nat INS_WORD_COUNT)%nat as Hfit.
  { unfold image, bin_to_word_hex in Hi. case_match; [done |]. lia. }
  rewrite uwrap_id, Z.shiftr_div_pow2; [| lia | lia |].
  2:{ unfold in_u, pc. rewrite !length_app in Hfit. change (Z.to_nat INS_WORD_COUNT) with (Z.to_nat 16384) in Hfit. lia. }
  eapply (image_word_at _ _ words pc); [exact Hd | exact Hfit | exact Hi | by apply encode_range | lia | | |].
  - unfold pc. Z.div_mod_to_equations; lia.
  - rewrite !length_app. lia.
  - intros k Hk. unfold pc. rewrite lookup_app_r by lia.
    replace (Z.to_nat (Z.of_nat (length pre + 4 * n)) + k - length pre)%nat with (4 * n + k)%nat by lia.
    rewrite lookup_app_l by lia. by apply assemble_lookup.
Qed.

(** C35: the processor executes the program it was given.  Let the binary of
    the instruction memory hold an assembled program at a word-aligned
    address.  A fetch of any of its instructions, in any cycle, is answered in
    the next one with a word that decoder
    and execution units turn into exactly the architectural effect of that
    instruction for all operand values. *)
Theorem program_fetched s data pre prog post n i :
  Forall (in_u 8) data -> image data (4 * INS_WORD_COUNT) = Some (iwords s) ->
  data = pre ++ assemble prog ++ post -> Z.of_nat (length pre) mod 4 = 0 ->
  Forall insn_ok prog -> prog !! n = Some i ->
  let pc := Z.of_nat (length pre + 4 * n) in
  let s' := imem_step s true pc in
  responseValid_o s' = true /\ iwords s' = iwords s /\ responseWord_o s' = encode i /\
  (forall pc a b old, execute (decode (responseWord_o s')) pc a b old = sem i pc a b old) /\
  operands_ok (decode (responseWord_o s')) i.
Proof.
  intros Hd Hi Hsplit Hpre Hok Hn pc s'.
  assert (responseWord_o s' = encode i) as Hw by (by eapply image_fetch).
  split_and!; [done | done | done | |]; rewrite Hw; apply insn_correct; by eapply Forall_lookup_1.
Qed.

(** ** Witnesses *)

Lemma image_loads_witness :
  exists words, image [0x13; 0x05; 0xa0; 0x02; 0x6f] 8 = Some words /\
    4 * Z.of_nat (length words) = 8 /\ Forall (in_u 32) words /\
    forall a, 0 <= a < 8 ->
      byte_of (a mod 4) (ram_word words (a / 4)) = default 0 ([0x13; 0x05; 0xa0; 0x02; 0x6f] !! Z.to_nat a).
Proof.
  apply (image_loads [0x13; 0x05; 0xa0; 0x02; 0x6f] 8).
  repeat (apply Forall_cons_2; [unfold in_u; lia |]). constructor.
Defined.

Example demo_image : image [0x13; 0x05; 0xa0; 0x02; 0x6f] 8 = Some [0x02a00513; 0x6f].
Proof. vm_compute. reflexivity. Qed.
Example demo_image_odd : image [1; 2] 6 = None.
Proof. reflexivity. Qed.

(** [li a0, 42; sw a0, -4(sp)] *)
Definition demo_prog : list insn := [OpImm Add 10 0 42; Store MEM_WORD 2 10 (-4)].
Definition demo_imem : imem := IMem (default [] (image (assemble demo_prog) (4 * INS_WORD_COUNT))) false 0.

Lemma program_fetched_witness :
  let s' := imem_step demo_imem true 4 in
  responseValid_o s' = true /\ iwords s' = iwords demo_imem /\ responseWord_o s' = 0xfea12e23 /\
  (forall pc a b old, execute (decode (responseWord_o s')) pc a b old =
     sem (Store MEM_WORD 2 10 (-4)) pc a b old) /\
  operands_ok (decode (responseWord_o s')) (Store MEM_WORD 2 10 (-4)).
Proof.
  apply (program_fetched demo_imem (assemble demo_prog) [] demo_prog [] 1 (Store MEM_WORD 2 10 (-4))).
  - change (Forall (in_u 8) [0x13; 0x05; 0xa0; 0x02; 0x23; 0x2e; 0xa1; 0xfe]).
    repeat (apply Forall_cons_2; [unfold in_u; lia |]). constructor.
  - vm_compute. reflexivity.
  - reflexivity.
  - reflexivity.
  - unfold demo_prog. repeat (apply Forall_cons_2; [unfold insn_ok, reg, imm12; cbn; lia + (split_and!; (done || lia)) |]). constructor.
  - reflexivity.
Defined.
