(* ===== verification/Machine.v ===== *)
(** * The sequential machine

    One instruction per cycle, made of the parts of the processor: the
    instruction memory, the decoder, the execution units, the CSR file, and
    the data memory as a memory of bytes.  This is what a program sees of the
    processor. *)

From Stdlib Require Import ZArith Lia.
From stdpp Require Import base list numbers.
From S2P Require Import Prelude MemWord DataMem Csr Isa Decode Image.

Local Open Scope Z_scope.

Section machine.
(** The parameters of CSRFile.sv, the words of insnMem.sv. *)
Context (HART_ID MISA_VALUE : Z) (words : list Z).

(** Registers, program counter, CSRs, data memory, bytes sent to the UART. *)
Record arch := Arch { regs : Z -> Z; pc : Z; csr_file : csrs; data : smem; sent : list Z }.

Definition get_reg (r : Z -> Z) (x : Z) : Z := if x =? 0 then 0 else r x.
Definition set_reg (r : Z -> Z) (x v : Z) : Z -> Z := fun y => if y =? x then v else r y.

Definition mem_request (q : mem_req) : dmem_in :=
  let '(store, address, access, d) := q in DIn true store address d access true 0.

Definition apply_effect (m : arch) (e : effect) : arch :=
  match e with
  | Trap cause value =>
      Arch (regs m) (trapVector_o (csr_file m))
        (csr_step HART_ID MISA_VALUE (csr_file m) (CsrIn 0 false CSR_NONE 0 0 true (pc m) cause value false))
        (data m) (sent m)
  | Step wb next mem csr leaves_trap =>
      let '(answer, byte, d) :=
        match mem with Some q => serve (data m) (mem_request q) | None => (None, None, data m) end in
      Arch
        (match wb with
         | NoWb => regs m
         | WbValue rd v => set_reg (regs m) rd v
         | WbLoad rd => set_reg (regs m) rd (default 0 answer)
         end)
        next
        (csr_step HART_ID MISA_VALUE (csr_file m)
           (match csr with
            | Some (op, a, v) => CsrIn 1 true op a v false 0 0 0 leaves_trap
            | None => CsrIn 1 false CSR_NONE 0 0 false 0 0 0 leaves_trap
            end))
        d (sent m ++ option_list byte)
  end.

Definition fetched (p : Z) : Z := ram_word words (Z.shiftr (uwrap 16 p) 2).

Definition arch_step (m : arch) : arch :=
  let c := decode (fetched (pc m)) in
  apply_effect m
    (execute c (pc m) (get_reg (regs m) (rs1 c)) (get_reg (regs m) (rs2 c))
       (csr_read HART_ID MISA_VALUE (csr_file m) (csrAddr c))).

Definition steps (n : nat) (m : arch) : arch := Nat.iter n arch_step m.

(** The effect of an instruction in a state. *)
Definition effect_in (m : arch) (i : insn) : effect :=
  sem i (pc m) (get_reg (regs m) (default 0 (reads1 i))) (get_reg (regs m) (default 0 (reads2 i)))
    (csr_read HART_ID MISA_VALUE (csr_file m) (default 0 (reads_csr i))).

(** The machine implements the instruction set. *)
Lemma arch_step_sem m i :
  insn_ok i -> fetched (pc m) = encode i -> arch_step m = apply_effect m (effect_in m i).
Proof.
  intros Hok Hf. unfold arch_step, effect_in. rewrite Hf.
  destruct (insn_correct i Hok) as [He (H1 & H2 & H3)]. rewrite He. f_equal.
  destruct i; cbn [reads1 reads2 reads_csr sem default] in *;
    rewrite ?(proj1 (H1 _ eq_refl)), ?(proj1 (H2 _ eq_refl)), ?(H3 _ eq_refl); reflexivity.
Qed.

End machine.
