(* ===== verification/Start.v ===== *)
(** * The start-up code: start.s

    The program in front of [main], at the reset vector, run by the sequential
    machine.  The linker scripts give the symbols; pseudo-instructions are
    expanded as the instruction set manual says. *)

From Stdlib Require Import ZArith Lia.
From stdpp Require Import base list numbers.
From S2P Require Import Prelude MemWord DataMem Csr Isa Decode Image Machine.

Local Open Scope Z_scope.

(** ** The code *)

(** The symbols that link.ld and the rest of the program define. *)
Record symbols := Symbols { stack_top : Z; bss_start : Z; bss_end : Z; main_addr : Z; tohost_addr : Z }.

Definition ra : Z := 1.
Definition sp : Z := 2.
Definition t0 : Z := 5.
Definition t1 : Z := 6.

(** [%pcrel_lo] and [%pcrel_hi] of a distance. *)
Definition pcrel_lo (d : Z) : Z := swrap 12 d.
Definition pcrel_hi (d : Z) : Z := (d - pcrel_lo d) / 2 ^ 12 mod 2 ^ 20.

(** [la rd, symbol] and [call symbol] at the address [p]. *)
Definition la (p rd symbol : Z) : list insn :=
  [Auipc rd (pcrel_hi (symbol - p)); OpImm Add rd rd (pcrel_lo (symbol - p))].
Definition call (p symbol : Z) : list insn :=
  [Auipc ra (pcrel_hi (symbol - p)); Jalr ra ra (pcrel_lo (symbol - p))].

(** [_start]; the numbers are addresses: label 1 is 24, label 2 is 40, label 3
    is 64. *)
Definition start (y : symbols) : list insn :=
  la 0 sp (stack_top y) ++
  la 8 t0 (bss_start y) ++
  la 16 t1 (bss_end y) ++
  [ Branch Bgeu t0 t1 16;            (* 24: bgeu t0, t1, 2f *)
    Store MEM_WORD t0 0 0;           (* 28: sw zero, 0(t0) *)
    OpImm Add t0 t0 4;               (* 32 *)
    Jal 0 (-12) ] ++                 (* 36: j 1b *)
  call 40 (main_addr y) ++
  [ OpImm Add t0 0 1 ] ++            (* 48: li t0, 1 *)
  la 52 t1 (tohost_addr y) ++
  [ Store MEM_WORD t1 t0 0;          (* 60: sw t0, 0(t1) *)
    Jal 0 0 ].                       (* 64: j 3b *)

(** The layout the run needs.  link.ld gives [__stack_top] and [tohost], aligns
    [.bss] ([ALIGN(4)]) and keeps it in the 64K of the data memory; code is
    word-aligned.  That [.bss] ends below the first host register, [uart_tx], is a
    condition on the program: link.ld does not check it (see
    [bss_over_host_registers]). *)
Definition symbols_ok (y : symbols) : Prop :=
  in_u 32 (stack_top y) /\ 0 <= bss_start y /\ bss_start y mod 4 = 0 /\ bss_start y <= bss_end y <= UART_TX_MMIO_ADDR /\
  in_u 32 (main_addr y) /\ main_addr y mod 4 = 0 /\ tohost_addr y = TOHOST_MMIO_ADDR.

(** ** Addresses *)

Lemma pcrel_sum p s : in_u 32 s -> ((p + pcrel_hi (s - p) * 2 ^ 12) mod 2 ^ 32 + pcrel_lo (s - p)) mod 2 ^ 32 = s.
Proof.
  intros Hs. unfold pcrel_hi, pcrel_lo, in_u in *. rewrite swrap_mod by lia.
  change (2 ^ (12 - 1)) with 2048. change (2 ^ 12) with 4096. change (2 ^ 20) with 1048576.
  change (2 ^ 32) with 4294967296 in *. Z.div_mod_to_equations; lia.
Qed.

Lemma pcrel_ok d : imm12 (pcrel_lo d) /\ 0 <= pcrel_hi d < 2 ^ 20.
Proof.
  unfold imm12, pcrel_lo, pcrel_hi. rewrite swrap_mod by lia. split; [| apply Z.mod_pos_bound; lia].
  change (2 ^ (12 - 1)) with 2048. change (2 ^ 12) with 4096. Z.div_mod_to_equations; lia.
Qed.

Lemma start_ok y : Forall insn_ok (start y).
Proof.
  unfold start, la, call, app. repeat apply Forall_cons_2; try apply Forall_nil_2; cbn [insn_ok];
    unfold reg, imm12, sp, t0, t1, ra; repeat split; try (done || lia || apply pcrel_ok).
Qed.

(** ** The run *)

Lemma set_reg_eq r x v : set_reg r x v x = v.
Proof. unfold set_reg. by rewrite Z.eqb_refl. Qed.
Lemma set_reg_ne r x v z : z <> x -> set_reg r x v z = r z.
Proof. intros H. unfold set_reg. by rewrite (proj2 (Z.eqb_neq _ _)). Qed.

Section run.
Context (HART_ID MISA_VALUE : Z) (words : list Z) (y : symbols).
(** The code is at the reset vector. *)
Context (Hcode : forall n i, start y !! n = Some i -> fetched words (4 * Z.of_nat n) = encode i).

Abbreviation step := (arch_step HART_ID MISA_VALUE words).
Abbreviation run := (steps HART_ID MISA_VALUE words).

(** What the CSR file does when an instruction without CSR access retires. *)
Definition retire (c : csrs) : csrs :=
  csr_step HART_ID MISA_VALUE c (CsrIn 1 false CSR_NONE 0 0 false 0 0 0 false).

Lemma step_at n i m :
  start y !! n = Some i -> pc m = 4 * Z.of_nat n ->
  step m = apply_effect HART_ID MISA_VALUE m (effect_in HART_ID MISA_VALUE m i).
Proof.
  intros Hn Hp. apply arch_step_sem; [| rewrite Hp; by apply Hcode].
  eapply Forall_lookup_1; [apply start_ok | done].
Qed.

Lemma run_add n k m : run (n + k) m = run k (run n m).
Proof. unfold steps. rewrite Nat.add_comm. apply Nat.iter_add. Qed.

Lemma run_S n m : run (S n) m = run n (step m).
Proof. apply Nat.iter_succ_r. Qed.

(** Distances within the code do not wrap. *)
Lemma next_small p : 0 <= p <= 64 -> (p + 4) mod 2 ^ 32 = p + 4.
Proof. intros. apply Z.mod_small. lia. Qed.

Lemma la_steps n p q rd sym r c d s :
  start y !! n = Some (Auipc rd (pcrel_hi (sym - p))) ->
  start y !! S n = Some (OpImm Add rd rd (pcrel_lo (sym - p))) ->
  p = 4 * Z.of_nat n -> q = p + 8 -> p <= 60 -> 0 < rd -> in_u 32 sym ->
  exists r', run 2 (Arch r p c d s) = Arch r' q (retire (retire c)) d s /\
    r' rd = sym /\ forall x, x <> rd -> r' x = r x.
Proof.
  intros H1 H2 Hp -> Hp60 Hrd Hs.
  change (run 2 (Arch r p c d s)) with (step (step (Arch r p c d s))).
  rewrite (step_at n _ (Arch r p c d s) H1 Hp).
  unfold effect_in. cbn [sem pc]. unfold to_reg. rewrite (proj2 (Z.eqb_neq rd 0)) by lia.
  cbn [apply_effect regs data sent csr_file option_list]. rewrite next_small, app_nil_r by lia. fold (retire c).
  rewrite (step_at (S n) _ _ H2) by (cbn [pc]; lia).
  unfold effect_in. cbn [sem pc reads1 default regs csr_file]. unfold to_reg.
  rewrite (proj2 (Z.eqb_neq rd 0)) by lia. cbn [apply_effect regs data sent csr_file option_list alu_sem].
  rewrite next_small, app_nil_r by lia. fold (retire (retire c)).
  eexists. split; [by replace (p + 4 + 4) with (p + 8) by lia |].
  unfold set_reg, get_reg. rewrite Z.eqb_refl. split.
  - rewrite (proj2 (Z.eqb_neq _ _)), Z.eqb_refl by (cbn; lia). rewrite Zplus_mod_idemp_r. by apply pcrel_sum.
  - intros x Hx. by rewrite !(proj2 (Z.eqb_neq _ _)) by done.
Qed.

(** A word store of zero below the memory map. *)
Definition cleared (lo hi : Z) (f : Z -> Z) (b : Z) : Z := if (lo <=? b) && (b <? hi) then 0 else f b.

Lemma serve_clear d a :
  0 <= a < UART_TX_MMIO_ADDR -> exists f,
    serve d (mem_request (true, a, MEM_WORD, 0)) = (None, None, SMem f (tohost d)) /\
    forall b, f b = cleared a (a + 4) (ram d) b.
Proof.
  intros Ha. unfold UART_TX_MMIO_ADDR in Ha. unfold serve, mem_request, toHostHit, uartHit, fromHostHit. cbn [requestWrite_i requestAddress_i].
  rewrite !Z.shiftr_div_pow2 by lia.
  rewrite !(proj2 (Z.eqb_neq _ _)) by (unfold TOHOST_MMIO_ADDR, UART_TX_MMIO_ADDR, FROMHOST_MMIO_ADDR;
    change (2 ^ 2) with 4; Z.div_mod_to_equations; lia).
  eexists. split; [done |]. intros b. cbn [requestAccess_i requestWriteData_i size].
  rewrite Z.mod_small by lia. unfold cleared, byte_of, u8, uwrap. by rewrite Z.shiftr_0_l.
Qed.

(** Executes the instruction at index [n] of the code and evaluates what is
    closed in its effect. *)
Ltac closed t := match t with
  | Z0 => idtac | Zpos _ => idtac | Zneg _ => idtac | ra => idtac | sp => idtac | t0 => idtac | t1 => idtac
  | Z.add ?a ?b => closed a; closed b | Z.pow ?a ?b => closed a; closed b | Z.modulo ?a ?b => closed a; closed b
  end.
Ltac norm_closed := repeat match goal with
  | |- context [Z.eqb ?x ?z] => closed x; closed z; let b := eval vm_compute in (x =? z) in
      change (x =? z) with b; cbn match
  | |- context [Z.modulo ?x ?z] => closed x; closed z; let v := eval vm_compute in (x mod z) in
      change (x mod z) with v
  end.
Ltac exec n :=
  rewrite run_S, (step_at n _ _ eq_refl) by reflexivity; unfold effect_in;
  cbn [sem pc regs reads1 reads2 default id csr_file alu_sem cond_sem]; unfold get_reg, to_reg, jump; norm_closed.
Ltac settle :=
  norm_closed; cbn [apply_effect regs data sent csr_file option_list negb]; rewrite ?app_nil_r;
  repeat match goal with |- context [csr_step HART_ID MISA_VALUE ?c (CsrIn 1 false CSR_NONE 0 0 false 0 0 0 false)] =>
    change (csr_step HART_ID MISA_VALUE c (CsrIn 1 false CSR_NONE 0 0 false 0 0 0 false)) with (retire c) end.

(** One turn of the loop that clears [.bss]. *)
Lemma clear_turn r c d s a :
  r t0 = a -> r t1 = bss_end y -> 0 <= a -> a mod 4 = 0 -> a < bss_end y -> bss_end y <= UART_TX_MMIO_ADDR ->
  exists r' f, run 4 (Arch r 24 c d s) = Arch r' 24 (Nat.iter 4 retire c) (SMem f (tohost d)) s /\
    r' t0 = a + 4 /\ (forall x, x <> t0 -> r' x = r x) /\ forall b, f b = cleared a (a + 4) (ram d) b.
Proof.
  intros E0 E1 Ha Hal Hlt Hle. unfold UART_TX_MMIO_ADDR in Hle.
  destruct (serve_clear d a ltac:(unfold UART_TX_MMIO_ADDR; lia)) as (f & Es & Hf).
  exec 6%nat. rewrite E0, E1, (proj2 (Z.ltb_lt a (bss_end y))) by done. settle.
  exec 7%nat. rewrite E0, Z.add_0_r, (Z.mod_small a) by lia. unfold aligned. cbn [size]. rewrite Hal. settle.
  rewrite Es. settle.
  exec 8%nat. rewrite E0, (Z.mod_small (a + 4)) by lia. settle.
  exec 9%nat. settle.
  eexists _, f. split; [reflexivity |]. split_and!; [done | | done].
  intros x Hx. unfold set_reg. by rewrite (proj2 (Z.eqb_neq _ _)).
Qed.

(** The whole loop: [k] turns. *)
Lemma clear_loop k : forall r c d s a,
  r t0 = a -> r t1 = bss_end y -> 0 <= a -> a mod 4 = 0 -> bss_end y <= UART_TX_MMIO_ADDR ->
  bss_end y <= a + 4 * Z.of_nat k < bss_end y + 4 ->
  exists r' f, run (4 * k + 1) (Arch r 24 c d s) =
      Arch r' 40 (Nat.iter (4 * k + 1) retire c) (SMem f (tohost d)) s /\
    (forall x, x <> t0 -> r' x = r x) /\ forall b, f b = cleared a (a + 4 * Z.of_nat k) (ram d) b.
Proof.
  induction k as [| k IH]; intros r c d s a E0 E1 Ha Hal Hle Hk.
  - change (4 * 0 + 1)%nat with 1%nat. exec 6%nat.
    rewrite E0, E1, (proj2 (Z.ltb_ge a (bss_end y))) by lia. settle.
    destruct d as [f t]. eexists r, f. split; [reflexivity |]. split; [done |]. intros b. unfold cleared.
    cbn [ram]. destruct (Z.leb_spec a b), (Z.ltb_spec b (a + 4 * Z.of_nat 0)); cbn; (done || lia).
  - replace (4 * S k + 1)%nat with (4 + (4 * k + 1))%nat by lia. rewrite run_add.
    destruct (clear_turn r c d s a E0 E1 Ha Hal ltac:(lia) Hle) as (r1 & f1 & -> & E0' & Hr1 & Hf1).
    destruct (IH r1 (Nat.iter 4 retire c) (SMem f1 (tohost d)) s (a + 4)) as (r2 & f2 & -> & Hr2 & Hf2);
      [done | by rewrite Hr1 | lia | Z.div_mod_to_equations; lia | done | lia |].
    exists r2, f2. split; [by rewrite (Nat.add_comm 4), (Nat.iter_add (4 * k + 1) 4) |].
    split; [intros x Hx; by rewrite Hr2, Hr1 |]. intros b. rewrite Hf2. unfold cleared. cbn [ram]. rewrite Hf1.
    unfold cleared. repeat match goal with |- context [Z.leb ?x ?z] => destruct (Z.leb_spec x z)
      | |- context [Z.ltb ?x ?z] => destruct (Z.ltb_spec x z) end; cbn; (done || lia).
Qed.

(** The words to clear. *)
Definition bss_words : nat := Z.to_nat ((bss_end y - bss_start y + 3) / 4).

Lemma start_run r c d s :
  symbols_ok y ->
  exists r' f, let n := (9 + 4 * bss_words)%nat in
    run n (Arch r 0 c d s) = Arch r' (main_addr y) (Nat.iter n retire c) (SMem f (tohost d)) s /\
    r' sp = stack_top y /\ r' ra = 48 /\ (forall x, x ∉ [ra; sp; t0; t1] -> r' x = r x) /\
    forall b, f b = cleared (bss_start y) (bss_start y + 4 * Z.of_nat bss_words) (ram d) b.
Proof.
  intros (Hst & Hb0 & Hbal & Hbe & Hm & Hmal & _). unfold UART_TX_MMIO_ADDR in *. cbv zeta.
  replace (9 + 4 * bss_words)%nat with (2 + (2 + (2 + ((4 * bss_words + 1) + 2))))%nat by lia.
  assert (in_u 32 (bss_start y) /\ in_u 32 (bss_end y)) as [Hs1 Hs2] by (unfold in_u; lia).
  rewrite (run_add 2), (run_add 2), (run_add 2), (run_add (4 * bss_words + 1) 2).
  destruct (la_steps 0 0 8 sp (stack_top y) r c d s) as (r1 & -> & E1 & F1); try done.
  match goal with |- context [run 2 (Arch r1 8 ?c' d s)] =>
    destruct (la_steps 2 8 16 t0 (bss_start y) r1 c' d s) as (r2 & -> & E2 & F2); try done end.
  match goal with |- context [run 2 (Arch r2 16 ?c' d s)] =>
    destruct (la_steps 4 16 24 t1 (bss_end y) r2 c' d s) as (r3 & -> & E3 & F3); try done end.
  match goal with |- context [Arch r3 24 ?c' d s] =>
    destruct (clear_loop bss_words r3 c' d s (bss_start y)) as (r4 & f & -> & F4 & Hf) end;
    [by rewrite F3 | done | done | done | unfold UART_TX_MMIO_ADDR; lia | unfold bss_words; Z.div_mod_to_equations; lia |].
  exec 10%nat. settle. exec 11%nat.
  rewrite !set_reg_eq, pcrel_sum by done.
  assert (main_addr y mod 2 = 0) as -> by (Z.div_mod_to_equations; lia). rewrite Z.sub_0_r, Hmal. settle.
  eexists _, f. split_and!.
  - replace (2 + (2 + (2 + (4 * bss_words + 1 + 2))))%nat with (2 + ((4 * bss_words + 1) + 6))%nat by lia.
    rewrite (Nat.iter_add 2), (Nat.iter_add (4 * bss_words + 1)). reflexivity.
  - rewrite !set_reg_ne, F4, F3, F2 by done. done.
  - by rewrite set_reg_eq.
  - intros x Hx. rewrite !not_elem_of_cons in Hx. destruct Hx as (? & ? & ? & ? & _).
    by rewrite !set_reg_ne, F4, F3, F2, F1.
  - intros b. apply Hf.
Qed.

(** After a return from [main]: four instructions to the signal, then the
    endless loop. *)
Lemma finish_run r c d s k :
  symbols_ok y -> exists r' c',
    run (4 + k) (Arch r 48 c d s) = Arch r' 64 c' (SMem (ram d) 1) s.
Proof.
  intros (_ & _ & _ & _ & _ & _ & Ht). change (4 + k)%nat with (S (2 + S k)).
  exec 12%nat. settle. rewrite (run_add 2).
  match goal with |- context [run 2 (Arch ?r1 52 ?c1 d s)] =>
    destruct (la_steps 13 52 60 t1 (tohost_addr y) r1 c1 d s) as (r2 & -> & E2 & F2); try done end.
  { rewrite Ht. unfold in_u, TOHOST_MMIO_ADDR. lia. }
  exec 15%nat. rewrite E2, F2, Ht by done. settle. 
  change (aligned MEM_WORD ((TOHOST_MMIO_ADDR + 0) mod 2 ^ 32)) with true. settle.
  change (serve d _) with (@None Z, @None Z, SMem (ram d) 1). settle.
  generalize (retire (retire (retire (retire c)))) as c1. clear -Hcode.
  induction k as [| k IH]; intros c1; [by eexists _, _ |].
  exec 16%nat. settle. apply IH.
Qed.
End run.

(** ** The program in the memories *)

(** The binary of the instruction memory starts with the start-up code. *)
Definition linked (y : symbols) (words : list Z) : Prop :=
  exists rest, Forall (in_u 8) (assemble (start y) ++ rest) /\
    image (assemble (start y) ++ rest) (4 * INS_WORD_COUNT) = Some words.

Lemma linked_code y words :
  linked y words -> forall n i, start y !! n = Some i -> fetched words (4 * Z.of_nat n) = encode i.
Proof.
  intros (rest & Hb & Hi) n i Hn. unfold fetched. replace (4 * Z.of_nat n) with (Z.of_nat (length (@nil Z) + 4 * n)) by (cbn [length]; lia).
  eapply (image_fetch _ words [] (start y) rest); [done | done | done | done | apply start_ok | done].
Qed.

(** C27: the start-up code prepares the run.  When [.bss] is word-aligned and
    ends below the host registers ([symbols_ok]), from the reset vector, with any
    contents of registers and memory, the machine reaches [main] after
    [9 + 4 * bss_words] instructions, without a trap: the stack pointer is
    [__stack_top], the return address is behind the call, exactly the words of
    [.bss] are zero (up to the word in which [__bss_end] lies), every other
    byte, [tohost] and all registers but sp, ra, t0 and t1 are untouched, nothing
    was sent, and the CSR file has taken one cycle with one retirement for each
    of the instructions ([retire]). *)
Theorem start_prepares HART_ID MISA_VALUE words y r c d s :
  linked y words -> symbols_ok y ->
  let n := (9 + 4 * bss_words y)%nat in
  let m := steps HART_ID MISA_VALUE words n (Arch r 0 c d s) in
  pc m = main_addr y /\ regs m sp = stack_top y /\ regs m ra = 48 /\
  (forall x, x ∉ [ra; sp; t0; t1] -> regs m x = r x) /\
  (forall b, ram (data m) b = cleared (bss_start y) (bss_start y + 4 * Z.of_nat (bss_words y)) (ram d) b) /\
  tohost (data m) = tohost d /\ sent m = s /\ csr_file m = Nat.iter n (retire HART_ID MISA_VALUE) c.
Proof.
  intros Hl Hy. destruct (start_run HART_ID MISA_VALUE words y (linked_code y words Hl) r c d s Hy)
    as (r' & f & E & H1 & H2 & H3 & H4). cbv zeta in *. rewrite E. by split_and!.
Qed.

(** If [main] returns, the run is over.  From the return address, [tohost]
    is 1 after four instructions and stays 1 for ever; memory is unchanged and
    nothing is sent. *)
Theorem start_finishes HART_ID MISA_VALUE words y r c d s k :
  linked y words -> symbols_ok y ->
  let m := steps HART_ID MISA_VALUE words (4 + k) (Arch r 48 c d s) in
  pc m = 64 /\ tohost (data m) = 1 /\ ram (data m) = ram d /\ sent m = s.
Proof.
  intros Hl Hy. destruct (finish_run HART_ID MISA_VALUE words y (linked_code y words Hl) r c d s k Hy)
    as (r' & c' & E). cbv zeta in *. by rewrite E.
Qed.

(** ** Witnesses *)

(** [.bss] at 0x1000 with a length that is not a multiple of four. *)
Definition demo_symbols : symbols := Symbols 0xffc0 0x1000 0x1006 0x44 TOHOST_MMIO_ADDR.
Definition demo_words : list Z := default [] (image (assemble (start demo_symbols) ++ []) (4 * INS_WORD_COUNT)).

Lemma demo_linked : linked demo_symbols demo_words.
Proof.
  exists []. split.
  - rewrite app_nil_r. apply Forall_flat_map, Forall_forall. intros i _. unfold insn_bytes.
    repeat (apply Forall_cons_2; [apply byte_of_range |]). constructor.
  - vm_compute. reflexivity.
Qed.

Lemma demo_symbols_ok : symbols_ok demo_symbols.
Proof. unfold symbols_ok, in_u, UART_TX_MMIO_ADDR. cbn [stack_top bss_start bss_end main_addr tohost_addr demo_symbols]. split_and!; (lia || reflexivity). Qed.

Lemma start_prepares_witness :
  let m := steps 0 0x40000100 demo_words 17 (Arch (fun _ => 7) 0 (csr_reset 0) (SMem (fun _ => 9) 0) []) in
  pc m = 0x44 /\ regs m sp = 0xffc0 /\ ram (data m) 0x1007 = 0 /\ ram (data m) 0x1008 = 9.
Proof.
  pose proof (start_prepares 0 0x40000100 demo_words demo_symbols (fun _ => 7) (csr_reset 0)
    (SMem (fun _ => 9) 0) [] demo_linked demo_symbols_ok) as H.
  change (9 + 4 * bss_words demo_symbols)%nat with 17%nat in H. cbv zeta in *.
  destruct H as (Hpc & Hsp & _ & _ & Hram & _). rewrite Hpc, Hsp, !Hram. repeat split; reflexivity.
Defined.

(** The bound on [.bss] is needed: link.ld accepts a [.bss] up to the end of the
    data memory, and then the clearing loop stores to [uart_tx] and [tohost]: it
    sends a NUL to the console and never clears the bytes there. *)
Definition high_symbols : symbols := Symbols 0xffc0 0xffd8 0x10000 0x44 TOHOST_MMIO_ADDR.
Definition high_words : list Z := default [] (image (assemble (start high_symbols) ++ []) (4 * INS_WORD_COUNT)).

Example bss_over_host_registers :
  let m := steps 0 0x40000100 high_words 49 (Arch (fun _ => 7) 0 (csr_reset 0) (SMem (fun _ => 9) 7) []) in
  pc m = 0x44 /\ sent m = [0] /\ ram (data m) 0xffe0 = 9 /\ tohost (data m) = 0.
Proof. vm_compute. done. Qed.

Lemma start_finishes_witness :
  let m := steps 0 0x40000100 demo_words (4 + 100) (Arch (fun _ => 7) 48 (csr_reset 0) (SMem (fun _ => 9) 0) []) in
  pc m = 64 /\ tohost (data m) = 1 /\ ram (data m) = (fun _ => 9) /\ sent m = [].
Proof.
  apply (start_finishes 0 0x40000100 demo_words demo_symbols (fun _ => 7) (csr_reset 0)
    (SMem (fun _ => 9) 0) [] 100 demo_linked demo_symbols_ok).
Defined.
