(* ===== verification/SimArgs.v ===== *)
(** * The command line of the Verilator harness: sim_main.cpp

    Options come from the environment and from the arguments.  A C string is
    the list of its characters, without the terminating NUL.  [strtoull] is the
    C library's, with base 0. *)

From Stdlib Require Import String ZArith Lia.
From stdpp Require Import base list numbers.
From S2P Require Import Prelude PortIO Printf.

Local Open Scope Z_scope.

(** ** [strtoull(text, &end, 0)] *)

Definition isspace (c : Z) : bool := (c =? 32) || ((9 <=? c) && (c <=? 13)).

(** The value of a digit in bases up to 16. *)
Definition digit_of (c : Z) : option Z :=
  if (48 <=? c) && (c <=? 57) then Some (c - 48)
  else if (97 <=? c) && (c <=? 102) then Some (c - 87)
  else if (65 <=? c) && (c <=? 70) then Some (c - 55)
  else None.

Definition is_digit_in (base c : Z) : bool :=
  match digit_of c with Some d => d <? base | None => false end.

Fixpoint take_digits (base : Z) (l : list Z) : list Z :=
  match l with
  | c :: l => if is_digit_in base c then default 0 (digit_of c) :: take_digits base l else []
  | [] => []
  end.

Fixpoint skip_spaces (l : list Z) : list Z :=
  match l with c :: l' => if isspace c then skip_spaces l' else l | [] => [] end.

(** The base that the prefix selects, and the rest. *)
Definition detect_base (l : list Z) : Z * list Z :=
  match l with
  | z :: l1 =>
      if negb (z =? 48) then (10, l)
      else match l1 with
           | x :: c :: l2 =>
               if ((x =? 120) || (x =? 88)) && is_digit_in 16 c then (16, c :: l2) else (8, l)
           | _ => (8, l)
           end
  | [] => (10, l)
  end.

Definition split_sign (l : list Z) : bool * list Z :=
  match l with
  | c :: l' => if c =? 45 then (true, l') else if c =? 43 then (false, l') else (false, l)
  | [] => (false, [])
  end.

(** The value, and whether [end != text]. *)
Definition strtoull (text : list Z) : Z * bool :=
  let '(neg, l) := split_sign (skip_spaces text) in
  let '(base, l) := detect_base l in
  match take_digits base l with
  | [] => (0, false)
  | ds =>
      let v := of_digits base ds in
      (if 2 ^ 64 <=? v then 2 ^ 64 - 1 else if (neg : bool) then u64 (- v) else v, true)
  end.

(** ** Options *)

Definition parse_u64 (text : list Z) (fallback : Z) : Z :=
  let '(value, moved) := strtoull text in if (moved : bool) then value else fallback.

Definition kDefaultMaxCycles : Z := 10000000.

(** [strncmp(arg, prefix, strlen(prefix)) == 0] *)
Definition starts_with (prefix arg : list Z) : bool := bool_decide (take (length prefix) arg = prefix).
Definition streq (a : list Z) (b : string) : bool := bool_decide (a = bytes b).

Section options.
Context (getenv : string -> option (list Z)).
Context (argv : list (list Z)).

Definition plus_prefix : list Z := bytes "+max-cycles=".
Definition dash_prefix : list Z := bytes "--max-cycles=".

(** The effect of one argument on the limit. *)
Definition max_cycles_arg (max_cycles : Z) (arg : list Z) : Z :=
  if starts_with plus_prefix arg
  then parse_u64 (drop (length plus_prefix) arg) max_cycles
  else if starts_with dash_prefix arg
  then parse_u64 (drop (length dash_prefix) arg) max_cycles
  else max_cycles.

Definition get_max_cycles : Z :=
  let max_cycles := match getenv "SIM_MAX_CYCLES" with
                    | Some t => parse_u64 t kDefaultMaxCycles
                    | None => kDefaultMaxCycles
                    end in
  fold_left max_cycles_arg (tail argv) max_cycles.

Definition trace_enabled : bool :=
  match getenv "SIM_TRACE" with
  | Some t => negb (streq t "0")
  | None => false
  end || existsb (fun arg => streq arg "+trace" || streq arg "--trace") (tail argv).

Definition pipe_dump_arg (enable_dump : bool) (arg : list Z) : bool :=
  if streq arg "+pipe-dump" || streq arg "--pipe-dump" then true
  else if streq arg "+no-pipe-dump" || streq arg "--no-pipe-dump" then false
  else enable_dump.

Definition pipe_dump_enabled : bool :=
  fold_left pipe_dump_arg (tail argv)
    (match getenv "SIM_PIPE_DUMP" with Some t => negb (streq t "0") | None => true end).
End options.

(** ** Properties *)

Lemma take_digits_range base l : 0 <= base -> Forall (fun d => 0 <= d < base) (take_digits base l).
Proof.
  intros Hb. induction l as [| c l IH]; cbn; [constructor |]. unfold is_digit_in.
  destruct (digit_of c) as [d |] eqn:Ed; [| constructor].
  destruct (Z.ltb_spec d base); [| constructor]. constructor; [| done]. cbn.
  split; [| done]. unfold digit_of in Ed.
  repeat case_match; simplify_eq; rewrite ?andb_true_iff, ?Z.leb_le in *; lia.
Qed.

Lemma strtoull_range text : in_u 64 (strtoull text).1.
Proof.
  unfold strtoull. destruct (split_sign _) as [neg l].
  destruct (detect_base l) as [base l'] eqn:Eb.
  assert (0 < base) as Hb by (unfold detect_base in Eb; repeat case_match; simplify_eq; lia).
  pose proof (take_digits_range base l' ltac:(lia)) as Hr.
  destruct (take_digits base l') as [| d ds]; [cint_unfold; cbn; lia |].
  pose proof (of_digits_range base (d :: ds) Hb Hr) as Hn. cbn [fst].
  destruct (Z.leb_spec (2 ^ 64) (of_digits base (d :: ds))); [cint_unfold; lia |].
  destruct neg; [by apply uwrap_range | cint_unfold; lia].
Qed.

Lemma parse_u64_range text fallback : in_u 64 fallback -> in_u 64 (parse_u64 text fallback).
Proof.
  intros H. unfold parse_u64. pose proof (strtoull_range text). by destruct (strtoull text) as [v []].
Qed.

Lemma digit_of_char d : 0 <= d < 10 -> digit_of (digit_char d) = Some d.
Proof.
  intros Hd. unfold digit_of, digit_char. rewrite (proj2 (Z.ltb_lt d 10)) by lia.
  unfold ch_zero. replace (s8 (48 + d)) with (48 + d) by cint_lia.
  rewrite (proj2 (Z.leb_le _ _)), (proj2 (Z.leb_le _ _)) by lia. cbn. f_equal. lia.
Qed.

Lemma take_digits_numeral ds :
  Forall (fun d => 0 <= d < 10) ds -> take_digits 10 (map digit_char ds) = ds.
Proof.
  induction 1 as [| d ds Hd _ IH]; cbn [map take_digits]; [done |]. unfold is_digit_in.
  rewrite digit_of_char, (proj2 (Z.ltb_lt d 10)), IH by lia. done.
Qed.

(** A decimal numeral is read as its value. *)
Lemma strtoull_numeral v ds :
  in_u 64 v -> numeral 10 v ds -> strtoull (map digit_char ds) = (v, true).
Proof.
  intros Hv (Hr & E & Hd). destruct Hd as [-> | (d & ds' & -> & Hd)]; [by rewrite <- E |].
  pose proof (take_digits_numeral _ Hr) as Ht. pose proof (Forall_inv Hr) as Hd0. cbn beta in Hd0.
  assert (digit_char d = 48 + d) as Ec.
  { unfold digit_char. rewrite (proj2 (Z.ltb_lt d 10)) by lia. unfold ch_zero. cint_lia. }
  unfold strtoull. cbn [map skip_spaces] in *. rewrite Ec in *. unfold isspace.
  rewrite (proj2 (Z.eqb_neq _ 32)), (proj2 (Z.leb_le 9 _)), (proj2 (Z.leb_gt _ 13)) by lia.
  cbn [orb andb split_sign]. rewrite (proj2 (Z.eqb_neq _ 45)), (proj2 (Z.eqb_neq _ 43)) by lia.
  cbn [detect_base]. rewrite (proj2 (Z.eqb_neq _ 48)) by lia. cbn [negb]. rewrite Ht, E.
  rewrite (proj2 (Z.leb_gt _ _)) by (cint_unfold; lia). done.
Qed.

(** Arguments that do not set the limit. *)
Definition other_option (arg : list Z) : bool :=
  negb (starts_with plus_prefix arg) && negb (starts_with dash_prefix arg).

Lemma max_cycles_others n args :
  forallb other_option args = true -> fold_left max_cycles_arg args n = n.
Proof.
  revert n. induction args as [| arg args IH]; intros n H; cbn in *; [done |].
  apply andb_prop in H as [H1 H2]. unfold other_option in H1. apply andb_prop in H1 as [Ha Hb].
  unfold max_cycles_arg at 2. rewrite negb_true_iff in Ha, Hb. rewrite Ha, Hb. by apply IH.
Qed.

Lemma starts_with_app p l : starts_with p (p ++ l) = true.
Proof. unfold starts_with. apply bool_decide_eq_true. by rewrite take_app_length. Qed.

Lemma max_cycles_in_range getenv argv : in_u 64 (get_max_cycles getenv argv).
Proof.
  unfold get_max_cycles.
  assert (forall args n, in_u 64 n -> in_u 64 (fold_left max_cycles_arg args n)) as Hf.
  { induction args as [| arg args IH]; intros n Hn; cbn; [done |]. apply IH.
    unfold max_cycles_arg. repeat case_match; try done; by apply parse_u64_range. }
  apply Hf. destruct (getenv _); [apply parse_u64_range |]; cint_unfold; unfold kDefaultMaxCycles; lia.
Qed.

(** The cycle limit.  The limit is always a 64-bit number, and the last
    option that sets it, in either spelling, wins over earlier ones and over
    the environment: the decimal numeral of any 64-bit number is read as that
    number. *)
Theorem max_cycles_last_wins getenv prog pre post v ds (dash : bool) :
  in_u 64 v -> numeral 10 v ds -> forallb other_option post = true ->
  get_max_cycles getenv
    (prog :: pre ++ ((if dash then dash_prefix else plus_prefix) ++ map digit_char ds) :: post) = v.
Proof.
  intros Hv Hn Hp. unfold get_max_cycles. cbn [tail]. rewrite fold_left_app. cbn [fold_left].
  rewrite max_cycles_others by done. unfold max_cycles_arg at 1.
  assert (forall l, starts_with plus_prefix (dash_prefix ++ l) = false) as Hd by done.
  destruct dash; [rewrite Hd |]; rewrite starts_with_app, drop_app_length; unfold parse_u64;
    by rewrite (strtoull_numeral v).
Qed.

Lemma max_cycles_last_wins_witness :
  get_max_cycles (fun _ => Some (bytes "77"))
    (bytes "sim" :: [bytes "+max-cycles=5"] ++
       (dash_prefix ++ map digit_char [2; 5; 0]) :: [bytes "+trace"]) = 250.
Proof.
  apply (max_cycles_last_wins (fun _ => Some (bytes "77")) (bytes "sim") [bytes "+max-cycles=5"]
    [bytes "+trace"] 250 [2; 5; 0] true).
  - cint_unfold. lia.
  - split; [repeat constructor; lia |]. split; [reflexivity |]. right. by exists 2, [5; 0].
  - reflexivity.
Defined.
