(* ===== verification/Sim.v ===== *)
(** * The Verilator harness: sim_main.cpp

    The harness clocks the Verilator model of the processor, copies the bytes
    of its UART to the console and to a log file, accumulates statistics, dumps
    the pipeline, and ends when the program writes tohost, when the design
    calls $finish, or at the cycle limit.  The model of the processor is
    generated code that is not in the repository: its state, [eval] and signals
    are parameters, and so is what the operating system answers to [fopen] and
    [getenv]. *)

From Stdlib Require Import String ZArith Lia.
From stdpp Require Import base list numbers.
From S2P Require Import Prelude PortIO Util HostPrintf SimArgs.

Local Open Scope Z_scope.
Local Open Scope cm_scope.

(** ** Data *)

(** The signals of [VtopCPU] that the harness reads. *)
Inductive signal :=
  | dbg_stall | dbg_flush | dbg_globalFlush | dbg_recoverValid | dbg_recoverRobTag | dbg_robCount
  | dbg_issueCount | dbg_lsqCount | toHost_o | uartValid_o | uartData_o | checkPC | check
  | checkData | dbg_if_valid | dbg_if_pc | dbg_if_insn | dbg_if1_valid | dbg_if1_pc
  | dbg_if1_insn | dbg_id_valid | dbg_id_pc | dbg_id_insn | dbg_id_rd | dbg_id_regWrite
  | dbg_id_memWrite | dbg_id_branchCtr | dbg_id_aluCtr | dbg_id_memCtr | dbg_id_regA
  | dbg_id_regB | dbg_id_imm | dbg_id1_valid | dbg_id1_pc | dbg_id1_insn | dbg_id1_rd
  | dbg_id1_regWrite | dbg_id1_memWrite | dbg_id1_branchCtr | dbg_id1_aluCtr | dbg_id1_memCtr
  | dbg_id1_regA | dbg_id1_regB | dbg_id1_imm | dbg_dispatch0Valid | dbg_dispatch0RobTag
  | dbg_dispatch0Pc | dbg_dispatch0Insn | dbg_dispatch0Fu | dbg_dispatch1Valid
  | dbg_dispatch1RobTag | dbg_dispatch1Pc | dbg_dispatch1Insn | dbg_dispatch1Fu
  | dbg_oooIssue0Valid | dbg_oooIssue0RobTag | dbg_oooIssue0Pc | dbg_oooIssue0Fu
  | dbg_oooIssue1Valid | dbg_oooIssue1RobTag | dbg_oooIssue1Pc | dbg_oooIssue1Fu
  | dbg_oooIssueFallbackValid | dbg_oooIssueFallbackRobTag | dbg_oooIssueFallbackPc
  | dbg_oooIssueFallbackFu | dbg_complete0Valid | dbg_complete0RobTag | dbg_complete0Exception
  | dbg_complete0Value | dbg_complete1Valid | dbg_complete1RobTag | dbg_complete1Exception
  | dbg_complete1Value | dbg_commit0Valid | dbg_commit0RobTag | dbg_commit0Pc | dbg_commit0Rd
  | dbg_commit0Data | dbg_commit1Valid | dbg_commit1RobTag | dbg_commit1Pc | dbg_commit1Rd
  | dbg_commit1Data | dbg_retireCount | dbg_scOverrideEvent | dbg_scCorrectEvent
  | dbg_scHarmEvent | dbg_scFamilyCorrectSupport | dbg_scFamilyHarmSupport | dbg_loopHitEvent
  | dbg_loopConfidentEvent | dbg_loopOverrideEvent | dbg_loopCorrectEvent | dbg_loopHarmEvent
  | dbg_loopTripMismatchEvent | dbg_branchTrainValid | dbg_branchTrainPc | dbg_branchTrainHistory
  | dbg_branchTrainPathHistory | dbg_branchTrainTagePrediction | dbg_branchTrainFinalPrediction
  | dbg_branchTrainTaken | dbg_branchTrainStrong | dbg_branchTrainScLowConfidence
  | dbg_perfDualIssueCycles | dbg_perfSingleIssueCycles | dbg_perfIqNoReadyCycles
  | dbg_perfPort0LsuBlockedCycles | dbg_perfPort0BranchBlockedCycles
  | dbg_perfLsqOrderBlockedCycles | dbg_perfStoreBufferAliasBlockedCycles
  | dbg_perfMmioOrderBlockedCycles | dbg_perfDcacheRequestBlockedCycles
  | dbg_perfLsuInternalBlockedCycles | dbg_perfLsuFallbackCycles | dbg_perfRobFullCycles
  | dbg_perfIqFullCycles | dbg_perfLsqFullCycles | dbg_perfPrfEmptyCycles | dbg_perfBranchCount
  | dbg_perfBranchMispredictCount | dbg_perfJumpSerializationCycles | dbg_perfConditionalCount
  | dbg_perfConditionalMispredictCount | dbg_perfDirectionMispredictCount
  | dbg_perfTargetMispredictCount | dbg_perfBtbMissCount | dbg_perfJalMispredictCount
  | dbg_perfJalrMispredictCount | dbg_perfRasMissCount | dbg_perfDcacheLoadHits
  | dbg_perfDcacheLoadMisses | dbg_perfIcacheRequests | dbg_perfIcacheHits | dbg_perfIcacheMisses
  | dbg_perfIcacheLineMisses | dbg_perfIcacheMissStallCycles | dbg_perfIcacheRefillLines
  | dbg_perfIcacheRefillCycles | dbg_perfIcacheCrosslineMisses
  | dbg_perfIcacheResponseBackpressureCycles | dbg_perfDcacheRequests | dbg_perfDcacheStoreHits
  | dbg_perfDcacheStoreMisses | dbg_perfDcacheMmioRequests | dbg_perfDcacheBusyCycles
  | dbg_perfDcacheRefillLines | dbg_perfDcacheRefillCycles
  | dbg_perfDcacheRequestBackpressureCycles | dbg_perfStoreCommitStallCycles.

(** The inputs that it drives. *)
Record tpins := TPins { t_clk : bool; t_rst : bool; t_fromHost : Z }.

(** A [FILE]: is it open, and what was written to it. *)
Record file := File { is_open : bool; ftext : list Z }.
Inductive stream := LogFile | PipeFile | BranchFile.

Definition kTohostPassValue : Z := 1.
Definition kSimulationLogFileName : list Z := bytes "build/traces/simulation_output.txt".
Definition kPipeDumpFileName : list Z := bytes "build/traces/topCPU_tb_output.txt".

(** The local counters of [main]. *)
Record stats := Stats {
  cycle_count : Z; retired_instructions : Z;
  n_sc_overrides : Z; n_sc_corrections : Z; n_sc_harms : Z;
  sc_family_correct_support : list Z; sc_family_harm_support : list Z;
  n_loop_hits : Z; n_loop_confident : Z; n_loop_overrides : Z; n_loop_corrections : Z;
  n_loop_harms : Z; n_loop_trip_mismatches : Z;
  tohost : Z; timed_out : bool
}.
Definition stats0 : stats :=
  Stats 0 0 0 0 0 (replicate 5 0) (replicate 5 0) 0 0 0 0 0 0 0 true.

Definition b2z (b : bool) : Z := if b then 1 else 0.

Section sim.
Context {V : Type} (v_new : V) (v_eval : tpins -> V -> V) (sig : signal -> V -> Z).
Context (finished : V -> bool).                    (* gotFinish() *)
Context (getenv : string -> option (list Z)) (argv : list (list Z)).
Context (can_open : stream -> bool).               (* does fopen succeed? *)

(** What the program owns and has written. *)
Record sim := Sim {
  context : option Z;                (* *contextp: the simulation time *)
  top : option (tpins * V);          (* *topCPU *)
  vcd : option (list Z);             (* *tfp: the times dumped *)
  out : list Z; errs : list Z;       (* stdout, stderr *)
  flog : file; fpipe : file; fbranch : file
}.
Definition sim0 : sim := Sim None None None [] [] (File false []) (File false []) (File false []).

Definition get_file (s : stream) (a : sim) : file :=
  match s with LogFile => flog a | PipeFile => fpipe a | BranchFile => fbranch a end.
Definition set_file (s : stream) (f : file) (a : sim) : sim :=
  match s with
  | LogFile => Sim (context a) (top a) (vcd a) (out a) (errs a) f (fpipe a) (fbranch a)
  | PipeFile => Sim (context a) (top a) (vcd a) (out a) (errs a) (flog a) f (fbranch a)
  | BranchFile => Sim (context a) (top a) (vcd a) (out a) (errs a) (flog a) (fpipe a) f
  end.
Definition set_context (c : option Z) (a : sim) : sim :=
  Sim c (top a) (vcd a) (out a) (errs a) (flog a) (fpipe a) (fbranch a).
Definition set_top (t : option (tpins * V)) (a : sim) : sim :=
  Sim (context a) t (vcd a) (out a) (errs a) (flog a) (fpipe a) (fbranch a).
Definition set_vcd (t : option (list Z)) (a : sim) : sim :=
  Sim (context a) (top a) t (out a) (errs a) (flog a) (fpipe a) (fbranch a).
Definition set_out (t : list Z) (a : sim) : sim :=
  Sim (context a) (top a) (vcd a) t (errs a) (flog a) (fpipe a) (fbranch a).
Definition set_errs (t : list Z) (a : sim) : sim :=
  Sim (context a) (top a) (vcd a) (out a) t (flog a) (fpipe a) (fbranch a).

(** ** The C library and the model object *)

Definition fopen (s : stream) : M sim (option stream) :=
  if can_open s then modify (set_file s (File true [])) ;; ret (Some s) else ret None.
(** Writing to a closed file is a fault. *)
Definition fwrite (s : stream) (t : list Z) : M sim unit :=
  let! a := gets (fun a => a) in
  let f := get_file s a in
  if is_open f then modify (set_file s (File true (ftext f ++ t))) else fail NullDeref.
Definition fprintf (s : stream) (fmt : string) (args : list harg) : M sim unit :=
  let! t := oget OutOfBounds (cprintf fmt args) in fwrite s t.
Definition fclose (s : stream) : M sim unit :=
  let! a := gets (fun a => a) in
  let f := get_file s a in
  if is_open f then modify (set_file s (File false (ftext f))) else fail NullDeref.
Definition put_out (t : list Z) : M sim unit := modify (fun a => set_out (out a ++ t) a).
Definition put_err (t : list Z) : M sim unit := modify (fun a => set_errs (errs a ++ t) a).

Definition get_top : M sim (tpins * V) := let! a := gets (fun a => a) in oget NullDeref (top a).
Definition drive (f : tpins -> tpins) : M sim unit :=
  let! (p, v) := get_top in modify (set_top (Some (f p, v))).
Definition eval : M sim unit :=
  let! (p, v) := get_top in modify (set_top (Some (p, v_eval p v))).
Definition time : M sim Z := let! a := gets (fun a => a) in oget NullDeref (context a).
Definition timeInc : M sim unit := let! t := time in modify (set_context (Some (u64 (t + 1)))).

(** ** Functions *)

Definition log_both (log_file : option stream) (fmt : string) (args : list harg) : M sim unit :=
  let! t := oget OutOfBounds (cprintf fmt args) in
  put_out t ;;
  match log_file with Some f => fwrite f t | None => ret tt end.

Definition write_pipe_dump_header (dump_file : option stream) (max_cycles : Z) : M sim unit :=
  match dump_file with
  | None => ret tt
  | Some f =>
      fprintf f ("TB_PIPE_DUMP_V2" ++ nl) [] ;;
      fprintf f ("META clk_period_ns=10 reset_vector=0x%08x" ++ nl) [HInt 0] ;;
      fprintf f ("META max_cycles=%llu" ++ nl) [HInt max_cycles] ;;
      fprintf f ("META dump_path=%s" ++ nl) [HStr kPipeDumpFileName] ;;
      fprintf f ("META notes=Use tb_dump_to_konata.py to convert this dump to Konata format" ++ nl) []
  end.

(** The UART shows a byte other than a carriage return. *)
Definition uart_visible (v : V) : bool :=
  truth (sig uartValid_o v) && negb (u8 (sig uartData_o v) =? ch_cr).

Definition dump_pipeline_snapshot (dump_file : option stream) (cycle_count sim_time : Z)
  : M sim unit :=
  match dump_file with
  | None => ret tt
  | Some f =>
    let! (p, v) := get_top in
    let g s := HInt (sig s v) in
    fprintf f ("SNAPSHOT cycle=%llu time=%llu rst=%u stall=%u frontendFlush=%u " ++
         "globalFlush=%u recover=%u recoverTag=%u robCount=%u iqCount=%u " ++
         "lsqCount=%u toHost=0x%08x uartValid=%u uartData=0x%02x checkPC=0x%08x " ++
         "check=0x%08x checkData=0x%08x" ++ nl)
        [HInt cycle_count; HInt sim_time; HInt (b2z (t_rst p)); g dbg_stall; g dbg_flush;
         g dbg_globalFlush; g dbg_recoverValid; g dbg_recoverRobTag; g dbg_robCount;
         g dbg_issueCount; g dbg_lsqCount; g toHost_o; g uartValid_o; g uartData_o; g checkPC;
         g check; g checkData] ;;
    fprintf f ("IF0 valid=%u pc=0x%08x insn=0x%08x" ++ nl)
        [g dbg_if_valid; g dbg_if_pc; g dbg_if_insn] ;;
    fprintf f ("IF1 valid=%u pc=0x%08x insn=0x%08x" ++ nl)
        [g dbg_if1_valid; g dbg_if1_pc; g dbg_if1_insn] ;;
    fprintf f ("ID0 valid=%u pc=0x%08x insn=0x%08x rd=%u regWrite=%u memWrite=%u " ++
         "branchCtr=%u aluCtr=%u memCtr=%u regA=%u regB=%u imm=0x%08x" ++ nl)
        [g dbg_id_valid; g dbg_id_pc; g dbg_id_insn; g dbg_id_rd; g dbg_id_regWrite;
         g dbg_id_memWrite; g dbg_id_branchCtr; g dbg_id_aluCtr; g dbg_id_memCtr; g dbg_id_regA;
         g dbg_id_regB; g dbg_id_imm] ;;
    fprintf f ("ID1 valid=%u pc=0x%08x insn=0x%08x rd=%u regWrite=%u memWrite=%u " ++
         "branchCtr=%u aluCtr=%u memCtr=%u regA=%u regB=%u imm=0x%08x" ++ nl)
        [g dbg_id1_valid; g dbg_id1_pc; g dbg_id1_insn; g dbg_id1_rd; g dbg_id1_regWrite;
         g dbg_id1_memWrite; g dbg_id1_branchCtr; g dbg_id1_aluCtr; g dbg_id1_memCtr;
         g dbg_id1_regA; g dbg_id1_regB; g dbg_id1_imm] ;;
    fprintf f ("DISPATCH0 valid=%u tag=%u pc=0x%08x insn=0x%08x fu=%u" ++ nl)
        [g dbg_dispatch0Valid; g dbg_dispatch0RobTag; g dbg_dispatch0Pc; g dbg_dispatch0Insn;
         g dbg_dispatch0Fu] ;;
    fprintf f ("DISPATCH1 valid=%u tag=%u pc=0x%08x insn=0x%08x fu=%u" ++ nl)
        [g dbg_dispatch1Valid; g dbg_dispatch1RobTag; g dbg_dispatch1Pc; g dbg_dispatch1Insn;
         g dbg_dispatch1Fu] ;;
    fprintf f ("ISSUE0 valid=%u tag=%u pc=0x%08x fu=%u" ++ nl)
        [g dbg_oooIssue0Valid; g dbg_oooIssue0RobTag; g dbg_oooIssue0Pc; g dbg_oooIssue0Fu] ;;
    fprintf f ("ISSUE1 valid=%u tag=%u pc=0x%08x fu=%u" ++ nl)
        [g dbg_oooIssue1Valid; g dbg_oooIssue1RobTag; g dbg_oooIssue1Pc; g dbg_oooIssue1Fu] ;;
    fprintf f ("ISSUEF valid=%u tag=%u pc=0x%08x fu=%u" ++ nl)
        [g dbg_oooIssueFallbackValid; g dbg_oooIssueFallbackRobTag; g dbg_oooIssueFallbackPc;
         g dbg_oooIssueFallbackFu] ;;
    fprintf f ("COMPLETE0 valid=%u tag=%u exception=%u value=0x%08x" ++ nl)
        [g dbg_complete0Valid; g dbg_complete0RobTag; g dbg_complete0Exception;
         g dbg_complete0Value] ;;
    fprintf f ("COMPLETE1 valid=%u tag=%u exception=%u value=0x%08x" ++ nl)
        [g dbg_complete1Valid; g dbg_complete1RobTag; g dbg_complete1Exception;
         g dbg_complete1Value] ;;
    fprintf f ("COMMIT0 valid=%u tag=%u pc=0x%08x rd=%u data=0x%08x" ++ nl)
        [g dbg_commit0Valid; g dbg_commit0RobTag; g dbg_commit0Pc; g dbg_commit0Rd;
         g dbg_commit0Data] ;;
    fprintf f ("COMMIT1 valid=%u tag=%u pc=0x%08x rd=%u data=0x%08x" ++ nl)
        [g dbg_commit1Valid; g dbg_commit1RobTag; g dbg_commit1Pc; g dbg_commit1Rd;
         g dbg_commit1Data] ;;
    (if uart_visible v then
       fprintf f ("EVENT kind=uart cycle=%llu data=0x%02x" ++ nl) [HInt cycle_count; g uartData_o]
     else ret tt) ;;
    (if negb (u32 (sig toHost_o v) =? 0) then
       fprintf f ("EVENT kind=tohost cycle=%llu data=0x%08x" ++ nl) [HInt cycle_count; g toHost_o]
     else ret tt) ;;
    fprintf f ("ENDSNAPSHOT" ++ nl) []
  end.

(** [tfp] is not null exactly when [vcd] holds a trace. *)
Definition dump_trace : M sim unit :=
  let! a := gets (fun a => a) in
  match vcd a with
  | Some ts => let! t := time in modify (set_vcd (Some (ts ++ [t])))
  | None => ret tt
  end ;;
  timeInc.

Definition eval_half_cycle (clk : bool) : M sim unit :=
  drive (fun p => TPins clk (t_rst p) (t_fromHost p)) ;; eval ;; dump_trace.

Definition eval_cycle : M sim unit := eval_half_cycle false ;; eval_half_cycle true.

(** ** [main] *)

(** The statistics of one cycle. *)
Definition add_families (support : Z) (l : list Z) : list Z :=
  imap (fun family n => u64 (n + Z.land (Z.shiftr support (Z.of_nat family)) 1)) l.

Definition accumulate (v : V) (s : stats) : stats :=
  let add n x := u64 (n + u64 (sig x v)) in
  Stats (cycle_count s)
    (add (retired_instructions s) dbg_retireCount)
    (add (n_sc_overrides s) dbg_scOverrideEvent)
    (add (n_sc_corrections s) dbg_scCorrectEvent)
    (add (n_sc_harms s) dbg_scHarmEvent)
    (add_families (sig dbg_scFamilyCorrectSupport v) (sc_family_correct_support s))
    (add_families (sig dbg_scFamilyHarmSupport v) (sc_family_harm_support s))
    (add (n_loop_hits s) dbg_loopHitEvent)
    (add (n_loop_confident s) dbg_loopConfidentEvent)
    (add (n_loop_overrides s) dbg_loopOverrideEvent)
    (add (n_loop_corrections s) dbg_loopCorrectEvent)
    (add (n_loop_harms s) dbg_loopHarmEvent)
    (add (n_loop_trip_mismatches s) dbg_loopTripMismatchEvent)
    (tohost s) (timed_out s).

Definition next_cycle (s : stats) : stats :=
  Stats (u64 (cycle_count s + 1)) (retired_instructions s) (n_sc_overrides s) (n_sc_corrections s)
    (n_sc_harms s) (sc_family_correct_support s) (sc_family_harm_support s) (n_loop_hits s)
    (n_loop_confident s) (n_loop_overrides s) (n_loop_corrections s) (n_loop_harms s)
    (n_loop_trip_mismatches s) (tohost s) (timed_out s).
Definition set_tohost (x : Z) (t : bool) (s : stats) : stats :=
  Stats (cycle_count s) (retired_instructions s) (n_sc_overrides s) (n_sc_corrections s)
    (n_sc_harms s) (sc_family_correct_support s) (sc_family_harm_support s) (n_loop_hits s)
    (n_loop_confident s) (n_loop_overrides s) (n_loop_corrections s) (n_loop_harms s)
    (n_loop_trip_mismatches s) x t.

Definition trace_branch (branch_trace_file : option stream) (v : V) : M sim unit :=
  match branch_trace_file with
  | Some f =>
      if truth (sig dbg_branchTrainValid v) then
        let g s := HInt (sig s v) in
        fprintf f ("%08x,%016llx,%04x,%u,%u,%u,%u,%u" ++ nl)
          [g dbg_branchTrainPc; g dbg_branchTrainHistory; g dbg_branchTrainPathHistory;
           g dbg_branchTrainTagePrediction; g dbg_branchTrainFinalPrediction; g dbg_branchTrainTaken;
           g dbg_branchTrainStrong; g dbg_branchTrainScLowConfidence]
      else ret tt
  | None => ret tt
  end.

(** One iteration of the main loop; [inr] leaves it. *)
Definition sim_cycle (log_file : stream) (pipe_dump_file branch_trace_file : option stream)
    (max_cycles : Z) (s : stats) : M sim (stats + stats) :=
  let! (_, v) := get_top in
  if negb (finished v) && (cycle_count s <? max_cycles) then
    let s := next_cycle s in
    eval_cycle ;;
    let! (_, v) := get_top in
    let s := accumulate v s in
    trace_branch branch_trace_file v ;;
    let! t := time in
    dump_pipeline_snapshot pipe_dump_file (cycle_count s) t ;;
    (if uart_visible v then
       put_out [u8 (sig uartData_o v)] ;; fwrite log_file [u8 (sig uartData_o v)]
     else ret tt) ;;
    let tohost := u32 (sig toHost_o v) in
    if negb (tohost =? 0) then ret (inr (set_tohost tohost false s))
    else ret (inl (set_tohost tohost (timed_out s) s))
  else ret (inr s).

(** At most 2^64 iterations: the limit is a 64-bit number. *)
Definition sim_loop (log_file : stream) (pipe_dump_file branch_trace_file : option stream)
    (max_cycles : Z) : M sim stats :=
  iter_upto (2 ^ 65) (sim_cycle log_file pipe_dump_file branch_trace_file max_cycles) stats0.

Definition kScFamilyNames : list (list Z) :=
  [bytes "bias"; bytes "global"; bytes "local"; bytes "imli"; bytes "path"].

(** The report behind the loop. *)
Definition report_run (log_file : option stream) (s : stats) : M sim unit :=
  let! (_, v) := get_top in
  let g x := HInt (sig x v) in
  log_both log_file (nl ++ "***** Verilator simulation finished *****" ++ nl ++
         "cycles=%llu toHost=0x%08x pc=0x%08x instruction=0x%08x rob=%u issue=%u lsq=%u" ++ nl)
        [HInt (cycle_count s); HInt (tohost s); g checkPC; g check; g dbg_robCount;
         g dbg_issueCount; g dbg_lsqCount] ;;
  log_both log_file ("retired=%llu measured_ipc=%.4f" ++ nl)
        [HInt (retired_instructions s);
         HDbl (if cycle_count s =? 0 then dbl_of_Z 0
               else dbl_div (dbl_of_Z (retired_instructions s)) (dbl_of_Z (cycle_count s)))] ;;
  let retired_for_mpki := if retired_instructions s =? 0 then dbl_of_Z 1
                          else dbl_of_Z (retired_instructions s) in
  let per_thousand n := dbl_div (dbl_mul (dbl_of_Z 1000) (dbl_of_Z n)) retired_for_mpki in
  let dcache_load_accesses :=
    u64 (u64 (sig dbg_perfDcacheLoadHits v) + u64 (sig dbg_perfDcacheLoadMisses v)) in
  let load_miss_rate :=
    if dcache_load_accesses =? 0 then dbl_of_Z 0
    else dbl_div (dbl_mul (dbl_of_Z 100) (dbl_of_Z (sig dbg_perfDcacheLoadMisses v)))
           (dbl_of_Z dcache_load_accesses) in
  log_both log_file ("PERF issue_dual=%llu issue_single=%llu iq_no_ready=%llu lsu_blocked=%llu " ++
         "branch_candidate_blocked=%llu" ++ nl ++
         "PERF lsu_lsq_order=%llu lsu_sb_alias=%llu lsu_mmio_order=%llu " ++
         "lsu_dcache_request=%llu lsu_internal=%llu lsu_fallback=%llu" ++ nl ++
         "PERF rob_full=%llu iq_full=%llu lsq_full=%llu prf_empty=%llu " ++
         "branches=%llu mispredicts=%llu jump_serialize=%llu" ++ nl)
        [g dbg_perfDualIssueCycles; g dbg_perfSingleIssueCycles; g dbg_perfIqNoReadyCycles;
         g dbg_perfPort0LsuBlockedCycles; g dbg_perfPort0BranchBlockedCycles;
         g dbg_perfLsqOrderBlockedCycles; g dbg_perfStoreBufferAliasBlockedCycles;
         g dbg_perfMmioOrderBlockedCycles; g dbg_perfDcacheRequestBlockedCycles;
         g dbg_perfLsuInternalBlockedCycles; g dbg_perfLsuFallbackCycles;
         g dbg_perfRobFullCycles; g dbg_perfIqFullCycles; g dbg_perfLsqFullCycles;
         g dbg_perfPrfEmptyCycles; g dbg_perfBranchCount; g dbg_perfBranchMispredictCount;
         g dbg_perfJumpSerializationCycles] ;;
  log_both log_file ("BPU conditional=%llu conditional_misp=%llu direction_misp=%llu " ++
         "target_misp=%llu btb_miss=%llu jal_misp=%llu jalr_misp=%llu ras_miss=%llu" ++ nl)
        [g dbg_perfConditionalCount; g dbg_perfConditionalMispredictCount;
         g dbg_perfDirectionMispredictCount; g dbg_perfTargetMispredictCount;
         g dbg_perfBtbMissCount; g dbg_perfJalMispredictCount; g dbg_perfJalrMispredictCount;
         g dbg_perfRasMissCount] ;;
  log_both log_file ("CACHE I req=%llu hit=%llu miss=%llu line_miss=%llu miss_stall=%llu " ++
         "refill_lines=%llu refill_cycles=%llu crossline_miss=%llu " ++
         "response_backpressure=%llu mpki=%.3f" ++ nl)
        [g dbg_perfIcacheRequests; g dbg_perfIcacheHits; g dbg_perfIcacheMisses;
         g dbg_perfIcacheLineMisses; g dbg_perfIcacheMissStallCycles;
         g dbg_perfIcacheRefillLines; g dbg_perfIcacheRefillCycles;
         g dbg_perfIcacheCrosslineMisses; g dbg_perfIcacheResponseBackpressureCycles;
         HDbl (per_thousand (sig dbg_perfIcacheLineMisses v))] ;;
  log_both log_file ("CACHE D req=%llu load_hit=%llu load_miss=%llu load_miss_rate=%.3f%% " ++
         "store_hit=%llu store_miss=%llu mmio=%llu busy=%llu refill_lines=%llu " ++
         "refill_cycles=%llu request_backpressure=%llu store_commit_stall=%llu " ++
         "mpki=%.3f" ++ nl)
        [g dbg_perfDcacheRequests; g dbg_perfDcacheLoadHits; g dbg_perfDcacheLoadMisses;
         HDbl load_miss_rate;
         g dbg_perfDcacheStoreHits; g dbg_perfDcacheStoreMisses; g dbg_perfDcacheMmioRequests;
         g dbg_perfDcacheBusyCycles; g dbg_perfDcacheRefillLines; g dbg_perfDcacheRefillCycles;
         g dbg_perfDcacheRequestBackpressureCycles; g dbg_perfStoreCommitStallCycles;
         HDbl (per_thousand (sig dbg_perfDcacheLoadMisses v))].

(** The statistics of the statistical corrector and of the loop predictor. *)
Definition report_stats (log_file : option stream) (s : stats) : M sim unit :=
  log_both log_file ("SC overrides=%llu corrections=%llu harms=%llu net=%lld" ++ nl)
        [HInt (n_sc_overrides s); HInt (n_sc_corrections s); HInt (n_sc_harms s);
         HInt (s64 (n_sc_corrections s) - s64 (n_sc_harms s))] ;;
  for_n 5 0 (fun family _ =>
    let! name := oget OutOfBounds (arr_get kScFamilyNames family) in
    let! co := oget OutOfBounds (arr_get (sc_family_correct_support s) family) in
    let! ha := oget OutOfBounds (arr_get (sc_family_harm_support s) family) in
    log_both log_file ("SC_FAMILY %s correction_support=%llu harm_support=%llu net=%lld" ++ nl)
        [HStr name; HInt co; HInt ha; HInt (s64 co - s64 ha)]) tt ;;
  log_both log_file ("LOOP hits=%llu confident=%llu overrides=%llu corrections=%llu harms=%llu " ++
         "net=%lld trip_mismatch=%llu" ++ nl)
        [HInt (n_loop_hits s); HInt (n_loop_confident s); HInt (n_loop_overrides s);
         HInt (n_loop_corrections s); HInt (n_loop_harms s);
         HInt (s64 (n_loop_corrections s) - s64 (n_loop_harms s)); HInt (n_loop_trip_mismatches s)].

(** The verdict: the exit code. *)
Definition verdict (log_file : option stream) (s : stats) : M sim Z :=
  if timed_out s then
    log_both log_file ("***** simulation result: TIMEOUT *****" ++ nl) [] ;; ret 1
  else if tohost s =? kTohostPassValue then
    log_both log_file ("***** simulation result: SUCCESS *****" ++ nl) [] ;; ret 0
  else
    log_both log_file ("***** simulation result: FAIL (toHost=0x%08x) *****" ++ nl)
      [HInt (tohost s)] ;; ret 1.

Definition delete_all : M sim unit :=
  modify (set_top None) ;; modify (set_context None).

(** The end of [main]. *)
Definition close_all (log_file : stream) (pipe_dump_file branch_trace_file : option stream)
    (enable_trace : bool) : M sim unit :=
  (if enable_trace then modify (set_vcd None) else ret tt) ;;
  match pipe_dump_file with Some f => fclose f | None => ret tt end ;;
  match branch_trace_file with Some f => fclose f | None => ret tt end ;;
  fclose log_file ;;
  delete_all.

(** Reset: two cycles with reset asserted, then release it. *)
Definition reset_phase (pipe_dump_file : option stream) : M sim unit :=
  eval_cycle ;; eval_cycle ;;
  drive (fun p => TPins (t_clk p) true (t_fromHost p)) ;;
  eval ;;
  dump_trace ;;
  let! t := time in
  dump_pipeline_snapshot pipe_dump_file 0 t.

(** What follows the opening of the files. *)
Definition simulate (log_file : stream) (pipe_dump_file branch_trace_file : option stream)
    (max_cycles : Z) (enable_trace enable_pipe_dump : bool) : M sim Z :=
  (if enable_trace then modify (set_vcd (Some [])) else ret tt) ;;
  drive (fun _ => TPins false false 0) ;;
  eval ;;
  log_both (Some log_file) ("***** Verilator simulation started *****" ++ nl ++
      "max_cycles=%llu trace=%s pipe_dump=%s" ++ nl)
    [HInt max_cycles; HStr (if enable_trace then bytes "on" else bytes "off");
     HStr (if enable_pipe_dump then kPipeDumpFileName else bytes "off")] ;;
  reset_phase pipe_dump_file ;;
  let! s := sim_loop log_file pipe_dump_file branch_trace_file max_cycles in
  match timed_out s, pipe_dump_file with
  | true, Some f =>
      let! (_, v) := get_top in
      fprintf f ("EVENT kind=timeout cycle=%llu limit=%llu checkPC=0x%08x " ++
          "check=0x%08x toHost=0x%08x" ++ nl)
        [HInt (cycle_count s); HInt max_cycles; HInt (sig checkPC v); HInt (sig check v);
         HInt (sig toHost_o v)]
  | _, _ => ret tt
  end ;;
  report_run (Some log_file) s ;;
  report_stats (Some log_file) s ;;
  let! exit_code := verdict (Some log_file) s in
  close_all log_file pipe_dump_file branch_trace_file enable_trace ;;
  ret exit_code.

(** Was a branch trace asked for? *)
Definition branch_trace_path : option (list Z) :=
  match getenv "SIM_BRANCH_TRACE" with
  | Some [] => None
  | o => o
  end.

(** Open the files that were asked for; [inl] is an early return of [main]. *)
Definition open_branch_trace (log_file : stream) : M sim (Z + option stream) :=
  match branch_trace_path with
  | Some path =>
      let! f := fopen BranchFile in
      match f with
      | None =>
          let! t := oget OutOfBounds
            (cprintf ("Failed to open branch trace %s." ++ nl) [HStr path]) in
          put_err t ;; fclose log_file ;; delete_all ;; ret (inl 1)
      | Some f =>
          fprintf f ("pc,history,path,tage,final,taken,strong,sc_low" ++ nl) [] ;;
          ret (inr (Some f))
      end
  | None => ret (inr None)
  end.

Definition open_pipe_dump (log_file : stream) (max_cycles : Z) (enable_pipe_dump : bool)
  : M sim (Z + option stream) :=
  if enable_pipe_dump then
    let! f := fopen PipeFile in
    match f with
    | None =>
        let! t := oget OutOfBounds
          (cprintf ("Failed to open %s for writing." ++ nl) [HStr kPipeDumpFileName]) in
        put_err t ;; fclose log_file ;; delete_all ;; ret (inl 1)
    | Some f => write_pipe_dump_header (Some f) max_cycles ;; ret (inr (Some f))
    end
  else ret (inr None).

Definition sim_main : M sim Z :=
  modify (set_context (Some 0)) ;;
  modify (set_top (Some (TPins false false 0, v_new))) ;;
  let! log_file := fopen LogFile in
  match log_file with
  | None =>
      let! t := oget OutOfBounds
        (cprintf ("Failed to open %s for writing." ++ nl) [HStr kSimulationLogFileName]) in
      put_err t ;; delete_all ;; ret 1
  | Some log_file =>
    let max_cycles := get_max_cycles getenv argv in
    let enable_trace := trace_enabled getenv argv in
    let enable_pipe_dump := pipe_dump_enabled getenv argv in
    let! branch_trace_file := open_branch_trace log_file in
    match branch_trace_file with
    | inl code => ret code
    | inr branch_trace_file =>
      let! pipe_dump_file := open_pipe_dump log_file max_cycles enable_pipe_dump in
      match pipe_dump_file with
      | inl code => ret code
      | inr pipe_dump_file =>
          simulate log_file pipe_dump_file branch_trace_file max_cycles enable_trace
            enable_pipe_dump
      end
    end
  end.
End sim.

Arguments Sim {V} _ _ _ _ _ _ _ _.
Arguments sim0 {V}.
