(* ===== verification/SimRun.v ===== *)
(** * What the Verilator harness promises

    The run of the harness against the sequence of states of the processor
    model: where it ends, with which verdict, and what it shows. *)

From Stdlib Require Import String ZArith Lia.
From stdpp Require Import base list numbers.
From S2P Require Import Prelude PortIO Util HostPrintf SimArgs Sim.

Local Open Scope Z_scope.
Local Open Scope cm_scope.

(** The first index up to [m] at which [f] fails, or [m]. *)
Lemma first_failure (f : nat -> bool) m :
  exists n, (n <= m)%nat /\ (forall k, (k < n)%nat -> f k = true) /\ (n = m \/ f n = false).
Proof.
  induction m as [| m (n & Hn & Hk & He)].
  - exists 0%nat. split; [lia |]. split; [lia | by left].
  - destruct (f n) eqn:Ef.
    + destruct He as [-> | He]; [| congruence]. exists (S m). split; [lia |]. split; [| by left].
      intros k Hlt. destruct (decide (k = m)) as [-> | Hne]; [done | apply Hk; lia].
    + exists n. split; [lia |]. split; [done | by right].
Qed.

Section run.
Context {V : Type} (v_new : V) (v_eval : tpins -> V -> V) (sig : signal -> V -> Z).
Context (finished : V -> bool).

(** ** The processor under the harness *)

(** One clock cycle. *)
Definition cycle (rst : bool) (v : V) : V :=
  v_eval (TPins true rst 0) (v_eval (TPins false rst 0) v).

(** The state at the release of reset. *)
Definition released : V :=
  v_eval (TPins true true 0) (cycle false (cycle false (v_eval (TPins false false 0) v_new))).

(** The state after [k] cycles. *)
Definition state_at (k : nat) : V := Nat.iter k (cycle true) released.

Definition tohost_at (k : nat) : Z := u32 (sig toHost_o (state_at k)).

(** The simulation goes on after [k] cycles. *)
Definition running (k : nat) : bool :=
  negb (finished (state_at k)) && ((k =? 0)%nat || (tohost_at k =? 0)).

(** It ends after [n] cycles. *)
Definition ends_at (max_cycles : Z) (n : nat) : Prop :=
  Z.of_nat n <= max_cycles /\ (forall k, (k < n)%nat -> running k = true) /\
  (Z.of_nat n = max_cycles \/ running n = false).

(** The program has signalled. *)
Definition signalled (n : nat) : bool := negb (n =? 0)%nat && negb (tohost_at n =? 0).

(** The byte shown for a state, and the text shown by cycle [n]. *)
Definition shown (v : V) : list Z := if uart_visible sig v then [u8 (sig uartData_o v)] else [].
Fixpoint shown_by (n : nat) : list Z :=
  match n with O => [] | S k => shown_by k ++ shown (state_at (S k)) end.

Fixpoint stats_at (k : nat) : stats :=
  match k with O => stats0 | S j => accumulate sig (state_at (S j)) (next_cycle (stats_at j)) end.
Definition stats_end (n : nat) : stats :=
  if signalled n then set_tohost (tohost_at n) false (stats_at n) else stats_at n.

Lemma ends_exists max_cycles : 0 <= max_cycles -> exists n, ends_at max_cycles n.
Proof.
  intros Hm. destruct (first_failure running (Z.to_nat max_cycles)) as (n & Hn & Hk & He).
  exists n. split; [lia |]. split; [done |]. destruct He as [-> | He]; [left; lia | by right].
Qed.

Lemma ends_unique max_cycles n n' : ends_at max_cycles n -> ends_at max_cycles n' -> n = n'.
Proof.
  intros (H1 & K1 & E1) (H2 & K2 & E2).
  assert (~ (n < n')%nat) by (intros Hlt; destruct E1 as [E1 | E1]; [lia |]; rewrite K2 in E1; done).
  assert (~ (n' < n)%nat) by (intros Hlt; destruct E2 as [E2 | E2]; [lia |]; rewrite K1 in E2; done).
  lia.
Qed.

Lemma state_at_succ k : state_at (S k) = cycle true (state_at k).
Proof. done. Qed.

Lemma stats_at_fixed k : tohost (stats_at k) = 0 /\ timed_out (stats_at k) = true.
Proof. by induction k as [| k [IH1 IH2]]. Qed.

Lemma stats_at_count k : Z.of_nat k < 2 ^ 64 -> cycle_count (stats_at k) = Z.of_nat k.
Proof.
  induction k as [| k IH]; intros Hk; [done |]. cbn [stats_at]. unfold accumulate, next_cycle.
  cbn [cycle_count]. rewrite IH by lia. cint_lia.
Qed.

Lemma set_tohost_same k : set_tohost 0 true (stats_at k) = stats_at k.
Proof. pose proof (stats_at_fixed k) as [E1 E2]. unfold set_tohost. destruct (stats_at k). cbn in *. by subst. Qed.

(** ** Symbolic execution *)

(** The harness in the middle of a run: [tr], [hp] and [hb] say whether the
    wave trace, the pipeline dump and the branch trace are on. *)
Definition vcd_of (tr : bool) (ts : list Z) : option (list Z) := if tr then Some ts else None.
Abbreviation at_work t p v tr ts o e l hp pt hb bt :=
  (@Sim V (Some t) (Some (p, v)) (vcd_of tr ts) o e (File true l) (File hp pt) (File hb bt)).
Definition pipe_of (hp : bool) : option stream := if hp then Some PipeFile else None.
Definition branch_of (hb : bool) : option stream := if hb then Some BranchFile else None.

Lemma wp_fprintf_pipe fmt args (Q : unit -> @sim V -> Prop) t p v tr ts o e l pt hb bt :
  fits fmt (kind <$> args) = true ->
  (forall pt', Q tt (at_work t p v tr ts o e l true pt' hb bt)) ->
  wp (fprintf PipeFile fmt args) Q (at_work t p v tr ts o e l true pt hb bt).
Proof.
  intros Hf H. destruct (fits_cprintf fmt args Hf) as [txt E]. unfold fprintf.
  rewrite wp_bind, wp_oget. exists txt. split; [done |]. apply H.
Qed.

Lemma wp_fprintf_branch fmt args (Q : unit -> @sim V -> Prop) t p v tr ts o e l hp pt bt :
  fits fmt (kind <$> args) = true ->
  (forall bt', Q tt (at_work t p v tr ts o e l hp pt true bt')) ->
  wp (fprintf BranchFile fmt args) Q (at_work t p v tr ts o e l hp pt true bt).
Proof.
  intros Hf H. destruct (fits_cprintf fmt args Hf) as [txt E]. unfold fprintf.
  rewrite wp_bind, wp_oget. exists txt. split; [done |]. apply H.
Qed.

Lemma wp_log fmt args (Q : unit -> @sim V -> Prop) t p v tr ts o e l hp pt hb bt :
  fits fmt (kind <$> args) = true ->
  (forall txt, cprintf fmt args = Some txt ->
     Q tt (at_work t p v tr ts (o ++ txt) e (l ++ txt) hp pt hb bt)) ->
  wp (log_both (Some LogFile) fmt args) Q (at_work t p v tr ts o e l hp pt hb bt).
Proof.
  intros Hf H. destruct (fits_cprintf fmt args Hf) as [txt E]. unfold log_both.
  rewrite wp_bind, wp_oget. exists txt. split; [done |]. by apply H.
Qed.

Lemma wp_get_top (Q : tpins * V -> @sim V -> Prop) t p v tr ts o e l hp pt hb bt :
  Q (p, v) (at_work t p v tr ts o e l hp pt hb bt) ->
  wp get_top Q (at_work t p v tr ts o e l hp pt hb bt).
Proof. intros H. exact H. Qed.

Lemma wp_time (Q : Z -> @sim V -> Prop) t p v tr ts o e l hp pt hb bt :
  Q t (at_work t p v tr ts o e l hp pt hb bt) ->
  wp time Q (at_work t p v tr ts o e l hp pt hb bt).
Proof. intros H. exact H. Qed.

Lemma wp_drive_top f (Q : unit -> @sim V -> Prop) t p v tr ts o e l hp pt hb bt :
  Q tt (at_work t (f p) v tr ts o e l hp pt hb bt) ->
  wp (drive f) Q (at_work t p v tr ts o e l hp pt hb bt).
Proof. intros H. exact H. Qed.

Lemma wp_eval (Q : unit -> @sim V -> Prop) t p v tr ts o e l hp pt hb bt :
  Q tt (at_work t p (v_eval p v) tr ts o e l hp pt hb bt) ->
  wp (eval v_eval) Q (at_work t p v tr ts o e l hp pt hb bt).
Proof. intros H. exact H. Qed.

Lemma wp_dump_trace (Q : unit -> @sim V -> Prop) t p v tr ts o e l hp pt hb bt :
  (forall t' ts', Q tt (at_work t' p v tr ts' o e l hp pt hb bt)) ->
  wp dump_trace Q (at_work t p v tr ts o e l hp pt hb bt).
Proof.
  intros H. unfold dump_trace. rewrite wp_bind, wp_gets, wp_bind. cbn [vcd]. destruct tr; cbn [vcd_of].
  - rewrite wp_bind. cbn [vcd_of] in H. apply (wp_time (fun t => _) t p v true). 
    rewrite wp_modify. apply (H (u64 (t + 1)) (ts ++ [t])).
  - apply (H (u64 (t + 1)) ts).
Qed.

Lemma wp_eval_cycle (Q : unit -> @sim V -> Prop) t p v tr ts o e l hp pt hb bt :
  t_fromHost p = 0 ->
  (forall t' ts', Q tt (at_work t' (TPins true (t_rst p) 0) (cycle (t_rst p) v) tr ts' o e l hp pt hb bt)) ->
  wp (eval_cycle v_eval) Q (at_work t p v tr ts o e l hp pt hb bt).
Proof.
  intros Hh H. unfold eval_cycle, eval_half_cycle.
  rewrite wp_bind, wp_bind. apply wp_drive_top. rewrite wp_bind. apply wp_eval. apply wp_dump_trace.
  intros t1 ts1. rewrite wp_bind. apply wp_drive_top. rewrite wp_bind. apply wp_eval.
  apply wp_dump_trace. intros t2 ts2. cbn [t_rst t_fromHost]. rewrite Hh. apply H.
Qed.

(** A run of [fprintf]s to the pipeline dump. *)
Ltac pipe_line := first [rewrite wp_bind; apply wp_fprintf_pipe | apply wp_fprintf_pipe];
  [vm_compute; reflexivity | intros ?].

Lemma wp_snapshot c st (Q : unit -> @sim V -> Prop) t p v tr ts o e l hp pt hb bt :
  (forall pt', Q tt (at_work t p v tr ts o e l hp pt' hb bt)) ->
  wp (dump_pipeline_snapshot sig (pipe_of hp) c st) Q (at_work t p v tr ts o e l hp pt hb bt).
Proof.
  intros H. unfold dump_pipeline_snapshot. destruct hp; cbn [pipe_of]; [| apply H].
  rewrite wp_bind. apply wp_get_top. do 14 pipe_line.
  rewrite wp_bind. destruct (uart_visible sig v); [pipe_line | rewrite wp_ret];
    rewrite wp_bind; (destruct (negb _); [pipe_line | rewrite wp_ret]); pipe_line; apply H.
Qed.

Lemma wp_trace_branch (Q : unit -> @sim V -> Prop) t p v v' tr ts o e l hp pt hb bt :
  (forall bt', Q tt (at_work t p v tr ts o e l hp pt hb bt')) ->
  wp (trace_branch sig (branch_of hb) v') Q (at_work t p v tr ts o e l hp pt hb bt).
Proof.
  intros H. unfold trace_branch. destruct hb; cbn [branch_of]; [| apply H].
  destruct (truth _); [| apply H]. apply wp_fprintf_branch; [reflexivity | apply H].
Qed.

(** ** The main loop *)

Section loop.
Context (max_cycles : Z) (Hmax : in_u 64 max_cycles) (tr hp hb : bool) (e : list Z).

Abbreviation body :=
  (sim_cycle v_eval sig finished LogFile (pipe_of hp) (branch_of hb) max_cycles).
Abbreviation working k t ts o l pt bt :=
  (at_work t (TPins true true 0) (state_at k) tr ts o e l hp pt hb bt).

Lemma wp_show (Q : unit -> @sim V -> Prop) t p v v' ts o l pt bt :
  Q tt (at_work t p v tr ts (o ++ shown v') e (l ++ shown v') hp pt hb bt) ->
  wp (if uart_visible sig v' then
        put_out [u8 (sig uartData_o v')] ;; fwrite LogFile [u8 (sig uartData_o v')]
      else ret tt) Q (at_work t p v tr ts o e l hp pt hb bt).
Proof.
  unfold shown. destruct (uart_visible sig v'); intros H; [exact H |].
  rewrite !app_nil_r in H. exact H.
Qed.

Lemma body_goes k t ts o l pt bt :
  negb (finished (state_at k)) = true -> Z.of_nat k < max_cycles ->
  exists t' ts' pt' bt',
    body (stats_at k) (working k t ts o l pt bt) =
    Ok (if signalled (S k) then inr (stats_end (S k)) else inl (stats_at (S k)))
      (working (S k) t' ts' (o ++ shown (state_at (S k))) (l ++ shown (state_at (S k))) pt' bt').
Proof.
  intros Hf Hk.
  assert (wp (body (stats_at k)) (fun r a => exists t' ts' pt' bt',
    r = (if signalled (S k) then inr (stats_end (S k)) else inl (stats_at (S k))) /\
    a = working (S k) t' ts' (o ++ shown (state_at (S k))) (l ++ shown (state_at (S k))) pt' bt')
    (working k t ts o l pt bt)) as Hw.
  { unfold sim_cycle. rewrite wp_bind. apply wp_get_top.
    rewrite Hf, stats_at_count by (cint_unfold; lia). rewrite (proj2 (Z.ltb_lt _ _) Hk). cbn [andb].
    rewrite wp_bind. apply wp_eval_cycle; [done |]. intros t1 ts1. cbn [t_rst].
    rewrite <- state_at_succ, wp_bind. apply wp_get_top.
    change (accumulate sig (state_at (S k)) (next_cycle (stats_at k))) with (stats_at (S k)).
    rewrite wp_bind. apply wp_trace_branch. intros bt1. rewrite wp_bind. apply wp_time.
    rewrite wp_bind. apply wp_snapshot. intros pt1. rewrite wp_bind. apply wp_show.
    fold (tohost_at (S k)). unfold stats_end, signalled. cbn [Nat.eqb negb andb].
    destruct (Z.eqb_spec (tohost_at (S k)) 0) as [E | E]; cbn [negb]; rewrite wp_ret.
    - rewrite E, (proj2 (stats_at_fixed (S k))), set_tohost_same. by do 4 eexists.
    - by do 4 eexists. }
  destruct (proj1 (wp_ok _ _ _) Hw) as (r & a & E & t' & ts' & pt' & bt' & Hr & Ha).
  exists t', ts', pt', bt'. by rewrite E, Hr, Ha.
Qed.

Lemma body_stops k t ts o l pt bt :
  negb (finished (state_at k)) && (Z.of_nat k <? max_cycles) = false -> Z.of_nat k <= max_cycles ->
  body (stats_at k) (working k t ts o l pt bt) = Ok (inr (stats_at k)) (working k t ts o l pt bt).
Proof.
  intros H Hk. unfold sim_cycle, bind, get_top, gets. cbn [oget top ret bind].
  rewrite stats_at_count by (cint_unfold; lia). by rewrite H.
Qed.

Lemma loop_runs n d : ends_at max_cycles n ->
  forall k t ts pt bt o l, (n = k + d)%nat -> (k = 0%nat \/ signalled k = false) ->
  exists j t' ts' pt' bt', (j <= d + 1)%nat /\
    iter_runs body j (stats_at k) (working k t ts (o ++ shown_by k) (l ++ shown_by k) pt bt)
      (stats_end n) (working n t' ts' (o ++ shown_by n) (l ++ shown_by n) pt' bt').
Proof.
  intros (Hn & Hrun & Hend). induction d as [| d IH]; intros k t ts pt bt o l Ek Hs.
  - rewrite Nat.add_0_r in Ek. subst k. exists 1%nat, t, ts, pt, bt. split; [lia |].
    assert (signalled n = false) as Hsn by (destruct Hs as [-> | Hs]; done).
    unfold stats_end. rewrite Hsn. constructor. apply body_stops; [| done].
    destruct Hend as [<- | He]; [by rewrite Z.ltb_irrefl, andb_false_r |].
    unfold running in He. unfold signalled in Hsn.
    destruct (finished (state_at n)); [done |]. cbn [negb andb] in *.
    destruct (n =? 0)%nat, (tohost_at n =? 0); done.
  - assert (running k = true) as Hk by (apply Hrun; lia). unfold running in Hk.
    apply andb_prop in Hk as [Hf _].
    destruct (body_goes k t ts (o ++ shown_by k) (l ++ shown_by k) pt bt Hf ltac:(lia))
      as (t1 & ts1 & pt1 & bt1 & E).
    rewrite <- !app_assoc in E. change (shown_by k ++ shown (state_at (S k))) with (shown_by (S k)) in E.
    destruct (signalled (S k)) eqn:Es.
    + assert (n = S k) as ->.
      { destruct (decide (n = S k)); [done |]. exfalso.
        assert (running (S k) = true) as Hr by (apply Hrun; lia).
        unfold running, signalled in *. cbn [Nat.eqb negb andb orb] in *.
        apply andb_prop in Hr as [_ Hr]. by rewrite Hr in Es. }
      exists 1%nat, t1, ts1, pt1, bt1. split; [lia |]. by constructor.
    + destruct (IH (S k) t1 ts1 pt1 bt1 o l ltac:(lia) ltac:(by right))
        as (j & t2 & ts2 & pt2 & bt2 & Hj & Hr).
      exists (S j), t2, ts2, pt2, bt2. split; [lia |]. by econstructor.
Qed.

Lemma wp_sim_loop n (Q : stats -> @sim V -> Prop) t ts o l pt bt :
  ends_at max_cycles n ->
  (forall t' ts' pt' bt',
     Q (stats_end n) (working n t' ts' (o ++ shown_by n) (l ++ shown_by n) pt' bt')) ->
  wp (sim_loop v_eval sig finished LogFile (pipe_of hp) (branch_of hb) max_cycles) Q
    (working 0 t ts o l pt bt).
Proof.
  intros He HQ. destruct (loop_runs n n He 0 t ts pt bt o l ltac:(lia) ltac:(by left))
    as (j & t' & ts' & pt' & bt' & Hj & Hr). cbn [shown_by] in Hr. rewrite !app_nil_r in Hr.
  unfold wp, sim_loop. change stats0 with (stats_at 0).
  rewrite (iter_upto_of_runs _ _ _ _ _ _ _ Hr); [apply HQ |].
  destruct He as (Hn & _). change (Zpos (2 ^ 65)) with 36893488147419103232. cint_unfold. lia.
Qed.
End loop.

(** ** The report and the end *)

Ltac log_line := first [rewrite wp_bind; apply wp_log | apply wp_log];
  [vm_compute; reflexivity | intros ? _; rewrite <- ?app_assoc].

Lemma wp_report_run st (Q : unit -> @sim V -> Prop) t p v tr ts o e l hp pt hb bt :
  (forall txt, Q tt (at_work t p v tr ts (o ++ txt) e (l ++ txt) hp pt hb bt)) ->
  wp (report_run sig (Some LogFile) st) Q (at_work t p v tr ts o e l hp pt hb bt).
Proof.
  intros H. unfold report_run. rewrite wp_bind. apply wp_get_top. do 6 log_line. apply H.
Qed.

Lemma families_length n :
  length (sc_family_correct_support (stats_end n)) = 5%nat /\
  length (sc_family_harm_support (stats_end n)) = 5%nat.
Proof.
  assert (length (sc_family_correct_support (stats_at n)) = 5%nat /\
          length (sc_family_harm_support (stats_at n)) = 5%nat) as [H1 H2].
  { induction n as [| n [IH1 IH2]]; [done |]. cbn [stats_at]. unfold accumulate, next_cycle, add_families.
    cbn [sc_family_correct_support sc_family_harm_support]. by rewrite !length_imap. }
  unfold stats_end. destruct (signalled n); done.
Qed.

Lemma wp_report_stats n (Q : unit -> @sim V -> Prop) t p v tr ts o e l hp pt hb bt :
  (forall txt, Q tt (at_work t p v tr ts (o ++ txt) e (l ++ txt) hp pt hb bt)) ->
  wp (report_stats (Some LogFile) (stats_end n)) Q (at_work t p v tr ts o e l hp pt hb bt).
Proof.
  intros H. unfold report_stats. log_line. rewrite wp_bind.
  destruct (families_length n) as [Hc Hh].
  apply (wp_for_n (fun _ _ a => exists txt', a = at_work t p v tr ts (o ++ txt ++ txt') e
    (l ++ txt ++ txt') hp pt hb bt)).
  - exists []. by rewrite !app_nil_r.
  - intros j [] a Hj (txt' & ->).
    assert (forall (ls : list Z), length ls = 5%nat -> exists x, arr_get ls j = Some x) as Hget
      by (intros; apply arr_get_is_Some; lia).
    destruct (Hget _ Hc) as [c Ec], (Hget _ Hh) as [h Eh].
    destruct (arr_get_is_Some kScFamilyNames j) as [nm En]; [cbn; lia |].
    rewrite wp_bind, wp_oget. exists nm. split; [done |].
    rewrite wp_bind, wp_oget. exists c. split; [done |].
    rewrite wp_bind, wp_oget. exists h. split; [done |].
    apply wp_log; [vm_compute; reflexivity |]. intros txt2 _. rewrite <- !app_assoc. by eexists.
  - intros [] a (txt' & ->). log_line. apply H.
Qed.

(** The exit code and the closing line of a run of [n] cycles. *)
Definition exit_code (n : nat) : Z := if signalled n && (tohost_at n =? kTohostPassValue) then 0 else 1.
Definition verdict_text (n : nat) : option (list Z) :=
  if signalled n then
    if tohost_at n =? kTohostPassValue
    then cprintf ("***** simulation result: SUCCESS *****" ++ nl) []
    else cprintf ("***** simulation result: FAIL (toHost=0x%08x) *****" ++ nl) [HInt (tohost_at n)]
  else cprintf ("***** simulation result: TIMEOUT *****" ++ nl) [].

Lemma wp_say_verdict n (Q : Z -> @sim V -> Prop) t p v tr ts o e l hp pt hb bt :
  (forall txt, verdict_text n = Some txt ->
     Q (exit_code n) (at_work t p v tr ts (o ++ txt) e (l ++ txt) hp pt hb bt)) ->
  wp (verdict (Some LogFile) (stats_end n)) Q (at_work t p v tr ts o e l hp pt hb bt).
Proof.
  intros H. unfold verdict, verdict_text, exit_code in *.
  assert (timed_out (stats_end n) = negb (signalled n)) as ->.
  { unfold stats_end. destruct (signalled n); [done |]. apply stats_at_fixed. }
  assert (signalled n = true -> tohost (stats_end n) = tohost_at n) as Ht
    by (unfold stats_end; by intros ->).
  destruct (signalled n); cbn [negb andb] in *; [rewrite Ht by done |].
  - destruct (tohost_at n =? kTohostPassValue); rewrite wp_bind;
      (apply wp_log; [reflexivity |]); intros txt E; rewrite wp_ret; by apply H.
  - rewrite wp_bind. apply wp_log; [reflexivity |]. intros txt E. rewrite wp_ret. by apply H.
Qed.

(** Everything allocated or opened was released, the branch trace apart. *)
Definition released_but_branch (a : @sim V) : Prop :=
  context a = None /\ top a = None /\ vcd a = None /\ is_open (flog a) = false /\
  is_open (fpipe a) = false.

Lemma wp_reset_phase (Q : unit -> @sim V -> Prop) t v tr ts o e l hp pt hb bt :
  (forall t' ts' pt', Q tt (at_work t' (TPins true true 0)
     (v_eval (TPins true true 0) (cycle false (cycle false v))) tr ts' o e l hp pt' hb bt)) ->
  wp (reset_phase v_eval sig (pipe_of hp)) Q
    (at_work t (TPins false false 0) v tr ts o e l hp pt hb bt).
Proof.
  intros H. unfold reset_phase.
  rewrite wp_bind. apply wp_eval_cycle; [done |]. intros t1 ts1. rewrite wp_bind.
  apply wp_eval_cycle; [done |]. intros t2 ts2. rewrite wp_bind. apply wp_drive_top.
  rewrite wp_bind. apply wp_eval. rewrite wp_bind. apply wp_dump_trace. intros t3 ts3.
  rewrite wp_bind. apply wp_time. apply wp_snapshot. intros pt1. apply H.
Qed.

Lemma wp_timeout_event b n limit (Q : unit -> @sim V -> Prop) t p v tr ts o e l hp pt hb bt :
  (forall pt', Q tt (at_work t p v tr ts o e l hp pt' hb bt)) ->
  wp (match b, pipe_of hp with
      | true, Some f => let! (_, v) := get_top in
          fprintf f ("EVENT kind=timeout cycle=%llu limit=%llu checkPC=0x%08x " ++
            "check=0x%08x toHost=0x%08x" ++ nl)
          [HInt n; HInt limit; HInt (sig checkPC v); HInt (sig check v); HInt (sig toHost_o v)]
      | _, _ => ret tt
      end) Q (at_work t p v tr ts o e l hp pt hb bt).
Proof.
  intros H. destruct b; [| rewrite wp_ret; apply H].
  destruct hp; cbn [pipe_of]; [| rewrite wp_ret; apply H].
  rewrite wp_bind. apply wp_get_top. pipe_line. apply H.
Qed.

Lemma wp_close_all (Q : unit -> @sim V -> Prop) t p v tr ts o e l hp pt hb bt :
  Q tt (Sim None None None o e (File false l) (File false pt) (File false bt)) ->
  wp (close_all LogFile (pipe_of hp) (branch_of hb) tr) Q (at_work t p v tr ts o e l hp pt hb bt).
Proof. intros H. destruct tr, hp, hb; exact H. Qed.

Lemma wp_simulate max_cycles n tr dump (Q : Z -> @sim V -> Prop) hp pt hb bt :
  in_u 64 max_cycles -> ends_at max_cycles n ->
  (forall a banner rep txt, verdict_text n = Some txt ->
     out a = banner ++ shown_by n ++ rep ++ txt -> ftext (flog a) = out a -> errs a = [] ->
     released_but_branch a -> is_open (fbranch a) = false -> Q (exit_code n) a) ->
  wp (simulate v_eval sig finished LogFile (pipe_of hp) (branch_of hb) max_cycles tr dump) Q
    (at_work 0 (TPins false false 0) v_new false [] [] [] [] hp pt hb bt).
Proof.
  intros Hmax He HQ. unfold simulate. rewrite wp_bind.
  assert (forall R : unit -> @sim V -> Prop,
    R tt (at_work 0 (TPins false false 0) v_new tr [] [] [] [] hp pt hb bt) ->
    wp (if tr then modify (set_vcd (Some [])) else ret tt) R
      (at_work 0 (TPins false false 0) v_new false [] [] [] [] hp pt hb bt)) as Hvcd
    by (intros R HR; destruct tr; exact HR).
  apply Hvcd. rewrite wp_bind. apply wp_drive_top. rewrite wp_bind. apply wp_eval.
  rewrite wp_bind. apply wp_log; [destruct tr, dump; vm_compute; reflexivity |]. intros banner _.
  cbn [app]. rewrite wp_bind. apply wp_reset_phase. intros t1 ts1 pt1.
  change (v_eval (TPins true true 0) (cycle false (cycle false (v_eval (TPins false false 0) v_new))))
    with (state_at 0).
  rewrite wp_bind. apply (wp_sim_loop max_cycles Hmax tr hp hb [] n); [done |].
  intros t4 ts4 pt2 bt2. rewrite wp_bind. apply wp_timeout_event. intros pt3.
  rewrite wp_bind. apply wp_report_run. intros r1. rewrite wp_bind. apply wp_report_stats. intros r2.
  rewrite wp_bind. apply wp_say_verdict. intros txt Etxt.
  rewrite wp_bind. apply wp_close_all. rewrite wp_ret.
  apply (HQ _ banner (r1 ++ r2) txt); [done | | done | done | | done].
  - cbn [out]. by rewrite <- !app_assoc.
  - by unfold released_but_branch.
Qed.

(** ** From the command line to the exit code *)

Section command.
Context (getenv : string -> option (list Z)) (argv : list (list Z)) (can_open : stream -> bool).

Definition wants_branch : bool := bool_decide (is_Some (branch_trace_path getenv)).
Abbreviation wants_pipe := (pipe_dump_enabled getenv argv).
Abbreviation limit := (get_max_cycles getenv argv).
Abbreviation run := (sim_main v_new v_eval sig finished getenv argv can_open).

(** Every file that the run needs can be opened. *)
Definition opens : bool :=
  can_open LogFile && implb wants_branch (can_open BranchFile) && implb wants_pipe (can_open PipeFile).

(** The branch trace is open when the pipeline dump cannot be opened. *)
Definition leaks : bool :=
  can_open LogFile && wants_branch && can_open BranchFile && wants_pipe && negb (can_open PipeFile).

(** What is left when some file cannot be opened. *)
Definition gave_up (c : Z) (a : @sim V) : Prop :=
  c = 1 /\ out a = [] /\ errs a <> [] /\ released_but_branch a /\ is_open (fbranch a) = leaks.

(** What a complete run of [n] cycles leaves. *)
Definition completed (n : nat) (c : Z) (a : @sim V) : Prop :=
  c = exit_code n /\ errs a = [] /\ ftext (flog a) = out a /\ released_but_branch a /\
  is_open (fbranch a) = false /\
  exists banner rep txt, verdict_text n = Some txt /\ out a = banner ++ shown_by n ++ rep ++ txt.


Abbreviation opened hp pt hb bt :=
  (at_work 0 (TPins false false 0) v_new false [] [] [] [] hp pt hb bt).

Lemma wp_open_branch_trace (Q : Z + option stream -> @sim V -> Prop) :
  (implb wants_branch (can_open BranchFile) = true -> forall bt,
     Q (inr (branch_of wants_branch)) (opened false [] wants_branch bt)) ->
  (wants_branch = true -> can_open BranchFile = false -> forall t,
     Q (inl 1) (Sim None None None [] (70 :: t) (File false []) (File false []) (File false []))) ->
  wp (open_branch_trace getenv can_open LogFile) Q (opened false [] false []).
Proof.
  intros Hyes Hno. unfold open_branch_trace, fopen, wants_branch in *.
  destruct (branch_trace_path getenv) as [path |]; [| by apply Hyes].
  destruct (can_open BranchFile); [| by apply Hno].
  rewrite wp_bind, wp_bind, wp_modify, wp_ret, wp_bind. cbn [set_file].
  apply wp_fprintf_branch; [reflexivity |]. intros bt. rewrite wp_ret. by apply Hyes.
Qed.

Lemma wp_open_pipe_dump (Q : Z + option stream -> @sim V -> Prop) hb bt :
  (implb wants_pipe (can_open PipeFile) = true -> forall pt,
     Q (inr (pipe_of wants_pipe)) (opened wants_pipe pt hb bt)) ->
  (wants_pipe = true -> can_open PipeFile = false -> forall t,
     Q (inl 1) (Sim None None None [] (70 :: t) (File false []) (File false []) (File hb bt))) ->
  wp (open_pipe_dump can_open LogFile limit wants_pipe) Q (opened false [] hb bt).
Proof.
  intros Hyes Hno. unfold open_pipe_dump, fopen. destruct wants_pipe; [| by apply Hyes].
  destruct (can_open PipeFile); [| by apply Hno].
  rewrite wp_bind, wp_bind, wp_modify, wp_ret, wp_bind.
  unfold write_pipe_dump_header. cbn [set_file].
  do 5 pipe_line. rewrite wp_ret. by apply Hyes.
Qed.

Lemma gave_up_at t hb bt :
  hb = leaks ->
  gave_up 1 (Sim None None None [] (70 :: t) (File false []) (File false []) (File hb bt)).
Proof. intros H. by unfold gave_up, released_but_branch. Qed.

Lemma wp_sim_main (Q : Z -> @sim V -> Prop) :
  (opens = true -> forall n c a, ends_at limit n -> completed n c a -> Q c a) ->
  (opens = false -> forall c a, gave_up c a -> Q c a) ->
  wp run Q sim0.
Proof.
  intros Hyes Hno. pose proof gave_up_at as Hleft. unfold sim_main, opens, leaks in *.
  rewrite wp_bind, wp_modify, wp_bind, wp_modify, wp_bind. unfold fopen at 1.
  destruct (can_open LogFile); cbn [andb] in *.
  2: { apply (Hno eq_refl 1 (Sim None None None [] (70 :: _) _ _ _)). by apply Hleft. }
  rewrite wp_bind, wp_modify, wp_ret, wp_bind. cbn [set_file set_context set_top sim0].
  apply wp_open_branch_trace.
  - intros Eb bt. rewrite Eb in *. cbn [andb] in *. rewrite wp_bind. apply wp_open_pipe_dump.
    + intros Ep pt. rewrite Ep in *. pose proof (max_cycles_in_range getenv argv) as Hm.
      destruct (ends_exists limit) as [n Hn]; [cint_unfold; lia |].
      apply (wp_simulate limit n); [done | done |]. intros a banner rep txt Ev Eo El Ee Hr Hb.
      apply (Hyes eq_refl n); [done |]. unfold completed. split_and!; try done. by exists banner, rep, txt.
    + intros Ew Ep t. rewrite Ew, Ep in *. rewrite wp_ret. apply Hno; [done |]. apply Hleft.
      destruct wants_branch; [| done]. cbn [implb] in Eb. by rewrite Eb.
  - intros Eb Ef t. rewrite Eb, Ef in *. rewrite wp_ret. apply Hno; [done |]. by apply Hleft.
Qed.

(** C9: the harness ends with a verdict.  When the files it needs can be opened,
    for every processor model and every command line, [main] of the harness
    returns after a number [n] of cycles that is at most the limit: the first at
    which tohost is not zero or the design has finished, or else the limit.  The
    exit code is 0 exactly when tohost is then the pass value; the console shows
    the bytes of the UART without carriage returns, and ends with the line of
    the verdict; the log file holds the same text; everything is released. *)
Theorem sim_main_verdict :
  opens = true ->
  exists n a, ends_at limit n /\ run sim0 = Ok (exit_code n) a /\ completed n (exit_code n) a.
Proof.
  intros Ho.
  assert (wp run (fun c a => exists n, ends_at limit n /\ completed n c a) sim0) as Hw
    by (apply wp_sim_main; [eauto | congruence]).
  destruct (proj1 (wp_ok _ _ _) Hw) as (c & a & E & n & Hn & Hc). exists n, a.
  rewrite E. destruct Hc as [-> Hc]. by split_and!.
Qed.

(** The harness cleans up.  For every processor model, command line,
    environment and outcome of the three [fopen] calls, [main] of the harness
    returns without touching a closed file or a deleted object, with the model,
    the context, the wave trace, the log and the pipeline dump released.  The
    branch trace is left open exactly when it was opened and the pipeline dump
    then could not be. *)
Theorem sim_main_releases :
  exists c a, run sim0 = Ok c a /\ released_but_branch a /\ is_open (fbranch a) = leaks.
Proof.
  assert (wp run (fun _ a => released_but_branch a /\ is_open (fbranch a) = leaks) sim0) as Hw.
  { apply wp_sim_main.
    - intros Ho n c a _ (_ & _ & _ & Hr & Hb & _). split; [done |]. rewrite Hb.
      unfold opens, leaks in *. destruct (can_open LogFile), wants_branch, (can_open BranchFile),
        wants_pipe, (can_open PipeFile); done.
    - by intros _ c a (_ & _ & _ & Hr & Hb). }
  destruct (proj1 (wp_ok _ _ _) Hw) as (c & a & E & H). exists c, a. by rewrite E.
Qed.

(** The processor stores 1 to tohost first, within the limit. *)
Definition passes : Prop :=
  exists n, (0 < n)%nat /\ Z.of_nat n <= limit /\ tohost_at n = kTohostPassValue /\
    (forall k, (0 < k < n)%nat -> tohost_at k = 0) /\
    (forall k, (k < n)%nat -> finished (state_at k) = false).

Lemma passes_exit n : ends_at limit n -> exit_code n = 0 <-> passes.
Proof.
  intros Hn. unfold exit_code. split.
  - destruct (signalled n) eqn:Es; cbn [andb]; [| done].
    destruct (Z.eqb_spec (tohost_at n) kTohostPassValue) as [E | _]; [intros _ | done].
    unfold signalled in Es. apply andb_prop in Es as [En _]. destruct Hn as (Hle & Hrun & _).
    exists n. split_and!; [by destruct n; [| lia] | done | done | |]; intros k Hk;
      specialize (Hrun k ltac:(lia)); unfold running in Hrun; apply andb_prop in Hrun as [Hf Ht];
      [| by destruct (finished _)].
    destruct k; [lia |]. by apply Z.eqb_eq in Ht.
  - intros (n' & Hpos & Hle & Et & Hz & Hf).
    assert (ends_at limit n') as Hn'.
    { split; [done |]. split.
      - intros k Hk. unfold running. rewrite Hf by done. destruct k; [done |].
        rewrite Hz by lia. done.
      - right. unfold running. rewrite Et. destruct n'; [lia |]. by rewrite andb_false_r. }
    rewrite (ends_unique _ _ _ Hn Hn'). unfold signalled. rewrite Et. by destruct n'; [lia |].
Qed.

(** Success is what the program signals.  The harness exits with code 0 if
    and only if its files can be opened and the program stores the value 1 to
    tohost, as the first non-zero value, within the cycle limit and before the
    design finishes. *)
Theorem sim_main_success : (exists a, run sim0 = Ok 0 a) <-> opens = true /\ passes.
Proof.
  assert (wp run (fun c a => (c = 0 <-> opens = true /\ passes)) sim0) as Hw.
  { apply wp_sim_main.
    - intros Ho n c a Hn [-> _]. rewrite (passes_exit n Hn). intuition.
    - intros Ho c a [-> _]. split; [done |]. intros [Ho' _]. congruence. }
  destruct (proj1 (wp_ok _ _ _) Hw) as (c & a & E & H). rewrite E. split.
  - intros [a' [= -> _]]. by apply H.
  - intros Hp. exists a. by rewrite (proj2 H Hp).
Qed.

End command.
End run.

(** A model that signals success after a few evaluations. *)
Lemma sim_main_verdict_witness :
  let sig s v := match s with toHost_o => if (v <? 12)%nat then 0 else 1 | _ => 0 end in
  exists n a, ends_at 0%nat (fun _ => S) sig (fun _ => false) (get_max_cycles (fun _ => None) []) n /\
    sim_main 0%nat (fun _ => S) sig (fun _ => false) (fun _ => None) [] (fun _ => true) sim0 =
      Ok (exit_code 0%nat (fun _ => S) sig n) a /\
    completed 0%nat (fun _ => S) sig n (exit_code 0%nat (fun _ => S) sig n) a.
Proof.
  apply (sim_main_verdict 0%nat (fun _ => S)
    (fun s v => match s with toHost_o => if (v <? 12)%nat then 0 else 1 | _ => 0 end)
    (fun _ => false) (fun _ => None) [] (fun _ => true)).
  reflexivity.
Defined.
