(* ===== verification/Together.v ===== *)
(** * The program under the harness

    The software writes the registers of the port; the processor presents the
    writes on its outputs; the harness shows and judges them.  What the
    processor must do is a hypothesis, [presented]: the stores to the two
    registers appear on its outputs in program order. *)

From Stdlib Require Import String ZArith Lia.
From stdpp Require Import base list sets numbers.
From S2P Require Import Prelude PortIO Util Printf HostPrintf Port Main Driver Validation Console Hello.
From S2P Require Import SimArgs Sim SimRun.

Local Open Scope Z_scope.
Local Open Scope cm_scope.

(** The text without carriage returns. *)
Definition no_cr (l : list Z) : list Z := filter (fun c => c <> ch_cr) l.

(** The bytes that a trace sends to the UART. *)
Definition sent (tr : mmio_trace) : list Z :=
  omap (fun e => if bool_decide (e.1 = UART_TX_ADDR) then Some e.2 else None) tr.

Lemma sent_app t1 t2 : sent (t1 ++ t2) = sent t1 ++ sent t2.
Proof. apply omap_app. Qed.

Lemma sent_uart l : sent (uart l) = l.
Proof. induction l as [| c l IH]; [done |]. cbn. by f_equal. Qed.

Section together.
Context {V : Type} (v_new : V) (v_eval : tpins -> V -> V) (sig : signal -> V -> Z).
Context (finished : V -> bool).
Context (getenv : string -> option (list Z)) (argv : list (list Z)) (can_open : stream -> bool).

Abbreviation state_at := (state_at v_new v_eval).
Abbreviation tohost_at := (tohost_at v_new v_eval sig).
Abbreviation shown_by := (shown_by v_new v_eval sig).
Abbreviation limit := (get_max_cycles getenv argv).
Abbreviation run := (sim_main v_new v_eval sig finished getenv argv can_open).

(** The register writes visible on the outputs in a state. *)
Definition presents (v : V) : mmio_trace :=
  (if truth (sig uartValid_o v) then [(UART_TX_ADDR, u8 (sig uartData_o v))] else []) ++
  (if u32 (sig toHost_o v) =? 0 then [] else [(TOHOST_ADDR, u32 (sig toHost_o v))]).

(** Those of the first [n] cycles. *)
Fixpoint presented (n : nat) : mmio_trace :=
  match n with O => [] | S k => presented k ++ presents (state_at (S k)) end.

Lemma no_cr_app l1 l2 : no_cr (l1 ++ l2) = no_cr l1 ++ no_cr l2.
Proof. apply list.filter_app. Qed.

Lemma shown_presents v : shown sig v = no_cr (sent (presents v)).
Proof.
  unfold shown, uart_visible, presents. rewrite sent_app, no_cr_app.
  replace (sent (if _ =? 0 then _ else _)) with (@nil Z) by (by destruct (_ =? 0)).
  rewrite app_nil_r. destruct (truth _); [| done]. change (sent [(UART_TX_ADDR, u8 (sig uartData_o v))]) with [u8 (sig uartData_o v)].
  destruct (Z.eqb_spec (u8 (sig uartData_o v)) ch_cr) as [-> | Hne]; cbn [negb andb]; [done |].
  unfold no_cr. by rewrite list.filter_cons_True.
Qed.

Lemma shown_by_presented n : shown_by n = no_cr (sent (presented n)).
Proof.
  induction n as [| n IH]; [done |]. cbn [SimRun.shown_by presented].
  by rewrite sent_app, no_cr_app, IH, shown_presents.
Qed.

Lemma presented_quiet n : (forall k, (0 < k <= n)%nat -> tohost_at k = 0) ->
  exists l, presented n = uart l.
Proof.
  induction n as [| n IH]; intros H; [by exists [] |].
  destruct IH as [l E]; [intros; apply H; lia |]. cbn [presented]. rewrite E.
  unfold presents. specialize (H (S n) ltac:(lia)). unfold SimRun.tohost_at in H. rewrite H.
  change (0 =? 0) with true. cbv iota. rewrite app_nil_r.
  destruct (truth _); [| exists l; by rewrite app_nil_r].
  exists (l ++ [u8 (sig uartData_o (state_at (S n)))]). by rewrite uart_app.
Qed.

Lemma presented_later n m : (n <= m)%nat -> exists d, presented m = presented n ++ d.
Proof.
  induction 1 as [| m _ [d E]]; [exists []; by rewrite app_nil_r |].
  cbn [presented]. rewrite E. eexists. by rewrite <- app_assoc.
Qed.

(** A text of UART bytes has no tohost in it. *)
Lemma uart_signal_unique l1 l2 w1 w2 d :
  uart l1 ++ (TOHOST_ADDR, w1) :: d = uart l2 ++ [(TOHOST_ADDR, w2)] -> l1 = l2 /\ w1 = w2 /\ d = [].
Proof.
  revert l2. induction l1 as [| c l1 IH]; intros [| c2 l2]; cbn; intros E; simplify_eq.
  - done.
  - by destruct (IH _ H0) as (-> & -> & ->).
Qed.

(** The cycle that signals ends the run. *)
Lemma presented_ends n l w :
  Z.of_nat n <= limit -> (forall k, (k < n)%nat -> finished (state_at k) = false) ->
  presented n = uart l ++ [(TOHOST_ADDR, w)] ->
  exists n0, ends_at v_new v_eval sig finished limit n0 /\
    SimRun.signalled v_new v_eval sig n0 = true /\ tohost_at n0 = w /\ shown_by n0 = no_cr l.
Proof.
  intros Hn Hf E.
  destruct (first_failure (fun k => tohost_at (S k) =? 0) n) as (n0 & Hle & Hz & Hend).
  assert (forall k, (0 < k <= n0)%nat -> tohost_at k = 0) as Hzero.
  { intros [| k] Hk; [lia |]. apply Z.eqb_eq, Hz. lia. }
  destruct (presented_quiet n0 Hzero) as [l0 E0].
  destruct (decide (n0 = n)) as [-> | Hne].
  - exfalso. rewrite E0 in E. clear -E. revert l E. induction l0 as [| c l0 IH]; intros [| c' l];
      cbn; intros E; simplify_eq. by eapply IH.
  - destruct Hend as [? | Hw]; [done |].
    destruct (presented_later (S n0) n ltac:(lia)) as [d Ed]. rewrite E in Ed.
    cbn [presented] in Ed. rewrite E0 in Ed. unfold presents in Ed.
    fold (tohost_at (S n0)) in Ed. rewrite Hw in Ed.
    set (b := if truth _ then _ else _) in Ed.
    assert (exists l1, b = uart l1) as [l1 Eb].
    { unfold b. destruct (truth _); [| by exists []]. by eexists [_]. }
    rewrite Eb, !app_assoc, <- uart_app, <- (app_assoc _ [_]) in Ed. symmetry in Ed.
    destruct (uart_signal_unique _ _ _ _ _ Ed) as (El & Ew & _).
    exists (S n0). split; [| split; [| split]].
    + split; [lia |]. split.
      * intros k Hk. unfold running. rewrite Hf by lia. destruct k; [done |].
        rewrite Hzero by lia. done.
      * right. unfold running. rewrite Hw. by rewrite andb_false_r.
    + unfold signalled. by rewrite Hw.
    + done.
    + rewrite shown_by_presented. cbn [presented]. rewrite E0. unfold presents.
      fold (tohost_at (S n0)). rewrite Hw. fold b. rewrite Eb, !sent_app, !sent_uart.
      cbn. by rewrite app_nil_r, El.
Qed.

(** What the harness has shown when it returns [c]. *)
Definition judged (l : list Z) (w c : Z) (a : @sim V) : Prop :=
  c = (if w =? kTohostPassValue then 0 else 1) /\ ftext (flog a) = out a /\
  exists banner rep, out a = banner ++ no_cr l ++ rep.

Lemma wp_judged n l w :
  opens getenv argv can_open = true -> Z.of_nat n <= limit ->
  (forall k, (k < n)%nat -> finished (state_at k) = false) ->
  presented n = uart l ++ [(TOHOST_ADDR, w)] -> wp run (judged l w) sim0.
Proof.
  intros Ho Hn Hf E. destruct (presented_ends n l w Hn Hf E) as (n0 & He & Hs & Ht & Hsh).
  apply wp_sim_main; [| congruence].
  intros _ n1 c a He1 (-> & _ & Hlog & _ & _ & banner & rep & txt & _ & Hout).
  rewrite (ends_unique _ _ _ _ _ _ _ He1 He) in *. unfold judged, exit_code.
  rewrite Hs, Ht. cbn [andb]. split; [done |]. split; [done |].
  exists banner, (rep ++ txt). by rewrite <- Hsh.
Qed.

(** The harness shows what the program prints.  If the files can be opened,
    and the processor presents within the cycle limit, without finishing by
    itself, the bytes [l] and then a value [w] for tohost, then the harness
    returns 0 if [w] is 1 and otherwise 1, and both the console and the log show
    [l] without its carriage returns, between the banner and the report. *)
Theorem harness_shows_program n l w :
  opens getenv argv can_open = true -> Z.of_nat n <= limit ->
  (forall k, (k < n)%nat -> finished (state_at k) = false) ->
  presented n = uart l ++ [(TOHOST_ADDR, w)] ->
  exists a banner rep, run sim0 = Ok (if w =? kTohostPassValue then 0 else 1) a /\
    out a = banner ++ no_cr l ++ rep /\ ftext (flog a) = out a.
Proof.
  intros Ho Hn Hf E.
  destruct (proj1 (wp_ok _ _ _) (wp_judged n l w Ho Hn Hf E)) as (c & a & Er & -> & Hlog & H).
  exists a. destruct H as (banner & rep & Hout). exists banner, rep. by rewrite Er.
Qed.

(** The line terminators that the program inserts are removed again. *)
Lemma no_cr_crlf l : ch_cr ∉ l -> no_cr (crlf l) = l.
Proof.
  induction l as [| c l IH]; [done |]. intros H. change (crlf (c :: l)) with (crlf ([c] ++ l)).
  rewrite crlf_app, no_cr_app, IH by set_solver. change (c :: l) with ([c] ++ l). f_equal.
  destruct (Z.eqb_spec c ch_nl) as [-> | Hne]; [done |].
  replace (crlf [c]) with [c] by (cbn; by rewrite (proj2 (Z.eqb_neq c ch_nl) Hne)).
  unfold no_cr. rewrite list.filter_cons_True; [done | set_solver].
Qed.

(** The console after a 2K run. *)
Lemma validated_on_console (validation : bool) rdcycle rdinstret iters base version s' n :
  arg_ok (VStr (Some version)) -> u32 iters <> 0 ->
  main rdcycle rdinstret (run_2k validation iters) port_sizes base version boot = Ok 0 s' ->
  10 <= time_in_secs (u32 (rdcycle 2%nat - rdcycle 0%nat)) ->
  opens getenv argv can_open = true -> Z.of_nat n <= limit ->
  (forall k, (k < n)%nat -> finished (state_at k) = false) ->
  presented n = trace (m_port s') ->
  exists a l1 l2, run sim0 = Ok 0 a /\
    out a = l1 ++ bytes ("Correct operation validated. See README.md for run and reporting rules." ++ nl)
      ++ l2.
Proof.
  intros Hv Hi Em Ht Ho Hn Hf Ep.
  destruct (run_2k_reports validation rdcycle rdinstret iters base version Hv Hi)
    as (s1 & l1 & l & l2 & E1 & Etr & Etxt).
  assert (s1 = s') as ->. { rewrite E1 in Em. by injection Em. }
  destruct (leaves_main rdcycle rdinstret (run_2k validation iters) port_sizes base version boot 0 s'
    (Forall_nil_2 _) Em) as (b & Eb & _).
  rewrite (proj2 (Z.ltb_ge _ _) Ht) in Etxt. rewrite Eb in Ep.
  destruct (proj1 (wp_ok _ _ _) (wp_judged n b 1 Ho Hn Hf Ep)) as (c & a & Er & -> & _ & banner & rep & Eo).
  rewrite Eb in Etr. apply app_inj_tail in Etr as [Etr _]. apply (f_equal sent) in Etr.
  rewrite sent_uart, !sent_app, sent_uart in Etr.
  unfold Main.verdict_text in Etxt. change (0 =? 0) with true in Etxt. cbv iota in Etxt.
  apply app_inj_tail in Etxt as [Etxt _]. exists a.
  exists (banner ++ no_cr (sent l1)), (no_cr (sent l2) ++ rep). split; [exact Er |].
  rewrite Eo, Etr, !no_cr_app, no_cr_crlf, <- Etxt, <- !app_assoc; [reflexivity |].
  rewrite <- Etxt. apply (bool_decide_unpack _). vm_compute. exact I.
Qed.

(** The 2K runs of CoreMark, end to end.  Let the processor present the
    register writes of [main] with the performance or the validation seeds, for
    any iteration count other than zero, any counters that measure at least ten
    seconds, within the cycle limit.  Then the harness exits with 0 and the
    console shows, as a line, that the operation was validated. *)
Theorem coremark_validated_on_console (validation : bool) rdcycle rdinstret iters base version s' n :
  arg_ok (VStr (Some version)) -> u32 iters <> 0 ->
  main rdcycle rdinstret (run_2k validation iters) port_sizes base version boot = Ok 0 s' ->
  10 <= time_in_secs (u32 (rdcycle 2%nat - rdcycle 0%nat)) ->
  opens getenv argv can_open = true -> Z.of_nat n <= limit ->
  (forall k, (k < n)%nat -> finished (state_at k) = false) ->
  presented n = trace (m_port s') ->
  exists a l1 l2, run sim0 = Ok 0 a /\
    out a = l1 ++ bytes ("Correct operation validated. See README.md for run and reporting rules." ++ nl)
      ++ l2.
Proof. apply validated_on_console. Qed.
End together.

(** ** A processor that replays a trace

    One write per cycle: the hypotheses on the processor can be met. *)

Section replay.
Context (tr : mmio_trace).

(** The level of the clock and the number of rising edges out of reset. *)
Definition replay_eval (p : tpins) (v : bool * nat) : bool * nat :=
  let '(clk, k) := v in
  (t_clk p, if negb (t_rst p) then O else if t_clk p && negb clk then S k else k).

Definition replay_sig (s : signal) (v : bool * nat) : Z :=
  match s, v.2 with
  | uartValid_o, S k => match tr !! k with Some (UART_TX_ADDR, _) => 1 | _ => 0 end
  | uartData_o, S k => match tr !! k with Some (UART_TX_ADDR, c) => c | _ => 0 end
  | toHost_o, S k => match tr !! k with Some (TOHOST_ADDR, w) => w | _ => 0 end
  | _, _ => 0
  end.

Abbreviation replayed := (presented (false, 0%nat) replay_eval replay_sig).

(** Values fit the outputs; a zero in tohost is no signal. *)
Definition presentable (e : mmio_reg * Z) : Prop :=
  match e.1 with UART_TX_ADDR => in_u 8 e.2 | TOHOST_ADDR => 0 < e.2 < 2 ^ 32 end.

Lemma replay_state k : state_at (false, 0%nat) replay_eval k = (true, k).
Proof. induction k as [| k IH]; [done |]. by rewrite state_at_succ, IH. Qed.

Lemma replay_presents k e : tr !! k = Some e -> presentable e ->
  presents replay_sig (true, S k) = [e].
Proof.
  intros E He. destruct e as [[] x]; unfold presents, presentable in *; cbn [fst snd replay_sig] in *;
    rewrite E.
  - change (truth 1) with true. cbn. by rewrite (uwrap_id 8 x ltac:(lia) He : u8 x = x).
  - change (truth 0) with false. cbn. unfold u32.
    rewrite uwrap_id by (unfold in_u; lia). by rewrite (proj2 (Z.eqb_neq x 0) ltac:(lia)).
Qed.

Lemma replayed_take k : Forall presentable tr -> (k <= length tr)%nat -> replayed k = take k tr.
Proof.
  intros Htr. induction k as [| k IH]; intros Hk; [done |].
  destruct (lookup_lt_is_Some_2 tr k ltac:(lia)) as [e E].
  cbn [presented]. rewrite IH, replay_state, (take_S_r tr k e E) by lia.
  by rewrite (replay_presents k e E (Forall_lookup_1 _ _ _ _ Htr E)).
Qed.

Lemma replayed_all : Forall presentable tr -> replayed (length tr) = tr.
Proof. intros Htr. rewrite replayed_take by done. by rewrite firstn_all. Qed.
End replay.

(** No options; every file can be opened. *)
Definition no_env (_ : string) : option (list Z) := None.
Definition all_open (_ : stream) : bool := true.

(** hello.c on the replaying processor. *)
Definition hello_trace : mmio_trace := uart (bytes ("12345" ++ nl)) ++ [(TOHOST_ADDR, 1)].

Lemma harness_shows_program_witness :
  hello_main [] = Ok tt hello_trace /\
  exists a banner rep,
    sim_main (false, 0%nat) replay_eval (replay_sig hello_trace) (fun _ => false) no_env [] all_open sim0
      = Ok 0 a /\
    out a = banner ++ bytes ("12345" ++ nl) ++ rep /\ ftext (flog a) = out a.
Proof.
  split; [apply hello_main_prints |].
  apply (harness_shows_program (false, 0%nat) replay_eval (replay_sig hello_trace) (fun _ => false)
    no_env [] all_open 7 (bytes ("12345" ++ nl)) 1).
  - reflexivity.
  - vm_compute. discriminate.
  - reflexivity.
  - vm_compute. reflexivity.
Defined.

(** A run of one iteration that takes twenty seconds. *)
Lemma ten_second_run : exists s',
  main (fun n => 1000000000 * Z.of_nat n) (fun n => 873 * Z.of_nat n) (run_2k false 1) port_sizes
    0x1000 (cstr "gcc") boot = Ok 0 s' /\ Z.of_nat (length (trace (m_port s'))) <= 10000000.
Proof.
  assert (match main (fun n => 1000000000 * Z.of_nat n) (fun n => 873 * Z.of_nat n) (run_2k false 1)
    port_sizes 0x1000 (cstr "gcc") boot with
    | Ok r s => (r =? 0) && (Z.of_nat (length (trace (m_port s))) <=? 10000000) | Err _ => false end = true)
    as H by (vm_compute; reflexivity).
  destruct (main _ _ _ _ _ _ _) as [r s | e]; [| discriminate H].
  apply andb_prop in H as [Hr Hl]. apply Z.eqb_eq in Hr as ->. apply Z.leb_le in Hl.
  exists s. split; [reflexivity | exact Hl].
Qed.

Lemma coremark_validated_on_console_witness :
  exists s' a l1 l2,
    main (fun n => 1000000000 * Z.of_nat n) (fun n => 873 * Z.of_nat n) (run_2k false 1) port_sizes
      0x1000 (cstr "gcc") boot = Ok 0 s' /\
    sim_main (false, 0%nat) replay_eval (replay_sig (trace (m_port s'))) (fun _ => false) no_env []
      all_open sim0 = Ok 0 a /\
    out a = l1 ++ bytes ("Correct operation validated. See README.md for run and reporting rules." ++ nl)
      ++ l2.
Proof.
  destruct ten_second_run as (s' & E & Hl). exists s'.
  destruct (leaves_main _ _ _ _ _ _ boot 0 s' (Forall_nil_2 _) E) as (b & Eb & Hb).
  enough (exists a l1 l2, sim_main (false, 0%nat) replay_eval (replay_sig (trace (m_port s')))
    (fun _ => false) no_env [] all_open sim0 = Ok 0 a /\ out a = l1 ++ bytes
    ("Correct operation validated. See README.md for run and reporting rules." ++ nl) ++ l2)
    as (a & l1 & l2 & Er & Eo) by (exists a, l1, l2; split; [exact E | split; [exact Er | exact Eo]]).
  apply (coremark_validated_on_console (false, 0%nat) replay_eval (replay_sig (trace (m_port s')))
    (fun _ => false) no_env [] all_open false (fun n => 1000000000 * Z.of_nat n)
    (fun n => 873 * Z.of_nat n) 1 0x1000 (cstr "gcc") s' (length (trace (m_port s')))).
  - apply literal_arg_ok; vm_compute; reflexivity.
  - vm_compute. discriminate.
  - exact E.
  - vm_compute. discriminate.
  - reflexivity.
  - exact Hl.
  - reflexivity.
  - apply replayed_all. rewrite Eb. apply Forall_app. split; [| repeat constructor; lia].
    unfold uart. apply Forall_map. exact Hb.
Defined.
