(* ===== verification/Soc.v ===== *)
(** * The data memory under the harness

    The outputs that sim_main.cpp watches are those of dataMem.sv.  Here the
    processor is that memory with an arbitrary rest, which makes requests to
    it.  What Together assumes of the outputs then follows from the order in
    which the memory accepts stores to the two registers. *)

From Stdlib Require Import String ZArith Lia.
From stdpp Require Import base list numbers.
From S2P Require Import Prelude PortIO Util Printf HostPrintf Port Main Driver Validation Console Hello.
From S2P Require Import Report SimArgs Sim SimRun Together MemWord DataMem.

Local Open Scope Z_scope.
Local Open Scope cm_scope.

(** ** The processor *)

(** The register writes that an accepted request makes, as the program sees
    them (link.ld gives the symbols the addresses of TypesPkg.sv). *)
Definition mmio_event (i : dmem_in) : mmio_trace :=
  if requestWrite_i i then
    if toHostHit i then [(TOHOST_ADDR, requestWriteData_i i)]
    else if uartHit i then [(UART_TX_ADDR, u8 (requestWriteData_i i))]
    else []
  else [].

(** Stores to [tohost] are word stores, as [mmio_write32] makes them. *)
Definition host_word (i : dmem_in) : Prop :=
  requestWrite_i i = true -> toHostHit i = true ->
  requestAccess_i i = MEM_WORD /\ byteOffset i = 0 /\ in_u 32 (requestWriteData_i i).

Lemma uart_no_signal l l' w : uart l ++ [(TOHOST_ADDR, w)] = uart l' -> False.
Proof.
  revert l'. induction l as [| c l IH]; intros [| c' l']; cbn; intros E; simplify_eq. by eapply IH.
Qed.

Section soc.
(** The rest of topCPU.sv: what it asks of the data memory in a cycle, its
    edge and its reset; its other outputs. *)
Context {U : Type} (u_request : U -> dmem -> Z -> dmem_in) (u_step : U -> dmem -> Z -> U).
Context (u_reset : U -> U) (u_sig : signal -> U -> Z).

(** The clock level at the last [eval], the rest, the data memory. *)
Record soc := Soc { s_clk : bool; s_up : U; s_dm : dmem }.

Definition soc_eval (p : tpins) (v : soc) : soc :=
  if negb (t_rst p) then Soc (t_clk p) (u_reset (s_up v)) (dmem_reset (s_dm v))
  else if t_clk p && negb (s_clk v) then
    Soc (t_clk p) (u_step (s_up v) (s_dm v) (t_fromHost p))
      (dmem_step (s_dm v) (u_request (s_up v) (s_dm v) (t_fromHost p)))
  else Soc (t_clk p) (s_up v) (s_dm v).

(** The outputs of topCPU.sv that come from the data memory. *)
Definition soc_sig (s : signal) (v : soc) : Z :=
  match s with
  | toHost_o => toHostReg (s_dm v)
  | Sim.uartValid_o => if DataMem.uartValid_o (s_dm v) then 1 else 0
  | Sim.uartData_o => DataMem.uartData_o (s_dm v)
  | _ => u_sig s (s_up v)
  end.

Context (v_new : soc).
Abbreviation state_at := (state_at v_new soc_eval).
Abbreviation presented := (presented v_new soc_eval soc_sig).

(** The request of cycle [k], and the register writes of the first [n]. *)
Definition request_at (k : nat) : dmem_in := u_request (s_up (state_at k)) (s_dm (state_at k)) 0.
Definition event_at (k : nat) : mmio_trace :=
  if requestFire (s_dm (state_at k)) (request_at k) then mmio_event (request_at k) else [].
Fixpoint performed (n : nat) : mmio_trace :=
  match n with O => [] | S k => performed k ++ event_at k end.

Lemma state_dm k :
  s_dm (state_at (S k)) = dmem_step (s_dm (state_at k)) (request_at k).
Proof. rewrite state_at_succ. unfold cycle, soc_eval. cbn. done. Qed.

Lemma state_dm_0 : toHostReg (s_dm (state_at 0)) = 0.
Proof.
  change (state_at 0) with (soc_eval (TPins true true 0)
    (cycle soc_eval false (cycle soc_eval false (soc_eval (TPins false false 0) v_new)))).
  by generalize (cycle soc_eval false (soc_eval (TPins false false 0) v_new)).
Qed.

(** What an edge does to the watched registers. *)
Lemma edge_outputs s i :
  DataMem.uartValid_o (dmem_step s i) = requestFire s i && requestWrite_i i && negb (toHostHit i) && uartHit i /\
  (DataMem.uartValid_o (dmem_step s i) = true ->
   DataMem.uartData_o (dmem_step s i) = u8 (requestWriteData_i i)) /\
  toHostReg (dmem_step s i) =
    if requestFire s i && requestWrite_i i && toHostHit i
    then mergeStore (toHostReg s) (shiftedWriteData i) (writeByteEnable i) else toHostReg s.
Proof. unfold dmem_step. cbn. split; [done |]. split; [| done]. by intros ->. Qed.

Lemma merge_word w d : in_u 32 w -> in_u 32 d -> mergeStore w d 15 = d.
Proof.
  intros Hw Hd. apply word_ext; [by apply in_u_mergeStore | done |]. intros k Hk.
  rewrite byte_of_mergeStore by done. by lane_split Hk.
Qed.

Lemma host_store s i :
  host_word i -> requestWrite_i i = true -> toHostHit i = true -> in_u 32 s ->
  mergeStore s (shiftedWriteData i) (writeByteEnable i) = requestWriteData_i i.
Proof.
  intros H Hw Ht Hs. destruct (H Hw Ht) as (Ea & Eo & Hd).
  unfold shiftedWriteData, writeByteEnable. rewrite Ea, Eo. by apply merge_word.
Qed.

Lemma presented_succ k : presented (S k) = presented k ++ presents soc_sig (state_at (S k)).
Proof. done. Qed.

(** A cycle before the first signal: the outputs show its register write. *)
Lemma cycle_presents k :
  toHostReg (s_dm (state_at k)) = 0 -> host_word (request_at k) ->
  (forall w, event_at k = [(TOHOST_ADDR, w)] -> w <> 0) ->
  presents soc_sig (state_at (S k)) = event_at k /\
  ((exists l, event_at k = uart l) /\ toHostReg (s_dm (state_at (S k))) = 0 \/
   exists w, event_at k = [(TOHOST_ADDR, w)]).
Proof.
  intros H0 Hw Hne. unfold presents, soc_sig, event_at in *. rewrite state_dm.
  destruct (edge_outputs (s_dm (state_at k)) (request_at k)) as (Ev & Ed & Et).
  set (s := s_dm (state_at k)) in *. set (i := request_at k) in *. unfold mmio_event in *.
  destruct (requestFire s i); cbn [andb] in *; [destruct (requestWrite_i i) eqn:Ew; cbn [andb] in * |].
  2-3: rewrite Ev, Et, H0; split; [done | left; split; [by exists [] | done]].
  destruct (toHostHit i) eqn:Eh; cbn [andb negb] in *.
  - assert (toHostReg (dmem_step s i) = requestWriteData_i i) as E.
    { rewrite Et. apply host_store; try done. rewrite H0. by apply in_u_0. }
    destruct (Hw Ew Eh) as (_ & _ & Hd). specialize (Hne _ eq_refl).
    rewrite Ev, E. unfold u32. rewrite uwrap_id by done.
    rewrite (proj2 (Z.eqb_neq _ _)) by done. split; [done | eauto].
  - destruct (uartHit i); rewrite Ev, Et, H0.
    + rewrite Ed by done. split; [| left; split; [by eexists [_] | done]].
      change (truth 1) with true. cbn. do 2 f_equal. apply uwrap_id; [lia | by apply uwrap_range].
    + split; [done | left; split; [by exists [] | done]].
Qed.

(** Up to the first signal the outputs present what was stored. *)
Lemma performed_presented n l w :
  (forall k, (k < n)%nat -> host_word (request_at k)) -> w <> 0 ->
  performed n = uart l ++ [(TOHOST_ADDR, w)] ->
  exists n0, (n0 <= n)%nat /\ presented n0 = uart l ++ [(TOHOST_ADDR, w)].
Proof.
  intros Hw Hne E.
  assert (forall k, (k <= n)%nat ->
    (exists l', performed k = uart l' /\ presented k = uart l' /\ toHostReg (s_dm (state_at k)) = 0) \/
    (exists n0 l' w' d, (n0 <= k)%nat /\ performed k = uart l' ++ (TOHOST_ADDR, w') :: d /\
       (w' <> 0 -> presented n0 = uart l' ++ [(TOHOST_ADDR, w')]))) as H.
  { induction k as [| k IH]; intros Hk; [left; exists []; split_and!; [done | done | apply state_dm_0] |].
    destruct IH as [(l' & E1 & E2 & E3) | (n0 & l' & w' & d & Hn0 & E1 & E2)]; [lia | |].
    - destruct (decide (event_at k = [(TOHOST_ADDR, 0)])) as [Ee | Hn].
      + right. exists k, l', 0, []. split; [lia |]. cbn [performed]. by rewrite E1, Ee.
      + destruct (cycle_presents k E3 (Hw k ltac:(lia))) as [Ep Hc]; [by intros w' Ee -> |].
        rewrite presented_succ, E2, Ep. cbn [performed]. rewrite E1.
        destruct Hc as [[[l2 Ee] H0] | [w' Ee]]; rewrite Ee.
        * left. exists (l' ++ l2). by rewrite uart_app.
        * right. exists (S k), l', w', []. split; [done |]. split; [done |]. intros _.
          by rewrite presented_succ, E2, Ep, Ee.
    - right. exists n0, l', w', (d ++ event_at k). split; [lia |]. cbn [performed].
      by rewrite E1, <- app_assoc. }
  destruct (H n ltac:(lia)) as [(l' & E1 & _) | (n0 & l' & w' & d & Hn0 & E1 & E2)].
  - rewrite E in E1. exfalso. by eapply uart_no_signal.
  - rewrite E in E1. symmetry in E1. apply uart_signal_unique in E1 as (-> & -> & _).
    exists n0. split; [done |]. by apply E2.
Qed.

(** ** The program on this processor *)

Context (finished : soc -> bool).
Context (getenv : string -> option (list Z)) (argv : list (list Z)) (can_open : stream -> bool).
Abbreviation limit := (get_max_cycles getenv argv).
Abbreviation run := (sim_main v_new soc_eval soc_sig finished getenv argv can_open).

(** The harness sees the stores.  Take the data memory of dataMem.sv with
    any rest of the processor.  If within the cycle limit the memory accepts,
    as stores to its two registers, the bytes [l] to the UART and then a word
    [w] other than zero to [tohost], in this order and with any other requests
    and stalls between them, then the harness ends with exit code 0 if [w] is 1
    and otherwise 1, and the console shows exactly the bytes [l] (without
    carriage returns) between banner and report. *)
Theorem stores_reach_console n l w :
  opens getenv argv can_open = true -> Z.of_nat n <= limit ->
  (forall k, (k < n)%nat -> finished (state_at k) = false) ->
  (forall k, (k < n)%nat -> host_word (request_at k)) -> w <> 0 ->
  performed n = uart l ++ [(TOHOST_ADDR, w)] ->
  exists a banner rep, run sim0 = Ok (if w =? kTohostPassValue then 0 else 1) a /\
    out a = banner ++ no_cr l ++ rep /\ ftext (flog a) = out a.
Proof.
  intros Ho Hn Hf Hw Hne E. destruct (performed_presented n l w Hw Hne E) as (n0 & Hn0 & E0).
  assert (Z.of_nat n0 <= limit) as Hl by lia.
  assert (forall k, (k < n0)%nat -> finished (state_at k) = false) as Hf0 by (intros; apply Hf; lia).
  destruct (proj1 (wp_ok _ _ _) (wp_judged v_new soc_eval soc_sig finished getenv argv can_open
    n0 l w Ho Hl Hf0 E0)) as (c & a & Er & -> & Hlog & banner & rep & Hout).
  exists a, banner, rep. by rewrite Er.
Qed.

(** C2: CoreMark on the memory system, end to end.  Take the data memory with
    any rest of the processor.  If it accepts the register stores of [main], in
    program order, for a 2K run with the performance or the validation seeds
    that takes at least ten seconds of its counter, within the cycle limit,
    then the harness exits with 0, and between banner and statistics the
    console shows exactly the start-up lines and the report of the run, which
    says that the operation was validated. *)
Theorem coremark_validated_on_soc (validation : bool) rdcycle rdinstret iters base version s' n :
  arg_ok (VStr (Some version)) -> u32 iters <> 0 ->
  main rdcycle rdinstret (run_2k validation iters) port_sizes base version boot = Ok 0 s' ->
  10 <= time_in_secs (u32 (rdcycle 2%nat - rdcycle 0%nat)) ->
  opens getenv argv can_open = true -> Z.of_nat n <= limit ->
  (forall k, (k < n)%nat -> finished (state_at k) = false) ->
  (forall k, (k < n)%nat -> host_word (request_at k)) ->
  performed n = trace (m_port s') ->
  exists a banner rep l1 l2, run sim0 = Ok 0 a /\
    out a = banner ++ no_cr (boot_text ++ report_text version s') ++ rep /\
    report_text version s' =
      l1 ++ row "Correct operation validated. See README.md for run and reporting rules." [] ++ l2.
Proof.
  intros Hv Hi Em Ht Ho Hn Hf Hw Ep.
  destruct (main_report _ _ _ _ _ _ _ _ Hv Em) as [_ Etr]. change (trace (m_port boot)) with (@nil (mmio_reg * Z)) in Etr.
  rewrite Etr in Ep. cbn [app] in Ep.
  destruct (performed_presented n _ 1 Hw ltac:(done) Ep) as (n0 & Hn0 & E0).
  assert (forall k, (k < n0)%nat -> finished (state_at k) = false) as Hf0 by (intros; apply Hf; lia).
  destruct (proj1 (wp_ok _ _ _) (wp_judged v_new soc_eval soc_sig finished getenv argv can_open
    n0 _ 1 Ho ltac:(lia) Hf0 E0)) as (c & a & Er & -> & _ & banner & rep & Hout).
  exists a, banner, rep. eexists _, _. split; [exact Er |]. split; [exact Hout |].
  unfold report_text. rewrite (total_errors_2k validation rdcycle rdinstret iters base version s' Hv Hi Em Ht).
  rewrite (app_assoc (time_text _ _)), (app_assoc (validation_text _)). reflexivity.
Qed.
End soc.

(** ** A core that stores a trace

    One store per cycle, and then nothing. *)

Section storing.
Context (tr : mmio_trace).

Definition address_of (r : mmio_reg) : Z :=
  match r with UART_TX_ADDR => UART_TX_MMIO_ADDR | TOHOST_ADDR => TOHOST_MMIO_ADDR end.
Definition storing_request (k : nat) (_ : dmem) (h : Z) : dmem_in :=
  match tr !! k with
  | Some (r, x) => DIn true true (address_of r) x MEM_WORD true h
  | None => DIn false false 0 0 MEM_WORD true h
  end.
Definition storing_step (k : nat) (_ : dmem) (_ : Z) : nat := S k.
Definition storing_reset (_ : nat) : nat := 0%nat.
Definition storing0 : @soc nat := Soc false 0%nat dm0.
Definition storing_eval := @soc_eval nat storing_request storing_step storing_reset.

Lemma storing_state k : s_up (state_at storing0 storing_eval k) = k.
Proof.
  induction k as [| k IH]; [done |]. rewrite state_at_succ. unfold cycle, storing_eval, soc_eval in *.
  cbn. by rewrite IH.
Qed.

Lemma storing_at k :
  request_at storing_request storing_step storing_reset storing0 k =
  match tr !! k with
  | Some (r, x) => DIn true true (address_of r) x MEM_WORD true 0
  | None => DIn false false 0 0 MEM_WORD true 0
  end.
Proof. unfold request_at. fold storing_eval. by rewrite storing_state. Qed.

Lemma storing_performed k :
  Forall presentable tr -> (k <= length tr)%nat ->
  performed storing_request storing_step storing_reset storing0 k = take k tr.
Proof.
  intros Htr. induction k as [| k IH]; intros Hk; [done |].
  destruct (tr !! k) as [[r x] |] eqn:E; [| apply lookup_ge_None in E; lia].
  cbn [performed]. rewrite IH, (take_S_r tr k _ E) by lia. f_equal.
  unfold event_at. rewrite storing_at, E.
  pose proof (Forall_lookup_1 _ _ _ _ Htr E) as Hp.
  destruct r; unfold mmio_event; cbn in Hp |- *; [| done].
  by rewrite (uwrap_id 8 x ltac:(lia) Hp : u8 x = x).
Qed.

Lemma storing_words k :
  Forall presentable tr -> host_word (request_at storing_request storing_step storing_reset storing0 k).
Proof.
  intros Htr. rewrite storing_at.
  destruct (tr !! k) as [[r x] |] eqn:E; [| by intros [=]].
  pose proof (Forall_lookup_1 _ _ _ _ Htr E) as Hp. intros _ Hh. split; [done |].
  destruct r; cbn in Hp |- *; [done |]. split; [done |]. unfold in_u in *. lia.
Qed.
End storing.

Lemma stores_reach_console_witness :
  exists a banner rep,
    sim_main storing0 (storing_eval hello_trace) (soc_sig (fun _ _ => 0)) (fun _ => false) no_env []
      all_open sim0 = Ok 0 a /\
    out a = banner ++ bytes ("12345" ++ nl) ++ rep /\ ftext (flog a) = out a.
Proof.
  assert (Forall presentable hello_trace) as Htr by (repeat constructor; unfold in_u; cbn; lia).
  apply (stores_reach_console (storing_request hello_trace) storing_step storing_reset (fun _ _ => 0)
    storing0 (fun _ => false) no_env [] all_open 7 (bytes ("12345" ++ nl)) 1).
  - reflexivity.
  - vm_compute. discriminate.
  - reflexivity.
  - intros k _. by apply storing_words.
  - done.
  - by rewrite storing_performed.
Defined.

Lemma coremark_validated_on_soc_witness :
  exists s' a banner rep l1 l2,
    main (fun n => 1000000000 * Z.of_nat n) (fun n => 873 * Z.of_nat n) (run_2k false 1) port_sizes
      0x1000 (cstr "gcc") boot = Ok 0 s' /\
    sim_main storing0 (storing_eval (trace (m_port s'))) (soc_sig (fun _ _ => 0)) (fun _ => false) no_env []
      all_open sim0 = Ok 0 a /\
    out a = banner ++ no_cr (boot_text ++ report_text (cstr "gcc") s') ++ rep /\
    report_text (cstr "gcc") s' =
      l1 ++ row "Correct operation validated. See README.md for run and reporting rules." [] ++ l2.
Proof.
  destruct ten_second_run as (s' & E & Hl). exists s'.
  destruct (leaves_main _ _ _ _ _ _ boot 0 s' (Forall_nil_2 _) E) as (b & Eb & Hb).
  assert (Forall presentable (trace (m_port s'))) as Htr.
  { rewrite Eb. apply Forall_app. split; [| repeat constructor; lia]. unfold uart. apply Forall_map. exact Hb. }
  enough (exists a banner rep l1 l2, sim_main storing0 (storing_eval (trace (m_port s'))) (soc_sig (fun _ _ => 0))
    (fun _ => false) no_env [] all_open sim0 = Ok 0 a /\
    out a = banner ++ no_cr (boot_text ++ report_text (cstr "gcc") s') ++ rep /\
    report_text (cstr "gcc") s' =
      l1 ++ row "Correct operation validated. See README.md for run and reporting rules." [] ++ l2)
    as (a & banner & rep & l1 & l2 & H) by (exists a, banner, rep, l1, l2; split; [exact E | exact H]).
  apply (coremark_validated_on_soc (storing_request (trace (m_port s'))) storing_step storing_reset
    (fun _ _ => 0) storing0 (fun _ => false) no_env [] all_open false (fun n => 1000000000 * Z.of_nat n)
    (fun n => 873 * Z.of_nat n) 1 0x1000 (cstr "gcc") s' (length (trace (m_port s')))).
  - apply literal_arg_ok; vm_compute; reflexivity.
  - vm_compute. discriminate.
  - exact E.
  - vm_compute. discriminate.
  - reflexivity.
  - exact Hl.
  - reflexivity.
  - intros k _. by apply storing_words.
  - rewrite storing_performed by done. by rewrite firstn_all.
Defined.
